(* ===== verification/_CoqProject ===== *)
-Q . S2P
Prelude.v
Options.v
Json.v
Effects.v
Handler.v
ConnSM.v
Bootstrap.v
Server.v
Pool.v
Wire.v
Service.v
Conf.v
Fmt.v
Flags.v
Logger.v
JsonText.v
Decode.v
World.v
Stack.v
