(* ===== verification/Prelude.v ===== *)
(** * Verification of the Zabbix mock server (src/go/src/zabbix/cmd/mock_server/mock_server.go)

    The program is a test double for the "active checks" responder of a
    monitoring agent.  [main] parses two command-line flags, loads the
    configuration into the global [options], opens the logger, reads the
    canned response from [options.ActiveChecksFile], listens on
    [options.Port] and then accepts connections forever, starting one
    goroutine per connection.  Each goroutine runs [handleConnection]:
    one timed read of a framed message, [json.Unmarshal] into a
    [map[string]interface{}], a [switch] on [pairs["request"]], one timed
    write of the canned response when the request is "active checks", and
    a deferred [Close] on every path.

    The development has three layers.  The program itself (the two
    functions of the source file) is modelled from the source, with the
    packages it calls as interfaces, and is verified for every
    implementation of them.  The packages (comms, conf, fmt, flag, log,
    encoding/json) are not part of the sources; they are modelled from
    the specification and their documentation, each in a file of its
    own, as instances of those interfaces.  The last files put the two
    together and state what the server does in terms of the arguments
    of the process, the files of the machine and the bytes on the wire.

    ** Files: the program

    - [Prelude] (this file): what every component shares.  Go's
      [(value, error)] results as [result] with its monad, byte slices
      as [list byte], bytes as numbers, [strconv.Itoa] and [Atoi],
      [strings.SplitN], 64-bit signed wrap-around ([wrap64], used for
      [time.Duration]), the development's tactics and the hint
      databases [mock] and [mock_rw].
    - [Options]: the struct [MockServerOptions] with its [conf] tags
      (lines 35-44), the ranges and defaults the tags declare, and the
      two [switch] statements of [main] that turn [LogType] and
      [DebugLevel] into the logger's integers (lines 105-125).  The
      constants of package [log] are an interface ([LogPkg]).
    - [Json]: the values [json.Unmarshal] stores in an [interface{}]
      ([iface]), the map type of [pairs], map indexing with Go's zero
      value, and the comparison of an interface value with a string
      constant that the [switch] of [handleConnection] performs.  The
      decoder is an interface ([JsonPkg]).
    - [Effects]: the calls the program makes on its collaborators
      (packages comms, log, conf, flag, fmt, os, ioutil) as an indexed
      family of events, programs as finite trees of events ([prog], a
      free monad with stdpp's [MBind]/[MRet]), first-order labels for
      observed calls, the traces of a program, its execution against
      an environment, and the import block (lines 22-33) as the
      package of each call.
    - [Handler]: [handleConnection] (lines 46-75) as a [prog], with the
      theorems on its traces.
    - [ConnSM]: the per-connection state machine of the specification
      (Accepted, Reading, Decoding, Dispatching, Writing, Closed) as a
      step relation, and the refinement theorem.
    - [Bootstrap]: [main] up to the accept loop (lines 77-157): flags,
      the two calls of [conf.Load], logger setup, greeting, canned
      response, listen; with the exit paths as values.
    - [Server]: the accept loop (lines 159-169) unrolled by fuel
      ([accept_loop]) and the whole of [main], with the deferred
      [ln.Close()].
    - [Pool]: main and the goroutines it starts, as a step relation
      over a pool of threads ([step], [reach]); [exec] runs a schedule
      and is proved sound for [reach].

    ** Files: the packages

    - [Wire] (package comms): the framing of a message as a contract
      ([Framing]: what is framed can be unframed, and only that) with
      the Zabbix header as an instance ([zbxd]: the magic ZBXD, a flags
      byte, the length in eight little-endian bytes); the endpoint of a
      connection (inbox, outbox, open, reset) with Read, Write and
      Close; the listener with its backlog; the network as an
      environment ([wire_env]).
    - [Conf] (package conf): the lines of a configuration file, the
      assignment to the fields of [MockServerOptions] under the tags of
      the struct, [conf.Load].
    - [Fmt] (package fmt): [Sprintf] for the verbs the program uses,
      the text of each log line, and the agreement of every format of
      the program with its operands.
    - [Flags] (package flag): what [flag.Parse] does with the arguments
      of the process ([parse_from]), and [parse_args], the registrations
      of lines 83-92 followed by the call of line 93.
    - [Logger] (package log): the state of the package ([logger]), its
      change by [Open] and by the log functions ([logger_step]), and the
      level filter ([enabled], [log_written]).
    - [JsonText] and [Decode] (package encoding/json): a reader of the
      whole grammar of JSON on bytes ([parse]), a printer ([print]), the
      conversion of a value to what the decoder stores in an
      [interface{}] ([to_iface], numbers by correct rounding to
      float64), and [json.Unmarshal] into the map of the program
      ([unmarshal_pairs]); [go_json] is the instance of [JsonPkg].

    ** Files: the program on the packages

    - [Service]: [handleConnection] run on the network of [Wire];
      [respond], the function on an endpoint that the handler
      implements.
    - [World]: the pool of [Pool] run on the network, the goroutines
      interleaved by a scheduler ([wrun], [exec_net]); a machine whose
      configuration and canned response are files ([disk_host]).
    - [Stack]: everything at once: the Zabbix header, encoding/json,
      the command line, the configuration file.  [recognised] reads the
      condition of lines 57-64 off the text of a request, [machine] is a
      host given by its arguments and its files.

    ** How the files depend on each other

    Prelude, then Options and Json, then Effects; Handler and Bootstrap
    on Effects; ConnSM on Handler; Server on Bootstrap; Pool on Handler
    and Server; Wire on Effects; Service on Handler and Wire; Conf on
    Options; Fmt on Server; Logger on Fmt and Pool; Flags on Bootstrap; JsonText on
    Prelude; Decode on Json and JsonText; World on Pool, Service and
    Conf; Stack on all of them.  The interfaces between the program and
    its packages are type classes: [LogPkg] (with the laws
    [LogPkgDistinct] and [LogOrdered]), [JsonPkg], [Framing]; the calls
    with effects are the events of [Effects], answered by an environment
    ([env], [oracle]).  The theorems on the program are proved for every
    instance and every environment, the theorems of [Stack] for the
    instances [zbxd] and [go_json].  [sample_log], [counting_log],
    [sample_json], [sample_host], [sample_queue], [sample_world] and
    [stack_world] are what the theorems are applied to.

    ** What the theorems show

    - Handler: for each of the five paths of [handleConnection], what
      is read, logged and written ([active_checks_answered],
      [other_request_dropped], [malformed_request_dropped],
      [read_error_dropped], [write_error_logged]); on every path the
      connection is closed once and last ([closed_exactly_once]) and the
      canned response is the only payload ever written
      ([response_only_on_request]).
    - ConnSM: [sm_refinement], the traces of the handler are the runs
      of the specification's machine from Accepted to Closed.
    - Bootstrap and Server: the exit status and the last call of each
      failing start-up ([config_failure_exits],
      [active_checks_file_unreadable]); the start-up terminates on every
      host ([startup_terminates]); main does not check the log type
      ([log_type_unchecked]); a failed Accept is fatal and is the only
      way out of the loop; each accepted connection is handed to a
      handler at once; the listener is closed exactly when main returns.
    - Pool: the properties of the handler hold for every goroutine in
      every interleaving ([goroutine_refines_handler],
      [connection_owned]); main is never kept from accepting
      ([accept_not_blocked]); a return of main abandons the goroutines
      in flight ([return_abandons_goroutines]).
    - Wire and Service: framing round trips; the handler implements
      [respond] ([handler_implements_respond]); a client that framed
      the request reads back the canned response
      ([response_round_trip]); a frame is sent exactly when the endpoint
      is answerable ([response_iff_answerable]); a deadline that has
      passed drops the request ([expired_deadline_drops]).
    - Conf: what [conf.Load] returns is valid ([conf_load_valid]),
      loading twice changes nothing, values out of range are refused,
      and any text is accepted as the LogType
      ([conf_load_any_LogType]).
    - Fmt: every format of the program agrees with its operands
      ([main_formats_agree]); the warning for an unsupported request
      names it only when it is a string ([unsupported_request_named]).
    - Flags: [flag.Parse] accepts exactly the settings of registered
      flags and binds the latest ([flag_parse_settings]); its errors
      exit with status 2; a word after [-f] ends the flags
      ([foreground_word_ignored]).
    - Logger: the state of the package after any run of the process,
      main and goroutines interleaved, is the level filter applied to
      the lines of the run, and the logger is open before the first
      handler starts ([process_log_filtered]); which lines each setting
      of [DebugLevel] lets through; whether the reason of a return is
      written ([return_reason_logged]).
    - JsonText and Decode: the reader terminates within its fuel
      ([parse_value_fuel]); reading what was printed gives the value
      back ([parse_print]) and what is read is a value of the grammar
      ([parse_canonical]); the map of an accepted text holds the last
      member of each key ([unmarshal_pairs_member]); what is no object
      is an error.
    - World and Stack: the goroutines do not disturb each other through
      the network ([goroutine_runs_alone]); the server leaves a
      connection it started no handler for as it was, and takes the
      others no further than [respond] ([server_bounds_network]); end to
      end, from the files ([client_answered]) and from the command line
      ([command_line_to_response]) to the bytes the client is sent;
      which requests are answered ([recognised_requests]); and a
      configuration file with an unknown log type brings the server up
      ([unchecked_log_type_serves]).

    ** Modelling choices

    - Translations, vocabulary and contracts.  [handleConnection],
      [startup], [accept_loop], [main] and the definitions of [Options]
      translate lines of the source.  [prog], [event], [label] and the
      like are the vocabulary the translations are written in: they
      translate no line by themselves.  [Service.respond],
      [Service.answerable], [Stack.recognised] and [Logger.threshold]
      are contracts, written by hand as what the code is meant to
      compute; each is tied to the translation by a theorem
      ([handler_implements_respond], [response_iff_answerable], the
      first part of [recognised_requests], [enabled_threshold]).
    - Integers.  Go's [int] fields are [Z]; [time.Duration] is a 64-bit
      signed integer, so [time.Second * time.Duration(tFlag)] is
      [wrap64 (1000000000 * tFlag)].  [Handler.seconds_valid_timeout]
      proves that the product does not wrap for every timeout the [conf]
      tag allows (1..30).  The length of a frame is a 64-bit unsigned
      integer, written with its wrap-around.  A float64 is a
      [SpecFloat.spec_float] of precision 53.
    - Errors.  A Go [error] is its message ([error := string]); a pair
      [(v, err)] is a [result]; a lone [err] is an [option error].
      [os.Exit(1)] and a return from [main] are the two values of
      [outcome].
    - Effects.  Calls on collaborators are events answered by the
      environment; the theorems on [handleConnection] and [main]
      quantify over every answer.  Executable runs take the answers from
      an explicit environment, so concrete scenarios are checked by
      computation.
    - Concurrency.  Goroutines are threads of a pool; a step picks any
      thread and performs its next call.  The threads share no memory:
      the canned response is an immutable value, the connection of a
      goroutine is an argument of its events.  The process ends when
      main returns.
    - Fuel.  [handleConnection] and the start-up of [main] are finite
      trees and need no fuel.  The accept loop has no exit but a failed
      Accept, so [accept_loop fuel] unrolls it [fuel] times and returns
      [None] when it is cut.  A run with n accepted connections needs
      fuel n to be represented and fuel n+1 to return; the theorems hold
      for every fuel, and [accept_loop_fuel_mono] shows that more fuel
      only extends the runs.  The examples use fuel 5 for queues of at
      most three connections.  The reader of JSON recurses on fuel: a
      value costs one unit and the elements of an array or object one
      more each, so twice the length of the text, plus one, is enough
      ([parse] starts with that much; [parse_value_fuel] proves that it
      never runs out and that more changes nothing).
    - The logger is computed from the calls of a run
      ([Logger.logger_run]); it is no second environment, so every
      theorem on the traces of [main] applies to it as it is.
    - The status with which [flag.Parse] ends the process after [-h]
      depends on the version of Go and is a parameter ([help_status]).

    ** Not modelled

    - Time.  A deadline is an argument of Read and Write; a deadline
      that is not in the future fails the call, and a Read on an inbox
      without a whole frame fails.  No call blocks.
    - Package comms beyond the framing: the compression flag of the
      header, partial reads, the TCP connection itself.
    - Package conf: Include directives and the texts of its errors.
    - Package log: time stamps and the prefix of a line, the rotation
      of the log file, and the conditions under which [Open] fails
      (whether it fails is an answer of the environment).
    - Package flag: the text of the usage message.
    - Package encoding/json: the replacement of invalid UTF-8 in
      strings (the bytes are kept as they are; the name the handler
      compares is ASCII, so which requests are recognised does not
      depend on it), the limit on nesting that versions of Go later
      than the program's have, the texts of syntax errors with their
      offsets.
    - Package fmt: the decimal text of a float64 ([format_float] is a
      parameter of [Fmt]).
    - Signals and the end of the process from outside. *)

From Stdlib Require Import ZArith Lia DecimalString DecimalZ DecimalPos.
From Stdlib.Strings Require Import Byte Ascii.
From stdpp Require Export base tactics option list strings gmap.

#[local] Open Scope Z_scope.

(** ** Go data *)

(** A Go [error] value is modelled by its message. *)
Definition error : Type := string.

(** A Go return pair [(v, err)], read the way the program reads it: the
    value is only looked at when [err == nil]. *)
Inductive result (A : Type) : Type :=
| Ok (a : A)
| Fail (e : error).
Arguments Ok {A} a.
Arguments Fail {A} e.

Definition is_ok {A} (r : result A) : bool :=
  match r with Ok _ => true | Fail _ => false end.

Definition result_error {A} (r : result A) : option error :=
  match r with Ok _ => None | Fail e => Some e end.

Definition result_value {A} (r : result A) : option A :=
  match r with Ok a => Some a | Fail _ => None end.

#[export] Instance result_eq_dec {A} `{EqDecision A} : EqDecision (result A).
Proof. solve_decision. Defined.

(** The error monad of [if err != nil { return err }]. *)
#[export] Instance result_ret : MRet result := fun A => @Ok A.
#[export] Instance result_bind : MBind result := fun A B f r =>
  match r with Ok a => f a | Fail e => Fail e end.
#[export] Instance result_fmap : FMap result := fun A B f r =>
  match r with Ok a => Ok (f a) | Fail e => Fail e end.

(** Byte slices. *)
Abbreviation byte := Byte.byte.
Definition bytes : Type := list byte.

#[export] Instance byte_eq_decision : EqDecision byte := Byte.byte_eq_dec.

(** [string(js)] and [[]byte(s)]. *)
Definition string_of_bytes (b : bytes) : string := String.string_of_list_byte b.
Definition bytes_of_string (s : string) : bytes := String.list_byte_of_string s.

(** The value of a byte, and the byte of a value (modulo 256). *)
Definition byte_of_Z (z : Z) : byte :=
  default Byte.x00 (Byte.of_N (Z.to_N (z mod 256))).

Definition Z_of_byte (b : byte) : Z := Z.of_N (Byte.to_N b).

(** Characters that cannot be written inside a string literal. *)
Definition nl : string := String "010"%char EmptyString.
Definition dq : string := String "034"%char EmptyString.

(** The first value bound to a key in an association list. *)
Fixpoint assoc {A} (k : string) (l : list (string * A)) : option A :=
  match l with
  | [] => None
  | (k', v) :: l' => if decide (k = k') then Some v else assoc k l'
  end.

(** The text before the first [sep], and the text after it when there is
    one. *)
Fixpoint cut (sep : ascii) (s : string) : string * option string :=
  match s with
  | EmptyString => (EmptyString, None)
  | String c s' =>
      if Ascii.eqb c sep then (EmptyString, Some s')
      else let r := cut sep s' in (String c r.1, r.2)
  end.

(** [strconv.Itoa]: the decimal text of an integer, with a minus sign for
    negative numbers and a single 0 for zero. *)
Definition itoa (z : Z) : string := NilEmpty.string_of_int (Z.to_int z).

(** Decimal text to integer: an optional minus sign and at least one digit. *)
Definition atoi (s : string) : option Z :=
  match s with
  | EmptyString | String "-"%char EmptyString => None
  | _ => Z.of_int <$> NilEmpty.int_of_string s
  end.

(** [strings.SplitN(s, sep, n)] for a one-character separator and [n > 0]:
    at most [n] parts, the last one holding the unsplit rest. *)
Fixpoint splitn_go (n : nat) (sep : ascii) (s cur : string) : list string :=
  match n with
  | O => []
  | S O => [cur +:+ s]
  | S n' =>
      match s with
      | EmptyString => [cur]
      | String c s' =>
          if Ascii.eqb c sep then cur :: splitn_go n' sep s' EmptyString
          else splitn_go n sep s' (cur +:+ String c EmptyString)
      end
  end.

Definition splitn (s : string) (sep : ascii) (n : nat) : list string :=
  splitn_go n sep s EmptyString.

(** ** 64-bit signed integers *)

Definition int64_min : Z := - 2 ^ 63.
Definition int64_max : Z := 2 ^ 63 - 1.

Definition in_int64 (z : Z) : Prop := int64_min <= z <= int64_max.

(** Two's complement wrap-around of an arithmetic result. *)
Definition wrap64 (z : Z) : Z := (z + 2 ^ 63) mod 2 ^ 64 - 2 ^ 63.

#[export] Instance in_int64_dec z : Decision (in_int64 z).
Proof. unfold in_int64. apply _. Defined.

(** ** Tactics *)

(** Invert a hypothesis and clean up. *)
Ltac invert H := inversion H; clear H; simplify_eq/=.

(** Case analysis on the first [result] or [option] scrutinised in the goal. *)
Ltac case_scrutinee :=
  match goal with
  | |- context [match ?x with Ok _ => _ | Fail _ => _ end] => destruct x eqn:?
  | |- context [match ?x with Some _ => _ | None => _ end] => destruct x eqn:?
  | |- context [if ?b then _ else _] => destruct b eqn:?
  end.

(** Split every conjunction and existential of the context. *)
Ltac destruct_ex :=
  repeat match goal with
    | H : _ /\ _ |- _ => destruct H
    | H : exists _, _ |- _ => destruct H
    end.

(** Two equations on the same term: make their right-hand sides equal. *)
Ltac unify_eqs :=
  simplify_eq/=;
  repeat match goal with
    | H1 : ?x = _, H2 : ?x = _ |- _ => rewrite H1 in H2; simplify_eq/=
    end.

(** Membership in an explicit list: as a hypothesis, one case per
    element; as a goal, find the element. *)
Ltac elem_of_inv :=
  repeat match goal with
    | H : _ ∈ _ :: _ |- _ => apply elem_of_cons in H as [H|H]
    | H : _ ∈ _ ++ _ |- _ => apply elem_of_app in H as [H|H]
    | H : _ ∈ [] |- _ => by apply elem_of_nil in H
    end; simplify_eq/=.

Ltac elem_of_intro :=
  solve [repeat first [apply list_elem_of_here | apply list_elem_of_further
                      | apply elem_of_app; right]].

Create HintDb mock discriminated.
Create Rewrite HintDb mock_rw.

(** ** Shared lemmas *)

Lemma filter_none {A} (P : A -> Prop) `{!forall x, Decision (P x)} (l : list A) :
  Forall (fun x => ~ P x) l -> filter P l = [].
Proof.
  induction 1 as [|x l Hx _ IH]; [done|].
  by rewrite filter_cons, decide_False.
Qed.

Lemma filter_all {A} (P : A -> Prop) `{!forall x, Decision (P x)} (l : list A) :
  Forall P l -> filter P l = l.
Proof.
  induction 1 as [|x l' Hx _ IH]; [done|]. by rewrite filter_cons, decide_True, IH.
Qed.

(** The last element of a list that is cut at an element. *)
Lemma snoc_eq_middle {A} (t a r : list A) (l x : A) :
  t ++ [l] = a ++ x :: r ->
  (r = [] /\ t = a /\ l = x) \/ (exists r', r = r' ++ [l] /\ t = a ++ x :: r').
Proof.
  destruct r as [|y r _] using rev_ind.
  - intros [-> ->]%app_inj_tail. by left.
  - rewrite app_comm_cons, app_assoc. intros [-> ->]%app_inj_tail. right. by exists r.
Qed.

(** A list cut at an element that is not in the first part of another
    cut: the first part is a prefix. *)
Lemma app_eq_cons_not_in {A} (t0 t' t1 t2 : list A) (x : A) :
  t0 ++ t' = t1 ++ x :: t2 -> x ∉ t0 -> exists t1', t1 = t0 ++ t1'.
Proof.
  revert t1. induction t0 as [|a t0 IH]; intros t1 Heq Hnin; [by exists t1|].
  destruct t1 as [|y t1]; simplify_eq/=.
  - exfalso. apply Hnin. left.
  - destruct (IH t1) as [t1' ->]; [done|by intros ?; apply Hnin; right|]. by exists t1'.
Qed.

Section Results.
Context {A : Type}.
Implicit Types (r : result A) (a : A) (e : error).

Lemma is_ok_true r : is_ok r = true <-> exists a, r = Ok a.
Proof. destruct r; split; intros H; eauto; destruct_ex; done. Qed.

Lemma is_ok_false r : is_ok r = false <-> exists e, r = Fail e.
Proof. destruct r; split; intros H; eauto; destruct_ex; done. Qed.

Lemma result_error_None r : result_error r = None <-> is_ok r = true.
Proof. by destruct r. Qed.

Lemma result_bind_Ok {B} r (f : A -> result B) (b : B) :
  r ≫= f = Ok b <-> exists a, r = Ok a /\ f a = Ok b.
Proof. destruct r; simpl; [|by split; [|intros (? & ? & ?)]]. split; [eauto|]. by intros (? & [= <-] & ?). Qed.

Lemma result_value_error r : is_Some (result_value r) <-> result_error r = None.
Proof. destruct r; simpl; split; intros H; eauto; by invert H. Qed.

End Results.

Section Bytes.

Lemma Z_of_byte_range b : 0 <= Z_of_byte b < 256.
Proof. unfold Z_of_byte. pose proof (Byte.to_N_bounded b). lia. Qed.

Lemma Z_of_byte_of_Z z : Z_of_byte (byte_of_Z z) = z mod 256.
Proof.
  unfold Z_of_byte, byte_of_Z.
  pose proof (Z.mod_pos_bound z 256 eq_refl).
  destruct (Byte.of_N _) eqn:E; simpl.
  - apply Byte.to_of_N in E. lia.
  - apply Byte.of_N_None_iff in E. lia.
Qed.

Lemma byte_of_Z_of_byte_raw b : default Byte.x00 (Byte.of_N (Z.to_N (Z_of_byte b))) = b.
Proof. unfold Z_of_byte. by rewrite N2Z.id, Byte.of_to_N. Qed.

Lemma byte_of_Z_of_byte b : byte_of_Z (Z_of_byte b) = b.
Proof.
  unfold byte_of_Z. rewrite Z.mod_small by apply Z_of_byte_range.
  apply byte_of_Z_of_byte_raw.
Qed.

End Bytes.

Lemma string_of_bytes_of_string s : string_of_bytes (bytes_of_string s) = s.
Proof. apply String.string_of_list_byte_of_string. Qed.

Lemma bytes_of_string_of_bytes b : bytes_of_string (string_of_bytes b) = b.
Proof. apply String.list_byte_of_string_of_list_byte. Qed.

Lemma string_of_uint_digit d :
  d <> Decimal.Nil ->
  exists c s, NilEmpty.string_of_uint d = String c s /\ c <> "-"%char.
Proof. destruct d; intros H; try done; simpl; eauto. Qed.

(** The text of an integer is a digit string or a minus sign and a digit
    string: never empty, never a lone sign. *)
Lemma itoa_shape z :
  (exists c s, itoa z = String c s /\ c <> "-"%char) \/
  (exists c s, itoa z = String "-"%char (String c s)).
Proof.
  unfold itoa. destruct z as [|p|p]; simpl.
  - left. eauto.
  - left. apply string_of_uint_digit, Unsigned.to_uint_nonnil.
  - right. destruct (string_of_uint_digit (Pos.to_uint p)) as (c & s & -> & _); eauto.
    apply Unsigned.to_uint_nonnil.
Qed.

Lemma atoi_itoa z : atoi (itoa z) = Some z.
Proof.
  unfold atoi.
  replace (Z.of_int <$> NilEmpty.int_of_string (itoa z)) with (Some z)
    by (unfold itoa; rewrite NilEmpty.isi; simpl; by rewrite DecimalZ.of_to).
  destruct (itoa_shape z) as [(c & s & -> & Hc) | (c & s & ->)]; [|done].
  destruct c as [[] [] [] [] [] [] [] []]; destruct s; done.
Qed.

Lemma itoa_inj z1 z2 : itoa z1 = itoa z2 -> z1 = z2.
Proof.
  intros H. apply (f_equal atoi) in H. rewrite !atoi_itoa in H. by simplify_eq.
Qed.

Section Wrap.
Implicit Types z : Z.

Lemma wrap64_range z : in_int64 (wrap64 z).
Proof.
  unfold in_int64, wrap64, int64_min, int64_max.
  pose proof (Z.mod_pos_bound (z + 2 ^ 63) (2 ^ 64)). lia.
Qed.

Lemma wrap64_small z : in_int64 z -> wrap64 z = z.
Proof.
  unfold in_int64, wrap64, int64_min, int64_max. intros H.
  rewrite Z.mod_small; lia.
Qed.

Lemma wrap64_idemp z : wrap64 (wrap64 z) = wrap64 z.
Proof. apply wrap64_small, wrap64_range. Qed.

Lemma wrap64_eq_iff z : wrap64 z = z <-> in_int64 z.
Proof.
  split; [intros <-; apply wrap64_range | apply wrap64_small].
Qed.

Lemma wrap64_congr z : (wrap64 z - z) mod 2 ^ 64 = 0.
Proof.
  unfold wrap64.
  replace ((z + 2 ^ 63) mod 2 ^ 64 - 2 ^ 63 - z)
    with (- ((z + 2 ^ 63) / 2 ^ 64) * 2 ^ 64)
    by (pose proof (Z.div_mod (z + 2 ^ 63) (2 ^ 64)); lia).
  apply Z.mod_mul. lia.
Qed.

End Wrap.

#[export] Hint Resolve wrap64_range : mock.
#[export] Hint Rewrite @string_of_bytes_of_string @bytes_of_string_of_bytes : mock_rw.
#[export] Hint Rewrite wrap64_idemp : mock_rw.
