(* ===== verification/Options.v ===== *)
(** * Options: the configuration record and what [main] derives from it

    [MockServerOptions] is the struct of lines 35-42 with its [conf]
    tags kept as the source writes them.  The tags are read by package
    conf (format "name,optional,min:max,default"); [parse_tag] models
    that reading, and the validity predicate and the defaults of the
    record are computed from the parsed tags, so that a change of a tag
    changes them.  The two [switch] statements of [main] on
    [options.LogType] and [options.DebugLevel] (lines 105-125) are
    [logType_of] and [logLevel_of]; the integer constants of package log
    they refer to are the fields of the class [LogPkg]. *)

From Stdlib Require Import ZArith Lia.
From Stdlib.Strings Require Import Ascii.
From S2P Require Import Prelude.

#[local] Open Scope Z_scope.

(** ** The record (lines 35-42) and the global variable (line 44) *)

Record MockServerOptions : Type := mkOptions {
  LogType : string;
  LogFile : string;
  DebugLevel : Z;
  Port : Z;
  Timeout : Z;
  ActiveChecksFile : string;
}.

#[export] Instance MockServerOptions_eq_dec : EqDecision MockServerOptions.
Proof. solve_decision. Defined.

(** [var options MockServerOptions]: every field at its zero value. *)
Definition options : MockServerOptions :=
  mkOptions EmptyString EmptyString 0 0 0 EmptyString.

(** The struct tags, field by field, as written in the source. *)
Definition MockServerOptions_tags : list (string * string) :=
  [ ("LogType", ",,,console");
    ("LogFile", ",optional");
    ("DebugLevel", ",,0:5,3");
    ("Port", ",,1:65535,10051");
    ("Timeout", ",,1:30,5");
    ("ActiveChecksFile", ",optional") ]%string.

(** ** Tags as package conf reads them *)

Record conf_tag : Type := mkTag {
  tag_name : string;
  tag_optional : bool;
  tag_range : option (Z * Z);
  tag_default : option string;
}.

Definition parse_range (s : string) : option (Z * Z) :=
  match splitn s ":"%char 2 with
  | [lo; hi] => lo' ← atoi lo; hi' ← atoi hi; Some (lo', hi')
  | _ => None
  end.

Definition parse_tag (t : string) : conf_tag :=
  let parts := splitn t ","%char 4 in
  {| tag_name := default EmptyString (parts !! 0%nat);
     tag_optional := bool_decide (parts !! 1%nat = Some "optional"%string);
     tag_range := parts !! 2%nat ≫= parse_range;
     tag_default := parts !! 3%nat |}.

Definition field_tag (field : string) : conf_tag :=
  parse_tag (default EmptyString (assoc field MockServerOptions_tags)).

Definition in_tag_range (t : conf_tag) (v : Z) : Prop :=
  match tag_range t with
  | Some (lo, hi) => lo <= v <= hi
  | None => True
  end.

#[export] Instance in_tag_range_dec t v : Decision (in_tag_range t v).
Proof. unfold in_tag_range. destruct (tag_range t) as [[??]|]; apply _. Defined.

(** The integer fields lie in the ranges their tags declare. *)
Definition options_valid (o : MockServerOptions) : Prop :=
  in_tag_range (field_tag "DebugLevel") (DebugLevel o) /\
  in_tag_range (field_tag "Port") (Port o) /\
  in_tag_range (field_tag "Timeout") (Timeout o).

#[export] Instance options_valid_dec o : Decision (options_valid o).
Proof. unfold options_valid. apply _. Defined.

Definition default_string (field : string) : string :=
  default EmptyString (tag_default (field_tag field)).

Definition default_int (field : string) : Z :=
  default 0 (tag_default (field_tag field) ≫= atoi).

(** The record a configuration file that sets no key produces. *)
Definition default_options : MockServerOptions :=
  {| LogType := default_string "LogType";
     LogFile := default_string "LogFile";
     DebugLevel := default_int "DebugLevel";
     Port := default_int "Port";
     Timeout := default_int "Timeout";
     ActiveChecksFile := default_string "ActiveChecksFile" |}.

(** ** The logger's constants and the two switches of [main] *)

(** The constants [log.Console], [log.File], [log.Info], ... of package
    log.  Their values are not part of the program under verification. *)
Class LogPkg : Type := {
  log_Console : Z;
  log_File : Z;
  log_Info : Z;
  log_Crit : Z;
  log_Err : Z;
  log_Warning : Z;
  log_Debug : Z;
  log_Trace : Z;
}.

(** What a sensible logger guarantees: the constants of one enumeration
    differ from each other. *)
Class LogPkgDistinct (L : LogPkg) : Prop := {
  log_types_distinct : log_Console <> log_File;
  log_levels_distinct :
    NoDup [log_Info; log_Crit; log_Err; log_Warning; log_Debug; log_Trace];
}.

(** Sample values, used where a theorem is applied to a concrete logger. *)
Definition sample_log : LogPkg :=
  {| log_Console := 3; log_File := 2;
     log_Info := 127; log_Crit := 1; log_Err := 2; log_Warning := 3;
     log_Debug := 4; log_Trace := 5 |}.

#[export] Instance sample_log_distinct : LogPkgDistinct sample_log.
Proof. split; [done|]. by apply (bool_decide_unpack _). Qed.

Section Switches.
Context {L : LogPkg}.

(** Lines 105-111: [var logType int] stays 0 unless a case matches. *)
Definition logType_of (o : MockServerOptions) : Z :=
  if decide (LogType o = "console"%string) then log_Console
  else if decide (LogType o = "file"%string) then log_File
  else 0.

(** Lines 105, 112-125: [var logLevel int] stays 0 unless a case matches. *)
Definition logLevel_of (o : MockServerOptions) : Z :=
  match DebugLevel o with
  | 0 => log_Info
  | 1 => log_Crit
  | 2 => log_Err
  | 3 => log_Warning
  | 4 => log_Debug
  | 5 => log_Trace
  | _ => 0
  end.

End Switches.

(** ** Theorems *)

Lemma field_tag_DebugLevel :
  field_tag "DebugLevel" = mkTag EmptyString false (Some (0, 5)) (Some "3"%string).
Proof. by vm_compute. Qed.

Lemma field_tag_Port :
  field_tag "Port" = mkTag EmptyString false (Some (1, 65535)) (Some "10051"%string).
Proof. by vm_compute. Qed.

Lemma field_tag_Timeout :
  field_tag "Timeout" = mkTag EmptyString false (Some (1, 30)) (Some "5"%string).
Proof. by vm_compute. Qed.

#[export] Hint Rewrite field_tag_DebugLevel field_tag_Port field_tag_Timeout : mock_rw.

(** The validity the tags declare is the table of the specification:
    DebugLevel in 0..5, Port in 1..65535, Timeout in 1..30; the string
    fields, LogType included, are not constrained. *)
Lemma options_valid_ranges o :
  options_valid o <->
  0 <= DebugLevel o <= 5 /\ 1 <= Port o <= 65535 /\ 1 <= Timeout o <= 30.
Proof.
  unfold options_valid. autorewrite with mock_rw. unfold in_tag_range. simpl. tauto.
Qed.

Lemma default_options_valid : options_valid default_options.
Proof. apply options_valid_ranges. vm_compute. intuition discriminate. Qed.

(** The defaults the tags declare are console logging, level 3, port
    10051, timeout 5 s, no log file and no active-checks file, and they
    pass validation. *)
Theorem default_options_spec :
  default_options = mkOptions "console" EmptyString 3 10051 5 EmptyString /\
  options_valid default_options.
Proof. split; [by vm_compute|apply default_options_valid]. Qed.

(** The zero value of the record, which [options] holds before
    [conf.Load] runs, is not a valid configuration. *)
Lemma zero_options_invalid : ~ options_valid options.
Proof. rewrite options_valid_ranges. simpl. lia. Qed.

Section SwitchFacts.
Context {L : LogPkg}.
Implicit Types o : MockServerOptions.

Lemma logType_of_console o : LogType o = "console"%string -> logType_of o = log_Console.
Proof. intros H. unfold logType_of. by rewrite decide_True. Qed.

Lemma logType_of_file o : LogType o = "file"%string -> logType_of o = log_File.
Proof. intros H. unfold logType_of. rewrite decide_False, decide_True; by rewrite ?H. Qed.

(** Any other LogType leaves [var logType int] at its zero value. *)
Lemma logType_of_other o :
  LogType o <> "console"%string -> LogType o <> "file"%string -> logType_of o = 0.
Proof. intros H1 H2. unfold logType_of. by rewrite !decide_False. Qed.

Definition level_constants : list Z :=
  [log_Info; log_Crit; log_Err; log_Warning; log_Debug; log_Trace].

(** In range, the switch selects the constant at the position of the
    level. *)
Lemma logLevel_of_nth o :
  0 <= DebugLevel o <= 5 ->
  level_constants !! Z.to_nat (DebugLevel o) = Some (logLevel_of o).
Proof.
  intros H. unfold logLevel_of.
  assert (DebugLevel o = 0 \/ DebugLevel o = 1 \/ DebugLevel o = 2 \/
          DebugLevel o = 3 \/ DebugLevel o = 4 \/ DebugLevel o = 5) as Hc by lia.
  destruct Hc as [-> | [-> | [-> | [-> | [-> | ->]]]]]; reflexivity.
Qed.

(** For a validated DebugLevel n the second switch selects the n-th
    constant of Info, Crit, Err, Warning, Debug, Trace: no valid level
    falls through to the zero value. *)
Theorem logLevel_of_valid o :
  options_valid o ->
  level_constants !! Z.to_nat (DebugLevel o) = Some (logLevel_of o) /\
  logLevel_of o ∈ level_constants.
Proof.
  rewrite options_valid_ranges. intros [H _].
  pose proof (logLevel_of_nth o H) as Hn. split; [done|].
  by eapply list_elem_of_lookup_2.
Qed.

(** Out of range, the switch leaves [logLevel] at zero: a level
    that was not validated selects no constant of the logger. *)
Theorem logLevel_of_out_of_range o :
  ~ 0 <= DebugLevel o <= 5 -> logLevel_of o = 0.
Proof.
  intros H. unfold logLevel_of.
  destruct (DebugLevel o) as [|p|p]; [lia| |done].
  destruct p as [[[?|?|]|[?|?|]|]|[[?|?|]|[?|?|]|]|]; try done; lia.
Qed.

(** With a logger whose level constants differ, two valid
    configurations get the same logger level only if their DebugLevel is
    the same. *)
Theorem logLevel_of_inj `{!LogPkgDistinct L} o1 o2 :
  options_valid o1 -> options_valid o2 ->
  logLevel_of o1 = logLevel_of o2 -> DebugLevel o1 = DebugLevel o2.
Proof.
  rewrite !options_valid_ranges. intros [H1 _] [H2 _] Heq.
  pose proof (logLevel_of_nth _ H1) as E1.
  pose proof (logLevel_of_nth _ H2) as E2.
  rewrite Heq in E1.
  pose proof (NoDup_lookup _ _ _ _ log_levels_distinct E1 E2) as Hn. lia.
Qed.

End SwitchFacts.

(** ** Witnesses *)

Lemma logLevel_of_valid_witness :
  @level_constants sample_log !! Z.to_nat 4 = Some (@logLevel_of sample_log
     (mkOptions "file" "/tmp/mock.log" 4 10051 5 "ac.json")) /\
  @logLevel_of sample_log (mkOptions "file" "/tmp/mock.log" 4 10051 5 "ac.json")
    ∈ @level_constants sample_log.
Proof.
  apply (@logLevel_of_valid sample_log (mkOptions "file" "/tmp/mock.log" 4 10051 5 "ac.json")).
  apply options_valid_ranges. simpl. lia.
Defined.

Lemma logLevel_of_inj_witness :
  DebugLevel (mkOptions "file" EmptyString 2 80 1 EmptyString) =
  DebugLevel (mkOptions "console" EmptyString 2 8080 30 EmptyString).
Proof.
  apply (@logLevel_of_inj sample_log _); [| |reflexivity];
    apply options_valid_ranges; simpl; lia.
Defined.

Lemma logLevel_of_out_of_range_witness :
  @logLevel_of sample_log (mkOptions "console" EmptyString 6 10051 5 EmptyString) = 0.
Proof.
  apply (@logLevel_of_out_of_range sample_log
           (mkOptions "console" EmptyString 6 10051 5 EmptyString)).
  simpl. lia.
Defined.
