(* ===== verification/Json.v ===== *)
(** * Json: the values of [map[string]interface{}]

    [handleConnection] decodes the request with [json.Unmarshal] into
    [var pairs map[string]interface{}] (lines 57-58) and then switches on
    [pairs["request"]] (lines 63-64).  This file holds the Go side of
    that: the dynamic values an [interface{}] can hold after decoding
    ([iface]), indexing of a map with the zero value for a missing key
    ([index]), and the equality of an interface value with a string
    constant ([iface_eq_string]) that the [case] performs.  The decoder
    is package encoding/json; the program is verified against any decoder
    ([JsonPkg]). *)

From Stdlib Require Import ZArith SpecFloat.
From S2P Require Import Prelude.

#[export] Instance spec_float_eq_dec : EqDecision spec_float.
Proof. solve_decision. Defined.

(** What [json.Unmarshal] stores in an [interface{}]: [nil] for null,
    [bool], [float64] for numbers, [string], [[]interface{}] for
    arrays and [map[string]interface{}] for objects. *)
#[warnings="-register-all"]
Inductive iface : Type :=
| INil
| IBool (b : bool)
| INumber (f : spec_float)
| IString (s : string)
| IArray (l : list iface)
| IMap (m : gmap string iface).

(** The dynamic type of an interface value, as [%T] prints it. *)
Definition dyn_type (v : iface) : string :=
  match v with
  | INil => "<nil>"
  | IBool _ => "bool"
  | INumber _ => "float64"
  | IString _ => "string"
  | IArray _ => "[]interface {}"
  | IMap _ => "map[string]interface {}"
  end.

(** [m[k]] on a [map[string]interface{}]: the zero value, a nil
    interface, when the key is missing (or the map is nil, which is the
    empty map here). *)
Definition index (m : gmap string iface) (k : string) : iface :=
  default INil (m !! k).

(** [v == s] for an interface value [v] and a string constant [s]: true
    when the dynamic type is [string] and the strings are equal. *)
Definition iface_eq_string (v : iface) (s : string) : bool :=
  match v with
  | IString s' => bool_decide (s' = s)
  | _ => false
  end.

(** Package encoding/json, as far as the program calls it:
    [json.Unmarshal(js, &pairs)] with [pairs] a nil map. *)
Class JsonPkg : Type := {
  unmarshal : bytes -> result (gmap string iface);
}.

(** ** Lemmas *)

Section Index.
Implicit Types (m : gmap string iface) (k s : string) (v : iface).

Lemma iface_eq_string_true v s : iface_eq_string v s = true <-> v = IString s.
Proof.
  destruct v; simpl; try (split; [done | by inversion 1]).
  rewrite bool_decide_eq_true. split; [by intros -> | by inversion 1].
Qed.

Lemma iface_eq_string_false v s : iface_eq_string v s = false <-> v <> IString s.
Proof. rewrite <- iface_eq_string_true. by destruct (iface_eq_string v s). Qed.

Lemma iface_eq_string_type v s : iface_eq_string v s = true -> dyn_type v = "string"%string.
Proof. by intros ->%iface_eq_string_true. Qed.

Lemma index_lookup m k v : m !! k = Some v -> index m k = v.
Proof. unfold index. by intros ->. Qed.

Lemma index_missing m k : m !! k = None -> index m k = INil.
Proof. unfold index. by intros ->. Qed.

Lemma index_empty k : index ∅ k = INil.
Proof. apply index_missing, lookup_empty. Qed.

Lemma index_insert m k v : index (<[k:=v]> m) k = v.
Proof. apply index_lookup, lookup_insert_eq. Qed.

Lemma index_insert_ne m k k' v : k <> k' -> index (<[k:=v]> m) k' = index m k'.
Proof. intros H. unfold index. by rewrite lookup_insert_ne. Qed.

(** The [case] of the switch is taken exactly when the key is present
    and holds that string: a missing key, a null and a value of another
    type all go to [default]. *)
Lemma index_eq_string m k s :
  iface_eq_string (index m k) s = true <-> m !! k = Some (IString s).
Proof.
  rewrite iface_eq_string_true. unfold index.
  destruct (m !! k) as [v|]; simpl; split; intros H; by simplify_eq.
Qed.

Lemma index_neq_string m k s :
  iface_eq_string (index m k) s = false <-> m !! k <> Some (IString s).
Proof. rewrite <- index_eq_string. by destruct (iface_eq_string _ _). Qed.

End Index.

(** A decoder given by a finite table of documents: what is not in the
    table is rejected.  It stands for package encoding/json where a
    theorem is applied to concrete requests. *)
Definition table_json (tbl : list (bytes * gmap string iface)) : JsonPkg :=
  {| unmarshal js :=
       match list_find (fun e => e.1 = js) tbl with
       | Some (_, (_, m)) => Ok m
       | None => Fail "invalid character"
       end |}.

(** The text [{"request":"<name>"}]. *)
Definition request_text (name : string) : string :=
  "{" +:+ dq +:+ "request" +:+ dq +:+ ":" +:+ dq +:+ name +:+ dq +:+ "}".

Definition sample_json : JsonPkg :=
  table_json
    [ (bytes_of_string (request_text "active checks"),
       {[ "request"%string := IString "active checks" ]});
      (bytes_of_string (request_text "ping"),
       {[ "request"%string := IString "ping" ]});
      (bytes_of_string "{}", ∅);
      (bytes_of_string "null", ∅) ].

#[export] Hint Rewrite index_empty index_insert : mock_rw.
