(* ===== verification/Effects.v ===== *)
(** * Effects: calls on collaborators, programs, traces

    Every call the program makes on a package outside the sources (comms,
    log, conf, flag, fmt, ioutil) and the [go] statement are [event]s,
    indexed by the type of what the call returns.  A program is a finite
    tree of events ([prog]): a node is a call, its children the
    continuations for each possible answer.  [prog] is a monad for
    stdpp's [mret] and [≫=], so the models of [handleConnection] and
    [main] read like their sources.

    An observed call is a [label]: the event with the answer it got.
    [traces p t r] says that [p] can perform the calls [t], with these
    answers, and return [r]; it quantifies over the environment.  [run]
    executes a program against a given environment and computes.
    [pstep] and [psteps] are the single calls of a program and what is
    left of it afterwards; [uses] is its footprint, the kinds of calls it
    can make. *)

From Stdlib Require Import ZArith Lia.
From S2P Require Import Prelude Options Json.

#[local] Open Scope Z_scope.

(** ** Data of the calls *)

(** An accepted connection ([comms.ZbxConnection]), by its identity. *)
Definition conn : Type := nat.

(** [time.Duration]: nanoseconds in a 64-bit signed integer. *)
Definition duration : Type := Z.

(** The functions of package log the program calls. *)
Inductive logfn : Type := Critf | Warningf | Debugf | Infof.

#[export] Instance logfn_eq_dec : EqDecision logfn.
Proof. solve_decision. Defined.

(** An operand of a format: a string, an error, or an interface value. *)
Inductive arg : Type :=
| AString (s : string)
| AError (e : error)
| AIface (v : iface).

(** A flag registered with package flag: [flag.StringVar(&v, name, def,
    usage)] or [flag.BoolVar].  [flag_var] names the variable bound. *)
Inductive flag_value : Type :=
| FString (s : string)
| FBool (b : bool).

Record flag_def : Type := mkFlag {
  flag_var : string;
  flag_name : string;
  flag_default : flag_value;
  flag_usage : string;
}.

(** What [flag.Parse()] does: it binds the variables of the registered
    flags, or ends the process itself (usage error, -help). *)
Inductive parsed : Type :=
| Parsed (vals : list (string * flag_value))
| FlagExit (code : Z).

(** How [main] ends: [os.Exit(code)], or a return from [main]. *)
Inductive outcome : Type :=
| Exit (code : Z)
| Return.

#[export] Instance flag_value_eq_dec : EqDecision flag_value.
Proof. solve_decision. Defined.
#[export] Instance flag_def_eq_dec : EqDecision flag_def.
Proof. solve_decision. Defined.
#[export] Instance outcome_eq_dec : EqDecision outcome.
Proof. solve_decision. Defined.

(** ** Events *)

Variant event : Type -> Type :=
(* package comms: a connection *)
| ConnRead (c : conn) (timeout : duration) : event (result bytes)
| ConnWrite (c : conn) (data : bytes) (timeout : duration) : event (option error)
| ConnClose (c : conn) : event unit
(* package comms: the listener *)
| Listen (address : string) : event (option error)
| Accept : event (result conn)
| ListenerClose : event unit
(* package log *)
| LogOpen (logType logLevel : Z) (file : string) : event (option error)
| Logf (f : logfn) (format : string) (args : list arg) : event unit
(* package conf: [conf.Load(path, &options)], the answer is the record
   [options] holds afterwards *)
| ConfLoad (path : string) (cur : MockServerOptions) : event (result MockServerOptions)
(* package flag: [flag.Parse()] over the registered flags *)
| FlagParse (flags : list flag_def) : event parsed
(* packages fmt and ioutil *)
| FprintfStderr (format : string) (args : list arg) : event unit
| Println (s : string) : event unit
| ReadFile (path : string) : event (result bytes)
(* the statement [go handleConnection(c, activeChecks, tFlag)] *)
| Go (c : conn) (activeChecks : bytes) (tFlag : Z) : event unit.

(** An answer every environment can give. *)
Definition event_default {X} (e : event X) : X :=
  match e with
  | ConnRead _ _ => Fail "EOF"
  | ConnWrite _ _ _ => None
  | ConnClose _ => tt
  | Listen _ => None
  | Accept => Fail "closed"
  | ListenerClose => tt
  | LogOpen _ _ _ => None
  | Logf _ _ _ => tt
  | ConfLoad _ cur => Ok cur
  | FlagParse fs => Parsed []
  | FprintfStderr _ _ => tt
  | Println _ => tt
  | ReadFile _ => Fail "ENOENT"
  | Go _ _ _ => tt
  end.

(** ** Labels: observed calls *)

Inductive label : Type :=
| LConnRead (c : conn) (timeout : duration) (r : result bytes)
| LConnWrite (c : conn) (data : bytes) (timeout : duration) (r : option error)
| LConnClose (c : conn)
| LListen (address : string) (r : option error)
| LAccept (r : result conn)
| LListenerClose
| LLogOpen (logType logLevel : Z) (file : string) (r : option error)
| LLogf (f : logfn) (format : string) (args : list arg)
| LConfLoad (path : string) (cur : MockServerOptions) (r : result MockServerOptions)
| LFlagParse (flags : list flag_def) (r : parsed)
| LFprintfStderr (format : string) (args : list arg)
| LPrintln (s : string)
| LReadFile (path : string) (r : result bytes)
| LGo (c : conn) (activeChecks : bytes) (tFlag : Z).

Definition label_of {X} (e : event X) : X -> label :=
  match e with
  | ConnRead c d => LConnRead c d
  | ConnWrite c b d => LConnWrite c b d
  | ConnClose c => fun _ => LConnClose c
  | Listen a => LListen a
  | Accept => LAccept
  | ListenerClose => fun _ => LListenerClose
  | LogOpen t l f => LLogOpen t l f
  | Logf f s a => fun _ => LLogf f s a
  | ConfLoad p cur => LConfLoad p cur
  | FlagParse fs => LFlagParse fs
  | FprintfStderr s a => fun _ => LFprintfStderr s a
  | Println s => fun _ => LPrintln s
  | ReadFile p => LReadFile p
  | Go c b t => fun _ => LGo c b t
  end.

(** Which call a label observes. *)
Inductive kind : Type :=
| KConnRead | KConnWrite | KConnClose | KListen | KAccept | KListenerClose
| KLogOpen | KLogf | KConfLoad | KFlagParse | KFprintfStderr | KPrintln
| KReadFile | KGo.

#[export] Instance kind_eq_dec : EqDecision kind.
Proof. solve_decision. Defined.

Definition label_kind (l : label) : kind :=
  match l with
  | LConnRead _ _ _ => KConnRead
  | LConnWrite _ _ _ _ => KConnWrite
  | LConnClose _ => KConnClose
  | LListen _ _ => KListen
  | LAccept _ => KAccept
  | LListenerClose => KListenerClose
  | LLogOpen _ _ _ _ => KLogOpen
  | LLogf _ _ _ => KLogf
  | LConfLoad _ _ _ => KConfLoad
  | LFlagParse _ _ => KFlagParse
  | LFprintfStderr _ _ => KFprintfStderr
  | LPrintln _ => KPrintln
  | LReadFile _ _ => KReadFile
  | LGo _ _ _ => KGo
  end.

(** The import block (lines 22-33), in its order. *)
Inductive package : Type :=
| encoding_json | pkg_flag | pkg_fmt | io_ioutil | pkg_os | pkg_strconv | pkg_time
| zabbix_pkg_comms | zabbix_pkg_conf | zabbix_pkg_log.

#[export] Instance package_eq_dec : EqDecision package.
Proof. solve_decision. Defined.

Definition imports : list package :=
  [encoding_json; pkg_flag; pkg_fmt; io_ioutil; pkg_os; pkg_strconv; pkg_time;
   zabbix_pkg_comms; zabbix_pkg_conf; zabbix_pkg_log].

(** The package a call is made on; [go] is a statement of the language.
    The packages that are used without a call with an effect are
    encoding/json ([Json.unmarshal]), strconv ([Prelude.itoa]), time
    ([time.Second]) and os ([os.Exit], [os.Stderr]). *)
Definition kind_package (k : kind) : option package :=
  match k with
  | KConnRead | KConnWrite | KConnClose | KListen | KAccept | KListenerClose =>
      Some zabbix_pkg_comms
  | KLogOpen | KLogf => Some zabbix_pkg_log
  | KConfLoad => Some zabbix_pkg_conf
  | KFlagParse => Some pkg_flag
  | KFprintfStderr | KPrintln => Some pkg_fmt
  | KReadFile => Some io_ioutil
  | KGo => None
  end.

(** The calls of a trace that are of kind [k]. *)
Definition of_kind (k : kind) (t : list label) : list label :=
  filter (fun l => label_kind l = k) t.

(** The connection a label is a call on. *)
Definition label_conn (l : label) : option conn :=
  match l with
  | LConnRead c _ _ | LConnWrite c _ _ _ | LConnClose c => Some c
  | _ => None
  end.

Definition is_read (l : label) : bool :=
  match l with LConnRead _ _ _ => true | _ => false end.
Definition is_write (l : label) : bool :=
  match l with LConnWrite _ _ _ _ => true | _ => false end.
Definition is_close (l : label) : bool :=
  match l with LConnClose _ => true | _ => false end.
Definition is_log (l : label) : bool :=
  match l with LLogf _ _ _ => true | _ => false end.
Definition is_warning (l : label) : bool :=
  match l with LLogf Warningf _ _ => true | _ => false end.

(** The bytes handed to [Write] calls on [c], in order. *)
Definition written (c : conn) (t : list label) : list bytes :=
  omap (fun l => match l with
                 | LConnWrite c' b _ _ => if decide (c' = c) then Some b else None
                 | _ => None
                 end) t.

(** ** Programs *)

Inductive prog (R : Type) : Type :=
| Ret (r : R)
| Vis {X : Type} (e : event X) (k : X -> prog R).
Arguments Ret {R} r.
Arguments Vis {R X} e k.

Fixpoint bind {R S} (p : prog R) (f : R -> prog S) : prog S :=
  match p with
  | Ret r => f r
  | Vis e k => Vis e (fun x => bind (k x) f)
  end.

#[export] Instance prog_ret : MRet prog := @Ret.
#[export] Instance prog_bind : MBind prog := fun _ _ f p => bind p f.

(** Performing one call. *)
Definition trigger {X} (e : event X) : prog X := Vis e Ret.

(** [defer cleanup] at the start of a function body: [cleanup] runs when
    the body returns, whatever path it took. *)
Definition defer {R} (cleanup : prog unit) (body : prog R) : prog R :=
  r ← body; cleanup;; mret r.

(** ** Traces *)

Fixpoint traces {R} (p : prog R) (t : list label) (r : R) : Prop :=
  match p with
  | Ret r' => t = [] /\ r' = r
  | Vis e k => exists x t', t = label_of e x :: t' /\ traces (k x) t' r
  end.

(** Two programs are equivalent when they have the same traces. *)
Definition prog_equiv {R} (p q : prog R) : Prop :=
  forall t r, traces p t r <-> traces q t r.

#[export] Instance prog_equiv_Equiv {R} : Equiv (prog R) := prog_equiv.

(** ** Steps *)

(** One call of a program: [p] makes the call observed as [l] and goes
    on as [q]. *)
Definition pstep {R} (p : prog R) (l : label) (q : prog R) : Prop :=
  match p with
  | Ret _ => False
  | Vis e k => exists x, l = label_of e x /\ q = k x
  end.

Fixpoint psteps {R} (p : prog R) (t : list label) (q : prog R) : Prop :=
  match t with
  | [] => p = q
  | l :: t' => exists p', pstep p l p' /\ psteps p' t' q
  end.

(** Notations for the two judgements on programs, in a scope of their
    own: [p ⇓[t] r] for a complete run and [p ~[t]~> q] for its
    beginning. *)
Declare Scope mock_scope.
Delimit Scope mock_scope with mock.
Notation "p ⇓[ t ] r" := (traces p t r)
  (at level 70, t at level 200, r at next level, format "p  ⇓[ t ]  r") : mock_scope.
Notation "p ~[ t ]~> q" := (psteps p t q)
  (at level 70, t at level 200, q at next level, format "p  ~[ t ]~>  q") : mock_scope.
#[local] Open Scope mock_scope.

(** A program that makes at most [n] calls. *)
Fixpoint bounded {R} (p : prog R) (n : nat) : Prop :=
  match p with
  | Ret _ => True
  | Vis e k =>
      match n with
      | O => False
      | S n' => forall x, bounded (k x) n'
      end
  end.

(** ** Footprints *)

(** The kind of the call an event makes, and the programs all of whose
    calls have a kind in [P]. *)
Definition event_kind {X} (e : event X) : kind :=
  label_kind (label_of e (event_default e)).

Fixpoint uses {R} (P : kind -> Prop) (p : prog R) : Prop :=
  match p with
  | Ret _ => True
  | Vis e k => P (event_kind e) /\ forall x, uses P (k x)
  end.

(** ** Execution against an environment *)

(** An environment with state [W] answers every call. *)
Record env (W : Type) : Type := mkEnv {
  answer : forall X, event X -> W -> X * W;
}.
Arguments answer {W} _ {X} _ _.

Fixpoint run {W R} (h : env W) (p : prog R) (w : W) : list label * R * W :=
  match p with
  | Ret r => ([], r, w)
  | Vis e k =>
      let a := answer h e w in
      let res := run h (k a.1) a.2 in
      (label_of e a.1 :: res.1.1, res.1.2, res.2)
  end.

(** A stateless environment. *)
Definition oracle : Type := forall X, event X -> X.

Definition oracle_env (o : oracle) : env unit :=
  mkEnv unit (fun X e w => (o X e, w)).

Definition run_oracle {R} (o : oracle) (p : prog R) : list label * R :=
  (run (oracle_env o) p tt).1.

(** ** Lemmas *)

Lemma label_of_inj {X} (e : event X) (x y : X) : label_of e x = label_of e y -> x = y.
Proof. destruct e; simpl; intros H; try by destruct x, y. all: congruence. Qed.

Section Kinds.
Implicit Types (k : kind) (l : label) (t : list label).

Lemma of_kind_nil k : of_kind k [] = [].
Proof. done. Qed.

Lemma of_kind_cons k l t :
  of_kind k (l :: t) =
  if decide (label_kind l = k) then l :: of_kind k t else of_kind k t.
Proof. unfold of_kind. by rewrite filter_cons. Qed.

Lemma of_kind_app k t1 t2 : of_kind k (t1 ++ t2) = of_kind k t1 ++ of_kind k t2.
Proof. apply filter_app. Qed.

Lemma of_kind_none k t :
  Forall (fun l => label_kind l <> k) t -> of_kind k t = [].
Proof.
  apply filter_none.
Qed.

Lemma elem_of_of_kind k l t : l ∈ of_kind k t <-> l ∈ t /\ label_kind l = k.
Proof. unfold of_kind. rewrite list_elem_of_filter. tauto. Qed.

End Kinds.

Section Traces.
Context {R : Type}.
Implicit Types (p q : prog R) (t : list label) (r : R).

Lemma traces_ret r t r' : traces (Ret r) t r' <-> t = [] /\ r = r'.
Proof. done. Qed.

Lemma traces_vis {X} (e : event X) (k : X -> prog R) t r :
  traces (Vis e k) t r <-> exists x t', t = label_of e x :: t' /\ traces (k x) t' r.
Proof. done. Qed.

(** A program returns one value per trace. *)
Lemma traces_functional p t r1 r2 : traces p t r1 -> traces p t r2 -> r1 = r2.
Proof.
  revert t. induction p as [r|X e k IH]; simpl; intros t.
  - by intros [_ <-] [_ <-].
  - intros (x & t1 & -> & H1) (y & t2 & Heq & H2). simplify_eq.
    apply label_of_inj in H. subst y. eauto.
Qed.

(** No trace of a program is a proper prefix of another of its traces. *)
Lemma traces_prefix_free p t1 t2 r1 r2 :
  traces p t1 r1 -> traces p (t1 ++ t2) r2 -> t2 = [].
Proof.
  revert t1. induction p as [r|X e k IH]; simpl; intros t1.
  - by intros [-> _] [H _].
  - intros (x & t & -> & H1) (y & t' & Heq & H2). simpl in Heq. simplify_eq.
    apply label_of_inj in H. subst y. eauto.
Qed.

End Traces.

Section Bind.
Context {R S : Type}.
Implicit Types (p : prog R) (f : R -> prog S) (t : list label).

Lemma bind_unfold p f : p ≫= f = bind p f.
Proof. done. Qed.

Lemma traces_bind p f t s :
  traces (p ≫= f) t s <->
  exists r t1 t2, t = t1 ++ t2 /\ traces p t1 r /\ traces (f r) t2 s.
Proof.
  rewrite bind_unfold. revert t. induction p as [r|X e k IH]; simpl; intros t.
  - split.
    + intros H. by exists r, [], t.
    + by intros (r' & t1 & t2 & -> & [-> <-] & H).
  - split.
    + intros (x & t' & -> & (r & t1 & t2 & -> & H1 & H2)%IH).
      exists r, (label_of e x :: t1), t2. eauto 10.
    + intros (r & t1 & t2 & -> & (x & t' & -> & H1) & H2).
      exists x, (t' ++ t2). split; [done|]. apply IH. eauto 10.
Qed.

End Bind.

Lemma traces_bind_inv {R S} (p : prog R) (f : R -> prog S) t s :
  traces (bind p f) t s ->
  exists r t1 t2, t = t1 ++ t2 /\ traces p t1 r /\ traces (f r) t2 s.
Proof. apply traces_bind. Qed.

(** Take a hypothesis [traces p t r] on an explicit program apart: one
    case per path of the program, the trace made explicit. *)
Ltac traces_inv :=
  repeat (simpl in *; match goal with
  | H : exists _, _ |- _ => destruct H
  | H : _ /\ _ |- _ => destruct H
  | H : traces ?p _ _ |- _ =>
      match p with context [match ?x with _ => _ end] => destruct x eqn:? end
  | H : traces (bind _ _) _ _ |- _ => apply traces_bind_inv in H
  | H : traces (_ ≫= _) _ _ |- _ => apply traces_bind_inv in H
  | _ => progress subst
  end).

(** Show [traces p t r] for an explicit program and an explicit trace:
    follow the trace through the program. *)
Ltac traces_intro :=
  repeat (simpl; match goal with
  | |- exists _ _, _ /\ _ => do 2 eexists; split; [reflexivity|]
  | |- _ /\ _ => split
  | |- _ = _ => reflexivity
  | H : ?x = _ |- context [?x] => rewrite H
  end).

Lemma traces_trigger {X} (e : event X) t x :
  traces (trigger e) t x <-> t = [label_of e x].
Proof.
  simpl. split.
  - by intros (y & t' & -> & -> & ->).
  - intros ->. by exists x, [].
Qed.

Lemma traces_defer {R} (cleanup : prog unit) (body : prog R) t r :
  traces (defer cleanup body) t r <->
  exists t1 t2, t = t1 ++ t2 /\ traces body t1 r /\ traces cleanup t2 tt.
Proof.
  unfold defer. rewrite traces_bind. split.
  - intros (r' & t1 & t2 & -> & H1 & (u & t3 & t4 & -> & H3 & H4)%traces_bind).
    destruct H4 as [-> <-]. destruct u. rewrite app_nil_r. eauto.
  - intros (t1 & t2 & -> & H1 & H2). exists r, t1, t2. split_and!; [done..|].
    apply traces_bind. exists tt, t2, []. by rewrite app_nil_r.
Qed.

(** *** The monad laws, up to trace equivalence *)

#[export] Instance prog_equiv_equivalence {R} : Equivalence (≡@{prog R}).
Proof.
  split.
  - by intros p t r.
  - intros p q H t r. symmetry. apply H.
  - intros p q s H1 H2 t r. etrans; [apply H1|apply H2].
Qed.

#[export] Instance bind_proper {R S} :
  Proper (pointwise_relation R (≡) ==> (≡) ==> (≡@{prog S})) mbind.
Proof.
  intros f g Hfg p q Hpq t s. rewrite !traces_bind.
  split; intros (r & t1 & t2 & -> & H1 & H2); exists r, t1, t2;
    (split_and!; [done|by apply Hpq|by apply Hfg]).
Qed.

#[export] Instance defer_proper {R} : Proper ((≡) ==> (≡) ==> (≡@{prog R})) defer.
Proof.
  intros c1 c2 Hc b1 b2 Hb t r. rewrite !traces_defer.
  split; intros (t1 & t2 & -> & H1 & H2); exists t1, t2;
    (split_and!; [done|by apply Hb|by apply Hc]).
Qed.

Lemma bind_ret_l {R S} (r : R) (f : R -> prog S) : mret r ≫= f = f r.
Proof. done. Qed.

Lemma bind_ret_r {R} (p : prog R) : p ≫= mret ≡ p.
Proof.
  intros t r. rewrite traces_bind. split.
  - intros (r' & t1 & t2 & -> & H & [-> <-]). by rewrite app_nil_r.
  - intros H. exists r, t, []. by rewrite app_nil_r.
Qed.

Lemma bind_assoc {R S T} (p : prog R) (f : R -> prog S) (g : S -> prog T) :
  (p ≫= f) ≫= g ≡ p ≫= (fun r => f r ≫= g).
Proof.
  intros t u. rewrite !traces_bind. split.
  - intros (s & t12 & t3 & -> & (r & t1 & t2 & -> & H1 & H2)%traces_bind & H3).
    exists r, t1, (t2 ++ t3). rewrite app_assoc. split_and!; [done..|].
    apply traces_bind. eauto 10.
  - intros (r & t1 & t23 & -> & H1 & (s & t2 & t3 & -> & H2 & H3)%traces_bind).
    exists s, (t1 ++ t2), t3. rewrite app_assoc. split_and!; [done| |done].
    apply traces_bind. eauto 10.
Qed.

(** *** Execution produces traces, and every trace is an execution *)

Lemma run_traces {W R} (h : env W) (p : prog R) (w : W) :
  traces p (run h p w).1.1 (run h p w).1.2.
Proof.
  revert w. induction p as [r|X e k IH]; simpl; intros w; eauto.
Qed.

Lemma run_bind {W R S} (h : env W) (p : prog R) (f : R -> prog S) (w : W) :
  run h (p ≫= f) w =
    let a := run h p w in
    let b := run h (f a.1.2) a.2 in (a.1.1 ++ b.1.1, b.1.2, b.2).
Proof.
  rewrite bind_unfold. revert w. induction p as [r|X e k IH]; intros w; simpl.
  - by destruct (run h (f r) w) as [[??]?].
  - by rewrite IH.
Qed.

(** Every program has a trace: the calls cannot get stuck. *)
Lemma traces_exist {R} (p : prog R) : exists t r, traces p t r.
Proof.
  exists (run_oracle (@event_default) p).1, (run_oracle (@event_default) p).2.
  apply run_traces.
Qed.

(** *** Steps *)

Section Steps.
Context {R : Type}.
Implicit Types (p q : prog R) (t : list label) (l : label).

Lemma pstep_vis {X} (e : event X) (k : X -> prog R) (x : X) :
  pstep (Vis e k) (label_of e x) (k x).
Proof. by exists x. Qed.

Lemma pstep_det p l q1 q2 : pstep p l q1 -> pstep p l q2 -> q1 = q2.
Proof.
  destruct p as [r|X e k]; simpl; [done|].
  intros (x1 & -> & ->) (x2 & Heq & ->). by apply label_of_inj in Heq as ->.
Qed.

Lemma psteps_det p t q1 q2 : p ~[t]~> q1 -> p ~[t]~> q2 -> q1 = q2.
Proof.
  revert p. induction t as [|l t IH]; simpl; intros p; [congruence|].
  intros (p1 & H1 & H1') (p2 & H2 & H2').
  rewrite (pstep_det _ _ _ _ H1 H2) in H1'. eauto.
Qed.

Lemma psteps_app p t1 t2 q :
  p ~[t1 ++ t2]~> q <-> exists p', p ~[t1]~> p' /\ p' ~[t2]~> q.
Proof.
  revert p. induction t1 as [|l t1 IH]; simpl; intros p.
  - split; [eauto|]. by intros (p' & -> & H).
  - setoid_rewrite IH. split.
    + intros (p1 & H1 & p' & H2 & H3). eauto.
    + intros (p' & (p1 & H1 & H2) & H3). eauto.
Qed.

Lemma psteps_snoc p t l q q' : p ~[t]~> q -> pstep q l q' -> p ~[t ++ [l]]~> q'.
Proof. intros H1 H2. apply psteps_app. exists q. split; [done|]. by exists q'. Qed.

(** A trace is a sequence of steps to a return. *)
Lemma traces_psteps p t r : p ⇓[t] r <-> p ~[t]~> Ret r.
Proof.
  revert p. induction t as [|l t IH]; intros p.
  - destruct p as [r'|X e k]; simpl.
    + split; [by intros [_ ->]|by intros [= ->]].
    + split; [by intros (? & ? & ? & _)|done].
  - destruct p as [r'|X e k]; simpl.
    + split; [by intros [? _]|by intros (? & [] & _)].
    + split.
      * intros (x & t' & [= -> ->] & H). exists (k x). split; [by exists x|by apply IH].
      * intros (p' & (x & -> & ->) & H). exists x, t. split; [done|by apply IH].
Qed.

(** What a program has done is a prefix of every trace it can still
    complete. *)
Lemma psteps_traces p t q t' r : p ~[t]~> q -> q ⇓[t'] r -> p ⇓[t ++ t'] r.
Proof.
  rewrite !traces_psteps. intros H1 H2. apply psteps_app. eauto.
Qed.

Lemma psteps_prefix p t q : p ~[t]~> q -> exists t' r, p ⇓[t ++ t'] r.
Proof.
  intros H. destruct (traces_exist q) as (t' & r & Hq).
  exists t', r. by eapply psteps_traces.
Qed.

Lemma bounded_psteps p n t q :
  bounded p n -> p ~[t]~> q -> (length t <= n)%nat /\ bounded q (n - length t).
Proof.
  revert p n. induction t as [|l t IH]; simpl; intros p n Hb.
  - intros <-. split; [lia|]. by rewrite Nat.sub_0_r.
  - intros (p' & Hs & Hq). destruct p as [r|X e k]; [done|].
    destruct Hs as (x & -> & ->). destruct n as [|n]; [done|].
    destruct (IH _ _ (Hb x) Hq). split; [lia|done].
Qed.

End Steps.

(** Every call is on a package of the import block, and the import
    block names no package twice. *)
Lemma imports_cover_calls (k : kind) :
  NoDup imports /\ (k <> KGo -> exists p, kind_package k = Some p /\ p ∈ imports).
Proof.
  split; [by apply (bool_decide_unpack _)|].
  destruct k; intros Hk; try done; eexists; (split; [done|]); by apply (bool_decide_unpack _).
Qed.

(** *** Footprints *)

Lemma label_kind_label_of {X} (e : event X) (x : X) :
  label_kind (label_of e x) = event_kind e.
Proof. by destruct e. Qed.

Section Uses.
Context (P : kind -> Prop).

Lemma uses_bind {R S} (p : prog R) (f : R -> prog S) :
  uses P p -> (forall r, uses P (f r)) -> uses P (p ≫= f).
Proof.
  rewrite bind_unfold. intros Hp Hf. induction p as [r|X e k IH]; simpl in *; [done|].
  destruct Hp as [He Hk]. split; [done|]. intros x. by apply IH.
Qed.

Lemma uses_trigger {X} (e : event X) : P (event_kind e) -> uses P (trigger e).
Proof. by split. Qed.

(** A trace of a program holds calls of its footprint only. *)
Lemma uses_traces {R} (p : prog R) t r :
  uses P p -> traces p t r -> Forall (fun l => P (label_kind l)) t.
Proof.
  revert t. induction p as [r'|X e k IH]; simpl; intros t Hp.
  - by intros [-> _].
  - intros (x & t' & -> & H). destruct Hp as [He Hk].
    apply Forall_cons. rewrite label_kind_label_of. eauto.
Qed.

End Uses.

Lemma uses_weaken {R} (P Q : kind -> Prop) (p : prog R) :
  (forall k, P k -> Q k) -> uses P p -> uses Q p.
Proof. intros HPQ. induction p as [r|X e k IH]; simpl; [done|]. intros [??]. eauto. Qed.

#[export] Hint Rewrite @traces_bind @traces_defer @traces_trigger : mock_rw.
#[export] Hint Rewrite of_kind_nil of_kind_cons of_kind_app : mock_rw.
