(* ===== verification/Handler.v ===== *)
(** * Handler: [handleConnection] (lines 46-75)

    The handler is modelled call by call: the deferred [c.Close()], the
    timed [c.Read], the debug line, [json.Unmarshal], the [switch] on
    [pairs["request"]], the timed [c.Write] of the canned response and
    the four warnings.  Its timeouts are
    [time.Second * time.Duration(tFlag)], a 64-bit product ([seconds]).

    [handled] lists the five paths of the handler with the calls each
    performs; [handleConnection_paths] proves that the traces of the
    model are exactly these.  The properties of the specification (what
    is answered to which request, that nothing is written on the error
    paths, that the connection is closed last and once, that only the
    connection and the log are touched) follow from it.  They hold for
    every decoder and every behaviour of the peer. *)

From Stdlib Require Import ZArith Lia.
From S2P Require Import Prelude Options Json Effects.

#[local] Open Scope Z_scope.

(** ** Durations (lines 49 and 65) *)

(** [time.Second], in nanoseconds. *)
Definition time_Second : duration := 1000000000.

(** [time.Second * time.Duration(tFlag)]: a product of 64-bit signed
    integers, which wraps around. *)
Definition seconds (tFlag : Z) : duration := wrap64 (time_Second * tFlag).

(** ** The handler *)

Section Handler.
Context {J : JsonPkg}.

Definition handleConnection (c : conn) (activeChecks : bytes) (tFlag : Z) : prog unit :=
  defer (trigger (ConnClose c)) (
    r ← trigger (ConnRead c (seconds tFlag));
    match r with
    | Fail err => trigger (Logf Warningf ("Read failed: %s" +:+ nl) [AError err])
    | Ok js =>
        trigger (Logf Debugf "got '%s'" [AString (string_of_bytes js)]);;
        match unmarshal js with
        | Fail err => trigger (Logf Warningf ("Unmarshal failed: %s" +:+ nl) [AError err])
        | Ok pairs =>
            if iface_eq_string (index pairs "request") "active checks" then
              err ← trigger (ConnWrite c activeChecks (seconds tFlag));
              match err with
              | Some err => trigger (Logf Warningf ("Write failed: %s" +:+ nl) [AError err])
              | None => mret tt
              end
            else
              trigger (Logf Warningf ("Unsupported request: %s" +:+ nl)
                         [AIface (index pairs "request")])
        end
    end).

(** ** The five paths of the handler *)

Definition got (js : bytes) : label :=
  LLogf Debugf "got '%s'" [AString (string_of_bytes js)].

Definition warning (what : string) (a : arg) : label :=
  LLogf Warningf (what +:+ ": %s" +:+ nl) [a].

Inductive handled (c : conn) (ac : bytes) (d : duration) : list label -> Prop :=
| handled_read_error e :
    handled c ac d
      [LConnRead c d (Fail e); warning "Read failed" (AError e); LConnClose c]
| handled_decode_error js e :
    unmarshal js = Fail e ->
    handled c ac d
      [LConnRead c d (Ok js); got js; warning "Unmarshal failed" (AError e); LConnClose c]
| handled_responded js pairs :
    unmarshal js = Ok pairs ->
    pairs !! "request"%string = Some (IString "active checks") ->
    handled c ac d
      [LConnRead c d (Ok js); got js; LConnWrite c ac d None; LConnClose c]
| handled_write_error js pairs e :
    unmarshal js = Ok pairs ->
    pairs !! "request"%string = Some (IString "active checks") ->
    handled c ac d
      [LConnRead c d (Ok js); got js; LConnWrite c ac d (Some e);
       warning "Write failed" (AError e); LConnClose c]
| handled_unsupported js pairs :
    unmarshal js = Ok pairs ->
    pairs !! "request"%string <> Some (IString "active checks") ->
    handled c ac d
      [LConnRead c d (Ok js); got js;
       warning "Unsupported request" (AIface (index pairs "request")); LConnClose c].

(** The answers of the peer to the two calls the handler can make on the
    connection; it decides which path is taken. *)
Record peer : Type := mkPeer {
  peer_read : result bytes;
  peer_write : option error;
}.

Definition peer_oracle (p : peer) : oracle :=
  fun X e =>
    match e with
    | ConnRead _ _ => peer_read p
    | ConnWrite _ _ _ => peer_write p
    | e' => event_default e'
    end.

(** The calls of the handler against a given peer. *)
Definition handler_run (p : peer) (c : conn) (ac : bytes) (tFlag : Z) : list label :=
  (run_oracle (peer_oracle p) (handleConnection c ac tFlag)).1.

End Handler.

#[export] Hint Constructors handled : mock.

(** ** Theorems *)

Section Durations.
Implicit Types tFlag : Z.

Lemma seconds_exact tFlag :
  in_int64 (time_Second * tFlag) -> seconds tFlag = time_Second * tFlag.
Proof. apply wrap64_small. Qed.

(** For every timeout the configuration allows (1..30 seconds) the
    duration passed to Read and Write is that many seconds in
    nanoseconds: the 64-bit product does not wrap, and the deadline is
    positive and at most thirty seconds. *)
Theorem seconds_valid_timeout o :
  options_valid o ->
  seconds (Timeout o) = 1000000000 * Timeout o /\
  1000000000 <= seconds (Timeout o) <= 30000000000.
Proof.
  rewrite options_valid_ranges. intros (_ & _ & H).
  rewrite seconds_exact; unfold time_Second, in_int64, int64_min, int64_max; lia.
Qed.

(** C38: The deadline is the timeout in nanoseconds exactly for the
    timeouts between -9223372036 and 9223372036 seconds; outside that
    range the 64-bit product wraps, and 9223372037 seconds become a
    negative duration.  The handler itself does not check its
    argument. *)
Theorem seconds_wraps tFlag :
  (seconds tFlag = 1000000000 * tFlag <-> -9223372036 <= tFlag <= 9223372036) /\
  seconds 9223372037 = -9223372036709551616.
Proof.
  split; [|by vm_compute]. unfold seconds, time_Second.
  rewrite wrap64_eq_iff. unfold in_int64, int64_min, int64_max. lia.
Qed.

Lemma seconds_range tFlag : in_int64 (seconds tFlag).
Proof. apply wrap64_range. Qed.

End Durations.

Section HandlerFacts.
Context {J : JsonPkg}.
Implicit Types (c : conn) (ac js : bytes) (tFlag : Z) (t : list label).

(** The traces of [handleConnection] are exactly the five paths: read
    error; decode error; canned response written; write error;
    unsupported request. *)
Lemma handleConnection_paths c ac tFlag t :
  traces (handleConnection c ac tFlag) t tt <-> handled c ac (seconds tFlag) t.
Proof.
  unfold handleConnection. split.
  - intros H. traces_inv;
      repeat match goal with
        | H : iface_eq_string _ _ = true |- _ => rewrite index_eq_string in H
        | H : iface_eq_string _ _ = false |- _ => rewrite index_neq_string in H
        end; eauto with mock.
  - intros [];
      repeat match goal with
        | H : _ !! _ = Some _ |- _ => rewrite <- index_eq_string in H
        | H : _ !! _ <> Some _ |- _ => rewrite <- index_neq_string in H
        end; traces_intro.
Qed.

(** Every path starts with the Read, ends with the deferred Close and
    has three to five calls. *)
Lemma handled_last c ac d t : handled c ac d t -> last t = Some (LConnClose c).
Proof. by intros []. Qed.

Lemma handled_head c ac d t :
  handled c ac d t -> exists r, head t = Some (LConnRead c d r).
Proof. intros []; simpl; eauto. Qed.

Lemma handled_length c ac d t : handled c ac d t -> (3 <= length t <= 5)%nat.
Proof. intros []; simpl; lia. Qed.

Lemma handled_closes c ac d t : handled c ac d t -> filter is_close t = [LConnClose c].
Proof. by intros []. Qed.

(** Nothing follows the Close. *)
Lemma handled_close_last c ac d t t' :
  handled c ac d (t ++ t') -> LConnClose c ∈ t -> t' = [].
Proof.
  intros H Hin. pose proof (handled_closes _ _ _ _ H) as Hf.
  pose proof (handled_last _ _ _ _ H) as Hl.
  destruct t' as [|l t'] using rev_ind; [done|]. clear IHt'.
  rewrite app_assoc, last_snoc in Hl. simplify_eq.
  rewrite app_assoc, !filter_app in Hf. apply (f_equal length) in Hf.
  rewrite !length_app in Hf. simpl in Hf.
  assert (0 < length (filter is_close t))%nat; [|lia].
  assert (LConnClose c ∈ filter is_close t) as Hin' by (by apply list_elem_of_filter).
  destruct (filter is_close t); [by apply elem_of_nil in Hin'|simpl; lia].
Qed.

(** A path has two or three calls on the connection. *)
Lemma handled_conn_length c ac d t :
  handled c ac d t -> (length (filter (fun l => label_conn l = Some c) t) <= 3)%nat.
Proof.
  intros []; unfold got, warning; rewrite ?filter_cons, ?filter_nil; simpl;
    repeat case_decide; simpl; lia.
Qed.

(** Case analysis on the path of a trace of the handler, with the
    equations on the decoder rewritten. *)
Ltac handled_cases H :=
  rewrite handleConnection_paths in H; destruct H; unify_eqs;
  rewrite ?decide_True by done; try done.

(** C1: A request that decodes to a map whose "request" is the string
    "active checks" is answered with exactly the canned response, in one
    Write with the configured timeout, and the connection is closed
    afterwards. *)
Theorem active_checks_answered c ac tFlag t js pairs :
  traces (handleConnection c ac tFlag) t tt ->
  head t = Some (LConnRead c (seconds tFlag) (Ok js)) ->
  unmarshal js = Ok pairs ->
  pairs !! "request"%string = Some (IString "active checks") ->
  written c t = [ac] /\
  (exists r, filter is_write t = [LConnWrite c ac (seconds tFlag) r]) /\
  last t = Some (LConnClose c).
Proof. intros H Hhd Hjs Hreq. unfold written. handled_cases H; eauto. Qed.

(** C23: A request whose "request" is anything but the string "active
    checks" (another string, another type, null, or no such key) gets no
    response: no Write is made, a warning names the value, and the
    connection is closed. *)
Theorem other_request_dropped c ac tFlag t js pairs :
  traces (handleConnection c ac tFlag) t tt ->
  head t = Some (LConnRead c (seconds tFlag) (Ok js)) ->
  unmarshal js = Ok pairs ->
  pairs !! "request"%string <> Some (IString "active checks") ->
  filter is_write t = [] /\
  warning "Unsupported request" (AIface (index pairs "request")) ∈ t /\
  last t = Some (LConnClose c).
Proof.
  intros H Hhd Hjs Hreq. handled_cases H; try done.
  split_and!; [done|elem_of_intro|done].
Qed.

(** C24: A message that does not decode gets no response: no Write is
    made, a warning carries the decoder's error, and the connection is
    closed. *)
Theorem malformed_request_dropped c ac tFlag t js e :
  traces (handleConnection c ac tFlag) t tt ->
  head t = Some (LConnRead c (seconds tFlag) (Ok js)) ->
  unmarshal js = Fail e ->
  filter is_write t = [] /\
  warning "Unmarshal failed" (AError e) ∈ t /\
  last t = Some (LConnClose c).
Proof.
  intros H Hhd Hjs. handled_cases H; try done.
  split_and!; [done|elem_of_intro|done].
Qed.

(** C25: When the Read fails (timeout, malformed frame, reset) the
    handler logs one warning with the error and closes: nothing is
    decoded and nothing is written. *)
Theorem read_error_dropped c ac tFlag t e :
  traces (handleConnection c ac tFlag) t tt ->
  head t = Some (LConnRead c (seconds tFlag) (Fail e)) ->
  t = [LConnRead c (seconds tFlag) (Fail e); warning "Read failed" (AError e);
       LConnClose c].
Proof. intros H Hhd. by handled_cases H. Qed.

(** C26: A failed Write is logged with its error and the connection is
    still closed; the handler does not retry. *)
Theorem write_error_logged c ac tFlag t data d e :
  traces (handleConnection c ac tFlag) t tt ->
  LConnWrite c data d (Some e) ∈ t ->
  warning "Write failed" (AError e) ∈ t /\
  length (filter is_write t) = 1%nat /\
  last t = Some (LConnClose c).
Proof.
  intros H Hin. handled_cases H; elem_of_inv.
  split_and!; [elem_of_intro|done..].
Qed.

(** C2: On every path the connection is closed exactly once, and the
    Close is the last call of the handler. *)
Theorem closed_exactly_once c ac tFlag t :
  traces (handleConnection c ac tFlag) t tt ->
  filter is_close t = [LConnClose c] /\ last t = Some (LConnClose c).
Proof. intros H. by handled_cases H. Qed.

(** On every path the connection is read exactly once, first, and
    written at most once. *)
Theorem read_once_write_at_most_once c ac tFlag t :
  traces (handleConnection c ac tFlag) t tt ->
  (exists r, head t = Some (LConnRead c (seconds tFlag) r) /\
             filter is_read t = [LConnRead c (seconds tFlag) r]) /\
  (length (filter is_write t) <= 1)%nat.
Proof. intros H. handled_cases H; eauto. Qed.

(** The handler touches its own connection and the log, nothing
    else: every call is a Read, Write or Close on [c] or a log line. *)
Theorem handler_footprint c ac tFlag t :
  traces (handleConnection c ac tFlag) t tt ->
  Forall (fun l => label_conn l = Some c \/ is_log l = true) t.
Proof.
  intros H. handled_cases H; repeat apply Forall_cons_2; try apply Forall_nil_2; simpl; auto.
Qed.

(** C3: Whatever is written is the canned response, and it is written
    only for a decoded "active checks" request. *)
Theorem response_only_on_request c ac tFlag t c' data d r :
  traces (handleConnection c ac tFlag) t tt ->
  LConnWrite c' data d r ∈ t ->
  c' = c /\ data = ac /\ d = seconds tFlag /\
  exists js pairs,
    head t = Some (LConnRead c (seconds tFlag) (Ok js)) /\
    unmarshal js = Ok pairs /\
    pairs !! "request"%string = Some (IString "active checks").
Proof.
  intros H Hin. handled_cases H; elem_of_inv; eauto 10.
Qed.

(** The run against a peer is a trace. *)
Lemma handler_run_traces (p : peer) c ac tFlag :
  traces (handleConnection c ac tFlag) (handler_run p c ac tFlag) tt.
Proof.
  unfold handler_run, run_oracle.
  pose proof (run_traces (oracle_env (peer_oracle p)) (handleConnection c ac tFlag) tt) as H.
  by destruct (run _ _ _).1.2.
Qed.

(** The handler terminates against every peer: its run is one of the
    five paths, so it makes three to five calls, the first a Read and the
    last the Close. *)
Theorem handler_run_handled (p : peer) c ac tFlag :
  handled c ac (seconds tFlag) (handler_run p c ac tFlag) /\
  (3 <= length (handler_run p c ac tFlag) <= 5)%nat /\
  head (handler_run p c ac tFlag) = Some (LConnRead c (seconds tFlag) (peer_read p)) /\
  last (handler_run p c ac tFlag) = Some (LConnClose c).
Proof.
  pose proof (handler_run_traces p c ac tFlag) as H.
  apply handleConnection_paths in H.
  split_and!; [done| | |reflexivity|by eapply handled_last];
    apply handled_length in H; lia.
Qed.

(** The executable run covers every behaviour: a list of calls is a
    trace of the handler exactly when it is its run against some peer. *)
Theorem handler_run_complete c ac tFlag t :
  traces (handleConnection c ac tFlag) t tt <->
  exists p, t = handler_run p c ac tFlag.
Proof.
  split; [|intros [p ->]; apply handler_run_traces].
  rewrite handleConnection_paths. unfold handler_run, run_oracle, handleConnection.
  intros [e|js e H|js m H Hr|js m e H Hr|js m H Hr];
    [exists (mkPeer (Fail e) None) | exists (mkPeer (Ok js) None)
    |exists (mkPeer (Ok js) None) | exists (mkPeer (Ok js) (Some e))
    |exists (mkPeer (Ok js) None)]; simpl;
    repeat match goal with
      | H : _ !! _ = Some _ |- _ => rewrite <- index_eq_string in H
      | H : _ !! _ <> Some _ |- _ => rewrite <- index_neq_string in H
      | H : ?x = _ |- context [?x] => rewrite H; simpl
      end; done.
Qed.

(** The trace of the handler is determined by the answers of the peer. *)
Lemma handled_deterministic c ac d t1 t2 :
  handled c ac d t1 -> handled c ac d t2 ->
  head t1 = head t2 -> filter is_write t1 = filter is_write t2 -> t1 = t2.
Proof. intros [] []; intros; by unify_eqs. Qed.

End HandlerFacts.

(** ** Concrete scenarios and witnesses

    The scenarios of the specification, run against the table decoder
    [sample_json]: connection 7, canned response AC1, timeout 5 s. *)

Definition sample_conn : conn := 7%nat.
Definition canned : bytes := bytes_of_string "AC1".
Definition active_request : bytes := bytes_of_string (request_text "active checks").
Definition ping_request : bytes := bytes_of_string (request_text "ping").
Definition garbage : bytes := bytes_of_string "not-json".
Definition active_map : gmap string iface :=
  {[ "request"%string := IString "active checks" ]}.
Definition ping_map : gmap string iface :=
  {[ "request"%string := IString "ping" ]}.

Definition scenario (rd : result bytes) (wr : option error) : list label :=
  @handler_run sample_json (mkPeer rd wr) sample_conn canned 5.

Lemma scenario_traces rd wr :
  traces (@handleConnection sample_json sample_conn canned 5) (scenario rd wr) tt.
Proof. apply handler_run_traces. Qed.

(** Scenario 1: the request is answered with exactly AC1. *)
Example scenario_active_checks :
  scenario (Ok active_request) None =
  [LConnRead sample_conn 5000000000 (Ok active_request); got active_request;
   LConnWrite sample_conn canned 5000000000 None; LConnClose sample_conn].
Proof. by vm_compute. Qed.

(** Scenario 2: ping is refused with a warning that names it. *)
Example scenario_ping :
  scenario (Ok ping_request) None =
  [LConnRead sample_conn 5000000000 (Ok ping_request); got ping_request;
   warning "Unsupported request" (AIface (IString "ping")); LConnClose sample_conn].
Proof. by vm_compute. Qed.

(** Scenario 3: a payload that is not JSON. *)
Example scenario_not_json :
  scenario (Ok garbage) None =
  [LConnRead sample_conn 5000000000 (Ok garbage); got garbage;
   warning "Unmarshal failed" (AError "invalid character"); LConnClose sample_conn].
Proof. by vm_compute. Qed.

(** Scenario 4: the peer sends nothing until the timeout elapses. *)
Example scenario_timeout :
  scenario (Fail "i/o timeout") None =
  [LConnRead sample_conn 5000000000 (Fail "i/o timeout");
   warning "Read failed" (AError "i/o timeout"); LConnClose sample_conn].
Proof. by vm_compute. Qed.

Lemma seconds_valid_timeout_witness :
  seconds (Timeout default_options) = 1000000000 * Timeout default_options /\
  1000000000 <= seconds (Timeout default_options) <= 30000000000.
Proof. apply seconds_valid_timeout, default_options_valid. Defined.

Lemma active_checks_answered_witness :
  written sample_conn (scenario (Ok active_request) None) = [canned] /\
  (exists r, filter is_write (scenario (Ok active_request) None) =
             [LConnWrite sample_conn canned (seconds 5) r]) /\
  last (scenario (Ok active_request) None) = Some (LConnClose sample_conn).
Proof.
  apply (@active_checks_answered sample_json sample_conn canned 5 _
           active_request active_map); [apply scenario_traces|by vm_compute..].
Defined.

Lemma other_request_dropped_witness :
  filter is_write (scenario (Ok ping_request) None) = [] /\
  @warning "Unsupported request" (AIface (index ping_map "request"))
    ∈ scenario (Ok ping_request) None /\
  last (scenario (Ok ping_request) None) = Some (LConnClose sample_conn).
Proof.
  apply (@other_request_dropped sample_json sample_conn canned 5 _
           ping_request ping_map); [apply scenario_traces|by vm_compute..].
Defined.

Lemma malformed_request_dropped_witness :
  filter is_write (scenario (Ok garbage) None) = [] /\
  warning "Unmarshal failed" (AError "invalid character") ∈ scenario (Ok garbage) None /\
  last (scenario (Ok garbage) None) = Some (LConnClose sample_conn).
Proof.
  apply (@malformed_request_dropped sample_json sample_conn canned 5 _ garbage);
    [apply scenario_traces|by vm_compute..].
Defined.

Lemma read_error_dropped_witness :
  scenario (Fail "i/o timeout") None =
  [LConnRead sample_conn (seconds 5) (Fail "i/o timeout");
   warning "Read failed" (AError "i/o timeout"); LConnClose sample_conn].
Proof.
  apply (@read_error_dropped sample_json sample_conn canned 5);
    [apply scenario_traces|by vm_compute].
Defined.

Lemma write_error_logged_witness :
  warning "Write failed" (AError "broken pipe")
    ∈ scenario (Ok active_request) (Some "broken pipe"%string) /\
  length (filter is_write (scenario (Ok active_request) (Some "broken pipe"%string))) = 1%nat /\
  last (scenario (Ok active_request) (Some "broken pipe"%string))
  = Some (LConnClose sample_conn).
Proof.
  apply (@write_error_logged sample_json sample_conn canned 5 _ canned (seconds 5));
    [apply scenario_traces|vm_compute; elem_of_intro].
Defined.

Lemma closed_exactly_once_witness :
  filter is_close (scenario (Ok garbage) None) = [LConnClose sample_conn] /\
  last (scenario (Ok garbage) None) = Some (LConnClose sample_conn).
Proof. apply (@closed_exactly_once sample_json _ canned 5), scenario_traces. Defined.

Lemma read_once_write_at_most_once_witness :
  (exists r, head (scenario (Ok active_request) None)
             = Some (LConnRead sample_conn (seconds 5) r) /\
             filter is_read (scenario (Ok active_request) None)
             = [LConnRead sample_conn (seconds 5) r]) /\
  (length (filter is_write (scenario (Ok active_request) None)) <= 1)%nat.
Proof. apply (@read_once_write_at_most_once sample_json _ canned 5), scenario_traces. Defined.

Lemma handler_footprint_witness :
  Forall (fun l => label_conn l = Some sample_conn \/ is_log l = true)
    (scenario (Ok ping_request) None).
Proof. apply (@handler_footprint sample_json _ canned 5), scenario_traces. Defined.

Lemma response_only_on_request_witness :
  sample_conn = sample_conn /\ canned = canned /\ seconds 5 = seconds 5 /\
  exists js pairs,
    head (scenario (Ok active_request) None)
    = Some (LConnRead sample_conn (seconds 5) (Ok js)) /\
    @unmarshal sample_json js = Ok pairs /\
    pairs !! "request"%string = Some (IString "active checks").
Proof.
  apply (@response_only_on_request sample_json sample_conn canned 5
           (scenario (Ok active_request) None) sample_conn canned (seconds 5) None);
    [apply scenario_traces|vm_compute; elem_of_intro].
Defined.
