(* ===== verification/ConnSM.v ===== *)
(** * ConnSM: the per-connection state machine of the specification

    The specification describes the handling of one connection as a
    state machine: Accepted, then Reading, from there Closed on a read
    error or Decoding, from there Closed on a decode error or
    Dispatching, from there Writing and then Closed, or Closed for an
    unsupported request.  All paths end in Closed and no state is entered
    twice.

    [phase] and [phase_edge] are that machine.  [sm_step] is the same
    machine with what makes it checkable against the code: a state
    carries the message or the decoded map the guards of its transitions
    read, and a transition carries the calls made while it is taken (the
    Read is observed when Reading is left, the Write when Writing is
    left, the Close when Closed is entered).  [sm_refinement] proves
    that the calls of [handleConnection] are exactly the runs of the
    machine from Accepted to Closed. *)

From Stdlib Require Import ZArith Lia.
From S2P Require Import Prelude Options Json Effects Handler.

(** ** The machine of the specification *)

Inductive phase : Type :=
| Accepted | Reading | Decoding | Dispatching | Writing | Closed.

#[export] Instance phase_eq_dec : EqDecision phase.
Proof. solve_decision. Defined.

Definition phase_edge (p q : phase) : bool :=
  match p, q with
  | Accepted, Reading
  | Reading, Closed | Reading, Decoding
  | Decoding, Closed | Decoding, Dispatching
  | Dispatching, Writing | Dispatching, Closed
  | Writing, Closed => true
  | _, _ => false
  end.

(** The number of transitions that can still follow. *)
Definition rank (p : phase) : nat :=
  match p with
  | Accepted => 5 | Reading => 4 | Decoding => 3
  | Dispatching => 2 | Writing => 1 | Closed => 0
  end.

(** ** The machine with data and calls *)

Inductive cstate : Type :=
| SAccepted
| SReading
| SDecoding (js : bytes)
| SDispatching (pairs : gmap string iface)
| SWriting
| SClosed.

Definition phase_of (s : cstate) : phase :=
  match s with
  | SAccepted => Accepted
  | SReading => Reading
  | SDecoding _ => Decoding
  | SDispatching _ => Dispatching
  | SWriting => Writing
  | SClosed => Closed
  end.

Section Machine.
Context {J : JsonPkg}.
Context (c : conn) (ac : bytes) (d : duration).

Inductive sm_step : cstate -> list label -> cstate -> Prop :=
| sm_start :
    sm_step SAccepted [] SReading
| sm_read_error e :
    sm_step SReading
      [LConnRead c d (Fail e); warning "Read failed" (AError e); LConnClose c] SClosed
| sm_read_ok js :
    sm_step SReading [LConnRead c d (Ok js); got js] (SDecoding js)
| sm_decode_error js e :
    unmarshal js = Fail e ->
    sm_step (SDecoding js) [warning "Unmarshal failed" (AError e); LConnClose c] SClosed
| sm_decode_ok js pairs :
    unmarshal js = Ok pairs ->
    sm_step (SDecoding js) [] (SDispatching pairs)
| sm_dispatch_active pairs :
    pairs !! "request"%string = Some (IString "active checks") ->
    sm_step (SDispatching pairs) [] SWriting
| sm_dispatch_unsupported pairs :
    pairs !! "request"%string <> Some (IString "active checks") ->
    sm_step (SDispatching pairs)
      [warning "Unsupported request" (AIface (index pairs "request")); LConnClose c] SClosed
| sm_write_ok :
    sm_step SWriting [LConnWrite c ac d None; LConnClose c] SClosed
| sm_write_error e :
    sm_step SWriting
      [LConnWrite c ac d (Some e); warning "Write failed" (AError e); LConnClose c] SClosed.

(** Runs: the calls of consecutive transitions, concatenated. *)
Inductive sm_run : cstate -> list label -> cstate -> Prop :=
| sm_run_refl s : sm_run s [] s
| sm_run_step s1 l1 s2 l2 s3 :
    sm_step s1 l1 s2 -> sm_run s2 l2 s3 -> sm_run s1 (l1 ++ l2) s3.

(** The number of transitions of a run. *)
Inductive sm_run_n : nat -> cstate -> list label -> cstate -> Prop :=
| sm_run_n_O s : sm_run_n 0 s [] s
| sm_run_n_S n s1 l1 s2 l2 s3 :
    sm_step s1 l1 s2 -> sm_run_n n s2 l2 s3 -> sm_run_n (S n) s1 (l1 ++ l2) s3.

End Machine.

#[export] Hint Constructors sm_step sm_run : mock.

(** ** Theorems *)

(** Invert a step or a run that starts in a known state. *)
Ltac sm_inv :=
  repeat match goal with
    | H : sm_step _ _ _ SAccepted _ _ |- _ => inversion H; clear H; subst
    | H : sm_step _ _ _ SReading _ _ |- _ => inversion H; clear H; subst
    | H : sm_step _ _ _ (SDecoding _) _ _ |- _ => inversion H; clear H; subst
    | H : sm_step _ _ _ (SDispatching _) _ _ |- _ => inversion H; clear H; subst
    | H : sm_step _ _ _ SWriting _ _ |- _ => inversion H; clear H; subst
    | H : sm_step _ _ _ SClosed _ _ |- _ => inversion H
    | H : sm_run _ _ _ SAccepted _ SClosed |- _ => inversion H; clear H; subst
    | H : sm_run _ _ _ SReading _ SClosed |- _ => inversion H; clear H; subst
    | H : sm_run _ _ _ (SDecoding _) _ SClosed |- _ => inversion H; clear H; subst
    | H : sm_run _ _ _ (SDispatching _) _ SClosed |- _ => inversion H; clear H; subst
    | H : sm_run _ _ _ SWriting _ SClosed |- _ => inversion H; clear H; subst
    | H : sm_run _ _ _ SClosed _ _ |- _ => inversion H; clear H; subst
    end.

Section MachineFacts.
Context {J : JsonPkg}.
Implicit Types (c : conn) (ac : bytes) (d : duration) (s : cstate) (t : list label).

(** The machine with data has the transitions of the
    specification's machine and no other. *)
Theorem sm_step_edge c ac d s l s' :
  sm_step c ac d s l s' -> phase_edge (phase_of s) (phase_of s') = true.
Proof. by intros []. Qed.

Lemma phase_edge_rank p q : phase_edge p q = true -> (rank q < rank p)%nat.
Proof. destruct p, q; simpl; intros; try done; lia. Qed.

Lemma sm_step_rank c ac d s l s' :
  sm_step c ac d s l s' -> (rank (phase_of s') < rank (phase_of s))%nat.
Proof. intros []; simpl; lia. Qed.

Lemma sm_run_n_rank c ac d n s l s' :
  sm_run_n c ac d n s l s' -> (rank (phase_of s') + n <= rank (phase_of s))%nat.
Proof.
  induction 1 as [|n s1 l1 s2 l2 s3 Hs _ IH]; simpl; [lia|].
  apply sm_step_rank in Hs. lia.
Qed.

Lemma sm_run_run_n c ac d s l s' :
  sm_run c ac d s l s' <-> exists n, sm_run_n c ac d n s l s'.
Proof.
  split.
  - induction 1 as [|s1 l1 s2 l2 s3 Hs _ [n IH]]; eauto using sm_run_n.
  - intros [n H]. induction H; eauto with mock.
Qed.

(** Every run of the machine is finite and enters no state twice:
    a run has at most five transitions, at most as many as the rank of
    its first state, and a run that comes back to the phase it started
    from has made no transition. *)
Theorem sm_no_reentry c ac d n s l s' :
  sm_run_n c ac d n s l s' ->
  (n <= rank (phase_of s) <= 5)%nat /\
  (phase_of s' = phase_of s -> n = 0%nat /\ l = []).
Proof.
  intros H. pose proof (sm_run_n_rank _ _ _ _ _ _ _ H) as Hr.
  split; [destruct s; simpl in *; lia|].
  intros Heq. rewrite Heq in Hr. destruct H; [done|lia].
Qed.

(** Closed is final. *)
Lemma sm_closed_final c ac d l s : ~ sm_step c ac d SClosed l s.
Proof. inversion 1. Qed.

(** Every state but Closed has a transition, whatever the decoder
    returns: the only state a run can stop in is Closed. *)
Theorem sm_progress c ac d s :
  s <> SClosed -> exists l s', sm_step c ac d s l s'.
Proof.
  destruct s as [| |js|pairs| |]; intros Hs; try done.
  - do 2 eexists. apply sm_start.
  - do 2 eexists. apply (sm_read_ok c ac d []).
  - destruct (unmarshal js) eqn:E; do 2 eexists;
      [by apply sm_decode_ok|by apply sm_decode_error].
  - destruct (iface_eq_string (index pairs "request") "active checks") eqn:E;
      [rewrite index_eq_string in E|rewrite index_neq_string in E]; do 2 eexists;
      [by apply sm_dispatch_active|by apply sm_dispatch_unsupported].
  - do 2 eexists. apply sm_write_ok.
Qed.

(** The paths of the handler are the runs from Accepted to Closed. *)
Lemma handled_sm_run c ac d t :
  handled c ac d t <-> sm_run c ac d SAccepted t SClosed.
Proof.
  split.
  - intros [e|js e H|js m H Hr|js m H Hr e|js m H Hr].
    + eapply (sm_run_step _ _ _ _ []); [constructor|].
      eapply (sm_run_step _ _ _ _ [_; _; _] _ []); constructor.
    + eapply (sm_run_step _ _ _ _ []); [constructor|].
      eapply (sm_run_step _ _ _ _ [_; _] _ [_; _]); [constructor|].
      eapply (sm_run_step _ _ _ _ [_; _] _ []); [by constructor|constructor].
    + eapply (sm_run_step _ _ _ _ []); [constructor|].
      eapply (sm_run_step _ _ _ _ [_; _] _ [_; _]); [constructor|].
      eapply (sm_run_step _ _ _ _ [] _ [_; _]); [by constructor|].
      eapply (sm_run_step _ _ _ _ [] _ [_; _]); [by constructor|].
      eapply (sm_run_step _ _ _ _ [_; _] _ []); constructor.
    + eapply (sm_run_step _ _ _ _ []); [constructor|].
      eapply (sm_run_step _ _ _ _ [_; _] _ [_; _; _]); [constructor|].
      eapply (sm_run_step _ _ _ _ [] _ [_; _; _]); [by constructor|].
      eapply (sm_run_step _ _ _ _ [] _ [_; _; _]); [by constructor|].
      eapply (sm_run_step _ _ _ _ [_; _; _] _ []); constructor.
    + eapply (sm_run_step _ _ _ _ []); [constructor|].
      eapply (sm_run_step _ _ _ _ [_; _] _ [_; _]); [constructor|].
      eapply (sm_run_step _ _ _ _ [] _ [_; _]); [by constructor|].
      eapply (sm_run_step _ _ _ _ [_; _] _ []); [by constructor|constructor].
  - intros H. sm_inv; simpl; eauto with mock.
Qed.

(** C7: The handler refines the machine: its traces are exactly the
    runs of the machine from Accepted to Closed, with the timeout of the
    handler as the deadline of the Read and the Write. *)
Theorem sm_refinement c ac tFlag t :
  traces (handleConnection c ac tFlag) t tt <->
  sm_run c ac (seconds tFlag) SAccepted t SClosed.
Proof. rewrite handleConnection_paths. apply handled_sm_run. Qed.

End MachineFacts.

(** ** The theorems on a sample connection *)

Lemma sm_step_edge_witness : phase_edge Reading Decoding = true.
Proof.
  apply (@sm_step_edge sample_json sample_conn canned (seconds 5) SReading
           [LConnRead sample_conn (seconds 5) (Ok active_request); got active_request]
           (SDecoding active_request)).
  apply sm_read_ok.
Defined.

Lemma sm_no_reentry_witness :
  (2 <= rank Accepted <= 5)%nat /\
  (phase_of (SDecoding active_request) = phase_of SAccepted ->
   2%nat = 0%nat /\
   [LConnRead sample_conn (seconds 5) (Ok active_request); got active_request] = []).
Proof.
  apply (@sm_no_reentry sample_json sample_conn canned (seconds 5) 2 SAccepted).
  apply (sm_run_n_S _ _ _ 1 SAccepted [] SReading); [apply sm_start|].
  apply (sm_run_n_S _ _ _ 0 SReading [_; _] (SDecoding active_request) []);
    [apply sm_read_ok|apply sm_run_n_O].
Defined.

Lemma sm_progress_witness :
  exists l s', @sm_step sample_json sample_conn canned (seconds 5)
                 (SDecoding active_request) l s'.
Proof. by apply sm_progress. Defined.
