(* ===== verification/Bootstrap.v ===== *)
(** * Bootstrap: [main] up to the accept loop (lines 77-157)

    [startup] is the body of [main] from the registration of the flags
    to the successful [Listen]: it parses the flags, calls [conf.Load]
    twice on the global [options], opens the logger with the integers the
    two switches compute, logs and prints the greeting, reads the canned
    response and listens on [":" + strconv.Itoa(options.Port)].  It
    returns how the process ended ([os.Exit(1)] or a return from [main])
    or what the accept loop starts with.

    [started] lists the paths of [startup]; the theorems on exit codes,
    on what is and is not done after a failure, and on the order of the
    calls follow from it. *)

From Stdlib Require Import ZArith Lia.
From S2P Require Import Prelude Options Json Effects.

#[local] Open Scope Z_scope.

(** ** Flags (lines 78-92) *)

Definition confDefault : string := "mock_server.conf".
Definition confDescription : string := "Path to the configuration file".
Definition foregroundDefault : bool := true.
Definition foregroundDescription : string := "Run Zabbix agent in foreground".

(** The four registrations: two names for each of the two variables. *)
Definition flags : list flag_def :=
  [ mkFlag "confFlag" "config" (FString confDefault) confDescription;
    mkFlag "confFlag" "c" (FString confDefault) (confDescription +:+ " (shorhand)");
    mkFlag "foregroundFlag" "foreground" (FBool foregroundDefault) foregroundDescription;
    mkFlag "foregroundFlag" "f" (FBool foregroundDefault)
      (foregroundDescription +:+ " (shorhand)") ].

(** The value of a variable after [flag.Parse()]: what the command line
    bound it to, or the default it was registered with. *)
Definition flag_string (vals : list (string * flag_value)) (var dflt : string) : string :=
  match assoc var vals with
  | Some (FString s) => s
  | _ => dflt
  end.

Definition flag_bool (vals : list (string * flag_value)) (var : string) (dflt : bool) : bool :=
  match assoc var vals with
  | Some (FBool b) => b
  | _ => dflt
  end.

(** ** The start-up sequence *)

(** Line 132: the format has no verb, the text is the format itself. *)
Definition greeting : string :=
  "Starting Zabbix Agent [(hostname placeholder)]. (version placeholder)".

(** Line 152. *)
Definition listen_address (o : MockServerOptions) : string :=
  ":" +:+ itoa (Port o).

(** What the accept loop starts with: the canned response and the loaded
    configuration. *)
Record serving : Type := mkServing {
  srv_activeChecks : bytes;
  srv_options : MockServerOptions;
}.

Section Startup.
Context {L : LogPkg}.

(** Lines 135-140. *)
Definition print_greeting (foregroundFlag : bool) (o : MockServerOptions) : prog unit :=
  if foregroundFlag then
    (if bool_decide (LogType o <> "console"%string)
     then trigger (Println greeting) else mret tt);;
    trigger (Println "Press Ctrl+C to exit.")
  else mret tt.

Definition startup : prog (outcome + serving) :=
  fl ← trigger (FlagParse flags);
  match fl with
  | FlagExit code => mret (inl (Exit code))
  | Parsed vals =>
  let confFlag := flag_string vals "confFlag" confDefault in
  let foregroundFlag := flag_bool vals "foregroundFlag" foregroundDefault in
  r ← trigger (ConfLoad confFlag options);
  match r with
  | Fail err =>
      trigger (FprintfStderr ("%s" +:+ nl) [AString err]);; mret (inl (Exit 1))
  | Ok options1 =>
  r ← trigger (ConfLoad confFlag options1);
  match r with
  | Fail err =>
      trigger (FprintfStderr ("%s" +:+ nl) [AString err]);; mret (inl (Exit 1))
  | Ok options2 =>
  err ← trigger (LogOpen (logType_of options2) (logLevel_of options2) (LogFile options2));
  match err with
  | Some err =>
      trigger (FprintfStderr ("Cannot initialize logger: %s" +:+ nl) [AString err]);;
      mret (inl (Exit 1))
  | None =>
  trigger (Logf Infof greeting []);;
  print_greeting foregroundFlag options2;;
  trigger (Logf Infof "using configuration file: %s" [AString confFlag]);;
  r ← trigger (ReadFile (ActiveChecksFile options2));
  match r with
  | Fail err =>
      trigger (Logf Critf ("Cannot read active checks file: %s" +:+ nl) [AError err]);;
      mret (inl Return)
  | Ok activeChecks =>
  err ← trigger (Listen (listen_address options2));
  match err with
  | Some err =>
      trigger (Logf Critf ("Listen failed: %s" +:+ nl) [AError err]);;
      mret (inl Return)
  | None => mret (inr (mkServing activeChecks options2))
  end end end end end end.

End Startup.

(** ** The paths of the start-up *)

(** What lines 135-140 print. *)
Definition prints (foregroundFlag : bool) (o : MockServerOptions) : list label :=
  if foregroundFlag then
    (if bool_decide (LogType o <> "console"%string) then [LPrintln greeting] else [])
    ++ [LPrintln "Press Ctrl+C to exit."]
  else [].

Section Paths.
Context {L : LogPkg}.

Definition confFlag_of (vals : list (string * flag_value)) : string :=
  flag_string vals "confFlag" confDefault.
Definition foregroundFlag_of (vals : list (string * flag_value)) : bool :=
  flag_bool vals "foregroundFlag" foregroundDefault.

(** The calls up to the second successful [conf.Load]. *)
Definition loaded (vals : list (string * flag_value)) (o1 o2 : MockServerOptions) : list label :=
  [LFlagParse flags (Parsed vals);
   LConfLoad (confFlag_of vals) options (Ok o1);
   LConfLoad (confFlag_of vals) o1 (Ok o2)].

(** The calls from the opening of the logger to the second Info line,
    followed by [rest]. *)
Definition greeted (vals : list (string * flag_value)) (o : MockServerOptions)
    (rest : list label) : list label :=
  LLogOpen (logType_of o) (logLevel_of o) (LogFile o) None
  :: LLogf Infof greeting []
  :: prints (foregroundFlag_of vals) o
  ++ LLogf Infof "using configuration file: %s" [AString (confFlag_of vals)]
  :: rest.

Inductive started : list label -> outcome + serving -> Prop :=
| started_flag_exit code :
    started [LFlagParse flags (FlagExit code)] (inl (Exit code))
| started_conf_error vals e :
    started
      [LFlagParse flags (Parsed vals);
       LConfLoad (confFlag_of vals) options (Fail e);
       LFprintfStderr ("%s" +:+ nl) [AString e]]
      (inl (Exit 1))
| started_conf_error_again vals o1 e :
    started
      [LFlagParse flags (Parsed vals);
       LConfLoad (confFlag_of vals) options (Ok o1);
       LConfLoad (confFlag_of vals) o1 (Fail e);
       LFprintfStderr ("%s" +:+ nl) [AString e]]
      (inl (Exit 1))
| started_log_error vals o1 o2 e :
    started
      (loaded vals o1 o2 ++
       [LLogOpen (logType_of o2) (logLevel_of o2) (LogFile o2) (Some e);
        LFprintfStderr ("Cannot initialize logger: %s" +:+ nl) [AString e]])
      (inl (Exit 1))
| started_file_error vals o1 o2 e :
    started
      (loaded vals o1 o2 ++ greeted vals o2
         [LReadFile (ActiveChecksFile o2) (Fail e);
          LLogf Critf ("Cannot read active checks file: %s" +:+ nl) [AError e]])
      (inl Return)
| started_listen_error vals o1 o2 ac e :
    started
      (loaded vals o1 o2 ++ greeted vals o2
         [LReadFile (ActiveChecksFile o2) (Ok ac);
          LListen (listen_address o2) (Some e);
          LLogf Critf ("Listen failed: %s" +:+ nl) [AError e]])
      (inl Return)
| started_serving vals o1 o2 ac :
    started
      (loaded vals o1 o2 ++ greeted vals o2
         [LReadFile (ActiveChecksFile o2) (Ok ac);
          LListen (listen_address o2) None])
      (inr (mkServing ac o2)).

End Paths.

#[export] Hint Constructors started : mock.

(** The calls the start-up can make. *)
Definition startup_kinds : list kind :=
  [KFlagParse; KConfLoad; KFprintfStderr; KLogOpen; KLogf; KPrintln; KReadFile; KListen].

(** ** An executable host *)

(** What the packages answer during the start-up: the command line as
    [flag.Parse] reads it, the configuration loader, whether the logger
    opens, the files, whether the port is free. *)
Record host : Type := mkHost {
  host_args : parsed;
  host_conf : string -> MockServerOptions -> result MockServerOptions;
  host_log : option error;
  host_file : string -> result bytes;
  host_listen : option error;
}.

Definition host_oracle (h : host) : oracle :=
  fun X e =>
    match e with
    | FlagParse _ => host_args h
    | ConfLoad path cur => host_conf h path cur
    | LogOpen _ _ _ => host_log h
    | ReadFile path => host_file h path
    | Listen _ => host_listen h
    | e' => event_default e'
    end.

(** The calls and the result of the start-up on a given host. *)
Definition startup_run {L : LogPkg} (h : host) : list label * (outcome + serving) :=
  run_oracle (host_oracle h) startup.

(** A host for the examples: one configuration file, one active-checks
    file, and the named step failing. *)
Definition sample_options : MockServerOptions :=
  mkOptions "file" "/tmp/mock_server.log" 4 10051 5 "active_checks.json".

Inductive failure : Type :=
| NoFailure | BadFlag | ConfMissing | ConfRejected | LogDenied | FileMissing | PortTaken.

#[export] Instance failure_eq_dec : EqDecision failure.
Proof. solve_decision. Defined.

Definition sample_host (f : failure) : host :=
  {| host_args := if decide (f = BadFlag) then FlagExit 2 else Parsed [("foregroundFlag", FBool true)];
     host_conf path cur :=
       if decide (f = ConfMissing) then Fail "open mock_server.conf: no such file or directory"
       else if decide (f = ConfRejected /\ cur = sample_options)
       then Fail "invalid parameter"
       else Ok sample_options;
     host_log := if decide (f = LogDenied) then Some "permission denied" else None;
     host_file path :=
       if decide (f = FileMissing) then Fail "open active_checks.json: no such file or directory"
       else Ok (bytes_of_string "AC1");
     host_listen := if decide (f = PortTaken) then Some "address already in use" else None |}.

Definition sample_startup (f : failure) : list label * (outcome + serving) :=
  @startup_run sample_log (sample_host f).

(** ** Theorems *)

Lemma traces_print_greeting fg o t u :
  traces (print_greeting fg o) t u <-> t = prints fg o.
Proof.
  unfold print_greeting, prints. destruct u, fg; [|by split; [intros []|]].
  destruct (bool_decide _); simpl; split.
  - by intros (? & ? & -> & ? & ? & -> & -> & _).
  - intros ->. by exists tt, [LPrintln "Press Ctrl+C to exit."]; split; [|exists tt, []].
  - by intros (? & ? & -> & -> & _).
  - intros ->. by exists tt, [].
Qed.

Lemma uses_print_greeting (P : kind -> Prop) fg o :
  P KPrintln -> uses P (print_greeting fg o).
Proof. intros H. unfold print_greeting. destruct fg; [case_bool_decide|]; simpl; auto. Qed.

#[global] Opaque print_greeting.

(** Every log line of [t] comes after a successful [log.Open]. *)
Definition opened_before_log (t : list label) : Prop :=
  forall t1 l t2, t = t1 ++ l :: t2 -> label_kind l = KLogf ->
    exists a b f, LLogOpen a b f None ∈ t1.

Lemma obl_nil : opened_before_log [].
Proof. intros [|??] ???; by simplify_eq/=. Qed.

Lemma obl_cons l0 t :
  label_kind l0 <> KLogf -> opened_before_log t -> opened_before_log (l0 :: t).
Proof.
  intros Hk Ht [|x t1] l t2 Heq Hl; simplify_eq/=.
  destruct (Ht t1 l t2) as (a & b & f & Hin); [done..|].
  exists a, b, f. by right.
Qed.

Lemma obl_open a b f t : opened_before_log (LLogOpen a b f None :: t).
Proof.
  intros [|x t1] l t2 Heq Hl; simplify_eq/=. exists a, b, f. left.
Qed.

Lemma prints_println fg o l : l ∈ prints fg o -> label_kind l = KPrintln.
Proof.
  unfold prints. intros Hin. destruct fg; [case_bool_decide|]; by elem_of_inv.
Qed.

Lemma of_kind_prints k fg o : k <> KPrintln -> of_kind k (prints fg o) = [].
Proof.
  intros Hk. apply of_kind_none, Forall_forall. by intros l ->%prints_println.
Qed.

(** Evaluate [of_kind k] on a path of the start-up. *)
Ltac of_kind_simpl :=
  autorewrite with mock_rw; rewrite ?of_kind_prints by done; simpl.

(** The calls other than Println. *)
Definition quiet (t : list label) : list label :=
  filter (fun l => label_kind l <> KPrintln) t.

Lemma quiet_prints fg o rest : quiet (prints fg o ++ rest) = quiet rest.
Proof.
  unfold quiet. rewrite filter_app, filter_none; [done|].
  apply Forall_forall. intros l ->%prints_println. by intros [].
Qed.

Lemma quiet_cons l t : label_kind l <> KPrintln -> quiet (l :: t) = l :: quiet t.
Proof. intros H. unfold quiet. by rewrite filter_cons, decide_True. Qed.

Section StartupFacts.
Context {L : LogPkg}.
Implicit Types (t : list label) (r : outcome + serving) (o : MockServerOptions).

(** The traces of [startup] are exactly its seven paths. *)
Lemma startup_paths t r : traces startup t r <-> started t r.
Proof.
  unfold startup. split.
  - intros H. traces_inv;
      repeat match goal with
        | H : traces (print_greeting _ _) _ _ |- _ =>
            apply traces_print_greeting in H; traces_inv
        end;
      solve [eauto with mock | apply started_log_error | apply started_file_error
            | apply started_listen_error | apply started_serving].
  - intros []; unfold loaded, greeted; traces_intro.
    all: apply traces_bind; exists tt; do 2 eexists;
      (split; [reflexivity|split; [by apply traces_print_greeting|traces_intro]]).
Qed.

Lemma startup_run_traces (h : host) : traces startup (startup_run h).1 (startup_run h).2.
Proof.
  unfold startup_run, run_oracle.
  pose proof (run_traces (oracle_env (host_oracle h)) startup tt) as H.
  by destruct (run _ _ _).1.2.
Qed.

Lemma started_length t r : started t r -> (1 <= length t <= 11)%nat.
Proof.
  assert (forall fg o, (length (prints fg o) <= 2)%nat) as Hp
    by (intros [] o; unfold prints; [case_bool_decide|]; simpl; lia).
  intros []; unfold loaded, greeted; simpl; rewrite ?length_app; simpl;
    try lia; match goal with |- context[prints ?fg ?o] => specialize (Hp fg o) end; lia.
Qed.

(** The footprint of the start-up, read off the program. *)
Lemma startup_uses : uses (fun k => k ∈ startup_kinds) startup.
Proof.
  assert (forall k, bool_decide (k ∈ startup_kinds) = true -> k ∈ startup_kinds) as Hk
    by (intros k; apply bool_decide_eq_true_1).
  unfold startup.
  repeat (simpl; first
    [ exact I
    | split; [by apply Hk|]
    | intros []
    | apply uses_bind; [apply uses_print_greeting; by apply Hk|] ]).
Qed.

Lemma started_kinds t r l : started t r -> l ∈ t -> label_kind l ∈ startup_kinds.
Proof.
  intros [] Hin; unfold loaded, greeted in Hin; elem_of_inv;
    try (apply prints_println in Hin; rewrite Hin); simpl; elem_of_intro.
Qed.

(** The one path that reaches the accept loop. *)
Lemma started_serving_inv t srv :
  started t (inr srv) ->
  exists vals o1,
    t = loaded vals o1 (srv_options srv) ++ greeted vals (srv_options srv)
          [LReadFile (ActiveChecksFile (srv_options srv)) (Ok (srv_activeChecks srv));
           LListen (listen_address (srv_options srv)) None].
Proof. inversion 1. eauto. Qed.

(** Case analysis on the path of a trace of the start-up. *)
Ltac started_cases H :=
  rewrite startup_paths in H; inversion H; clear H; unfold loaded, greeted in *;
  simplify_eq/=;
  repeat match goal with
    | H : _ ∈ _ |- _ => progress elem_of_inv
    | H : _ ∈ prints _ _ |- _ => apply prints_println in H; simplify_eq/=
    end.

(** C22: When either call of conf.Load fails the process prints the error
    to the error stream and exits with status 1; it has parsed the
    flags, loaded once or twice, and done nothing else: no logger, no
    file, no listener. *)
Theorem config_failure_exits t r path cur e :
  traces startup t r ->
  LConfLoad path cur (Fail e) ∈ t ->
  r = inl (Exit 1) /\
  last t = Some (LFprintfStderr ("%s" +:+ nl) [AString e]) /\
  (label_kind <$> t = [KFlagParse; KConfLoad; KFprintfStderr] \/
   label_kind <$> t = [KFlagParse; KConfLoad; KConfLoad; KFprintfStderr]).
Proof. intros H Hin. started_cases H; auto. Qed.

(** C39: The configuration is loaded twice, the second time over the
    result of the first, and the server runs with what the second load
    returned: the trace of a successful start-up begins with the flags
    and the two loads. *)
Theorem config_loaded_twice t srv :
  traces startup t (inr srv) ->
  exists vals o1,
    take 3 t = loaded vals o1 (srv_options srv) /\
    of_kind KConfLoad t =
      [LConfLoad (confFlag_of vals) options (Ok o1);
       LConfLoad (confFlag_of vals) o1 (Ok (srv_options srv))].
Proof.
  intros H. started_cases H. exists vals, o1. split; [done|].
  by of_kind_simpl.
Qed.

(** C40: main does not check the log type.  In every run of the start-up
    in which the second conf.Load returned a configuration whose LogType
    is neither console nor file, the call that follows is log.Open with
    the type 0 that [var logType int] starts with, and unless log.Open
    itself fails the process does not exit; and such a run goes on to
    serve: for every such configuration there is a run that listens and
    enters the loop with it. *)
Theorem log_type_unchecked o :
  LogType o <> "console"%string -> LogType o <> "file"%string ->
  (forall t r vals o1, traces startup t r -> take 3 t = loaded vals o1 o ->
     exists res, t !! 3%nat = Some (LLogOpen 0 (logLevel_of o) (LogFile o) res) /\
       (res = None -> forall code, r <> inl (Exit code))) /\
  (forall vals o1 ac, exists t,
     traces startup t (inr (mkServing ac o)) /\ take 3 t = loaded vals o1 o).
Proof.
  intros H1 H2. pose proof (logType_of_other o H1 H2) as H0. split.
  - intros t r vals o1 H Ht. rewrite startup_paths in H.
    destruct H; unfold loaded, greeted in *; simplify_eq/=; rewrite H0; eauto.
  - intros vals o1 ac. eexists. split; [apply startup_paths, (started_serving vals o1)|done].
Qed.

(** When the logger cannot be opened the process prints the error
    and exits with status 1 without logging, reading the canned response
    or listening. *)
Theorem logger_failure_exits t r a b f e :
  traces startup t r ->
  LLogOpen a b f (Some e) ∈ t ->
  r = inl (Exit 1) /\
  last t = Some (LFprintfStderr ("Cannot initialize logger: %s" +:+ nl) [AString e]) /\
  label_kind <$> t = [KFlagParse; KConfLoad; KConfLoad; KLogOpen; KFprintfStderr].
Proof. intros H Hin. started_cases H; auto. Qed.

(** C32: When the active-checks file cannot be read the process logs a
    critical line with the error and returns from main: it never
    listens.  The file it tried is the ActiveChecksFile of the
    configuration the second load returned. *)
Theorem active_checks_file_unreadable t r path e :
  traces startup t r ->
  LReadFile path (Fail e) ∈ t ->
  r = inl Return /\
  last t = Some (LLogf Critf ("Cannot read active checks file: %s" +:+ nl) [AError e]) /\
  of_kind KListen t = [] /\
  exists vals o1 o2, take 3 t = loaded vals o1 o2 /\ path = ActiveChecksFile o2.
Proof.
  intros H Hin. started_cases H. split_and!; [done| | |by eauto].
  - rewrite !last_cons, last_app. by simpl.
  - by of_kind_simpl.
Qed.

(** When Listen fails the process logs a critical line with the
    error and returns from main; the address it tried is the configured
    port after a colon. *)
Theorem listen_failure_returns t r addr e :
  traces startup t r ->
  LListen addr (Some e) ∈ t ->
  r = inl Return /\
  last t = Some (LLogf Critf ("Listen failed: %s" +:+ nl) [AError e]) /\
  exists path o1 o2,
    t !! 2%nat = Some (LConfLoad path o1 (Ok o2)) /\ addr = listen_address o2.
Proof.
  intros H Hin. started_cases H. split_and!; [done| |eauto].
  rewrite !last_cons, last_app. by simpl.
Qed.

(** A successful start-up hands the accept loop the bytes read from
    the configured active-checks file and ends with a successful Listen
    on the configured port. *)
Theorem startup_serving t srv :
  traces startup t (inr srv) ->
  LReadFile (ActiveChecksFile (srv_options srv)) (Ok (srv_activeChecks srv)) ∈ t /\
  last t = Some (LListen (listen_address (srv_options srv)) None) /\
  of_kind KLogOpen t =
    [LLogOpen (logType_of (srv_options srv)) (logLevel_of (srv_options srv))
       (LogFile (srv_options srv)) None].
Proof.
  intros H. started_cases H. split_and!.
  - do 5 apply list_elem_of_further. apply elem_of_app. right. elem_of_intro.
  - rewrite !last_cons, last_app. by simpl.
  - by of_kind_simpl.
Qed.

(** Nothing is logged before the logger is open: every call of a
    log function comes after a successful log.Open. *)
Theorem logger_opened_before_logging t r :
  traces startup t r -> opened_before_log t.
Proof.
  intros H. rewrite startup_paths in H. destruct H; unfold loaded, greeted; simpl;
    repeat first [apply obl_nil | apply obl_open | apply obl_cons; [done|]].
Qed.

(** The start-up touches no connection: it makes no call on a
    connection, accepts none and starts no handler; its calls are on the
    flags, the configuration, the error stream, the logger, the console,
    the active-checks file and the listener's Listen. *)
Theorem startup_footprint t r :
  traces startup t r -> Forall (fun l => label_kind l ∈ startup_kinds) t.
Proof. rewrite startup_paths, Forall_forall. intros H l. by apply (started_kinds t r). Qed.

(** The foreground flag changes what is printed and nothing else:
    with the same configuration path and the same answers of the
    environment, the calls other than Println and the way the start-up
    ends are the same for both values of the flag. *)
Theorem foreground_only_prints vals vals' t r :
  confFlag_of vals' = confFlag_of vals ->
  traces startup (LFlagParse flags (Parsed vals) :: t) r ->
  exists t', traces startup (LFlagParse flags (Parsed vals') :: t') r /\
             quiet t' = quiet t.
Proof.
  intros Hc H. rewrite startup_paths in H. setoid_rewrite startup_paths.
  inversion H; clear H; unfold loaded, greeted in *; simplify_eq/=.
  all: eexists; (split;
    [ apply (started_conf_error vals') + apply (started_conf_error_again vals')
      + apply (started_log_error vals') + apply (started_file_error vals')
      + apply (started_listen_error vals') + apply (started_serving vals')
    | unfold greeted; simpl; rewrite Hc;
      by rewrite ?quiet_cons, ?quiet_prints, ?quiet_cons by done ]).
Qed.

Lemma startup_run_result (h : host) srv :
  (startup_run h).2 = inr srv <->
    exists vals o1,
      host_args h = Parsed vals /\
      host_conf h (confFlag_of vals) options = Ok o1 /\
      host_conf h (confFlag_of vals) o1 = Ok (srv_options srv) /\
      host_log h = None /\
      host_file h (ActiveChecksFile (srv_options srv)) = Ok (srv_activeChecks srv) /\
      host_listen h = None.
Proof.
  unfold startup_run, run_oracle, startup, confFlag_of. simpl. split.
  - destruct (host_args h) as [vals|code] eqn:E1; simpl; [|done].
    destruct (host_conf h _ options) as [o1|e] eqn:E2; simpl; [|done].
    destruct (host_conf h _ o1) as [o2|e] eqn:E3; simpl; [|done].
    destruct (host_log h) eqn:E4; simpl; [done|]. rewrite run_bind; simpl.
    destruct (host_file h _) as [ac|e] eqn:E5; simpl; [|done].
    destruct (host_listen h) eqn:E6; simpl; [done|].
    intros ?; simplify_eq/=. by exists vals, o1.
  - intros (vals & o1 & E1 & E2 & E3 & E4 & E5 & E6).
    rewrite E1; simpl. rewrite E2; simpl. rewrite E3; simpl. rewrite E4; simpl.
    rewrite run_bind; simpl. rewrite E5; simpl. rewrite E6. by destruct srv.
Qed.

(** C34: The start-up terminates on every host: it makes between one and
    eleven calls along one of its seven paths, and it reaches the accept
    loop exactly when the flags parse, both loads succeed, the logger
    opens, the active-checks file is read and the port is free; the
    loop then gets the second load's options and the bytes of the
    file. *)
Theorem startup_terminates (h : host) :
  started (startup_run h).1 (startup_run h).2 /\
  (1 <= length (startup_run h).1 <= 11)%nat /\
  forall srv, (startup_run h).2 = inr srv <->
    exists vals o1,
      host_args h = Parsed vals /\
      host_conf h (confFlag_of vals) options = Ok o1 /\
      host_conf h (confFlag_of vals) o1 = Ok (srv_options srv) /\
      host_log h = None /\
      host_file h (ActiveChecksFile (srv_options srv)) = Ok (srv_activeChecks srv) /\
      host_listen h = None.
Proof.
  pose proof (startup_run_traces h) as H. rewrite startup_paths in H.
  split; [done|split; [by eapply started_length|]].
  intros srv. apply startup_run_result.
Qed.

End StartupFacts.

(** The address passed to Listen is a colon followed by the decimal
    text of the configured port: it reads back as that port, and two
    configurations listen on the same address only if their ports are
    equal. *)
Theorem listen_address_port o :
  (exists s, listen_address o = ":" +:+ s /\ atoi s = Some (Port o)) /\
  (forall o', listen_address o' = listen_address o -> Port o' = Port o).
Proof.
  split; [exists (itoa (Port o)); split; [done|apply atoi_itoa]|].
  unfold listen_address. intros o' H. simplify_eq/=. by apply itoa_inj.
Qed.

(** ** The theorems on the sample host *)

Lemma sample_startup_traces f :
  traces (@startup sample_log) (sample_startup f).1 (sample_startup f).2.
Proof. apply startup_run_traces. Qed.

(** A start-up without failure: ten calls, the last the Listen on port
    10051. *)
Example sample_startup_ok :
  label_kind <$> (sample_startup NoFailure).1 =
    [KFlagParse; KConfLoad; KConfLoad; KLogOpen; KLogf; KPrintln; KPrintln; KLogf;
     KReadFile; KListen] /\
  last (sample_startup NoFailure).1 = Some (LListen ":10051" None) /\
  (sample_startup NoFailure).2 = inr (mkServing (bytes_of_string "AC1") sample_options).
Proof. by vm_compute. Qed.

Lemma config_failure_exits_witness :
  (sample_startup ConfRejected).2 = inl (Exit 1) /\
  last (sample_startup ConfRejected).1 =
    Some (LFprintfStderr ("%s" +:+ nl) [AString "invalid parameter"]) /\
  (label_kind <$> (sample_startup ConfRejected).1 = [KFlagParse; KConfLoad; KFprintfStderr] \/
   label_kind <$> (sample_startup ConfRejected).1 =
     [KFlagParse; KConfLoad; KConfLoad; KFprintfStderr]).
Proof.
  apply (@config_failure_exits sample_log _ _ confDefault sample_options);
    [apply sample_startup_traces|vm_compute; elem_of_intro].
Defined.

Lemma config_loaded_twice_witness :
  exists vals o1,
    take 3 (sample_startup NoFailure).1 = loaded vals o1 sample_options /\
    of_kind KConfLoad (sample_startup NoFailure).1 =
      [LConfLoad (confFlag_of vals) options (Ok o1);
       LConfLoad (confFlag_of vals) o1 (Ok sample_options)].
Proof.
  apply (@config_loaded_twice sample_log _ (mkServing (bytes_of_string "AC1") sample_options)).
  apply sample_startup_traces.
Defined.

Lemma log_type_unchecked_witness :
  (forall t r vals o1, traces (@startup sample_log) t r ->
     take 3 t = loaded vals o1 (mkOptions "syslog" EmptyString 3 10051 5 "ac.json") ->
     exists res, t !! 3%nat = Some (LLogOpen 0 3 EmptyString res) /\
       (res = None -> forall code, r <> inl (Exit code))) /\
  (forall vals o1 ac, exists t,
     traces (@startup sample_log) t
       (inr (mkServing ac (mkOptions "syslog" EmptyString 3 10051 5 "ac.json"))) /\
     take 3 t = loaded vals o1 (mkOptions "syslog" EmptyString 3 10051 5 "ac.json")).
Proof.
  apply (@log_type_unchecked sample_log (mkOptions "syslog" EmptyString 3 10051 5 "ac.json"));
    by vm_compute.
Defined.

Lemma logger_failure_exits_witness :
  (sample_startup LogDenied).2 = inl (Exit 1) /\
  last (sample_startup LogDenied).1 =
    Some (LFprintfStderr ("Cannot initialize logger: %s" +:+ nl)
            [AString "permission denied"]) /\
  label_kind <$> (sample_startup LogDenied).1 =
    [KFlagParse; KConfLoad; KConfLoad; KLogOpen; KFprintfStderr].
Proof.
  apply (@logger_failure_exits sample_log _ _ 2 4 "/tmp/mock_server.log");
    [apply sample_startup_traces|vm_compute; elem_of_intro].
Defined.

Lemma active_checks_file_unreadable_witness :
  (sample_startup FileMissing).2 = inl Return /\
  last (sample_startup FileMissing).1 =
    Some (LLogf Critf ("Cannot read active checks file: %s" +:+ nl)
            [AError "open active_checks.json: no such file or directory"]) /\
  of_kind KListen (sample_startup FileMissing).1 = [] /\
  exists vals o1 o2, take 3 (sample_startup FileMissing).1 = loaded vals o1 o2 /\
    "active_checks.json"%string = ActiveChecksFile o2.
Proof.
  apply (@active_checks_file_unreadable sample_log _ _ "active_checks.json");
    [apply sample_startup_traces|vm_compute; elem_of_intro].
Defined.

Lemma listen_failure_returns_witness :
  (sample_startup PortTaken).2 = inl Return /\
  last (sample_startup PortTaken).1 =
    Some (LLogf Critf ("Listen failed: %s" +:+ nl) [AError "address already in use"]) /\
  exists path o1 o2,
    (sample_startup PortTaken).1 !! 2%nat = Some (LConfLoad path o1 (Ok o2)) /\
    ":10051"%string = listen_address o2.
Proof.
  apply (@listen_failure_returns sample_log);
    [apply sample_startup_traces|vm_compute; elem_of_intro].
Defined.

Lemma startup_serving_witness :
  LReadFile "active_checks.json" (Ok (bytes_of_string "AC1")) ∈ (sample_startup NoFailure).1 /\
  last (sample_startup NoFailure).1 = Some (LListen ":10051" None) /\
  of_kind KLogOpen (sample_startup NoFailure).1 =
    [LLogOpen 2 4 "/tmp/mock_server.log" None].
Proof.
  apply (@startup_serving sample_log _ (mkServing (bytes_of_string "AC1") sample_options)).
  apply sample_startup_traces.
Defined.

Lemma logger_opened_before_logging_witness :
  opened_before_log (sample_startup NoFailure).1.
Proof.
  apply (@logger_opened_before_logging sample_log _ (sample_startup NoFailure).2).
  apply sample_startup_traces.
Defined.

Lemma foreground_only_prints_witness :
  exists t',
    traces (@startup sample_log)
      (LFlagParse flags (Parsed [("foregroundFlag", FBool false)]) :: t')
      (sample_startup NoFailure).2 /\
    quiet t' = quiet (tail (sample_startup NoFailure).1).
Proof.
  apply (@foreground_only_prints sample_log [("foregroundFlag", FBool true)]);
    [reflexivity|exact (sample_startup_traces NoFailure)].
Defined.

Lemma startup_footprint_witness :
  Forall (fun l => label_kind l ∈ startup_kinds) (sample_startup PortTaken).1.
Proof.
  apply (@startup_footprint sample_log _ (sample_startup PortTaken).2).
  apply sample_startup_traces.
Defined.
