(* ===== verification/Server.v ===== *)
(** * Server: the accept loop and [main] (lines 150-169)

    [accept_loop] is the [for] loop of [main]: accept a connection, on
    failure log a critical line and return, otherwise start
    [handleConnection] on it with the [go] statement and accept again.
    The loop has no exit but the failure of Accept, so the model unrolls
    it [fuel] times: a run that is still in the loop after [fuel]
    connections ends with [None], a run that returned ends with
    [Some Return].  Unrolling further does not change a run that
    returned, and a run that was cut goes on with the next Accept
    ([accept_loop_fuel_mono]); on a queue of connections that ends in a
    failure, fuel beyond the length of the queue gives the result
    ([main_run_returns]).

    [main] is the start-up of file Bootstrap followed by the loop, with
    the deferred [ln.Close()] run when, and only when, [main] returns
    from the loop.

    [looped] and [mained] list the paths; [main_run] executes [main] on
    a host and a queue of pending connections. *)

From Stdlib Require Import ZArith Lia.
From S2P Require Import Prelude Options Json Effects Bootstrap.

#[local] Open Scope Z_scope.

(** ** The loop and main *)

(** [defer cleanup] in a function whose body is cut by fuel: the cleanup
    runs when the body returned, not when the cut was reached. *)
Definition defer_returned {R} (cleanup : prog unit) (body : prog (option R)) :
    prog (option R) :=
  r ← body;
  match r with
  | Some x => cleanup;; mret (Some x)
  | None => mret None
  end.

Section Server.
Context {L : LogPkg}.

(** Lines 159-169. *)
Fixpoint accept_loop (fuel : nat) (activeChecks : bytes) (o : MockServerOptions) :
    prog (option outcome) :=
  match fuel with
  | O => mret None
  | S fuel' =>
      r ← trigger Accept;
      match r with
      | Fail err =>
          trigger (Logf Critf ("Accept failed: %s" +:+ nl) [AError err]);;
          mret (Some Return)
      | Ok c =>
          trigger (Go c activeChecks (Timeout o));;
          accept_loop fuel' activeChecks o
      end
  end.

(** Lines 77-170. *)
Definition main (fuel : nat) : prog (option outcome) :=
  s ← startup;
  match s with
  | inl out => mret (Some out)
  | inr srv =>
      defer_returned (trigger ListenerClose)
        (accept_loop fuel (srv_activeChecks srv) (srv_options srv))
  end.

End Server.

(** ** The paths of the loop and of main *)

(** The calls of the loop for the connections [conns]: each accepted and
    handed to a handler. *)
Definition dispatched (ac : bytes) (o : MockServerOptions) (conns : list conn) : list label :=
  conns ≫= (fun c => [LAccept (Ok c); LGo c ac (Timeout o)]).

Definition accept_failed (e : error) : list label :=
  [LAccept (Fail e); LLogf Critf ("Accept failed: %s" +:+ nl) [AError e]].

(** What a trace shows of the loop: the connections accepted, and the
    handlers started with their arguments. *)
Definition accepted (t : list label) : list conn :=
  omap (fun l => match l with LAccept (Ok c) => Some c | _ => None end) t.

Definition spawned (t : list label) : list (conn * bytes * Z) :=
  omap (fun l => match l with LGo c a d => Some (c, a, d) | _ => None end) t.

Inductive looped (ac : bytes) (o : MockServerOptions) :
    nat -> list label -> option outcome -> Prop :=
| looped_serving conns :
    looped ac o (length conns) (dispatched ac o conns) None
| looped_failed fuel conns e :
    (length conns < fuel)%nat ->
    looped ac o fuel (dispatched ac o conns ++ accept_failed e) (Some Return).

Section MainPaths.
Context {L : LogPkg}.

Inductive mained (fuel : nat) : list label -> option outcome -> Prop :=
| mained_not_serving t out :
    started t (inl out) -> mained fuel t (Some out)
| mained_serving t srv t' :
    started t (inr srv) ->
    looped (srv_activeChecks srv) (srv_options srv) fuel t' None ->
    mained fuel (t ++ t') None
| mained_returned t srv t' out :
    started t (inr srv) ->
    looped (srv_activeChecks srv) (srv_options srv) fuel t' (Some out) ->
    mained fuel (t ++ t' ++ [LListenerClose]) (Some out).

End MainPaths.

(** The calls main can make. *)
Definition main_kinds : list kind := startup_kinds ++ [KAccept; KGo; KListenerClose].

(** ** An executable network *)

(** A host whose listener has a queue of pending results of Accept; when
    the queue is empty Accept fails as on a closed listener. *)
Definition accepting (h : host) : env (list (result conn)) :=
  mkEnv (list (result conn)) (fun X e q =>
    match e in event X return X * list (result conn) with
    | Accept =>
        match q with
        | [] => (Fail "use of closed network connection", [])
        | r :: q' => (r, q')
        end
    | e' => (host_oracle h _ e', q)
    end).

(** The calls and the result of [main] on a host and a queue. *)
Definition main_run {L : LogPkg} (fuel : nat) (h : host) (q : list (result conn)) :
    list label * option outcome :=
  (run (accepting h) (main fuel) q).1.

Definition sample_main (fuel : nat) (q : list (result conn)) : list label * option outcome :=
  @main_run sample_log fuel (sample_host NoFailure) q.

Definition sample_loop (fuel : nat) (q : list (result conn)) : list label * option outcome :=
  (run (accepting (sample_host NoFailure))
     (accept_loop fuel (bytes_of_string "AC1") sample_options) q).1.

(** Two connections, then the listener fails. *)
Definition sample_queue : list (result conn) :=
  [Ok 1%nat; Ok 2%nat; Fail "too many open files"].

#[export] Hint Constructors looped mained : mock.

(** ** Theorems *)

Section DeferReturned.
Context {R : Type}.
Implicit Types (cleanup : prog unit) (body : prog (option R)).

Lemma traces_defer_returned cleanup body t r :
  traces (defer_returned cleanup body) t r <->
  match r with
  | None => traces body t None
  | Some x => exists t1 t2, t = t1 ++ t2 /\ traces body t1 (Some x) /\ traces cleanup t2 tt
  end.
Proof.
  unfold defer_returned. rewrite traces_bind. split.
  - intros ([x|] & t1 & t2 & -> & H1 & H2).
    + apply traces_bind in H2 as ([] & t3 & t4 & -> & H3 & [-> <-]).
      rewrite app_nil_r. eauto.
    + destruct H2 as [-> <-]. by rewrite app_nil_r.
  - destruct r as [x|].
    + intros (t1 & t2 & -> & H1 & H2). exists (Some x), t1, t2. split_and!; [done..|].
      apply traces_bind. exists tt, t2, []. by rewrite app_nil_r.
    + intros H. exists None, t, []. by rewrite app_nil_r.
Qed.

(** On a body that is never cut, [defer_returned] is [defer]. *)
Lemma defer_returned_defer cleanup (body : prog R) :
  defer_returned cleanup (x ← body; mret (Some x)) ≡
  (x ← defer cleanup body; mret (Some x)).
Proof.
  intros t r. rewrite traces_defer_returned. destruct r as [x|]; split.
  - intros (t1 & t2 & -> & (y & t3 & t4 & -> & H3 & [-> ?])%traces_bind & H2).
    simplify_eq. apply traces_bind. exists x, (t3 ++ t2), [].
    rewrite !app_nil_r. split_and!; [done| |done]. apply traces_defer. eauto.
  - intros (y & t1 & t2 & -> & (t3 & t4 & -> & H3 & H4)%traces_defer & [-> ?])%traces_bind.
    simplify_eq. exists t3, t4. rewrite !app_nil_r. split_and!; [done| |done].
    apply traces_bind. exists x, t3, []. by rewrite app_nil_r.
  - by intros (y & t1 & t2 & -> & _ & [-> ?])%traces_bind.
  - by intros (y & t1 & t2 & -> & _ & [-> ?])%traces_bind.
Qed.

End DeferReturned.

(** *** The loop *)

Section Loop.
Context {L : LogPkg}.
Implicit Types (ac : bytes) (o : MockServerOptions) (conns : list conn) (t : list label).

Lemma dispatched_cons ac o c conns :
  dispatched ac o (c :: conns) =
  LAccept (Ok c) :: LGo c ac (Timeout o) :: dispatched ac o conns.
Proof. done. Qed.

Lemma dispatched_app ac o conns1 conns2 :
  dispatched ac o (conns1 ++ conns2) = dispatched ac o conns1 ++ dispatched ac o conns2.
Proof. unfold dispatched. apply bind_app. Qed.

Lemma length_dispatched ac o conns :
  length (dispatched ac o conns) = (2 * length conns)%nat.
Proof. induction conns as [|c conns IH]; [done|]. rewrite dispatched_cons. simpl. lia. Qed.

Lemma elem_of_dispatched ac o conns l :
  l ∈ dispatched ac o conns <->
  exists c, c ∈ conns /\ (l = LAccept (Ok c) \/ l = LGo c ac (Timeout o)).
Proof.
  unfold dispatched. rewrite list_elem_of_bind. split.
  - intros (c & Hl & Hc). exists c. split; [done|]. elem_of_inv; auto.
  - intros (c & Hc & [-> | ->]); exists c; (split; [elem_of_intro|done]).
Qed.

(** The traces of an unrolling of the loop are its paths. *)
Lemma accept_loop_paths fuel ac o t r :
  traces (accept_loop fuel ac o) t r <-> looped ac o fuel t r.
Proof.
  revert t r. induction fuel as [|n IH]; intros t r; simpl.
  - split.
    + intros [-> <-]. apply (looped_serving ac o []).
    + inversion 1 as [[|??]|]; simplify_eq/=; [done|lia].
  - split.
    + intros (x & t' & -> & H). destruct x as [c|e].
      * destruct H as ([] & t'' & -> & H%IH). destruct H as [conns|fuel conns e Hlt].
        -- apply (looped_serving ac o (c :: conns)).
        -- apply (looped_failed ac o (S fuel) (c :: conns) e). simpl. lia.
      * destruct H as ([] & t'' & -> & -> & <-).
        apply (looped_failed ac o (S n) [] e). simpl. lia.
    + inversion 1 as [[|c conns] Hn|? [|c conns] e Hlt]; simplify_eq/=.
      * exists (Ok c). eexists. split; [done|]. exists tt. eexists. split; [done|].
        apply IH. eauto with mock.
      * exists (Fail e). eexists. split; [done|]. by exists tt, [].
      * exists (Ok c). eexists. split; [done|]. exists tt. eexists. split; [done|].
        apply IH. apply looped_failed. lia.
Qed.

Lemma accepted_dispatched ac o conns : accepted (dispatched ac o conns) = conns.
Proof. induction conns as [|c conns IH]; [done|]. rewrite dispatched_cons. simpl. by f_equal. Qed.

Lemma spawned_dispatched ac o conns :
  spawned (dispatched ac o conns) = (fun c => (c, ac, Timeout o)) <$> conns.
Proof. induction conns as [|c conns IH]; [done|]. rewrite dispatched_cons. simpl. by f_equal. Qed.

Lemma accepted_app t1 t2 : accepted (t1 ++ t2) = accepted t1 ++ accepted t2.
Proof. apply omap_app. Qed.

Lemma spawned_app t1 t2 : spawned (t1 ++ t2) = spawned t1 ++ spawned t2.
Proof. apply omap_app. Qed.

(** In the calls of the loop an accepted connection is followed by its
    [go] statement. *)
Lemma dispatched_next ac o conns rest t1 c t2 :
  accepted rest = [] ->
  dispatched ac o conns ++ rest = t1 ++ LAccept (Ok c) :: t2 ->
  head t2 = Some (LGo c ac (Timeout o)).
Proof.
  intros Hrest. revert t1. induction conns as [|c' conns IH]; intros t1 Heq.
  - simpl in Heq. subst rest. rewrite accepted_app in Hrest. simpl in Hrest.
    by destruct (accepted t1).
  - rewrite dispatched_cons in Heq. destruct t1 as [|x [|y t1]]; simplify_eq/=; [|by eapply IH].
    by destruct conns.
Qed.

(** C12: A failure of Accept is fatal: the loop logs one critical line
    with the error and returns; the failure is the last Accept, and every
    connection accepted before it was handed to a handler. *)
Theorem accept_failure_fatal fuel ac o t r e :
  traces (accept_loop fuel ac o) t r ->
  LAccept (Fail e) ∈ t ->
  r = Some Return /\
  exists conns, (length conns < fuel)%nat /\ t = dispatched ac o conns ++ accept_failed e.
Proof.
  rewrite accept_loop_paths. intros [conns|? conns e' Hlt] Hin.
  - by apply elem_of_dispatched in Hin as (c & _ & [?|?]).
  - apply elem_of_app in Hin as [Hin|Hin].
    + by apply elem_of_dispatched in Hin as (c & _ & [?|?]).
    + unfold accept_failed in Hin. elem_of_inv. eauto.
Qed.

(** The loop returns only when Accept fails: a run that returned
    ends with the critical line of a failed Accept, and a run in which
    every Accept succeeded is still in the loop, having accepted as many
    connections as the loop was unrolled for. *)
Theorem loop_returns_only_on_failure fuel ac o t r :
  traces (accept_loop fuel ac o) t r ->
  match r with
  | Some out =>
      out = Return /\ (length (accepted t) < fuel)%nat /\
      exists e, LAccept (Fail e) ∈ t /\
        last t = Some (LLogf Critf ("Accept failed: %s" +:+ nl) [AError e])
  | None => length (accepted t) = fuel /\ forall e, LAccept (Fail e) ∉ t
  end.
Proof.
  rewrite accept_loop_paths. intros [conns|? conns e Hlt].
  - rewrite accepted_dispatched. split; [done|]. intros e Hin.
    by apply elem_of_dispatched in Hin as (c & _ & [?|?]).
  - rewrite accepted_app, accepted_dispatched, app_nil_r. split_and!; [done..|].
    exists e. split; [apply elem_of_app; right; left|]. by rewrite last_app.
Qed.

(** C13: Every accepted connection is handed to a handler at once, and
    all handlers get the same canned response and the configured
    timeout: the next call after a successful Accept is the go statement
    on that connection, and the handlers started are those of the
    accepted connections, in order. *)
Theorem every_connection_dispatched fuel ac o t r :
  traces (accept_loop fuel ac o) t r ->
  spawned t = (fun c => (c, ac, Timeout o)) <$> accepted t /\
  forall t1 c t2, t = t1 ++ LAccept (Ok c) :: t2 -> head t2 = Some (LGo c ac (Timeout o)).
Proof.
  rewrite accept_loop_paths. intros [conns|? conns e Hlt].
  - rewrite spawned_dispatched, accepted_dispatched. split; [done|].
    intros t1 c t2 Heq. apply (dispatched_next ac o conns [] t1); [done|].
    by rewrite app_nil_r.
  - rewrite spawned_app, accepted_app, spawned_dispatched, accepted_dispatched, !app_nil_r.
    split; [done|]. intros t1 c t2 Heq.
    by apply (dispatched_next ac o conns (accept_failed e) t1).
Qed.

(** After fewer connections than the loop is unrolled for, the next call
    is an Accept, whatever it answers. *)
Lemma looped_next ac o fuel conns x :
  (length conns < fuel)%nat ->
  exists rest r, looped ac o fuel (dispatched ac o conns ++ LAccept x :: rest) r.
Proof.
  intros Hlt. destruct x as [c|e].
  - destruct (decide (S (length conns) < fuel)%nat).
    + exists (LGo c ac (Timeout o) :: accept_failed "EOF"), (Some Return).
      replace (dispatched ac o conns ++ _) with
        (dispatched ac o (conns ++ [c]) ++ accept_failed "EOF")
        by (by rewrite dispatched_app, <- app_assoc).
      apply looped_failed. rewrite length_app. simpl. lia.
    + exists [LGo c ac (Timeout o)], None.
      replace fuel with (length (conns ++ [c])) by (rewrite length_app; simpl; lia).
      replace (dispatched ac o conns ++ _) with (dispatched ac o (conns ++ [c]))
        by (by rewrite dispatched_app).
      apply looped_serving.
  - exists [LLogf Critf ("Accept failed: %s" +:+ nl) [AError e]], (Some Return).
    by apply (looped_failed ac o fuel conns e).
Qed.

(** Unrolling further changes nothing for a run that returned, and
    a run that is still in the loop after n connections goes on with the
    next Accept, whatever it answers, when the loop is unrolled once
    more: the unrolling bounds the length of the runs considered, not the
    behaviour of the loop. *)
Theorem accept_loop_fuel_mono n ac o t r :
  traces (accept_loop n ac o) t r ->
  match r with
  | Some out => forall m, (n <= m)%nat -> traces (accept_loop m ac o) t (Some out)
  | None => forall x, exists t' r', traces (accept_loop (S n) ac o) (t ++ LAccept x :: t') r'
  end.
Proof.
  rewrite accept_loop_paths. intros [conns|? conns e Hlt].
  - intros x. destruct (looped_next ac o (S (length conns)) conns x) as (t' & r' & H); [lia|].
    exists t', r'. by apply accept_loop_paths.
  - intros m Hle. apply accept_loop_paths. apply looped_failed. lia.
Qed.

End Loop.

(** *** main *)

(** Find the contradiction in a membership of a label in the calls of
    the start-up or of the loop, or the element it is. *)
Ltac main_in :=
  repeat match goal with
    | H : _ ∈ _ ++ _ |- _ => apply elem_of_app in H as [H|H]
    | H : _ ∈ dispatched _ _ _ |- _ =>
        apply elem_of_dispatched in H as (? & ? & [?|?]); simplify_eq
    | Hs : started ?t _, H : _ ∈ ?t |- _ =>
        apply (started_kinds _ _ _ Hs) in H; unfold startup_kinds in H; simpl in H;
        elem_of_inv
    | H : _ ∈ accept_failed _ |- _ => unfold accept_failed in H; elem_of_inv
    | H : _ ∈ [_] |- _ => elem_of_inv
    end.

Section Main.
Context {L : LogPkg}.
Implicit Types (t : list label) (r : option outcome) (fuel : nat).

(** The traces of [main] are its paths. *)
Lemma main_paths fuel t r : traces (main fuel) t r <-> mained fuel t r.
Proof.
  unfold main. rewrite traces_bind. split.
  - intros ([out|srv] & t1 & t2 & -> & H1%startup_paths & H2).
    + destruct H2 as [-> <-]. rewrite app_nil_r. by apply mained_not_serving.
    + apply traces_defer_returned in H2. destruct r as [out|].
      * destruct H2 as (t3 & t4 & -> & H3%accept_loop_paths & ->%traces_trigger).
        by apply (mained_returned fuel t1 srv).
      * apply accept_loop_paths in H2. by apply (mained_serving fuel t1 srv).
  - intros [t0 out H|t0 srv t' H H'|t0 srv t' out H H']; apply startup_paths in H.
    + exists (inl out), t0, []. by rewrite app_nil_r.
    + exists (inr srv), t0, t'. split_and!; [done..|].
      apply traces_defer_returned. by apply accept_loop_paths.
    + exists (inr srv), t0, (t' ++ [LListenerClose]). split_and!; [done..|].
      apply traces_defer_returned. exists t', [LListenerClose]. split_and!; [done| |].
      * by apply accept_loop_paths.
      * by apply traces_trigger.
Qed.

Lemma started_of_kind k t (r : outcome + serving) :
  started t r -> k ∉ startup_kinds -> of_kind k t = [].
Proof.
  intros H Hk. apply of_kind_none, Forall_forall. intros l Hin <-.
  by apply Hk, (started_kinds t r).
Qed.

Lemma dispatched_of_kind k ac o conns :
  k <> KAccept -> k <> KGo -> of_kind k (dispatched ac o conns) = [].
Proof.
  intros H1 H2. apply of_kind_none, Forall_forall. intros l Hin <-.
  by apply elem_of_dispatched in Hin as (? & ? & [->| ->]).
Qed.

(** C33: The listener is closed when main returns from the loop, and
    only then: the deferred Close runs after a failed Accept, as the last
    call of the process and once; a start-up that fails returns or exits
    before the Close is deferred, and a server still in the loop has not
    closed its listener. *)
Theorem listener_closed_on_return fuel t r :
  traces (main fuel) t r ->
  (LListenerClose ∈ t <-> exists e, LAccept (Fail e) ∈ t) /\
  (LListenerClose ∈ t ->
     r = Some Return /\ last t = Some LListenerClose /\
     of_kind KListenerClose t = [LListenerClose]).
Proof.
  rewrite main_paths. intros [t0 out H|t0 srv t' H H'|t0 srv t' out H H'].
  - split; [split|]; [intros Hin|intros [e Hin]|intros Hin]; main_in.
  - inversion H'; subst. split; [split|]; [intros Hin|intros [e Hin]|intros Hin]; main_in.
  - inversion H'; subst. split; [split|]; [intros _|intros _|intros _].
    + exists e. rewrite !elem_of_app. right. left. right. left.
    + elem_of_intro.
    + split_and!; [done|by rewrite !app_assoc, last_snoc|].
      rewrite !of_kind_app, (started_of_kind _ _ _ H), dispatched_of_kind; try done.
      unfold startup_kinds. intros Hin. elem_of_inv.
Qed.

Lemma started_serving_listens t0 srv :
  started t0 (inr srv) ->
  LListen (listen_address (srv_options srv)) None ∈ t0 /\
  of_kind KReadFile t0 =
    [LReadFile (ActiveChecksFile (srv_options srv)) (Ok (srv_activeChecks srv))] /\
  exists path o1, t0 !! 2%nat = Some (LConfLoad path o1 (Ok (srv_options srv))).
Proof.
  intros (vals & o1 & ->)%started_serving_inv. unfold loaded, greeted. split_and!.
  - do 5 apply list_elem_of_further. apply elem_of_app. right. elem_of_intro.
  - by of_kind_simpl.
  - by eexists _, _.
Qed.

(** The server accepts only after a successful Listen: every Accept,
    every start of a handler and the Close of the listener come after the
    active-checks file was read and the Listen succeeded. *)
Theorem accept_after_listen fuel t r t1 l t2 :
  traces (main fuel) t r ->
  t = t1 ++ l :: t2 ->
  label_kind l ∈ [KAccept; KGo; KListenerClose] ->
  exists addr path ac, LListen addr None ∈ t1 /\ LReadFile path (Ok ac) ∈ t1.
Proof.
  rewrite main_paths. intros Hm Heq Hl.
  assert (forall t0 (s : outcome + serving), started t0 s -> l ∉ t0) as Hnin.
  { intros t0 s Hs Hin. apply (started_kinds _ _ _ Hs) in Hin.
    unfold startup_kinds in Hin. elem_of_inv; rewrite Hin in Hl; by elem_of_inv. }
  destruct Hm as [t0 out H|t0 srv t' H H'|t0 srv t' out H H'].
  { exfalso. apply (Hnin _ _ H). subst t0. elem_of_intro. }
  all: destruct (app_eq_cons_not_in _ _ _ _ _ Heq (Hnin _ _ H)) as [t1' ->].
  all: destruct (started_serving_listens _ _ H) as (Hlisten & Hfile & _).
  all: exists (listen_address (srv_options srv)), (ActiveChecksFile (srv_options srv)),
      (srv_activeChecks srv).
  all: rewrite !elem_of_app; split; left; [done|].
  all: eapply elem_of_of_kind; rewrite Hfile; left.
Qed.

(** The canned response is loaded once and shared: every handler is
    started with the bytes of the one successful read of the configured
    active-checks file and with the timeout of the configuration the
    second load returned. *)
Theorem canned_response_shared fuel t r c ac d :
  traces (main fuel) t r ->
  LGo c ac d ∈ t ->
  exists path o1 o2,
    t !! 2%nat = Some (LConfLoad path o1 (Ok o2)) /\ d = Timeout o2 /\
    of_kind KReadFile t = [LReadFile (ActiveChecksFile o2) (Ok ac)].
Proof.
  rewrite main_paths. intros [t0 out H|t0 srv t' H H'|t0 srv t' out H H'] Hin.
  { main_in. }
  all: destruct (started_serving_listens _ _ H) as (_ & Hfile & path & o1 & Hload).
  all: inversion H'; subst; exists path, o1, (srv_options srv).
  all: assert (ac = srv_activeChecks srv /\ d = Timeout (srv_options srv)) as [-> ->]
    by (by main_in).
  all: rewrite !of_kind_app, Hfile, dispatched_of_kind by done.
  all: split_and!; [by apply lookup_app_l_Some|done|].
  all: unfold accept_failed; by of_kind_simpl.
Qed.


(** While main is in the loop its next call is an Accept. *)
Lemma main_next_accept fuel t0 srv conns q x :
  started t0 (inr srv) ->
  (length conns < fuel)%nat ->
  psteps (main fuel) (t0 ++ dispatched (srv_activeChecks srv) (srv_options srv) conns) q ->
  exists q', pstep q (LAccept x) q'.
Proof.
  intros Hs Hlt Hq.
  destruct (looped_next (srv_activeChecks srv) (srv_options srv) fuel conns x Hlt)
    as (rest & r & Hl).
  assert (exists t' r', traces (main fuel)
            ((t0 ++ dispatched (srv_activeChecks srv) (srv_options srv) conns) ++
             LAccept x :: t') r') as (t' & r' & Ht).
  { destruct r as [out|].
    - exists (rest ++ [LListenerClose]), (Some out). apply main_paths.
      replace (_ ++ _) with
        (t0 ++ (dispatched (srv_activeChecks srv) (srv_options srv) conns ++
                LAccept x :: rest) ++ [LListenerClose]) by (by rewrite <- !app_assoc).
      by apply (mained_returned fuel t0 srv).
    - exists rest, None. apply main_paths. rewrite <- app_assoc.
      by apply (mained_serving fuel t0 srv). }
  apply traces_psteps, psteps_app in Ht as (q1 & H1 & q' & H2 & _).
  rewrite (psteps_det _ _ _ _ Hq H1). eauto.
Qed.

(** *** The footprint of main *)

Lemma main_kinds_dec k : bool_decide (k ∈ main_kinds) = true -> k ∈ main_kinds.
Proof. apply bool_decide_eq_true_1. Qed.

Lemma accept_loop_uses fuel ac o : uses (fun k => k ∈ main_kinds) (accept_loop fuel ac o).
Proof.
  induction fuel as [|n IH]; simpl; [done|]. split; [by apply main_kinds_dec|].
  intros [c|e]; simpl; (split; [by apply main_kinds_dec|done]).
Qed.

Lemma main_uses fuel : uses (fun k => k ∈ main_kinds) (main fuel).
Proof.
  unfold main. apply uses_bind.
  - apply (uses_weaken (fun k => k ∈ startup_kinds)), startup_uses.
    intros k Hk. apply elem_of_app. by left.
  - intros [out|srv]; [done|]. unfold defer_returned. apply uses_bind.
    + apply accept_loop_uses.
    + intros [out|]; [|done]. simpl. split; [by apply main_kinds_dec|done].
Qed.

(** Main makes no call on a connection: whatever it has done so far,
    connections are read, written and closed by the handlers only. *)
Lemma main_no_conn fuel t q l :
  psteps (main fuel) t q -> l ∈ t -> label_conn l = None.
Proof.
  intros (t' & r & Ht)%psteps_prefix Hin.
  apply (uses_traces _ _ _ _ (main_uses fuel)) in Ht.
  rewrite Forall_forall in Ht. specialize (Ht l (proj2 (elem_of_app _ _ _) (or_introl Hin))).
  destruct l; try done; exfalso; unfold main_kinds, startup_kinds in Ht; simpl in Ht;
    elem_of_inv.
Qed.

(** *** Execution *)

(** A program that does not accept runs on the network as on the host,
    and leaves the queue as it is. *)
Lemma run_accepting_frame {R} (h : host) (p : prog R) q :
  uses (fun k => k <> KAccept) p ->
  run (accepting h) p q = ((run (oracle_env (host_oracle h)) p tt).1, q).
Proof.
  induction p as [r'|X e k IH]; simpl; [done|]. intros [He Hk].
  destruct e; try done; simpl; by rewrite IH.
Qed.

Lemma run_accepting_startup (h : host) q :
  run (accepting h) startup q = (startup_run h, q).
Proof.
  apply run_accepting_frame, (uses_weaken (fun k => k ∈ startup_kinds)), startup_uses.
  intros k Hk ->. unfold startup_kinds in Hk. elem_of_inv.
Qed.

Lemma run_accept_loop (h : host) fuel ac o conns e q' :
  (length conns < fuel)%nat ->
  run (accepting h) (accept_loop fuel ac o) ((Ok <$> conns) ++ Fail e :: q') =
  (dispatched ac o conns ++ accept_failed e, Some Return, q').
Proof.
  revert fuel. induction conns as [|c conns IH]; intros [|fuel] Hlt; simpl in *; try lia.
  - done.
  - by rewrite IH by lia.
Qed.

Lemma run_accept_loop_cut (h : host) ac o conns q' :
  run (accepting h) (accept_loop (length conns) ac o) ((Ok <$> conns) ++ q') =
  (dispatched ac o conns, None, q').
Proof.
  induction conns as [|c conns IH]; [done|].
  change (run _ _ _) with
    (let r := run (accepting h) (accept_loop (length conns) ac o) ((Ok <$> conns) ++ q') in
     (LAccept (Ok c) :: LGo c ac (Timeout o) :: r.1.1, r.1.2, r.2)).
  by rewrite IH.
Qed.

(** C15: Enough fuel gives the result.  On a host where the start-up
    succeeds and a queue whose first failure comes after the connections
    [conns], main unrolled more often than there are connections returns:
    it has started one handler per connection, logged the failure and
    closed the listener; unrolled exactly that often it is still in the
    loop, with the same calls up to there. *)
Theorem main_run_returns fuel (h : host) srv conns e q' :
  (startup_run h).2 = inr srv ->
  (length conns < fuel)%nat ->
  main_run fuel h ((Ok <$> conns) ++ Fail e :: q') =
    ((startup_run h).1 ++
       (dispatched (srv_activeChecks srv) (srv_options srv) conns ++ accept_failed e) ++
       [LListenerClose], Some Return) /\
  main_run (length conns) h ((Ok <$> conns) ++ Fail e :: q') =
    ((startup_run h).1 ++ dispatched (srv_activeChecks srv) (srv_options srv) conns, None).
Proof.
  intros Hs Hlt. unfold main_run, main, defer_returned.
  rewrite !run_bind, !run_accepting_startup. cbn [fst snd]. rewrite Hs.
  rewrite !run_bind, run_accept_loop, run_accept_loop_cut by done. cbn [fst snd].
  split; [done|]. by rewrite (app_nil_r (dispatched _ _ _)).
Qed.

(** When the start-up fails main ends as the start-up did, whatever
    the fuel and the queue: no connection is accepted. *)
Theorem main_run_not_serving fuel (h : host) q out :
  (startup_run h).2 = inl out ->
  main_run fuel h q = ((startup_run h).1, Some out).
Proof.
  intros Hs. unfold main_run, main. rewrite run_bind, run_accepting_startup. cbn [fst snd].
  rewrite Hs. simpl. by rewrite app_nil_r.
Qed.

End Main.

(** ** The theorems on the sample host *)

Lemma sample_loop_traces fuel q :
  traces (accept_loop fuel (bytes_of_string "AC1") sample_options)
    (sample_loop fuel q).1 (sample_loop fuel q).2.
Proof. apply run_traces. Qed.

Lemma sample_main_traces fuel q :
  traces (@main sample_log fuel) (sample_main fuel q).1 (sample_main fuel q).2.
Proof. apply run_traces. Qed.

(** The whole run of the server on the sample host: start-up, two
    connections, the failure, the Close of the listener. *)
Example sample_main_run :
  label_kind <$> (sample_main 5 sample_queue).1 =
    [KFlagParse; KConfLoad; KConfLoad; KLogOpen; KLogf; KPrintln; KPrintln; KLogf;
     KReadFile; KListen; KAccept; KGo; KAccept; KGo; KAccept; KLogf; KListenerClose] /\
  spawned (sample_main 5 sample_queue).1 =
    [(1%nat, bytes_of_string "AC1", 5); (2%nat, bytes_of_string "AC1", 5)] /\
  (sample_main 5 sample_queue).2 = Some Return.
Proof. by vm_compute. Qed.

Lemma accept_failure_fatal_witness :
  (sample_loop 5 sample_queue).2 = Some Return /\
  exists conns, (length conns < 5)%nat /\
    (sample_loop 5 sample_queue).1 =
      dispatched (bytes_of_string "AC1") sample_options conns ++
      accept_failed "too many open files".
Proof.
  apply (accept_failure_fatal 5 _ _ _ _ _ (sample_loop_traces 5 sample_queue)).
  vm_compute. elem_of_intro.
Defined.

Lemma loop_returns_only_on_failure_witness :
  length (accepted (sample_loop 2 sample_queue).1) = 2%nat /\
  forall e, LAccept (Fail e) ∉ (sample_loop 2 sample_queue).1.
Proof.
  exact (loop_returns_only_on_failure 2 _ _ _ _ (sample_loop_traces 2 sample_queue)).
Defined.

Lemma every_connection_dispatched_witness :
  spawned (sample_loop 5 sample_queue).1 =
    (fun c => (c, bytes_of_string "AC1", Timeout sample_options)) <$>
      accepted (sample_loop 5 sample_queue).1 /\
  forall t1 c t2, (sample_loop 5 sample_queue).1 = t1 ++ LAccept (Ok c) :: t2 ->
    head t2 = Some (LGo c (bytes_of_string "AC1") (Timeout sample_options)).
Proof.
  exact (every_connection_dispatched 5 _ _ _ _ (sample_loop_traces 5 sample_queue)).
Defined.

Lemma accept_loop_fuel_mono_witness :
  traces (accept_loop 7%nat (bytes_of_string "AC1") sample_options)
    (sample_loop 3 sample_queue).1 (Some Return).
Proof.
  apply (accept_loop_fuel_mono 3 _ _ _ _ (sample_loop_traces 3 sample_queue) 7%nat). lia.
Defined.

Lemma listener_closed_on_return_witness :
  (LListenerClose ∈ (sample_main 5 sample_queue).1 <->
   exists e, LAccept (Fail e) ∈ (sample_main 5 sample_queue).1) /\
  (LListenerClose ∈ (sample_main 5 sample_queue).1 ->
     (sample_main 5 sample_queue).2 = Some Return /\
     last (sample_main 5 sample_queue).1 = Some LListenerClose /\
     of_kind KListenerClose (sample_main 5 sample_queue).1 = [LListenerClose]).
Proof.
  exact (listener_closed_on_return 5 _ _ (sample_main_traces 5 sample_queue)).
Defined.

Lemma accept_after_listen_witness :
  exists addr path ac,
    LListen addr None ∈ take 10 (sample_main 5 sample_queue).1 /\
    LReadFile path (Ok ac) ∈ take 10 (sample_main 5 sample_queue).1.
Proof.
  apply (accept_after_listen 5 _ _ _ (LAccept (Ok 1%nat))
           (drop 11 (sample_main 5 sample_queue).1) (sample_main_traces 5 sample_queue)).
  - by vm_compute.
  - simpl. elem_of_intro.
Defined.

Lemma canned_response_shared_witness :
  exists path o1 o2,
    (sample_main 5 sample_queue).1 !! 2%nat = Some (LConfLoad path o1 (Ok o2)) /\
    5 = Timeout o2 /\
    of_kind KReadFile (sample_main 5 sample_queue).1 =
      [LReadFile (ActiveChecksFile o2) (Ok (bytes_of_string "AC1"))].
Proof.
  apply (canned_response_shared 5 _ _ 2%nat _ _ (sample_main_traces 5 sample_queue)).
  vm_compute. elem_of_intro.
Defined.

Lemma main_run_returns_witness :
  sample_main 5 sample_queue =
    ((sample_startup NoFailure).1 ++
       (dispatched (bytes_of_string "AC1") sample_options [1%nat; 2%nat] ++
        accept_failed "too many open files") ++ [LListenerClose], Some Return) /\
  sample_main 2 sample_queue =
    ((sample_startup NoFailure).1 ++
       dispatched (bytes_of_string "AC1") sample_options [1%nat; 2%nat], None).
Proof.
  apply (@main_run_returns sample_log 5 (sample_host NoFailure)
           (mkServing (bytes_of_string "AC1") sample_options) [1%nat; 2%nat]
           "too many open files" []); [by vm_compute|simpl; lia].
Defined.

Lemma main_run_not_serving_witness :
  @main_run sample_log 5 (sample_host PortTaken) sample_queue =
    ((sample_startup PortTaken).1, Some Return).
Proof. apply main_run_not_serving. by vm_compute. Defined.
