(* ===== verification/Pool.v ===== *)
(** * Pool: main and its goroutines

    The statement [go handleConnection(c, activeChecks, options.Timeout)]
    (line 168) starts a goroutine per accepted connection; main goes on
    with the next Accept while the goroutines run.  A [system] is what is
    left of main and of every goroutine started so far; a [step] is one
    call of main or of one goroutine, chosen by the scheduler.  The
    process ends when main returns or exits: no goroutine steps after
    that.

    A run of the system is a list of calls, each with the thread that
    made it.  The theorems are invariants of all runs ([reach]), proved
    by induction on the run: what a goroutine has done is the beginning
    of a path of [handleConnection] on its own connection; calls of
    different threads commute; main is never kept from accepting; there
    is no bound on the goroutines in flight; and a return of main leaves
    the goroutines in flight unfinished. *)

From Stdlib Require Import ZArith Lia.
From S2P Require Import Prelude Options Json Effects Handler Bootstrap Server.

#[local] Open Scope Z_scope.
#[local] Open Scope mock_scope.

(** ** The system *)

(** A thread: main, or the goroutine started by the [i]-th [go]
    statement. *)
Definition tid : Type := option nat.

(** A call of a run, with the thread that made it. *)
Definition gevent : Type := tid * label.

Record system : Type := mkSystem {
  sys_main : prog (option outcome);
  sys_pool : list (prog unit);
}.

(** The calls of one thread in a run. *)
Definition thread_trace (i : tid) (g : list gevent) : list label :=
  (filter (fun e => e.1 = i) g).*2.

(** The calls on one connection in a run, whoever made them. *)
Definition conn_trace (c : conn) (g : list gevent) : list label :=
  filter (fun l => label_conn l = Some c) g.*2.

(** The process has ended: main returned or called [os.Exit]. *)
Definition exited (s : system) : Prop :=
  match sys_main s with
  | Ret (Some _) => True
  | _ => False
  end.

#[export] Instance exited_dec s : Decision (exited s).
Proof. unfold exited. destruct (sys_main s) as [[?|]|]; apply _. Defined.

Section Pool.
Context {L : LogPkg} {J : JsonPkg}.

(** Line 168: what a call of main adds to the pool. *)
Definition go_statement (l : label) : list (prog unit) :=
  match l with
  | LGo c activeChecks tFlag => [handleConnection c activeChecks tFlag]
  | _ => []
  end.

Inductive step : system -> gevent -> system -> Prop :=
| step_main m l m' pool :
    pstep m l m' ->
    step (mkSystem m pool) (None, l) (mkSystem m' (pool ++ go_statement l))
| step_goroutine m pool i p l p' :
    ~ exited (mkSystem m pool) ->
    pool !! i = Some p ->
    pstep p l p' ->
    step (mkSystem m pool) (Some i, l) (mkSystem m (<[i:=p']> pool)).

(** The runs from [s0], with the state they lead to. *)
Inductive reach (s0 : system) : list gevent -> system -> Prop :=
| reach_nil : reach s0 [] s0
| reach_snoc g s e s' : reach s0 g s -> step s e s' -> reach s0 (g ++ [e]) s'.

(** The process at its start: main unrolled [fuel] times, no goroutine. *)
Definition init (fuel : nat) : system := mkSystem (main fuel) [].

(** A goroutine that has not finished. *)
Definition in_flight (p : prog unit) : Prop :=
  match p with Ret _ => False | Vis _ _ => True end.

(** *** An executable scheduler *)

(** The next call of a thread, answered by the environment. *)
Definition thread_step {W R} (h : env W) (p : prog R) (w : W) :
    option (label * prog R * W) :=
  match p with
  | Ret _ => None
  | Vis e k => let a := answer h e w in Some (label_of e a.1, k a.1, a.2)
  end.

(** One turn of thread [th]: its next call, if it has one and the process
    lives. *)
Definition turn {W} (h : env W) (th : tid) (s : system) (w : W) :
    option (gevent * system * W) :=
  match th with
  | None =>
      '(l, m', w') ← thread_step h (sys_main s) w;
      Some ((None, l), mkSystem m' (sys_pool s ++ go_statement l), w')
  | Some i =>
      if decide (exited s) then None else
      p ← sys_pool s !! i;
      '(l, p', w') ← thread_step h p w;
      Some ((Some i, l), mkSystem (sys_main s) (<[i:=p']> (sys_pool s)), w')
  end.

(** The run of a schedule: the threads take their turns in the order of
    [sched]; a thread that cannot make a call loses its turn. *)
Fixpoint exec {W} (h : env W) (sched : list tid) (s : system) (w : W) :
    list gevent * system :=
  match sched with
  | [] => ([], s)
  | th :: sched' =>
      match turn h th s w with
      | Some (ev, s', w') => let r := exec h sched' s' w' in (ev :: r.1, r.2)
      | None => exec h sched' s w
      end
  end.

(** A host with a listener queue and a peer behind every connection. *)
Definition serving_env (h : host) (peers : conn -> peer) : env (list (result conn)) :=
  mkEnv (list (result conn)) (fun X e q =>
    match e in event X return X * list (result conn) with
    | ConnRead c _ => (peer_read (peers c), q)
    | ConnWrite c _ _ => (peer_write (peers c), q)
    | e' => answer (accepting h) e' q
    end).

End Pool.

#[export] Hint Constructors step reach : mock.

(** *** A sample run *)

(** Connection 1 asks for the active checks, connection 2 sends another
    request, every other connection times out. *)
Definition sample_peers (c : conn) : peer :=
  if decide (c = 1%nat) then mkPeer (Ok active_request) None
  else if decide (c = 2%nat) then mkPeer (Ok ping_request) None
  else mkPeer (Fail "i/o timeout") None.

(** Main starts up and accepts connection 1; goroutine 0 reads; main
    accepts connection 2; the two goroutines take turns until both have
    closed; the third Accept fails and main returns. *)
Definition sample_schedule : list tid :=
  replicate 12 None ++
  [Some 0%nat; None; None; Some 1%nat; Some 0%nat; Some 0%nat; Some 1%nat;
   Some 0%nat; Some 1%nat; Some 1%nat; None; None; None].

(** The sample run, cut after [n] turns. *)
Definition sample_run (n : nat) : list gevent * system :=
  exec (J:=sample_json) (serving_env (sample_host NoFailure) sample_peers)
    (take n sample_schedule) (init (L:=sample_log) 5) sample_queue.


(** ** Theorems *)

Section ThreadTrace.
Implicit Types (i : tid) (g : list gevent) (l : label).

Lemma thread_trace_nil i : thread_trace i [] = [].
Proof. done. Qed.

Lemma thread_trace_app i g1 g2 :
  thread_trace i (g1 ++ g2) = thread_trace i g1 ++ thread_trace i g2.
Proof. unfold thread_trace. by rewrite filter_app, fmap_app. Qed.

Lemma thread_trace_snoc i g l : thread_trace i (g ++ [(i, l)]) = thread_trace i g ++ [l].
Proof.
  rewrite thread_trace_app. f_equal. unfold thread_trace.
  by rewrite filter_cons, decide_True.
Qed.

Lemma thread_trace_snoc_ne i j g l : i <> j -> thread_trace i (g ++ [(j, l)]) = thread_trace i g.
Proof.
  intros Hne. rewrite thread_trace_app. unfold thread_trace at 2.
  rewrite filter_cons, decide_False by (simpl; congruence). apply app_nil_r.
Qed.

Lemma elem_of_thread_trace i g l : l ∈ thread_trace i g <-> (i, l) ∈ g.
Proof.
  unfold thread_trace. rewrite list_elem_of_fmap. split.
  - intros ([j l'] & -> & [Hj Hin]%list_elem_of_filter). simpl in *. by subst.
  - intros Hin. exists (i, l). split; [done|]. by apply list_elem_of_filter.
Qed.

(** The calls of main alone, as a run. *)
Lemma thread_trace_main_only (t : list label) :
  thread_trace None ((fun l => (None, l)) <$> t) = t.
Proof.
  induction t as [|l t IH]; [done|]. rewrite fmap_cons.
  change (thread_trace None ((None, l) :: _)) with
    (thread_trace None ([(None, l)] ++ ((fun l => (None, l)) <$> t))).
  rewrite thread_trace_app, IH. done.
Qed.

(** When the calls on [c] are all made by one thread, they are the
    calls on [c] of that thread. *)
Lemma conn_trace_thread c i g :
  (forall th l, (th, l) ∈ g -> label_conn l = Some c -> th = i) ->
  conn_trace c g = filter (fun l => label_conn l = Some c) (thread_trace i g).
Proof.
  unfold conn_trace, thread_trace. induction g as [|[th l] g IH]; intros H; [done|].
  rewrite fmap_cons, !filter_cons. simpl.
  assert (filter (fun l => label_conn l = Some c) g.*2 =
          filter (fun l => label_conn l = Some c) (filter (fun e => e.1 = i) g).*2) as IH'
    by (apply IH; intros th' l' Hin; apply H; by right).
  destruct (decide (label_conn l = Some c)) as [Hl|Hl].
  - rewrite decide_True by (apply (H th l); [left|done]).
    rewrite fmap_cons, filter_cons, decide_True by done. simpl. by f_equal.
  - destruct (decide (th = i)); [|done].
    by rewrite fmap_cons, filter_cons, decide_False by done.
Qed.

End ThreadTrace.

Section PoolFacts.
Context {L : LogPkg} {J : JsonPkg}.
Implicit Types (s : system) (g : list gevent) (i : nat) (p : prog unit).

Lemma length_go_statement l : length (go_statement l) = length (spawned [l]).
Proof. by destruct l. Qed.

Lemma go_statement_spawned l p :
  go_statement l !! 0%nat = Some p ->
  exists c ac d, l = LGo c ac d /\ p = handleConnection c ac d.
Proof. destruct l; intros; simplify_eq/=. eauto. Qed.

(** A thread that can make a call has not returned. *)
Lemma pstep_not_exited m l m' pool : pstep m l m' -> ~ exited (mkSystem m pool).
Proof. destruct m; simpl; [intros []|intros _ []]. Qed.

(** *** Invariants of the runs *)

(** Main runs by itself: its calls in a run are steps of main. *)
Lemma reach_main s0 g s :
  reach s0 g s -> sys_main s0 ~[thread_trace None g]~> sys_main s.
Proof.
  induction 1 as [|g s e s' _ IH Hs]; [done|].
  destruct Hs as [m l m' pool Hm|m pool i p l p' Hx Hi Hp]; simpl in *.
  - rewrite thread_trace_snoc. by eapply psteps_snoc.
  - by rewrite thread_trace_snoc_ne.
Qed.

(** The pool holds one goroutine per [go] statement of main. *)
Lemma reach_pool_length s0 g s :
  reach s0 g s ->
  length (sys_pool s) = (length (sys_pool s0) + length (spawned (thread_trace None g)))%nat.
Proof.
  induction 1 as [|g s e s' _ IH Hs]; [simpl; lia|].
  destruct Hs as [m l m' pool Hm|m pool i p l p' Hx Hi Hp]; simpl in *.
  - rewrite thread_trace_snoc, spawned_app, !length_app, length_go_statement. lia.
  - by rewrite thread_trace_snoc_ne, length_insert.
Qed.

(** A goroutine that was not started has made no call. *)
Lemma reach_idle s0 g s i :
  reach s0 g s -> (length (sys_pool s) <= i)%nat -> thread_trace (Some i) g = [].
Proof.
  induction 1 as [|g s e s' _ IH Hs]; [done|].
  destruct Hs as [m l m' pool Hm|m pool j p l p' Hx Hj Hp]; simpl in *.
  - rewrite length_app. intros Hle. rewrite thread_trace_snoc_ne by done. apply IH. lia.
  - rewrite length_insert. intros Hle. apply lookup_lt_Some in Hj.
    rewrite thread_trace_snoc_ne by (intros [= ->]; lia). by apply IH.
Qed.

(** What a goroutine has done are steps of [handleConnection] with the
    arguments of its [go] statement. *)
Lemma reach_goroutine s0 g s i p :
  reach s0 g s -> sys_pool s0 = [] ->
  sys_pool s !! i = Some p ->
  exists c ac d,
    spawned (thread_trace None g) !! i = Some (c, ac, d) /\
    handleConnection c ac d ~[thread_trace (Some i) g]~> p.
Proof.
  intros Hr H0. revert i p. induction Hr as [|g s e s' Hr IH Hs]; intros i q.
  { rewrite H0. by rewrite lookup_nil. }
  pose proof (reach_pool_length _ _ _ Hr) as Hlen. rewrite H0 in Hlen.
  destruct Hs as [m l m' pool Hm|m pool j p l p' Hx Hj Hp]; simpl in *.
  - rewrite thread_trace_snoc, thread_trace_snoc_ne, spawned_app by done.
    intros [Hi|[Hle Hi]]%lookup_app_Some.
    + destruct (IH _ _ Hi) as (c & ac & d & Hsp & Hps).
      exists c, ac, d. split; [by apply lookup_app_l_Some|done].
    + assert (i = length pool) as ->.
      { apply lookup_lt_Some in Hi. rewrite length_go_statement in Hi.
        destruct l; simpl in Hi; lia. }
      rewrite Nat.sub_diag in Hi. apply go_statement_spawned in Hi as (c & ac & d & -> & ->).
      exists c, ac, d. rewrite (reach_idle _ _ _ _ Hr) by done. split; [|done].
      rewrite lookup_app_r by lia. by rewrite Hlen, Nat.sub_diag.
  - rewrite thread_trace_snoc_ne by done. destruct (decide (i = j)) as [->|Hne].
    + rewrite list_lookup_insert_eq by (by eapply lookup_lt_Some). intros [= <-].
      destruct (IH _ _ Hj) as (c & ac & d & Hsp & Hps).
      exists c, ac, d. split; [done|]. rewrite thread_trace_snoc. by eapply psteps_snoc.
    + rewrite list_lookup_insert_ne by done. intros Hi.
      rewrite thread_trace_snoc_ne by congruence. by apply IH.
Qed.

(** What a goroutine has done is the beginning of a path of the handler. *)
Lemma reach_handled fuel g s i c ac d :
  reach (init fuel) g s ->
  spawned (thread_trace None g) !! i = Some (c, ac, d) ->
  exists t', handled c ac (seconds d) (thread_trace (Some i) g ++ t').
Proof.
  intros Hr Hsp. pose proof (reach_pool_length _ _ _ Hr) as Hlen. simpl in Hlen.
  destruct (lookup_lt_is_Some_2 (sys_pool s) i) as [p Hp].
  { rewrite Hlen. by eapply lookup_lt_Some. }
  destruct (reach_goroutine _ _ _ _ _ Hr eq_refl Hp) as (c' & ac' & d' & Hsp' & Hps).
  simplify_eq. destruct (psteps_prefix _ _ _ Hps) as (t' & [] & Ht).
  exists t'. by apply handleConnection_paths.
Qed.

(** A goroutine that made a call was started. *)
Lemma reach_started s0 g s i l :
  reach s0 g s -> (Some i, l) ∈ g -> is_Some (sys_pool s !! i).
Proof.
  intros Hr Hin. apply lookup_lt_is_Some.
  destruct (decide (length (sys_pool s) <= i)%nat) as [Hle|]; [|lia].
  apply elem_of_thread_trace in Hin. rewrite (reach_idle _ _ _ _ Hr Hle) in Hin.
  by apply elem_of_nil in Hin.
Qed.

(** C11: In every run of the server, whatever the scheduler does, each
    goroutine follows the handler on its own connection: the calls it has
    made so far are the beginning of one of the five paths of
    handleConnection with the arguments of its go statement, so it makes
    at most five calls. *)
Theorem goroutine_refines_handler fuel g s i c ac d :
  reach (init fuel) g s ->
  spawned (thread_trace None g) !! i = Some (c, ac, d) ->
  (exists t', handled c ac (seconds d) (thread_trace (Some i) g ++ t')) /\
  (length (thread_trace (Some i) g) <= 5)%nat.
Proof.
  intros Hr Hsp. destruct (reach_handled _ _ _ _ _ _ _ Hr Hsp) as [t' Ht].
  split; [by exists t'|]. apply handled_length in Ht. rewrite length_app in Ht. lia.
Qed.

(** Who calls on a connection was started on it. *)
Lemma reach_owner fuel g s th l c :
  reach (init fuel) g s ->
  (th, l) ∈ g ->
  label_conn l = Some c ->
  exists i ac d, th = Some i /\ spawned (thread_trace None g) !! i = Some (c, ac, d).
Proof.
  intros Hr Hin Hc. destruct th as [i|].
  - destruct (reach_started _ _ _ _ _ Hr Hin) as [p Hp].
    destruct (reach_goroutine _ _ _ _ _ Hr eq_refl Hp) as (c' & ac & d & Hsp & Hps).
    exists i, ac, d. split; [done|]. rewrite Hsp. do 3 f_equal.
    destruct (psteps_prefix _ _ _ Hps) as (t' & [] & Ht).
    apply handler_footprint in Ht. rewrite Forall_forall in Ht.
    destruct (Ht l) as [Hl|Hl]; [|congruence|by destruct l].
    apply elem_of_app. left. by apply elem_of_thread_trace.
  - apply elem_of_thread_trace in Hin.
    pose proof (main_no_conn _ _ _ _ (reach_main _ _ _ Hr) Hin). congruence.
Qed.

(** C14: A connection is owned by the goroutine started on it: in every
    run a Read, Write or Close on a connection is made by a goroutine
    whose go statement was given that connection; main calls on no
    connection, and no goroutine calls on the connection of another. *)
Theorem connection_owned fuel g s th l c :
  reach (init fuel) g s ->
  (th, l) ∈ g ->
  label_conn l = Some c ->
  th <> None /\
  exists i ac d, th = Some i /\ spawned (thread_trace None g) !! i = Some (c, ac, d).
Proof.
  intros Hr Hin Hc. destruct (reach_owner _ _ _ _ _ _ Hr Hin Hc) as (i & ac & d & -> & H).
  split; [done|]. by exists i, ac, d.
Qed.

(** The calls on a connection follow the protocol, whatever else
    runs: when a connection was handed to one goroutine only, the calls
    made on it in a run of the server, by whichever thread, are the
    beginning of the calls on it of a path of handleConnection: a Read,
    then at most one Write, then the Close; so at most three calls. *)
Theorem connection_protocol fuel g s i c ac d :
  reach (init fuel) g s ->
  spawned (thread_trace None g) !! i = Some (c, ac, d) ->
  (forall j ac' d', spawned (thread_trace None g) !! j = Some (c, ac', d') -> j = i) ->
  exists t', handled c ac (seconds d) t' /\
    conn_trace c g `prefix_of` filter (fun l => label_conn l = Some c) t' /\
    (length (filter (fun l => label_conn l = Some c) t') <= 3)%nat.
Proof.
  intros Hr Hsp Huniq. destruct (reach_handled _ _ _ _ _ _ _ Hr Hsp) as [t' Ht].
  exists (thread_trace (Some i) g ++ t').
  split_and!; [done| |by eapply handled_conn_length].
  rewrite (conn_trace_thread c (Some i)), filter_app; [by eexists|].
  intros th l Hin Hc.
  destruct (reach_owner _ _ _ _ _ _ Hr Hin Hc) as (j & ac' & d' & -> & Hj).
  f_equal. by eapply Huniq.
Qed.

(** The threads share no state: two consecutive calls of different
    threads can be made in the other order, with the same results and the
    same state afterwards, as long as the goroutine that goes second was
    already started.  A blocked or slow goroutine delays neither main nor
    another goroutine. *)
Theorem threads_commute s th l1 s1 j l2 s2 :
  step s (th, l1) s1 ->
  step s1 (Some j, l2) s2 ->
  th <> Some j ->
  is_Some (sys_pool s !! j) ->
  exists s1', step s (Some j, l2) s1' /\ step s1' (th, l1) s2.
Proof.
  intros H1 H2 Hne [p Hj]. inversion H1 as [m l m' pool Hm|m pool i p1 l p1' Hx Hi Hp1]; subst.
  - inversion H2 as [|? ? ? p2 ? p2' Hx' Hj' Hp2]; subst.
    rewrite (lookup_app_l_Some _ _ _ _ Hj) in Hj'. simplify_eq.
    exists (mkSystem m (<[j:=p2']> pool)). split.
    + apply step_goroutine with p2; [by eapply pstep_not_exited|done..].
    + rewrite insert_app_l by (by eapply lookup_lt_Some). by apply step_main.
  - inversion H2 as [|? ? ? p2 ? p2' Hx' Hj' Hp2]; subst.
    assert (i <> j) as Hij by congruence.
    rewrite list_lookup_insert_ne in Hj' by done.
    exists (mkSystem m (<[j:=p2']> pool)). split.
    + by apply step_goroutine with p2.
    + rewrite list_insert_insert_ne by done.
      apply step_goroutine with p1; [done| |done]. by rewrite list_lookup_insert_ne.
Qed.

(** *** Runs of main alone *)

Lemma exited_final s ev s' : exited s -> ~ step s ev s'.
Proof.
  intros Hx Hs. destruct Hs as [m l m' pool Hm|]; [|done].
  by apply pstep_not_exited with (pool := pool) in Hm.
Qed.

(** The scheduler may run main only. *)
Lemma reach_main_only m t m' pool :
  psteps m t m' ->
  reach (mkSystem m pool) ((fun l => (None, l)) <$> t)
    (mkSystem m' (pool ++ (t ≫= go_statement))).
Proof.
  revert m'. induction t as [|l t IH] using rev_ind; intros m' H.
  - simpl in H. subst. rewrite app_nil_r. constructor.
  - apply psteps_app in H as (p' & H1 & q & H2 & <-).
    rewrite fmap_app, bind_app. simpl. rewrite app_nil_r, app_assoc.
    eapply reach_snoc; [by apply IH|]. by apply step_main.
Qed.

Lemma go_statement_none (t : list label) :
  Forall (fun l => label_kind l <> KGo) t -> t ≫= go_statement = [].
Proof.
  induction 1 as [|l t Hl _ IH]; [done|]. rewrite bind_cons, IH. by destruct l.
Qed.

Lemma go_statement_dispatched ac o conns :
  dispatched ac o conns ≫= go_statement =
  (fun c => handleConnection c ac (Timeout o)) <$> conns.
Proof.
  induction conns as [|c conns IH]; [done|].
  by rewrite dispatched_cons, !bind_cons, IH.
Qed.

Lemma accepted_none (t : list label) :
  Forall (fun l => label_kind l <> KAccept) t -> accepted t = [].
Proof.
  induction 1 as [|l t Hl _ IH]; [done|].
  change (l :: t) with ([l] ++ t). rewrite accepted_app, IH. by destruct l.
Qed.

Lemma started_quiet t (r : outcome + serving) :
  started t r ->
  t ≫= go_statement = [] /\ accepted t = [] /\ Forall (fun l => label_conn l = None) t.
Proof.
  intros Hs.
  assert (Forall (fun l => label_kind l ∈ startup_kinds) t) as Hk
    by (apply Forall_forall; intros l; by apply (started_kinds t r)).
  split_and!.
  - apply go_statement_none. eapply Forall_impl; [done|].
    intros l Hl E. simpl in Hl. rewrite E in Hl. unfold startup_kinds in Hl. elem_of_inv.
  - apply accepted_none. eapply Forall_impl; [done|].
    intros l Hl E. simpl in Hl. rewrite E in Hl. unfold startup_kinds in Hl. elem_of_inv.
  - eapply Forall_impl; [done|]. intros l Hl.
    destruct l; try done; unfold startup_kinds in Hl; simpl in Hl; elem_of_inv.
Qed.

Lemma conn_trace_main_only c (t : list label) :
  Forall (fun l => label_conn l = None) t ->
  conn_trace c ((fun l => (None, l)) <$> t) = [].
Proof.
  intros H. unfold conn_trace. rewrite <- list_fmap_compose, list_fmap_id.
  apply filter_none. eapply Forall_impl; [done|]. simpl. congruence.
Qed.

Lemma dispatched_no_conn ac o conns :
  Forall (fun l => label_conn l = None) (dispatched ac o conns).
Proof. apply Forall_forall. by intros l (c & _ & [-> | ->])%elem_of_dispatched. Qed.

(** *** The executable scheduler is sound *)

Lemma thread_step_pstep {W R} (h : env W) (q : prog R) (w : W) l (q' : prog R) w' :
  thread_step h q w = Some (l, q', w') -> pstep q l q'.
Proof. destruct q as [r|X e k]; simpl; [done|]. intros [= <- <- <-]. eauto. Qed.

Lemma turn_step {W} (h : env W) th s (w : W) ev s' w' :
  turn h th s w = Some (ev, s', w') -> step s ev s'.
Proof.
  destruct s as [m pool], th as [i|]; simpl.
  - case_decide; [done|]. destruct (pool !! i) as [p|] eqn:Hi; [|done]. simpl.
    destruct (thread_step h p w) as [[[l p'] w'']|] eqn:Hp; [|done].
    intros [= <- <- <-]. apply thread_step_pstep in Hp. by apply step_goroutine with p.
  - destruct (thread_step h m w) as [[[l m'] w'']|] eqn:Hm; [|done].
    intros [= <- <- <-]. apply thread_step_pstep in Hm. by apply step_main.
Qed.

Lemma reach_cons s0 ev s1 g s : step s0 ev s1 -> reach s1 g s -> reach s0 (ev :: g) s.
Proof.
  intros Hs. induction 1 as [|g s e s' _ IH Hs'].
  - apply (reach_snoc _ [] s0); [constructor|done].
  - rewrite app_comm_cons. by eapply reach_snoc.
Qed.

(** Every run of a schedule is a run of the system. *)
Lemma exec_reach {W} (h : env W) sched s (w : W) :
  reach s (exec h sched s w).1 (exec h sched s w).2.
Proof.
  revert s w. induction sched as [|th sched IH]; intros s w; simpl; [constructor|].
  destruct (turn h th s w) as [[[ev s'] w']|] eqn:Ht; [|done].
  simpl. eapply reach_cons; [by eapply turn_step|done].
Qed.

(** C30: Main is never kept from accepting.  Whenever main has handed the
    connections accepted so far to goroutines and the loop is not cut,
    its next call is an Accept and it can be made at once, whatever the
    goroutines are doing: none of them has to finish, or even to start. *)
Theorem accept_not_blocked fuel g s t0 srv conns x :
  reach (init fuel) g s ->
  thread_trace None g = t0 ++ dispatched (srv_activeChecks srv) (srv_options srv) conns ->
  started t0 (inr srv) ->
  (length conns < fuel)%nat ->
  exists s', step s (None, LAccept x) s' /\ sys_pool s' = sys_pool s.
Proof.
  intros Hr Heq Hs Hlt. pose proof (reach_main _ _ _ Hr) as Hm. simpl in Hm.
  rewrite Heq in Hm. destruct (main_next_accept _ _ _ _ _ x Hs Hlt Hm) as [q' Hq'].
  destruct s as [m pool]. exists (mkSystem q' (pool ++ go_statement (LAccept x))).
  split; [by apply step_main|]. simpl. apply app_nil_r.
Qed.

(** A goroutine has finished exactly when it has closed its
    connection, and until then it can always make its next call while the
    process lives: no goroutine ends with its connection open, and none
    waits for another thread. *)
Theorem goroutine_finishes_closed fuel g s i c ac d p :
  reach (init fuel) g s ->
  spawned (thread_trace None g) !! i = Some (c, ac, d) ->
  sys_pool s !! i = Some p ->
  (p = Ret tt <-> LConnClose c ∈ thread_trace (Some i) g) /\
  (p <> Ret tt -> ~ exited s -> exists l s', step s (Some i, l) s').
Proof.
  intros Hr Hsp Hp.
  destruct (reach_goroutine _ _ _ _ _ Hr eq_refl Hp) as (c' & ac' & d' & Hsp' & Hps).
  simplify_eq. split; [split|].
  - intros ->. apply traces_psteps, handleConnection_paths, handled_last in Hps.
    apply last_Some_elem_of in Hps. done.
  - intros Hin. destruct (psteps_prefix _ _ _ Hps) as (t' & [] & Ht).
    pose proof Ht as Ht'. apply handleConnection_paths in Ht'.
    apply handled_close_last in Ht'; [|done]. subst t'. rewrite app_nil_r in Ht.
    apply traces_psteps in Ht. by apply (psteps_det _ _ _ _ Hps).
  - intros Hne Hx. destruct p as [[]|X e k]; [done|]. destruct s as [m pool].
    exists (label_of e (event_default e)), (mkSystem m (<[i:=k (event_default e)]> pool)).
    apply step_goroutine with (Vis e k); [done..|]. apply pstep_vis.
Qed.

(** There is no bound on the goroutines in flight: on a host where
    the start-up succeeds, for any list of connections there is a run in
    which all of them are accepted and handed to goroutines before any
    goroutine has made a call; the pool then holds one unfinished handler
    per connection. *)
Theorem no_bound_on_in_flight (h : host) srv conns :
  (startup_run h).2 = inr srv ->
  exists g s, reach (init (length conns)) g s /\
    accepted (thread_trace None g) = conns /\
    sys_pool s =
      (fun c => handleConnection c (srv_activeChecks srv) (Timeout (srv_options srv)))
        <$> conns /\
    Forall in_flight (sys_pool s) /\
    forall c, conn_trace c g = [].
Proof.
  intros Hs. pose proof (startup_run_traces h) as Ht. rewrite Hs in Ht.
  apply startup_paths in Ht. destruct (started_quiet _ _ Ht) as (Hgo & Hacc & Hconn).
  set (t := (startup_run h).1 ++
            dispatched (srv_activeChecks srv) (srv_options srv) conns).
  assert (traces (main (length conns)) t None) as Hm
    by (apply main_paths, (mained_serving _ _ srv); [done|apply looped_serving]).
  apply traces_psteps, (reach_main_only _ _ _ []) in Hm.
  eexists _, _. split; [exact Hm|]. cbn [sys_pool app]. unfold t.
  rewrite thread_trace_main_only, accepted_app, Hacc, accepted_dispatched.
  rewrite bind_app, Hgo, go_statement_dispatched. split_and!; [done..| |].
  - apply Forall_fmap, Forall_forall. by intros c _.
  - intros c. apply conn_trace_main_only, Forall_app. split; [done|].
    apply dispatched_no_conn.
Qed.

(** C31: When main returns, the goroutines in flight are abandoned: on a
    host where the start-up succeeds there is a run in which a connection
    is accepted and handed to a goroutine, the next Accept fails, main
    closes the listener and returns, and the process is over (no thread
    can make a call) while that goroutine has not read, answered or
    closed its connection. *)
Theorem return_abandons_goroutines (h : host) srv c e :
  (startup_run h).2 = inr srv ->
  exists g s, reach (init 2) g s /\
    exited s /\ (forall ev s', ~ step s ev s') /\
    sys_pool s =
      [handleConnection c (srv_activeChecks srv) (Timeout (srv_options srv))] /\
    LAccept (Ok c) ∈ thread_trace None g /\
    LAccept (Fail e) ∈ thread_trace None g /\
    conn_trace c g = [].
Proof.
  intros Hs. pose proof (startup_run_traces h) as Ht. rewrite Hs in Ht.
  apply startup_paths in Ht. destruct (started_quiet _ _ Ht) as (Hgo & Hacc & Hconn).
  set (t := (startup_run h).1 ++
            (dispatched (srv_activeChecks srv) (srv_options srv) [c] ++ accept_failed e) ++
            [LListenerClose]).
  assert (traces (main 2) t (Some Return)) as Hm.
  { apply main_paths, (mained_returned _ _ srv); [done|]. apply looped_failed. simpl. lia. }
  apply traces_psteps, (reach_main_only _ _ _ []) in Hm.
  eexists _, _. split; [exact Hm|]. cbn [sys_pool app]. unfold t.
  rewrite thread_trace_main_only, !bind_app, Hgo. split_and!; [done| |done| | |].
  - intros ev s'. by apply exited_final.
  - rewrite !elem_of_app. right. left. left. left.
  - rewrite !elem_of_app. right. left. right. left.
  - apply conn_trace_main_only. rewrite !Forall_app. split_and!; [done| | |].
    + apply dispatched_no_conn.
    + by repeat constructor.
    + by repeat constructor.
Qed.

End PoolFacts.

(** ** The theorems on the sample host *)

Section Sample.
#[local] Existing Instances sample_log sample_json.

Lemma sample_run_reach n : reach (init 5) (sample_run n).1 (sample_run n).2.
Proof. apply exec_reach. Qed.

(** The sample run: which thread made which call. *)
Example sample_run_calls :
  (fun ev => (ev.1, label_kind ev.2)) <$> (sample_run 25).1 =
    ((fun k => (None, k)) <$>
       [KFlagParse; KConfLoad; KConfLoad; KLogOpen; KLogf; KPrintln; KPrintln; KLogf;
        KReadFile; KListen; KAccept; KGo]) ++
    [(Some 0%nat, KConnRead); (None, KAccept); (None, KGo); (Some 1%nat, KConnRead);
     (Some 0%nat, KLogf); (Some 0%nat, KConnWrite); (Some 1%nat, KLogf);
     (Some 0%nat, KConnClose); (Some 1%nat, KLogf); (Some 1%nat, KConnClose);
     (None, KAccept); (None, KLogf); (None, KListenerClose)] /\
  conn_trace 1%nat (sample_run 25).1 =
    [LConnRead 1%nat 5000000000 (Ok active_request);
     LConnWrite 1%nat (bytes_of_string "AC1") 5000000000 None; LConnClose 1%nat] /\
  conn_trace 2%nat (sample_run 25).1 =
    [LConnRead 2%nat 5000000000 (Ok ping_request); LConnClose 2%nat].
Proof. by vm_compute. Qed.

Lemma goroutine_refines_handler_witness :
  (exists t', handled 1%nat (bytes_of_string "AC1") (seconds 5)
                (thread_trace (Some 0%nat) (sample_run 17).1 ++ t')) /\
  (length (thread_trace (Some 0%nat) (sample_run 17).1) <= 5)%nat.
Proof.
  apply (goroutine_refines_handler 5 _ _ 0%nat _ _ _ (sample_run_reach 17)).
  by vm_compute.
Defined.

Lemma connection_owned_witness :
  Some 1%nat <> None /\
  exists i ac d, Some 1%nat = Some i /\
    spawned (thread_trace None (sample_run 17).1) !! i = Some (2%nat, ac, d).
Proof.
  apply (connection_owned 5 _ _ (Some 1%nat)
           (LConnRead 2%nat 5000000000 (Ok ping_request)) 2%nat (sample_run_reach 17));
    [vm_compute; elem_of_intro|done].
Defined.

Lemma connection_protocol_witness :
  exists t', handled 1%nat (bytes_of_string "AC1") (seconds 5) t' /\
    conn_trace 1%nat (sample_run 17).1 `prefix_of`
      filter (fun l => label_conn l = Some 1%nat) t' /\
    (length (filter (fun l => label_conn l = Some 1%nat) t') <= 3)%nat.
Proof.
  apply (connection_protocol 5 _ _ 0%nat _ _ _ (sample_run_reach 17)); [by vm_compute|].
  vm_compute. intros [|[|[|j]]] ac' d' H; by simplify_eq.
Defined.

Lemma threads_commute_witness :
  exists s1',
    step (mkSystem (Ret None) [trigger (ConnClose 1%nat); trigger (ConnClose 2%nat)])
      (Some 1%nat, LConnClose 2%nat) s1' /\
    step s1' (Some 0%nat, LConnClose 1%nat) (mkSystem (Ret None) [Ret tt; Ret tt]).
Proof.
  apply (threads_commute _ (Some 0%nat) (LConnClose 1%nat)
           (mkSystem (Ret None) [Ret tt; trigger (ConnClose 2%nat)])).
  - refine (step_goroutine (Ret None) [trigger (ConnClose 1%nat); trigger (ConnClose 2%nat)]
              0%nat (trigger (ConnClose 1%nat)) (LConnClose 1%nat) (Ret tt) _ _ _);
      [by intros []|done|by exists tt].
  - refine (step_goroutine (Ret None) [Ret tt; trigger (ConnClose 2%nat)]
              1%nat (trigger (ConnClose 2%nat)) (LConnClose 2%nat) (Ret tt) _ _ _);
      [by intros []|done|by exists tt].
  - done.
  - by eexists.
Defined.

Lemma accept_not_blocked_witness :
  exists s', step (sample_run 13).2 (None, LAccept (Ok 9%nat)) s' /\
    sys_pool s' = sys_pool (sample_run 13).2.
Proof.
  apply (accept_not_blocked 5 (sample_run 13).1 _ (sample_startup NoFailure).1
           (mkServing (bytes_of_string "AC1") sample_options) [1%nat]).
  - apply sample_run_reach.
  - by vm_compute.
  - apply startup_paths, (sample_startup_traces NoFailure).
  - simpl. lia.
Defined.

Lemma goroutine_finishes_closed_witness :
  (Ret tt = Ret tt <-> LConnClose 1%nat ∈ thread_trace (Some 0%nat) (sample_run 25).1) /\
  (Ret tt <> Ret tt -> ~ exited (sample_run 25).2 ->
   exists l s', step (sample_run 25).2 (Some 0%nat, l) s').
Proof.
  apply (goroutine_finishes_closed 5 _ _ 0%nat _ (bytes_of_string "AC1") 5 _
           (sample_run_reach 25)); by vm_compute.
Defined.

Lemma no_bound_on_in_flight_witness :
  exists g s, reach (init 3) g s /\
    accepted (thread_trace None g) = [1%nat; 2%nat; 3%nat] /\
    sys_pool s =
      (fun c => handleConnection c (bytes_of_string "AC1") 5) <$> [1%nat; 2%nat; 3%nat] /\
    Forall in_flight (sys_pool s) /\
    forall c, conn_trace c g = [].
Proof.
  apply (@no_bound_on_in_flight sample_log sample_json (sample_host NoFailure)
           (mkServing (bytes_of_string "AC1") sample_options) [1%nat; 2%nat; 3%nat]).
  by vm_compute.
Defined.

Lemma return_abandons_goroutines_witness :
  exists g s, reach (init 2) g s /\
    exited s /\ (forall ev s', ~ step s ev s') /\
    sys_pool s = [handleConnection 7%nat (bytes_of_string "AC1") 5] /\
    LAccept (Ok 7%nat) ∈ thread_trace None g /\
    LAccept (Fail "too many open files") ∈ thread_trace None g /\
    conn_trace 7%nat g = [].
Proof.
  apply (@return_abandons_goroutines sample_log sample_json (sample_host NoFailure)
           (mkServing (bytes_of_string "AC1") sample_options) 7%nat "too many open files").
  by vm_compute.
Defined.

End Sample.
