(* ===== verification/Wire.v ===== *)
(** * Wire: the transport primitive (package comms)

    The program reads and writes whole messages through package comms:
    [c.Read(timeout)] returns the payload of the next frame of the
    connection, [c.Write(data, timeout)] sends [data] as one frame.  The
    package is not part of the sources; it is modelled from the
    specification, which says that every message is a length-framed byte
    payload and that a call that exceeds its deadline fails.

    [Framing] is the contract of the encoding: what is framed can be
    unframed, and only that.  [zbxd] is the encoding of the Zabbix
    protocol (the text ZBXD, a flags byte, the length of the payload in
    eight little-endian bytes, the payload); every theorem on the
    program is proved for any [Framing], and [zbxd] shows that the
    contract can be met.

    An [endpoint] is the server's side of one connection: the bytes the
    client sent and the server did not read yet, the bytes the server
    sent, whether the server closed it.  [net] is the listener with its
    backlog and the endpoints by connection; [wire_env] answers the
    calls of package comms on a [net], so that [Effects.run] executes
    the program against bytes on a wire. *)

From Stdlib Require Import ZArith Lia.
From S2P Require Import Prelude Options Json Effects.

#[local] Open Scope Z_scope.

(** ** Little-endian integers *)

(** The [n] low bytes of [z], least significant first
    ([binary.LittleEndian.PutUint64] for [n = 8]). *)
Fixpoint le_bytes (n : nat) (z : Z) : bytes :=
  match n with
  | O => []
  | S n' => byte_of_Z z :: le_bytes n' (z / 256)
  end.

(** The number a sequence of bytes stands for, least significant first. *)
Fixpoint le_value (bs : bytes) : Z :=
  match bs with
  | [] => 0
  | b :: bs' => Z_of_byte b + 256 * le_value bs'
  end.

(** ** Framing *)

(** The contract of the encoding of messages.  [unframe] takes the first
    frame off a stream of bytes and returns its payload with the rest of
    the stream; it fails on a stream that does not start with a whole
    frame. *)
Class Framing : Type := {
  frame : bytes -> bytes;
  unframe : bytes -> result (bytes * bytes);
  (** the longest payload a frame can hold *)
  frame_limit : Z;
  unframe_frame p rest :
    Z.of_nat (length p) <= frame_limit -> unframe (frame p ++ rest) = Ok (p, rest);
  unframe_sound s p rest :
    unframe s = Ok (p, rest) -> s = frame p ++ rest /\ Z.of_nat (length p) <= frame_limit;
  (** an empty stream holds no frame: the peer is gone *)
  unframe_nil : unframe [] = Fail "EOF";
}.

(** A payload a frame can hold. *)
Definition fits {F : Framing} (p : bytes) : Prop := Z.of_nat (length p) <= frame_limit.

#[export] Instance fits_dec {F : Framing} p : Decision (fits p).
Proof. unfold fits. apply _. Defined.

(** *** The Zabbix header *)

Definition zbx_magic : bytes := bytes_of_string "ZBXD".
Definition zbx_flags : byte := Byte.x01.
Definition zbx_header_length : nat := 13.
Definition zbx_limit : Z := 2 ^ 64 - 1.

Definition zbx_frame (p : bytes) : bytes :=
  zbx_magic ++ zbx_flags :: le_bytes 8 (Z.of_nat (length p)) ++ p.

Definition zbx_unframe (s : bytes) : result (bytes * bytes) :=
  if decide (s = []) then Fail "EOF"
  else if decide (take 4 s = zbx_magic) then
    if decide (s !! 4%nat = Some zbx_flags) then
      if decide (length s < zbx_header_length)%nat then Fail "short header"
      else
        let n := Z.to_nat (le_value (take 8 (drop 5 s))) in
        let body := drop zbx_header_length s in
        if decide (length body < n)%nat then Fail "short payload"
        else Ok (take n body, drop n body)
    else Fail "unsupported flags"
  else Fail "bad magic".

(** ** Endpoints *)

(** The server's side of one connection.  [ep_in] is what the client
    sent and the server did not read yet, [ep_out] what the server sent,
    [ep_open] is cleared by [Close], [ep_reset] says that the client went
    away, so that writes fail. *)
Record endpoint : Type := mkEndpoint {
  ep_in : bytes;
  ep_out : bytes;
  ep_open : bool;
  ep_reset : bool;
}.

#[export] Instance endpoint_eq_dec : EqDecision endpoint.
Proof. solve_decision. Defined.

(** A connection on which the client sent [s]. *)
Definition ep_fresh (s : bytes) : endpoint := mkEndpoint s [] true false.

Section Endpoint.
Context {F : Framing}.

(** [c.Read(timeout)]: the next frame of the inbox.  A deadline that is
    not in the future has passed when the call starts; an inbox that
    does not hold a whole frame fails the call (the deadline passes, or
    the header is refused). *)
Definition ep_read (timeout : duration) (ep : endpoint) : result bytes * endpoint :=
  if negb (ep_open ep) then (Fail "use of closed connection", ep)
  else if timeout <=? 0 then (Fail "i/o timeout", ep)
  else
    match unframe (ep_in ep) with
    | Ok (p, rest) => (Ok p, mkEndpoint rest (ep_out ep) true (ep_reset ep))
    | Fail e => (Fail e, ep)
    end.

(** [c.Write(data, timeout)]: one frame appended to the outbox. *)
Definition ep_write (data : bytes) (timeout : duration) (ep : endpoint)
  : option error * endpoint :=
  if negb (ep_open ep) then (Some "use of closed connection", ep)
  else if timeout <=? 0 then (Some "i/o timeout", ep)
  else if ep_reset ep then (Some "connection reset by peer", ep)
  else if frame_limit <? Z.of_nat (length data) then (Some "message too long", ep)
  else (None, mkEndpoint (ep_in ep) (ep_out ep ++ frame data) true false).

(** [c.Close()]. *)
Definition ep_close (ep : endpoint) : endpoint :=
  mkEndpoint (ep_in ep) (ep_out ep) false (ep_reset ep).

(** The messages of a stream of bytes, the way the client reads what the
    server sent: frame after frame, [None] when the stream does not
    consist of whole frames.  The fuel is the length of the stream, and
    a frame is never empty. *)
Fixpoint unframe_all (fuel : nat) (s : bytes) : option (list bytes) :=
  match s with
  | [] => Some []
  | _ =>
      match fuel with
      | O => None
      | S fuel' =>
          match unframe s with
          | Ok (p, rest) => cons p <$> unframe_all fuel' rest
          | Fail _ => None
          end
      end
  end.

Definition received (ep : endpoint) : option (list bytes) :=
  unframe_all (length (ep_out ep)) (ep_out ep).

(** The outbox consists of whole frames. *)
Definition ep_wf (ep : endpoint) : Prop :=
  exists ps, ep_out ep = mjoin (frame <$> ps) /\ Forall fits ps.

End Endpoint.

(** The history of an endpoint: the inbox is consumed from the front, the
    outbox grows at the end, and nothing moves once it is closed. *)
Definition ep_le (ep ep' : endpoint) : Prop :=
  ep_in ep' `suffix_of` ep_in ep /\ ep_out ep `prefix_of` ep_out ep' /\
  (ep_open ep = false -> ep' = ep).

(** ** The network *)

(** The listener and the connections.  [net_bound] is the address the
    listener is bound to, [net_backlog] the outcomes of the calls of
    [Accept] to come (a connection that arrives, or a failure),
    [net_conns] the endpoints by connection. *)
Record net : Type := mkNet {
  net_bound : option string;
  net_backlog : list (result conn);
  net_conns : gmap conn endpoint;
}.

Definition with_conns (f : gmap conn endpoint -> gmap conn endpoint) (w : net) : net :=
  mkNet (net_bound w) (net_backlog w) (f (net_conns w)).

Section Network.
Context {F : Framing}.

Definition conn_read (c : conn) (timeout : duration) (w : net) : result bytes * net :=
  match net_conns w !! c with
  | Some ep =>
      let r := ep_read timeout ep in (r.1, with_conns <[c := r.2]> w)
  | None => (Fail "bad file descriptor", w)
  end.

Definition conn_write (c : conn) (data : bytes) (timeout : duration) (w : net)
  : option error * net :=
  match net_conns w !! c with
  | Some ep =>
      let r := ep_write data timeout ep in (r.1, with_conns <[c := r.2]> w)
  | None => (Some "bad file descriptor", w)
  end.

Definition conn_close (c : conn) (w : net) : net :=
  with_conns (alter ep_close c) w.

(** [comms.Listen(address)]: [busy] are the addresses that cannot be
    bound. *)
Definition listen (busy : list string) (address : string) (w : net)
  : option error * net :=
  if decide (address ∈ busy) then (Some "address already in use", w)
  else (None, mkNet (Some address) (net_backlog w) (net_conns w)).

(** [ln.Accept()]: the next outcome of the backlog.  The program never
    calls it on a listener that is not bound, and the model answers with
    a failure there; an empty backlog stands for a listener that was
    shut down under the program. *)
Definition accept (w : net) : result conn * net :=
  match net_bound w, net_backlog w with
  | None, _ => (Fail "use of closed network connection", w)
  | Some _, [] => (Fail "listener shut down", w)
  | Some a, r :: rest => (r, mkNet (Some a) rest (net_conns w))
  end.

Definition listener_close (w : net) : net :=
  mkNet None (net_backlog w) (net_conns w).

(** The environment of a program on a network: package comms is answered
    by the network, every other call by [o]. *)
Definition wire_env (busy : list string) (o : oracle) : env net :=
  mkEnv net (fun X (e : event X) w =>
    match e in event X return X * net with
    | ConnRead c d => conn_read c d w
    | ConnWrite c data d => conn_write c data d w
    | ConnClose c => (tt, conn_close c w)
    | Listen address => listen busy address w
    | Accept => accept w
    | ListenerClose => (tt, listener_close w)
    | e' => (o _ e', w)
    end).

(** The network is well formed: every outbox consists of whole frames,
    and the connections of the backlog are connections clients made. *)
Definition net_wf (w : net) : Prop :=
  map_Forall (fun _ ep => ep_wf ep) (net_conns w) /\
  Forall (fun r => forall c, r = Ok c -> is_Some (net_conns w !! c)) (net_backlog w).

End Network.

(** The connection a call is made on. *)
Definition event_conn {X} (e : event X) : option conn :=
  label_conn (label_of e (event_default e)).

(** The history of a network: no connection appears or goes away, every
    endpoint follows its history, the backlog is consumed from the front. *)
Definition net_le (w w' : net) : Prop :=
  (forall c, option_Forall2 ep_le (net_conns w !! c) (net_conns w' !! c)) /\
  net_backlog w' `suffix_of` net_backlog w.

(** ** Lemmas: little-endian integers *)

Section LittleEndian.
Implicit Types (z : Z) (b : byte) (bs : bytes) (n : nat).

Lemma length_le_bytes n z : length (le_bytes n z) = n.
Proof. revert z. induction n; intros; simpl; by f_equal. Qed.

Lemma le_value_range bs : 0 <= le_value bs < 256 ^ Z.of_nat (length bs).
Proof.
  induction bs as [|b bs IH]; [done|].
  cbn [le_value length]. rewrite Nat2Z.inj_succ, Z.pow_succ_r by lia.
  pose proof (Z_of_byte_range b). lia.
Qed.

(** Encoding keeps the [n] low bytes. *)
Lemma le_value_le_bytes n z : le_value (le_bytes n z) = z mod 256 ^ Z.of_nat n.
Proof.
  revert z. induction n as [|n IH]; intros z.
  - by rewrite Z.mod_1_r.
  - cbn [le_bytes le_value]. rewrite Z_of_byte_of_Z, IH.
    rewrite Nat2Z.inj_succ, Z.pow_succ_r by lia.
    symmetry. apply Z.rem_mul_r; lia.
Qed.

Lemma le_value_cons_mod b bs : (Z_of_byte b + 256 * le_value bs) mod 256 = Z_of_byte b.
Proof.
  rewrite (Z.mul_comm 256), Z_mod_plus_full. apply Z.mod_small, Z_of_byte_range.
Qed.

Lemma le_value_cons_div b bs : (Z_of_byte b + 256 * le_value bs) / 256 = le_value bs.
Proof.
  rewrite (Z.mul_comm 256), Z.div_add by done.
  rewrite Z.div_small by apply Z_of_byte_range. lia.
Qed.

Lemma le_bytes_le_value bs : le_bytes (length bs) (le_value bs) = bs.
Proof.
  induction bs as [|b bs IH]; [done|].
  cbn [le_bytes le_value length]. rewrite le_value_cons_div, IH. f_equal.
  unfold byte_of_Z. rewrite le_value_cons_mod. apply byte_of_Z_of_byte_raw.
Qed.

Lemma le_value_le_bytes_small n z :
  0 <= z < 256 ^ Z.of_nat n -> le_value (le_bytes n z) = z.
Proof. intros. by rewrite le_value_le_bytes, Z.mod_small. Qed.

End LittleEndian.

(** ** Lemmas: the Zabbix header *)

Section Zbxd.
Implicit Types (p rest s : bytes).

(** The length field holds every length up to [zbx_limit]. *)
Lemma le_value_length z : 0 <= z <= zbx_limit -> le_value (le_bytes 8 z) = z.
Proof.
  intros. apply le_value_le_bytes_small.
  change (256 ^ Z.of_nat 8) with (zbx_limit + 1). lia.
Qed.

(** A stream that starts with a header of length field [l8]. *)
Lemma zbx_unframe_header (l8 body : bytes) :
  length l8 = 8%nat ->
  zbx_unframe (zbx_magic ++ zbx_flags :: l8 ++ body) =
    let n := Z.to_nat (le_value l8) in
    if decide (length body < n)%nat then Fail "short payload"
    else Ok (take n body, drop n body).
Proof.
  intros Hl. unfold zbx_unframe.
  do 9 (destruct l8 as [|? l8]; try done).
Qed.

Lemma zbx_unframe_frame p rest :
  Z.of_nat (length p) <= zbx_limit -> zbx_unframe (zbx_frame p ++ rest) = Ok (p, rest).
Proof.
  intros Hp. unfold zbx_frame. rewrite <- !app_assoc. cbn [app].
  rewrite <- app_assoc, zbx_unframe_header by apply length_le_bytes. cbn zeta.
  rewrite le_value_length, Nat2Z.id by lia.
  rewrite decide_False by (rewrite length_app; lia).
  by rewrite take_app_length, drop_app_length.
Qed.

Lemma zbx_split_header s (f : byte) :
  take 4 s = zbx_magic -> s !! 4%nat = Some f ->
  s = zbx_magic ++ f :: take 8 (drop 5 s) ++ drop zbx_header_length s.
Proof.
  intros <- Hf. rewrite <- (take_drop 4 s) at 1. f_equal.
  rewrite (drop_S _ _ _ Hf). f_equal.
  rewrite <- (take_drop 8 (drop 5 s)) at 1. by rewrite drop_drop.
Qed.

Lemma zbx_unframe_sound s p rest :
  zbx_unframe s = Ok (p, rest) ->
  s = zbx_frame p ++ rest /\ Z.of_nat (length p) <= zbx_limit.
Proof.
  unfold zbx_unframe. repeat case_decide; try done.
  intros [= <- <-].
  set (l8 := take 8 (drop 5 s)) in *. set (body := drop zbx_header_length s) in *.
  assert (length l8 = 8%nat) as Hl8.
  { unfold l8, zbx_header_length in *. rewrite length_take, length_drop. lia. }
  pose proof (le_value_range l8) as Hr. rewrite Hl8 in Hr.
  assert (Z.of_nat (length (take (Z.to_nat (le_value l8)) body)) = le_value l8) as Hn.
  { rewrite length_take. lia. }
  split; [|rewrite Hn; unfold zbx_limit; simpl in Hr; lia].
  unfold zbx_frame. rewrite Hn, <- Hl8, le_bytes_le_value.
  rewrite <- !app_assoc. cbn [app]. rewrite <- app_assoc, take_drop.
  by apply zbx_split_header.
Qed.

End Zbxd.

(** The Zabbix header meets the contract. *)
#[export] Instance zbxd : Framing := {|
  frame := zbx_frame;
  unframe := zbx_unframe;
  frame_limit := zbx_limit;
  unframe_frame := zbx_unframe_frame;
  unframe_sound := zbx_unframe_sound;
  unframe_nil := eq_refl;
|}.

(** ** Lemmas: framing *)

Section FramingFacts.
Context {F : Framing}.
Implicit Types (p q rest s : bytes) (ps : list bytes).

Lemma frame_nonempty p : fits p -> frame p <> [].
Proof.
  intros Hp E. pose proof (unframe_frame p [] Hp) as H.
  by rewrite E, unframe_nil in H.
Qed.

(** No frame is the start of another: a stream is cut in one way. *)
Lemma frame_prefix_free p q rest rest' :
  fits p -> fits q -> frame p ++ rest = frame q ++ rest' -> p = q /\ rest = rest'.
Proof.
  intros Hp Hq E. pose proof (unframe_frame p rest Hp) as H.
  rewrite E, unframe_frame in H by done. by simplify_eq.
Qed.

Lemma frame_inj p q : fits p -> fits q -> frame p = frame q -> p = q.
Proof.
  intros Hp Hq E. by apply (frame_prefix_free p q [] []); [..|rewrite E].
Qed.

Lemma frame_length p : fits p -> (0 < length (frame p))%nat.
Proof.
  intros Hp%frame_nonempty. destruct (frame p); [done|simpl; lia].
Qed.

Lemma unframe_shorter s p rest : unframe s = Ok (p, rest) -> (length rest < length s)%nat.
Proof.
  intros [-> Hp%frame_length]%unframe_sound. rewrite length_app. lia.
Qed.

Lemma unframe_all_cons fuel p rest :
  fits p -> unframe_all (S fuel) (frame p ++ rest) = cons p <$> unframe_all fuel rest.
Proof.
  intros Hp. cbn [unframe_all]. rewrite unframe_frame by done.
  pose proof (frame_nonempty p Hp). by destruct (frame p).
Qed.

(** More fuel than the stream is long is enough. *)
Lemma unframe_all_frames fuel ps :
  Forall fits ps -> (length (mjoin (frame <$> ps)) <= fuel)%nat ->
  unframe_all fuel (mjoin (frame <$> ps)) = Some ps.
Proof.
  intros Hps. revert fuel. induction Hps as [|p ps Hp _ IH]; intros fuel Hf.
  - by destruct fuel.
  - change (mjoin (frame <$> p :: ps)) with (frame p ++ mjoin (frame <$> ps)) in *.
    rewrite length_app in Hf. pose proof (frame_length p Hp).
    destruct fuel as [|fuel]; [exfalso; lia|].
    rewrite unframe_all_cons by done. by rewrite IH by lia.
Qed.

Lemma unframe_all_sound fuel s ps :
  unframe_all fuel s = Some ps -> s = mjoin (frame <$> ps) /\ Forall fits ps.
Proof.
  revert s ps. induction fuel as [|fuel IH]; intros [|b s] ps H; simplify_eq/=; try done.
  destruct (unframe (b :: s)) as [[p rest]|] eqn:E; [|done].
  destruct (unframe_all fuel rest) as [ps'|] eqn:E'; simplify_eq/=.
  apply unframe_sound in E as [-> Hp]. apply IH in E' as [-> Hps].
  split; [done|by constructor].
Qed.

End FramingFacts.

(** ** Lemmas: endpoints *)

Section EndpointFacts.
Context {F : Framing}.
Implicit Types (ep : endpoint) (d : duration) (p data rest : bytes).

(** An endpoint is well formed exactly when its outbox can be read back. *)
Lemma ep_wf_received ep : ep_wf ep <-> is_Some (received ep).
Proof.
  unfold ep_wf, received. split.
  - intros (ps & -> & Hps). by rewrite unframe_all_frames.
  - intros [ps H]. exists ps. by apply unframe_all_sound in H.
Qed.

Lemma ep_fresh_wf s : ep_wf (ep_fresh s).
Proof. by exists []. Qed.

(** A read delivers the first frame of the inbox and keeps the rest. *)
Lemma ep_read_frame d p rest out reset :
  0 < d -> fits p ->
  ep_read d (mkEndpoint (frame p ++ rest) out true reset) =
    (Ok p, mkEndpoint rest out true reset).
Proof.
  intros Hd Hp. unfold ep_read; simpl.
  rewrite (proj2 (Z.leb_gt _ _) Hd). by rewrite unframe_frame.
Qed.

(** What a read delivers was framed by the peer. *)
Lemma ep_read_ok d ep p ep' :
  ep_read d ep = (Ok p, ep') ->
  0 < d /\ fits p /\ ep_open ep = true /\ ep_in ep = frame p ++ ep_in ep' /\
  ep' = mkEndpoint (ep_in ep') (ep_out ep) true (ep_reset ep).
Proof.
  unfold ep_read. destruct (ep_open ep); simpl; [|done].
  destruct (Z.leb_spec d 0); [done|].
  destruct (unframe (ep_in ep)) as [[p' rest]|] eqn:E; [|done].
  intros [= <- <-]. by apply unframe_sound in E as [-> Hp].
Qed.

Lemma ep_read_fail d ep e ep' : ep_read d ep = (Fail e, ep') -> ep' = ep.
Proof.
  unfold ep_read. repeat case_match; by intros [= <- <-].
Qed.

(** A write that succeeds appends one frame; one that fails sends nothing. *)
Lemma ep_write_ok data d ep ep' :
  ep_write data d ep = (None, ep') ->
  0 < d /\ fits data /\ ep_open ep = true /\ ep_reset ep = false /\
  ep' = mkEndpoint (ep_in ep) (ep_out ep ++ frame data) true false.
Proof.
  unfold ep_write, fits. destruct (ep_open ep); simpl; [|done].
  destruct (Z.leb_spec d 0); [done|]. destruct (ep_reset ep); [done|].
  destruct (Z.ltb_spec frame_limit (Z.of_nat (length data))); [done|].
  by intros [= <-].
Qed.

Lemma ep_write_fail data d ep e ep' : ep_write data d ep = (Some e, ep') -> ep' = ep.
Proof.
  unfold ep_write. repeat case_match; by intros [= <- <-].
Qed.

Lemma ep_write_frame data d inb out :
  0 < d -> fits data ->
  ep_write data d (mkEndpoint inb out true false) =
    (None, mkEndpoint inb (out ++ frame data) true false).
Proof.
  intros Hd Hp. unfold ep_write; simpl.
  rewrite (proj2 (Z.leb_gt _ _) Hd). unfold fits in Hp.
  by rewrite (proj2 (Z.ltb_ge _ _) Hp).
Qed.

(** A deadline that has passed fails both calls and changes nothing. *)
Lemma ep_read_expired d ep :
  d <= 0 -> exists e, ep_read d ep = (Fail e, ep).
Proof.
  intros Hd. unfold ep_read. rewrite (proj2 (Z.leb_le _ _) Hd).
  destruct (ep_open ep); simpl; eauto.
Qed.

Lemma ep_write_expired data d ep :
  d <= 0 -> exists e, ep_write data d ep = (Some e, ep).
Proof.
  intros Hd. unfold ep_write. rewrite (proj2 (Z.leb_le _ _) Hd).
  destruct (ep_open ep); simpl; eauto.
Qed.

(** After [Close] nothing moves. *)
Lemma ep_read_closed d ep : ep_open ep = false -> (ep_read d ep).2 = ep.
Proof. unfold ep_read. by intros ->. Qed.

Lemma ep_write_closed data d ep : ep_open ep = false -> (ep_write data d ep).2 = ep.
Proof. unfold ep_write. by intros ->. Qed.

Lemma ep_close_closed ep : ep_open ep = false -> ep_close ep = ep.
Proof. destruct ep; simpl. by intros ->. Qed.

(** Every operation keeps the endpoint well formed. *)
Lemma ep_read_wf d ep : ep_wf ep -> ep_wf (ep_read d ep).2.
Proof.
  destruct (ep_read d ep) as [[p|e] ep'] eqn:E; simpl.
  - apply ep_read_ok in E as (_ & _ & _ & _ & ->). by unfold ep_wf.
  - by apply ep_read_fail in E as ->.
Qed.

Lemma ep_write_wf data d ep : ep_wf ep -> ep_wf (ep_write data d ep).2.
Proof.
  destruct (ep_write data d ep) as [[e|] ep'] eqn:E; simpl.
  - by apply ep_write_fail in E as ->.
  - apply ep_write_ok in E as (_ & Hp & _ & _ & ->).
    intros (ps & Hout & Hps). exists (ps ++ [data]). cbn [ep_out]. split.
    + rewrite Hout, fmap_app, (join_app (A:=byte)). simpl. by rewrite app_nil_r.
    + apply Forall_app. by repeat constructor.
Qed.

Lemma ep_close_wf ep : ep_wf ep -> ep_wf (ep_close ep).
Proof. by unfold ep_wf. Qed.

End EndpointFacts.

(** *** Histories of endpoints *)

#[export] Instance ep_le_preorder : PreOrder ep_le.
Proof.
  split.
  - by intros ep.
  - intros ep1 ep2 ep3 (Hi & Ho & Hc) (Hi' & Ho' & Hc'). split_and!.
    + by etrans.
    + by etrans.
    + intros H. rewrite (Hc H) in *. auto.
Qed.

Section EndpointHistory.
Context {F : Framing}.
Implicit Types (ep : endpoint) (d : duration) (data : bytes).

Lemma ep_read_le d ep : ep_le ep (ep_read d ep).2.
Proof.
  destruct (ep_read d ep) as [[p|e] ep'] eqn:E; simpl.
  - apply ep_read_ok in E as (_ & _ & Ho & Hin & ->). split_and!; simpl.
    + rewrite Hin. by apply suffix_app_r.
    + done.
    + by rewrite Ho.
  - by apply ep_read_fail in E as ->.
Qed.

Lemma ep_write_le data d ep : ep_le ep (ep_write data d ep).2.
Proof.
  destruct (ep_write data d ep) as [[e|] ep'] eqn:E; simpl.
  - by apply ep_write_fail in E as ->.
  - apply ep_write_ok in E as (_ & _ & Ho & _ & ->). split_and!; simpl.
    + done.
    + by apply prefix_app_r.
    + by rewrite Ho.
Qed.

Lemma ep_close_le ep : ep_le ep (ep_close ep).
Proof. split_and!; [done..|]. apply ep_close_closed. Qed.

End EndpointHistory.

(** ** Lemmas: the network *)

#[export] Instance net_le_preorder : PreOrder net_le.
Proof.
  split.
  - by intros w.
  - intros w1 w2 w3 [Hc Hb] [Hc' Hb']. split; [|by etrans].
    intros c. etrans; [apply Hc|apply Hc'].
Qed.

Section NetworkFacts.
Context {F : Framing}.
Implicit Types (w : net) (c : conn) (ep : endpoint) (d : duration).

(** Replacing an endpoint by a later one. *)
Lemma net_le_insert c ep ep' w :
  net_conns w !! c = Some ep -> ep_le ep ep' -> net_le w (with_conns <[c := ep']> w).
Proof.
  intros Hc Hle. split; [|done]. intros c'. simpl.
  destruct (decide (c' = c)) as [->|Hne].
  - rewrite Hc, lookup_insert_eq. by constructor.
  - by rewrite lookup_insert_ne.
Qed.

Lemma conn_read_le c d w : net_le w (conn_read c d w).2.
Proof.
  unfold conn_read. destruct (net_conns w !! c) as [ep|] eqn:E; [|done].
  eapply net_le_insert; [done|apply ep_read_le].
Qed.

Lemma conn_write_le c data d w : net_le w (conn_write c data d w).2.
Proof.
  unfold conn_write. destruct (net_conns w !! c) as [ep|] eqn:E; [|done].
  eapply net_le_insert; [done|apply ep_write_le].
Qed.

Lemma conn_close_le c w : net_le w (conn_close c w).
Proof.
  split; [|done]. intros c'. simpl. destruct (decide (c' = c)) as [->|Hne].
  - rewrite lookup_alter_eq. destruct (net_conns w !! c); constructor.
    apply ep_close_le.
  - by rewrite lookup_alter_ne.
Qed.

Lemma listen_le busy a w : net_le w (listen busy a w).2.
Proof. unfold listen. by case_decide. Qed.

Lemma accept_le w : net_le w (accept w).2.
Proof.
  unfold accept. destruct (net_bound w), (net_backlog w) as [|r rest] eqn:E; try done.
  split; [done|]. simpl. rewrite E. by apply suffix_cons_r.
Qed.

Lemma listener_close_le w : net_le w (listener_close w).
Proof. done. Qed.

(** A call moves the network along its history, and so does a program. *)
Lemma answer_le busy o {X} (e : event X) w : net_le w (answer (wire_env busy o) e w).2.
Proof.
  destruct e; simpl;
    auto using conn_read_le, conn_write_le, conn_close_le, listen_le, accept_le,
      listener_close_le.
  all: done.
Qed.

Lemma run_le busy o {R} (p : prog R) w : net_le w (run (wire_env busy o) p w).2.
Proof.
  revert w. induction p as [r|X e k IH]; intros w; [done|].
  cbn [run]. etrans; [apply (answer_le busy o e)|apply IH].
Qed.

(** A call on a connection leaves the others alone. *)
Lemma answer_other busy o {X} (e : event X) w c :
  event_conn e <> Some c ->
  net_conns (answer (wire_env busy o) e w).2 !! c = net_conns w !! c.
Proof.
  destruct e; simpl; try done; unfold event_conn; simpl; intros Hne.
  - unfold conn_read. destruct (net_conns w !! c0); [|done].
    simpl. apply lookup_insert_ne. congruence.
  - unfold conn_write. destruct (net_conns w !! c0); [|done].
    simpl. apply lookup_insert_ne. congruence.
  - apply lookup_alter_ne. congruence.
  - unfold listen. by case_decide.
  - unfold accept. by repeat case_match.
Qed.

Lemma label_conn_label_of {X} (e : event X) (x : X) :
  label_conn (label_of e x) = event_conn e.
Proof. by destruct e. Qed.

(** What a call on a connection answers and does to its endpoint depends
    on that endpoint only. *)
Lemma answer_local busy o {X} (e : event X) w1 w2 c :
  event_conn e = Some c -> net_conns w1 !! c = net_conns w2 !! c ->
  (answer (wire_env busy o) e w1).1 = (answer (wire_env busy o) e w2).1 /\
  net_conns (answer (wire_env busy o) e w1).2 !! c =
    net_conns (answer (wire_env busy o) e w2).2 !! c.
Proof.
  destruct e; try done; unfold event_conn; simpl; intros [= ->] H.
  - unfold conn_read. rewrite H. destruct (net_conns w2 !! c) eqn:E; simpl.
    + by rewrite !lookup_insert_eq.
    + by rewrite H.
  - unfold conn_write. rewrite H. destruct (net_conns w2 !! c) eqn:E; simpl.
    + by rewrite !lookup_insert_eq.
    + by rewrite H.
  - by rewrite !lookup_alter_eq, H.
Qed.

(** A call that is not on a connection leaves them all alone. *)
Lemma answer_conns busy o {X} (e : event X) w :
  event_conn e = None -> net_conns (answer (wire_env busy o) e w).2 = net_conns w.
Proof.
  destruct e; try done; simpl; intros _.
  - unfold listen. by case_decide.
  - unfold accept. by repeat case_match.
Qed.

(** Well-formedness is kept along a history whose endpoints are well
    formed. *)
Lemma net_wf_le w w' :
  net_le w w' -> net_wf w -> map_Forall (fun _ ep => ep_wf ep) (net_conns w') -> net_wf w'.
Proof.
  intros [Hc Hb] [_ Hbl] Hwf. split; [done|].
  destruct Hb as [l Hb]. rewrite Hb, Forall_app in Hbl.
  eapply Forall_impl; [apply Hbl|]. intros r Hr c [ep Hep]%Hr.
  specialize (Hc c). rewrite Hep in Hc. by inversion Hc.
Qed.

Lemma answer_conns_wf busy o {X} (e : event X) w :
  map_Forall (fun _ ep => ep_wf ep) (net_conns w) ->
  map_Forall (fun _ ep => ep_wf ep) (net_conns (answer (wire_env busy o) e w).2).
Proof.
  intros Hwf. destruct e; simpl; try done.
  - unfold conn_read. destruct (net_conns w !! c) as [ep|] eqn:E; [|done].
    apply map_Forall_insert_2; [|done]. apply ep_read_wf. by apply (Hwf c).
  - unfold conn_write. destruct (net_conns w !! c) as [ep|] eqn:E; [|done].
    apply map_Forall_insert_2; [|done]. apply ep_write_wf. by apply (Hwf c).
  - intros c' ep'. destruct (decide (c' = c)) as [->|Hne].
    + rewrite lookup_alter_eq. destruct (net_conns w !! c) as [ep|] eqn:E; [|done].
      intros [= <-]. apply ep_close_wf. by apply (Hwf c).
    + rewrite lookup_alter_ne by done. apply Hwf.
  - unfold listen. by case_decide.
  - unfold accept. by repeat case_match.
Qed.

Lemma answer_wf busy o {X} (e : event X) w :
  net_wf w -> net_wf (answer (wire_env busy o) e w).2.
Proof.
  intros Hwf. eapply net_wf_le; [apply answer_le|done|].
  apply answer_conns_wf, Hwf.
Qed.

Lemma run_wf busy o {R} (p : prog R) w :
  net_wf w -> net_wf (run (wire_env busy o) p w).2.
Proof.
  revert w. induction p as [r|X e k IH]; intros w Hwf; [done|].
  cbn [run]. by apply IH, answer_wf.
Qed.

End NetworkFacts.
