(* ===== verification/Service.v ===== *)
(** * Service: the handler on the wire

    [handleConnection] (lines 46-75 of mock_server.go) run against the
    transport of [Wire]: the request is the first frame of the inbox of
    its connection, the response a frame appended to the outbox.

    [respond] is what the handler promises for its connection, as a
    function on the endpoint: read one frame, answer the one supported
    request with the canned response, close.  [serve] runs the model of
    the source on a network, and [serve_respond] shows that this run
    changes the endpoint of the connection by [respond] and nothing
    else.  The theorems on the bytes a client gets back, on deadlines
    that have passed and on handlers of different connections follow
    from it. *)

From Stdlib Require Import ZArith Lia.
From S2P Require Import Prelude Options Json Effects Handler Wire.

#[local] Open Scope Z_scope.

Section Service.
Context {F : Framing} {J : JsonPkg}.

(** Whether a payload is the request the server answers (lines 57-64):
    it decodes, and its field request is the string "active checks". *)
Definition is_active_checks (js : bytes) : bool :=
  match unmarshal js with
  | Ok pairs => iface_eq_string (index pairs "request") "active checks"
  | Fail _ => false
  end.

(** The effect of the handler on the endpoint of its connection. *)
Definition respond (ac : bytes) (tFlag : Z) (ep : endpoint) : endpoint :=
  let rd := ep_read (seconds tFlag) ep in
  ep_close
    match rd.1 with
    | Ok js =>
        if is_active_checks js then (ep_write ac (seconds tFlag) rd.2).2 else rd.2
    | Fail _ => rd.2
    end.

(** Whether the handler answers on this endpoint: the connection is up,
    the deadline is in the future, the first frame of the inbox is the
    supported request and the response fits a frame. *)
Definition answerable (ac : bytes) (tFlag : Z) (ep : endpoint) : bool :=
  ep_open ep && negb (ep_reset ep) && (0 <? seconds tFlag) && bool_decide (fits ac) &&
  match unframe (ep_in ep) with
  | Ok (js, _) => is_active_checks js
  | Fail _ => false
  end.

(** The handler run on a network: its calls and the network it leaves. *)
Definition serve (busy : list string) (o : oracle) (c : conn) (ac : bytes) (tFlag : Z)
    (w : net) : list label * net :=
  let r := run (wire_env busy o) (handleConnection c ac tFlag) w in (r.1.1, r.2).

End Service.

(** A network for the scenarios of the specification, with the Zabbix
    header: the listener is bound, connection 7 holds the request for the
    active checks, connection 8 another request, connection 9 half a
    header. *)
Definition quiet_oracle : oracle := fun X e => event_default e.

Definition sample_net : net :=
  mkNet (Some ":10051"%string) []
    {[ 7%nat := ep_fresh (zbx_frame active_request);
       8%nat := ep_fresh (zbx_frame ping_request);
       9%nat := ep_fresh (take 6 (zbx_frame active_request)) ]}.

Definition sample_serve (c : conn) (tFlag : Z) : list label * net :=
  serve (F:=zbxd) (J:=sample_json) [] quiet_oracle c canned tFlag sample_net.

(** ** Lemmas *)

(** One call of a run against the wire. *)
Ltac run_step :=
  cbn [run bind mbind mret prog_ret prog_bind trigger answer wire_env fst snd].

Section ServiceFacts.
Context {F : Framing} {J : JsonPkg}.
Context (busy : list string) (o : oracle).
Implicit Types (c : conn) (ac js : bytes) (tFlag : Z) (w : net) (ep : endpoint).

Lemma with_conns_insert c ep ep' w :
  with_conns <[c := ep']> (with_conns <[c := ep]> w) = with_conns <[c := ep']> w.
Proof. unfold with_conns; simpl. by rewrite insert_insert_eq. Qed.

Lemma conn_close_insert c ep w :
  conn_close c (with_conns <[c := ep]> w) = with_conns <[c := ep_close ep]> w.
Proof. unfold conn_close, with_conns; simpl. by rewrite alter_insert_eq. Qed.

Lemma conn_write_insert c data d ep w :
  conn_write c data d (with_conns <[c := ep]> w) =
    ((ep_write data d ep).1, with_conns <[c := (ep_write data d ep).2]> w).
Proof.
  unfold conn_write. cbn [with_conns net_conns]. rewrite lookup_insert_eq.
  by rewrite with_conns_insert.
Qed.

Lemma conn_read_at c d ep w :
  net_conns w !! c = Some ep ->
  conn_read c d w = ((ep_read d ep).1, with_conns <[c := (ep_read d ep).2]> w).
Proof. unfold conn_read. by intros ->. Qed.

Lemma conn_close_absent c w : net_conns w !! c = None -> conn_close c w = w.
Proof.
  intros Hc. unfold conn_close, with_conns. rewrite alter_alt, Hc. by destruct w.
Qed.

(** The handler changes the endpoint of its connection by [respond]. *)
Lemma serve_respond c ac tFlag w ep :
  net_conns w !! c = Some ep ->
  (serve busy o c ac tFlag w).2 = with_conns <[c := respond ac tFlag ep]> w.
Proof.
  intros Hc. unfold serve, respond, is_active_checks, handleConnection, defer.
  run_step. rewrite (conn_read_at _ _ _ _ Hc).
  destruct (ep_read (seconds tFlag) ep) as [[js|e] ep1]; run_step;
    [|by rewrite conn_close_insert].
  destruct (unmarshal js) as [pairs|e]; run_step; [|by rewrite conn_close_insert].
  destruct (iface_eq_string _ _); run_step; [|by rewrite conn_close_insert].
  rewrite conn_write_insert.
  destruct (ep_write ac (seconds tFlag) ep1) as [[e|] ep2];
    run_step; by rewrite conn_close_insert.
Qed.

(** On a connection the network does not know every call fails and
    nothing changes. *)
Lemma serve_absent c ac tFlag w :
  net_conns w !! c = None -> (serve busy o c ac tFlag w).2 = w.
Proof.
  intros Hc. unfold serve, handleConnection, defer. run_step.
  unfold conn_read. rewrite Hc. run_step. by apply conn_close_absent.
Qed.

Lemma serve_alter c ac tFlag w :
  (serve busy o c ac tFlag w).2 = with_conns (alter (respond ac tFlag) c) w.
Proof.
  destruct (net_conns w !! c) as [ep|] eqn:Hc.
  - rewrite (serve_respond _ _ _ _ _ Hc). unfold with_conns.
    by rewrite (alter_alt_Some _ _ _ _ Hc).
  - rewrite serve_absent by done. unfold with_conns. rewrite alter_alt, Hc. by destruct w.
Qed.

(** The calls of the run are one of the five paths of the handler. *)
Lemma serve_handled c ac tFlag w :
  handled c ac (seconds tFlag) (serve busy o c ac tFlag w).1.
Proof.
  apply handleConnection_paths. unfold serve. cbn [fst].
  pose proof (run_traces (wire_env busy o) (handleConnection c ac tFlag) w) as H.
  by destruct (run _ _ _).1.2.
Qed.

End ServiceFacts.

(** *** The effect on the endpoint *)

Section Respond.
Context {F : Framing} {J : JsonPkg}.
Implicit Types (ac js rest out : bytes) (tFlag : Z) (ep : endpoint).

(** The deadline of a valid timeout is in the future. *)
Lemma seconds_valid_pos (opts : MockServerOptions) :
  options_valid opts -> 0 < seconds (Timeout opts).
Proof.
  rewrite options_valid_ranges. intros (_ & _ & H).
  rewrite seconds_exact; unfold time_Second, in_int64, int64_min, int64_max; lia.
Qed.

Lemma respond_answers ac tFlag js rest out :
  0 < seconds tFlag -> fits js -> fits ac -> is_active_checks js = true ->
  respond ac tFlag (mkEndpoint (frame js ++ rest) out true false) =
    mkEndpoint rest (out ++ frame ac) false false.
Proof.
  intros Hd Hjs Hac Hr. unfold respond.
  rewrite ep_read_frame by done. cbn [fst snd]. rewrite Hr.
  by rewrite ep_write_frame.
Qed.

Lemma respond_refuses ac tFlag js rest out reset :
  0 < seconds tFlag -> fits js -> is_active_checks js = false ->
  respond ac tFlag (mkEndpoint (frame js ++ rest) out true reset) =
    mkEndpoint rest out false reset.
Proof.
  intros Hd Hjs Hr. unfold respond.
  rewrite ep_read_frame by done. cbn [fst snd]. by rewrite Hr.
Qed.

Lemma respond_read_failed ac tFlag ep e :
  (ep_read (seconds tFlag) ep).1 = Fail e -> respond ac tFlag ep = ep_close ep.
Proof.
  unfold respond. destruct (ep_read _ ep) as [r ep'] eqn:E. cbn [fst snd].
  intros ->. by apply ep_read_fail in E as ->.
Qed.

Lemma respond_expired ac tFlag ep : seconds tFlag <= 0 -> respond ac tFlag ep = ep_close ep.
Proof.
  intros Hd. destruct (ep_read_expired (seconds tFlag) ep Hd) as [e He].
  apply (respond_read_failed _ _ _ e). by rewrite He.
Qed.

Lemma respond_open ac tFlag ep : ep_open (respond ac tFlag ep) = false.
Proof. done. Qed.

Lemma respond_closed ac tFlag ep : ep_open ep = false -> respond ac tFlag ep = ep.
Proof.
  intros Hc. unfold respond. rewrite (surjective_pairing (ep_read _ ep)).
  assert ((ep_read (seconds tFlag) ep).1 = Fail "use of closed connection") as ->.
  { unfold ep_read. by rewrite Hc. }
  rewrite ep_read_closed by done. by apply ep_close_closed.
Qed.

(** The handler moves the endpoint along its history. *)
Lemma respond_le ac tFlag ep : ep_le ep (respond ac tFlag ep).
Proof.
  unfold respond. pose proof (ep_read_le (seconds tFlag) ep) as Hr.
  destruct (ep_read _ ep) as [[js|e] ep1]; cbn [fst snd] in *.
  - destruct (is_active_checks js).
    + etrans; [apply Hr|]. etrans; [apply ep_write_le|apply ep_close_le].
    + etrans; [apply Hr|apply ep_close_le].
  - etrans; [apply Hr|apply ep_close_le].
Qed.

(** It sends nothing, or one frame that holds the canned response. *)
Lemma respond_outbox ac tFlag ep :
  ep_out (respond ac tFlag ep) = ep_out ep \/
  ep_out (respond ac tFlag ep) = ep_out ep ++ frame ac /\ fits ac.
Proof.
  unfold respond. destruct (ep_read _ ep) as [[js|e] ep1] eqn:E; cbn [fst snd].
  - apply ep_read_ok in E as (_ & _ & _ & _ & ->).
    destruct (is_active_checks js); [|by left].
    destruct (ep_write ac _ _) as [[e|] ep2] eqn:E'; cbn [snd].
    + apply ep_write_fail in E' as ->. by left.
    + apply ep_write_ok in E' as (_ & Hac & _ & _ & ->). by right.
  - apply ep_read_fail in E as ->. by left.
Qed.

Lemma respond_wf ac tFlag ep : ep_wf ep -> ep_wf (respond ac tFlag ep).
Proof.
  intros Hwf. unfold respond. apply ep_close_wf.
  destruct (ep_read _ ep).1 as [js|e] eqn:E; [|by apply ep_read_wf].
  destruct (is_active_checks js); [apply ep_write_wf|]; by apply ep_read_wf.
Qed.

End Respond.

(** ** Theorems *)

Section ServiceTheorems.
Context {F : Framing} {J : JsonPkg}.
Context (busy : list string) (o : oracle).
Implicit Types (c : conn) (ac js rest : bytes) (tFlag : Z) (w : net) (ep : endpoint).

(** C8: The handler implements [respond]: run on a network it changes
    the endpoint of its connection by [respond] and leaves the listener,
    the backlog and every other connection as they were, and its calls
    are one of the five paths of the handler. *)
Theorem handler_implements_respond c ac tFlag w :
  (serve busy o c ac tFlag w).2 = with_conns (alter (respond ac tFlag) c) w /\
  handled c ac (seconds tFlag) (serve busy o c ac tFlag w).1.
Proof. split; [apply serve_alter|apply serve_handled]. Qed.

(** C10: Round trip over the wire: when the client sent the supported
    request as one frame and the deadline is in the future, the client
    reads back exactly one message, the canned response, the rest of the
    inbox is left unread, and the connection is closed. *)
Theorem response_round_trip c ac js rest tFlag w :
  net_conns w !! c = Some (ep_fresh (frame js ++ rest)) ->
  fits js -> fits ac -> is_active_checks js = true -> 0 < seconds tFlag ->
  exists ep, net_conns (serve busy o c ac tFlag w).2 !! c = Some ep /\
    received ep = Some [ac] /\ ep_in ep = rest /\ ep_open ep = false.
Proof.
  intros Hc Hjs Hac Hr Hd. rewrite (serve_respond _ _ _ _ _ _ _ Hc).
  unfold ep_fresh. rewrite respond_answers by done.
  eexists. split; [apply lookup_insert_eq|]. split_and!; [|done..].
  unfold received. cbn [ep_out app].
  rewrite <- (app_nil_r (frame ac)). by apply (unframe_all_frames _ [ac]); [constructor|].
Qed.

(** C28: The handler sends a frame exactly when the endpoint is
    answerable, and then the frame of the canned response; in every other
    case (the connection is closed or reset, the deadline has passed, the
    inbox does not start with a whole frame, the payload does not decode
    or is another request, the response does not fit) the outbox is left
    as it was. *)
Theorem response_iff_answerable ac tFlag ep :
  ep_out (respond ac tFlag ep) =
    if answerable ac tFlag ep then ep_out ep ++ frame ac else ep_out ep.
Proof.
  unfold respond, answerable, ep_read, ep_write, fits.
  destruct ep as [inb out [] reset]; cbn [ep_open ep_reset ep_in ep_out negb andb]; [|done].
  destruct (Z.leb_spec (seconds tFlag) 0), (Z.ltb_spec 0 (seconds tFlag)); try lia;
    [by rewrite !andb_false_r|].
  destruct (unframe inb) as [[js rest]|e]; cbn [fst snd ep_reset ep_open negb ep_out];
    [|by rewrite !andb_false_r].
  destruct (is_active_checks js); [|by rewrite !andb_false_r].
  destruct reset; [done|]. cbn [negb andb].
  case_bool_decide; destruct (Z.ltb_spec frame_limit (Z.of_nat (length ac))); try lia; done.
Qed.

(** C29: A deadline that is not in the future is never met: the handler
    closes the connection without reading the request, even when a valid
    request is waiting; for every timeout the configuration allows the
    deadline is in the future. *)
Theorem expired_deadline_drops c ac tFlag w ep :
  net_conns w !! c = Some ep -> seconds tFlag <= 0 ->
  net_conns (serve busy o c ac tFlag w).2 !! c = Some (ep_close ep) /\
  forall opts, options_valid opts -> 0 < seconds (Timeout opts).
Proof.
  intros Hc Hd. split; [|apply seconds_valid_pos].
  rewrite (serve_respond _ _ _ _ _ _ _ Hc), respond_expired by done.
  apply lookup_insert_eq.
Qed.

(** Handlers of different connections commute: the network they
    leave does not depend on the order in which they ran. *)
Theorem serve_commute c c' ac ac' tFlag tFlag' w :
  c <> c' ->
  (serve busy o c' ac' tFlag' (serve busy o c ac tFlag w).2).2 =
  (serve busy o c ac tFlag (serve busy o c' ac' tFlag' w).2).2.
Proof.
  intros Hne. rewrite !serve_alter. unfold with_conns. cbn [net_bound net_backlog net_conns].
  f_equal. by apply alter_alter_ne.
Qed.

(** The handler keeps the network well formed and moves it along its
    history: every outbox still consists of whole frames, nothing was
    taken back from an outbox, no connection appeared or went away, and
    the endpoint of the connection is closed. *)
Theorem serve_keeps_wf c ac tFlag w :
  net_wf w ->
  net_wf (serve busy o c ac tFlag w).2 /\ net_le w (serve busy o c ac tFlag w).2 /\
  (forall ep, net_conns (serve busy o c ac tFlag w).2 !! c = Some ep -> ep_open ep = false).
Proof.
  intros Hwf. split_and!; [by apply run_wf|apply run_le|].
  rewrite serve_alter. cbn [with_conns net_conns]. intros ep.
  rewrite lookup_alter_eq. by destruct (net_conns w !! c); intros [= <-].
Qed.

End ServiceTheorems.

(** ** Witnesses *)

Lemma response_round_trip_witness :
  exists ep, net_conns (sample_serve 7%nat 5).2 !! 7%nat = Some ep /\
    received ep = Some [canned] /\ ep_in ep = [] /\ ep_open ep = false.
Proof.
  apply (response_round_trip (F:=zbxd) (J:=sample_json) [] quiet_oracle
           7%nat canned active_request [] 5 sample_net); by vm_compute.
Defined.

Lemma expired_deadline_drops_witness :
  net_conns (sample_serve 7%nat 9223372037).2 !! 7%nat =
    Some (ep_close (ep_fresh (zbx_frame active_request))) /\
  forall opts, options_valid opts -> 0 < seconds (Timeout opts).
Proof.
  apply (expired_deadline_drops (F:=zbxd) (J:=sample_json) [] quiet_oracle
           7%nat canned 9223372037 sample_net); by vm_compute.
Defined.

Lemma serve_commute_witness :
  (serve (F:=zbxd) (J:=sample_json) [] quiet_oracle 8%nat canned 5 (sample_serve 7%nat 5).2).2 =
  (serve (F:=zbxd) (J:=sample_json) [] quiet_oracle 7%nat canned 5 (sample_serve 8%nat 5).2).2.
Proof. by apply serve_commute. Defined.

Lemma serve_keeps_wf_witness :
  net_wf (sample_serve 9%nat 5).2 /\ net_le sample_net (sample_serve 9%nat 5).2 /\
  (forall ep, net_conns (sample_serve 9%nat 5).2 !! 9%nat = Some ep -> ep_open ep = false).
Proof.
  apply (serve_keeps_wf (F:=zbxd) (J:=sample_json)). split; [|constructor].
  repeat (apply map_Forall_insert_2; [apply ep_fresh_wf|]).
  apply map_Forall_empty.
Defined.

(** The scenarios of the specification, byte for byte: the request for
    the active checks is answered with the framed response, ping and a
    truncated header are closed without one. *)
Example sample_serve_active_checks :
  (net_conns (sample_serve 7%nat 5).2 !! 7%nat) =
    Some (mkEndpoint [] (zbx_frame canned) false false) /\
  zbx_frame canned = bytes_of_string "ZBXD" ++
    [Byte.x01; Byte.x03; Byte.x00; Byte.x00; Byte.x00; Byte.x00; Byte.x00; Byte.x00; Byte.x00]
    ++ bytes_of_string "AC1".
Proof. by vm_compute. Qed.

Example sample_serve_ping :
  net_conns (sample_serve 8%nat 5).2 !! 8%nat = Some (mkEndpoint [] [] false false) /\
  net_conns (sample_serve 9%nat 5).2 !! 9%nat =
    Some (mkEndpoint (take 6 (zbx_frame active_request)) [] false false).
Proof. by vm_compute. Qed.
