(* ===== verification/Conf.v ===== *)
(** * Conf: the configuration loader (package conf)

    [main] calls [conf.Load(confFlag, &options)] (lines 95 and 100).
    The package is not part of the sources; what it does is modelled
    from the specification (a plain key-value file, read into the
    options structure with defaults and validated ranges) and from the
    [conf] tags of the struct, which are part of the sources (lines
    35-42) and which [Options.parse_tag] reads.

    A file is a sequence of lines; a line is blank, a comment that
    starts with #, or Key=Value with blanks around the key and the value
    ignored.  [conf_load] assigns every field of [MockServerOptions]:
    the value the file gives it, or else the default of its tag, or else
    (for an optional field) what the record held before.  A key that is
    no field, a line without =, a number that is not one or lies outside
    the range of the tag are errors.  Where the same key is given twice
    the later line counts. *)

From Stdlib Require Import ZArith Lia.
From Stdlib.Strings Require Import Ascii.
From S2P Require Import Prelude Options.

#[local] Open Scope Z_scope.

(** ** Lines and blanks *)

(** The lines of a text: the text is cut at every line feed. *)
Fixpoint lines (s : string) : list string :=
  match s with
  | EmptyString => [EmptyString]
  | String c s' =>
      if Ascii.eqb c "010" then EmptyString :: lines s'
      else match lines s' with
           | l :: ls => String c l :: ls
           | [] => [String c EmptyString]
           end
  end.

Definition is_blank (c : ascii) : bool :=
  Ascii.eqb c " " || Ascii.eqb c "009" || Ascii.eqb c "013".

Fixpoint ltrim (s : string) : string :=
  match s with
  | String c s' => if is_blank c then ltrim s' else s
  | EmptyString => EmptyString
  end.

(** [strings.TrimSpace], for the blanks a configuration file holds. *)
Definition trim (s : string) : string :=
  String.rev (ltrim (String.rev (ltrim s))).

(** ** The file *)

(** One line: nothing, or a key with its value. *)
Definition conf_line (l : string) : result (option (string * string)) :=
  match trim l with
  | EmptyString => Ok None
  | String "#" _ => Ok None
  | t =>
      match cut "=" t with
      | (k, Some v) =>
          if decide (trim k = EmptyString) then Fail ("missing parameter name: " +:+ t)
          else Ok (Some (trim k, trim v))
      | (_, None) => Fail ("missing assignment operator: " +:+ t)
      end
  end.

(** The assignments of a file, in the order of its lines. *)
Definition parse_conf (text : string) : result (list (string * string)) :=
  omap id <$> mapM conf_line (lines text).

(** ** The record *)

(** A number of the file, checked against the range of the tag. *)
Definition parse_int (t : conf_tag) (value : string) : result Z :=
  match atoi value with
  | None => Fail ("invalid value: " +:+ value)
  | Some z =>
      if decide (in_tag_range t z) then Ok z
      else Fail ("value out of range: " +:+ value)
  end.

(** Assignment to the field of a name, with the conversion its type
    wants (lines 36-41: three strings, three integers). *)
Definition set_field (field value : string) (o : MockServerOptions)
  : result MockServerOptions :=
  let t := field_tag field in
  if decide (field = "LogType"%string) then
    Ok (mkOptions value (LogFile o) (DebugLevel o) (Port o) (Timeout o) (ActiveChecksFile o))
  else if decide (field = "LogFile"%string) then
    Ok (mkOptions (LogType o) value (DebugLevel o) (Port o) (Timeout o) (ActiveChecksFile o))
  else if decide (field = "DebugLevel"%string) then
    z ← parse_int t value;
    Ok (mkOptions (LogType o) (LogFile o) z (Port o) (Timeout o) (ActiveChecksFile o))
  else if decide (field = "Port"%string) then
    z ← parse_int t value;
    Ok (mkOptions (LogType o) (LogFile o) (DebugLevel o) z (Timeout o) (ActiveChecksFile o))
  else if decide (field = "Timeout"%string) then
    z ← parse_int t value;
    Ok (mkOptions (LogType o) (LogFile o) (DebugLevel o) (Port o) z (ActiveChecksFile o))
  else if decide (field = "ActiveChecksFile"%string) then
    Ok (mkOptions (LogType o) (LogFile o) (DebugLevel o) (Port o) (Timeout o) value)
  else Fail ("unknown parameter: " +:+ field).

(** The value the file gives a key: its last assignment. *)
Definition given (kvs : list (string * string)) (key : string) : option string :=
  assoc key (reverse kvs).

(** One field: the value of the file, or the default of the tag, or
    nothing for an optional field. *)
Definition load_field (kvs : list (string * string)) (field : string)
    (o : MockServerOptions) : result MockServerOptions :=
  match given kvs field with
  | Some v => set_field field v o
  | None =>
      match tag_default (field_tag field) with
      | Some d => set_field field d o
      | None =>
          if tag_optional (field_tag field) then Ok o
          else Fail ("cannot find mandatory parameter: " +:+ field)
      end
  end.

(** The text a field is loaded from: the value of the file, or [dflt]. *)
Definition field_value (kvs : list (string * string)) (field dflt : string) : string :=
  default dflt (given kvs field).

Definition known (key : string) : bool :=
  bool_decide (key ∈ MockServerOptions_tags.*1).

(** Every key of the file is a field, and every field is loaded in the
    order of the struct. *)
Definition unmarshal_conf (kvs : list (string * string)) (cur : MockServerOptions)
  : result MockServerOptions :=
  match list_find (fun kv => negb (known kv.1)) kvs with
  | Some (_, (k, _)) => Fail ("unknown parameter: " +:+ k)
  | None =>
      foldl (fun r field => r ≫= load_field kvs field) (Ok cur) MockServerOptions_tags.*1
  end.

(** [conf.Load] on the text of the file. *)
Definition conf_load (text : string) (cur : MockServerOptions) : result MockServerOptions :=
  parse_conf text ≫= fun kvs => unmarshal_conf kvs cur.

(** A sample file. *)
Definition sample_conf : string :=
  "# mock server" +:+ nl +:+
  "LogType = file" +:+ nl +:+
  "LogFile=/tmp/mock_server.log" +:+ nl +:+
  nl +:+
  "DebugLevel=4" +:+ nl +:+
  "ActiveChecksFile=active_checks.json" +:+ nl.

(** ** Lemmas *)

Section Loader.
Implicit Types (kvs : list (string * string)) (cur o : MockServerOptions) (t : conf_tag).

Lemma parse_int_range t v z : parse_int t v = Ok z -> atoi v = Some z /\ in_tag_range t z.
Proof.
  unfold parse_int. destruct (atoi v) as [z'|]; [|done].
  case_decide; [|done]. by intros [= <-].
Qed.

Lemma parse_int_itoa t z : in_tag_range t z -> parse_int t (itoa z) = Ok z.
Proof. intros H. unfold parse_int. rewrite atoi_itoa. by rewrite decide_True. Qed.

Lemma parse_int_out_of_range t v z :
  atoi v = Some z -> ~ in_tag_range t z -> exists e, parse_int t v = Fail e.
Proof. intros Hv Hz. unfold parse_int. rewrite Hv, decide_False by done. eauto. Qed.

(** Loading one field, field by field. *)
Lemma load_field_LogType kvs o :
  load_field kvs "LogType" o =
    Ok (mkOptions (field_value kvs "LogType" (default_string "LogType")) (LogFile o)
          (DebugLevel o) (Port o) (Timeout o) (ActiveChecksFile o)).
Proof. unfold load_field, field_value. by destruct (given kvs _). Qed.

Lemma load_field_LogFile kvs o :
  load_field kvs "LogFile" o =
    Ok (mkOptions (LogType o) (field_value kvs "LogFile" (LogFile o))
          (DebugLevel o) (Port o) (Timeout o) (ActiveChecksFile o)).
Proof. unfold load_field, field_value. by destruct (given kvs _), o. Qed.

Lemma load_field_DebugLevel kvs o :
  load_field kvs "DebugLevel" o =
    z ← parse_int (field_tag "DebugLevel")
          (field_value kvs "DebugLevel" (default_string "DebugLevel"));
    Ok (mkOptions (LogType o) (LogFile o) z (Port o) (Timeout o) (ActiveChecksFile o)).
Proof. unfold load_field, field_value. by destruct (given kvs _). Qed.

Lemma load_field_Port kvs o :
  load_field kvs "Port" o =
    z ← parse_int (field_tag "Port") (field_value kvs "Port" (default_string "Port"));
    Ok (mkOptions (LogType o) (LogFile o) (DebugLevel o) z (Timeout o) (ActiveChecksFile o)).
Proof. unfold load_field, field_value. by destruct (given kvs _). Qed.

Lemma load_field_Timeout kvs o :
  load_field kvs "Timeout" o =
    z ← parse_int (field_tag "Timeout")
          (field_value kvs "Timeout" (default_string "Timeout"));
    Ok (mkOptions (LogType o) (LogFile o) (DebugLevel o) (Port o) z (ActiveChecksFile o)).
Proof. unfold load_field, field_value. by destruct (given kvs _). Qed.

Lemma load_field_ActiveChecksFile kvs o :
  load_field kvs "ActiveChecksFile" o =
    Ok (mkOptions (LogType o) (LogFile o) (DebugLevel o) (Port o) (Timeout o)
          (field_value kvs "ActiveChecksFile" (ActiveChecksFile o))).
Proof. unfold load_field, field_value. by destruct (given kvs _), o. Qed.

(** What a successful load returns: every field with a default holds the
    value of the file or the default, the two optional fields hold the
    value of the file or what they held, and the numbers passed the check
    of their tags. *)
Lemma unmarshal_conf_Ok kvs cur o :
  unmarshal_conf kvs cur = Ok o <->
  list_find (fun kv => negb (known kv.1)) kvs = None /\
  exists d p n : Z,
    parse_int (field_tag "DebugLevel")
      (field_value kvs "DebugLevel" (default_string "DebugLevel")) = Ok d /\
    parse_int (field_tag "Port") (field_value kvs "Port" (default_string "Port")) = Ok p /\
    parse_int (field_tag "Timeout")
      (field_value kvs "Timeout" (default_string "Timeout")) = Ok n /\
    o = mkOptions (field_value kvs "LogType" (default_string "LogType"))
          (field_value kvs "LogFile" (LogFile cur)) d p n
          (field_value kvs "ActiveChecksFile" (ActiveChecksFile cur)).
Proof.
  unfold unmarshal_conf.
  destruct (list_find _ kvs) as [[? [k ?]]|]; [by split; [|intros []]|].
  cbn [foldl fmap list_fmap MockServerOptions_tags fst mbind result_bind].
  rewrite load_field_LogType. cbn [mbind result_bind].
  rewrite load_field_LogFile. cbn [mbind result_bind].
  rewrite load_field_DebugLevel.
  cbn [LogType LogFile DebugLevel Port Timeout ActiveChecksFile].
  destruct (parse_int (field_tag "DebugLevel") _) as [d|e] eqn:Ed;
    cbn [mbind result_bind]; [|split; [done|by intros [_ (? & ? & ? & ? & _)]]].
  rewrite load_field_Port.
  destruct (parse_int (field_tag "Port") _) as [p|e] eqn:Ep;
    cbn [mbind result_bind]; [|split; [done|by intros [_ (? & ? & ? & ? & ? & _)]]].
  rewrite load_field_Timeout.
  destruct (parse_int (field_tag "Timeout") _) as [n|e] eqn:En;
    cbn [mbind result_bind]; [|split; [done|by intros [_ (? & ? & ? & ? & ? & ? & _)]]].
  rewrite load_field_ActiveChecksFile.
  cbn [LogType LogFile DebugLevel Port Timeout ActiveChecksFile].
  split.
  - intros [= <-]. split; [done|]. by exists d, p, n.
  - intros [_ (d' & p' & n' & [= <-] & [= <-] & [= <-] & ->)]. done.
Qed.

End Loader.

(** ** Theorems *)

Section LoaderTheorems.
Implicit Types (kvs : list (string * string)) (cur o : MockServerOptions) (text : string).

Lemma field_value_idemp kvs field dflt :
  field_value kvs field (field_value kvs field dflt) = field_value kvs field dflt.
Proof. unfold field_value. by destruct (given kvs field). Qed.

(** A configuration that was loaded is valid. *)
Lemma conf_load_Ok_valid text cur o : conf_load text cur = Ok o -> options_valid o.
Proof.
  unfold conf_load. intros (kvs & _ & H)%result_bind_Ok.
  apply unmarshal_conf_Ok in H as (_ & d & p & n & Hd & Hp & Hn & ->).
  split_and!; cbn [DebugLevel Port Timeout]; by eapply parse_int_range.
Qed.

(** C21: Whatever the file holds and whatever the record held before, a
    configuration that was loaded is valid: the debug level, the port and
    the timeout lie in the ranges the tags of the struct declare.  Whether
    a file is accepted, and the four fields that have a default, do not
    depend on what the record held. *)
Theorem conf_load_valid text cur o :
  conf_load text cur = Ok o ->
  options_valid o /\
  forall cur', exists o', conf_load text cur' = Ok o' /\
    (LogType o', DebugLevel o', Port o', Timeout o') =
    (LogType o, DebugLevel o, Port o, Timeout o).
Proof.
  intros H. split; [by eapply conf_load_Ok_valid|]. intros cur'. revert H.
  unfold conf_load. intros (kvs & -> & H)%result_bind_Ok. cbn [mbind result_bind].
  apply unmarshal_conf_Ok in H as (Hk & d & p & n & Hd & Hp & Hn & ->).
  eexists. split; [|shelve].
  { apply unmarshal_conf_Ok. split; [done|]. by exists d, p, n. }
  Unshelve. done.
Qed.

(** Loading the same file a second time into the record the first
    load returned changes nothing. *)
Theorem conf_load_idempotent text cur o : conf_load text cur = Ok o -> conf_load text o = Ok o.
Proof.
  unfold conf_load. intros (kvs & Hp & H)%result_bind_Ok. rewrite Hp. cbn [mbind result_bind].
  apply unmarshal_conf_Ok in H as (Hk & d & p & n & Hd & Hpt & Hn & ->).
  apply unmarshal_conf_Ok. split; [done|]. exists d, p, n. split_and!; [done..|].
  cbn [LogFile ActiveChecksFile]. by rewrite !field_value_idemp.
Qed.

(** The last assignment of the file wins. *)
Lemma field_value_snoc kvs key v field dflt :
  field_value (kvs ++ [(key, v)]) field dflt =
    if decide (field = key) then v else field_value kvs field dflt.
Proof. unfold field_value, given. rewrite reverse_snoc. simpl. by case_decide. Qed.

(** The loader accepts every LogType: the tag of the field declares
    no constraint, so a file that is accepted stays accepted when a line
    that sets LogType to any text at all is added at its end, and the
    text is stored as it is. *)
Lemma unmarshal_conf_any_LogType kvs cur o v :
  unmarshal_conf kvs cur = Ok o ->
  unmarshal_conf (kvs ++ [("LogType"%string, v)]) cur =
    Ok (mkOptions v (LogFile o) (DebugLevel o) (Port o) (Timeout o) (ActiveChecksFile o)).
Proof.
  intros (Hk & d & p & n & Hd & Hpt & Hn & ->)%unmarshal_conf_Ok.
  apply unmarshal_conf_Ok. split; [by apply list_find_app_None|].
  exists d, p, n. by rewrite !field_value_snoc.
Qed.

Theorem conf_load_any_LogType text text' cur kvs o v :
  parse_conf text = Ok kvs -> parse_conf text' = Ok (kvs ++ [("LogType"%string, v)]) ->
  conf_load text cur = Ok o ->
  conf_load text' cur =
    Ok (mkOptions v (LogFile o) (DebugLevel o) (Port o) (Timeout o) (ActiveChecksFile o)).
Proof.
  unfold conf_load. intros -> ->. cbn [mbind result_bind]. apply unmarshal_conf_any_LogType.
Qed.

(** A file that gives the debug level, the port or the timeout a
    value that is not a number or lies outside the range of the tag is
    refused, whatever else it holds. *)
Theorem conf_load_rejects text cur kvs field v :
  parse_conf text = Ok kvs ->
  field ∈ ["DebugLevel"; "Port"; "Timeout"]%string ->
  given kvs field = Some v ->
  (forall z, atoi v = Some z -> ~ in_tag_range (field_tag field) z) ->
  exists e, conf_load text cur = Fail e.
Proof.
  intros Hp Hf Hv Hz. unfold conf_load. rewrite Hp. cbn [mbind result_bind].
  destruct (unmarshal_conf kvs cur) as [o|e] eqn:E; [exfalso|by eauto].
  apply unmarshal_conf_Ok in E as (_ & d & p & n & Hd & Hpt & Hn & _).
  unfold field_value in *.
  repeat (apply elem_of_cons in Hf as [->|Hf]; [rewrite Hv in *|]);
    [| | |by apply elem_of_nil in Hf].
  all: match goal with
       | H : parse_int _ (default _ (Some _)) = Ok ?z |- _ =>
           apply parse_int_range in H as [Ha Hr]; by apply (Hz z)
       end.
Qed.

End LoaderTheorems.

(** ** Witnesses and examples *)

Lemma conf_load_valid_witness :
  options_valid (mkOptions "file" "/tmp/mock_server.log" 4 10051 5 "active_checks.json") /\
  forall cur', exists o', conf_load sample_conf cur' = Ok o' /\
    (LogType o', DebugLevel o', Port o', Timeout o') = ("file"%string, 4, 10051, 5).
Proof. apply (conf_load_valid sample_conf options). by vm_compute. Defined.

Lemma conf_load_idempotent_witness :
  conf_load sample_conf
    (mkOptions "file" "/tmp/mock_server.log" 4 10051 5 "active_checks.json") =
  Ok (mkOptions "file" "/tmp/mock_server.log" 4 10051 5 "active_checks.json").
Proof. apply (conf_load_idempotent sample_conf options). by vm_compute. Defined.

Lemma conf_load_rejects_witness :
  exists e, conf_load ("Port=80" +:+ nl +:+ "Timeout=31") default_options = Fail e.
Proof.
  apply (conf_load_rejects _ _ [("Port", "80"); ("Timeout", "31")] "Timeout" "31")%string;
    [by vm_compute|set_solver|by vm_compute|].
  intros z [= <-]. change (~ (1 <= 31 <= 30)). lia.
Defined.

Lemma conf_load_any_LogType_witness :
  conf_load (sample_conf +:+ "LogType=syslog") options =
    Ok (mkOptions "syslog" "/tmp/mock_server.log" 4 10051 5 "active_checks.json").
Proof.
  by apply (conf_load_any_LogType sample_conf _ options
              [("LogType", "file"); ("LogFile", "/tmp/mock_server.log"); ("DebugLevel", "4");
               ("ActiveChecksFile", "active_checks.json")]%string
              (mkOptions "file" "/tmp/mock_server.log" 4 10051 5 "active_checks.json")).
Defined.

(** A file that sets nothing gives the defaults of the tags; keys that
    are no fields and lines without an assignment are errors. *)
Example conf_load_defaults : conf_load "" options = Ok default_options.
Proof. by vm_compute. Qed.

Example conf_load_errors :
  conf_load "Bogus=1" options = Fail "unknown parameter: Bogus" /\
  conf_load "Timeout 5" options = Fail "missing assignment operator: Timeout 5" /\
  conf_load "Timeout=0" options = Fail "value out of range: 0" /\
  conf_load "Port=http" options = Fail "invalid value: http".
Proof. by vm_compute. Qed.
