(* ===== verification/Fmt.v ===== *)
(** * Fmt: the text of a log line (package fmt)

    Every log and print call of the program passes a format and its
    operands (lines 51-71, 96-164); the only verb the formats use is
    [%s].  Package fmt is not part of the sources: [sprintf] models
    what it does with [%s] and [%%], which is all the program asks of
    it.  An operand is rendered the way [%s] renders a value of its
    dynamic type: a string and an error as their text, any other value
    of an [interface{}] as the bad-verb form [%!s(type=value)].  The
    decimal text of a [float64] is a parameter ([format_float]).

    [message] is the text of an observed call, [log_of] the lines a
    trace leaves in the log.  [formatted] checks a program: the format
    of each of its calls has one [%s] for each operand, whatever the
    answers of the environment; it holds of [handleConnection] and of
    [main]. *)

From Stdlib Require Import ZArith SpecFloat.
From Stdlib.Strings Require Import Ascii.
From stdpp Require Import sorting.
From S2P Require Import Prelude Options Json Effects Handler Bootstrap Server.

Section Fmt.
Context (format_float : spec_float -> string).

(** [strings.Join(l, sep)]. *)
Fixpoint join (sep : string) (l : list string) : string :=
  match l with
  | [] => EmptyString
  | [s] => s
  | s :: l' => s +:+ sep +:+ join sep l'
  end.

(** An interface value under [%s]. *)
Fixpoint render_iface (v : iface) : string :=
  match v with
  | IString s => s
  | INil => "%!s(<nil>)"
  | IBool b => "%!s(bool=" +:+ (if b then "true" else "false") +:+ ")"
  | INumber f => "%!s(float64=" +:+ format_float f +:+ ")"
  | IArray l => "[" +:+ join " " (render_iface <$> l) +:+ "]"
  | IMap m =>
      "map[" +:+
      join " " ((fun kv => kv.1 +:+ ":" +:+ kv.2) <$>
                merge_sort (fun a b => String.leb a.1 b.1)
                  (map_to_list (render_iface <$> m)))
      +:+ "]"
  end.

(** An operand under [%s]. *)
Definition render (a : arg) : string :=
  match a with
  | AString s => s
  | AError e => e
  | AIface v => render_iface v
  end.

(** [fmt.Sprintf(format, args...)] for formats whose verbs are [%s]:
    every [%s] takes the next operand, [%%] is a percent sign.  [None]
    stands for what the program never does: a verb without an operand,
    an operand without a verb, another verb. *)
Fixpoint sprintf (format : string) (args : list arg) : option string :=
  match format with
  | EmptyString => if args is [] then Some EmptyString else None
  | String "%" (String "s" rest) =>
      match args with
      | a :: args' => String.app (render a) <$> sprintf rest args'
      | [] => None
      end
  | String "%" (String "%" rest) => String "%" <$> sprintf rest args
  | String "%" _ => None
  | String c rest => String c <$> sprintf rest args
  end.

(** The text of a call that prints or logs. *)
Definition message (l : label) : option string :=
  match l with
  | LLogf _ format args => sprintf format args
  | LFprintfStderr format args => sprintf format args
  | LPrintln s => Some (s +:+ nl)
  | _ => None
  end.

(** The lines a trace hands to the logger, with their levels. *)
Definition log_of (t : list label) : list (logfn * string) :=
  omap (fun l => match l with
                 | LLogf f format args => pair f <$> sprintf format args
                 | _ => None
                 end) t.

(** Whether a call passes a format. *)
Definition has_format (l : label) : bool :=
  match l with
  | LLogf _ _ _ | LFprintfStderr _ _ => true
  | _ => false
  end.

(** The format of every call of the program agrees with its operands. *)
Fixpoint formatted {R} (p : prog R) : Prop :=
  match p with
  | Ret _ => True
  | Vis e k =>
      (forall x, has_format (label_of e x) = true -> is_Some (message (label_of e x))) /\
      forall x, formatted (k x)
  end.

(** ** Lemmas *)

Lemma formatted_bind {R S} (p : prog R) (f : R -> prog S) :
  formatted p -> (forall r, formatted (f r)) -> formatted (p ≫= f).
Proof.
  rewrite bind_unfold. intros Hp Hf. induction p as [r|X e k IH]; simpl in *; [done|].
  destruct Hp as [He Hk]. split; [done|]. intros x. by apply IH.
Qed.

(** A trace of a formatted program holds formatted calls only. *)
Lemma formatted_traces {R} (p : prog R) t r l :
  formatted p -> traces p t r -> l ∈ t -> has_format l = true -> is_Some (message l).
Proof.
  revert t. induction p as [r'|X e k IH]; simpl; intros t Hp.
  - intros [-> _]. by intros ?%elem_of_nil.
  - intros (x & t' & -> & H) [->|Hin]%elem_of_cons; destruct Hp as [He Hk]; eauto.
Qed.

Lemma formatted_trigger {X} (e : event X) :
  (forall x, has_format (label_of e x) = true -> is_Some (message (label_of e x))) ->
  formatted (trigger e).
Proof. by split. Qed.

Section Programs.
Context {J : JsonPkg} {L : LogPkg}.

Lemma handleConnection_formatted c ac tFlag : formatted (handleConnection c ac tFlag).
Proof.
  unfold handleConnection, defer.
  repeat (simpl; first [ exact I | done | split; [by eauto|] | intros [] | case_match ]).
Qed.

Lemma print_greeting_formatted fg o : formatted (print_greeting fg o).
Proof.
  with_strategy transparent [print_greeting] unfold print_greeting.
  destruct fg; [|done]. by case_bool_decide.
Qed.

Lemma startup_formatted : formatted startup.
Proof.
  unfold startup.
  repeat (simpl; first
    [ exact I | done | split; [by eauto|] | intros []
    | apply formatted_bind; [apply print_greeting_formatted|] ]).
Qed.

Lemma accept_loop_formatted fuel ac o : formatted (accept_loop fuel ac o).
Proof.
  induction fuel as [|n IH]; simpl; [done|]. split; [done|].
  intros [c|e]; simpl; (split; [by eauto|done]).
Qed.

Lemma main_formatted fuel : formatted (main fuel).
Proof.
  unfold main. apply formatted_bind; [apply startup_formatted|].
  intros [out|srv]; [done|]. unfold defer_returned.
  apply formatted_bind; [apply accept_loop_formatted|].
  intros [out|]; [|done]. by split.
Qed.

(** ** Theorems *)

(** C36: Every call of [main] that passes a format passes as many
    operands as the format has verbs, and every verb is [%s], whatever
    the environment answers: no line of the log or of the error stream
    holds a missing or an extra operand. *)
Theorem main_formats_agree fuel t r l :
  traces (main fuel) t r -> l ∈ t -> has_format l = true -> is_Some (message l).
Proof. apply formatted_traces, main_formatted. Qed.

(** The same holds of every call of the handler. *)
Theorem handler_formats_agree c ac tFlag t l :
  traces (handleConnection c ac tFlag) t tt -> l ∈ t -> has_format l = true ->
  is_Some (message l).
Proof. apply formatted_traces, handleConnection_formatted. Qed.

(** C37: The log of a request that is not supported: the payload at debug
    level, then one warning that names the value of the field request
    the way [%s] renders it, which is the text itself only when the value
    is a string. *)
Theorem unsupported_request_named c ac tFlag t js pairs :
  traces (handleConnection c ac tFlag) t tt ->
  head t = Some (LConnRead c (seconds tFlag) (Ok js)) ->
  unmarshal js = Ok pairs ->
  pairs !! "request"%string <> Some (IString "active checks") ->
  log_of t =
    [(Debugf, "got '" +:+ string_of_bytes js +:+ "'");
     (Warningf, "Unsupported request: " +:+ render_iface (index pairs "request") +:+ nl)].
Proof.
  intros H Hhd Hjs Hreq. apply handleConnection_paths in H.
  destruct H; unify_eqs; done.
Qed.

End Programs.

End Fmt.

(** ** Witnesses and examples *)

(** No number is rendered in the examples. *)
Definition no_float : spec_float -> string := fun _ => "?"%string.

Lemma main_formats_agree_witness :
  is_Some (message no_float (LLogf Infof "using configuration file: %s"
                               [AString "mock_server.conf"])).
Proof.
  apply (main_formats_agree no_float (L:=sample_log) 5 (sample_main 5 sample_queue).1
           (sample_main 5 sample_queue).2).
  - apply run_traces.
  - by vm_compute; set_solver.
  - done.
Defined.

Lemma handler_formats_agree_witness :
  is_Some (message no_float (warning "Unsupported request" (AIface (IString "ping")))).
Proof.
  apply (handler_formats_agree no_float (J:=sample_json) sample_conn canned 5
           (scenario (Ok ping_request) None)); [apply scenario_traces| |done].
  vm_compute. set_solver.
Defined.

Lemma unsupported_request_named_witness :
  log_of no_float (scenario (Ok ping_request) None) =
    [(Debugf, "got '" +:+ string_of_bytes ping_request +:+ "'");
     (Warningf, "Unsupported request: " +:+ "ping" +:+ nl)].
Proof.
  apply (unsupported_request_named no_float (J:=sample_json) sample_conn canned 5 _
           ping_request ping_map); [apply scenario_traces|done..].
Defined.

(** Scenario 2 of the specification, and the same for a request without
    the field: the warning names [ping], and [%!s(<nil>)] where there is
    nothing to name. *)
Example log_of_ping :
  log_of no_float (scenario (Ok ping_request) None) =
    [(Debugf, "got '" +:+ request_text "ping" +:+ "'");
     (Warningf, "Unsupported request: ping" +:+ nl)] /\
  log_of no_float (scenario (Ok (bytes_of_string "{}")) None) =
    [(Debugf, "got '{}'"); (Warningf, "Unsupported request: %!s(<nil>)" +:+ nl)].
Proof. by vm_compute. Qed.
