(* ===== verification/Flags.v ===== *)
(** * Flags: the command line (package flag)

    [main] registers four flags and calls [flag.Parse()] (lines 83-93).
    Package flag is not part of the sources; this file models what
    [Parse] does with the arguments of the process, from the documented
    syntax of the package: a flag is [-name], [--name], [-name=value] or
    [-name value]; a boolean flag takes its value only after [=]; the
    first argument that is not a flag and the argument [--] end the
    flags; an error ends the process with status 2 and [-h] or [-help]
    with the status of the usage message ([help_status]: 0 since Go
    1.15, 2 before).

    The result is what the program's model of [flag.Parse] expects
    ([Effects.parsed]): the variables the command line bound, the latest
    binding first, or the exit status.  [cmdline] writes a sequence of
    settings as arguments, and parsing what was written gives the
    settings back ([flag_parse_settings]).  [parse_args] is the call
    of the program: the registrations of lines 83-92, then [flag.Parse()]. *)

From Stdlib Require Import ZArith Lia.
From Stdlib.Strings Require Import Ascii.
From S2P Require Import Prelude Options Json Effects Bootstrap.

#[local] Open Scope Z_scope.

(** ** Arguments *)

(** [strconv.ParseBool]. *)
Definition parse_bool (s : string) : option bool :=
  if bool_decide (s ∈ ["1"; "t"; "T"; "TRUE"; "true"; "True"]%string) then Some true
  else if bool_decide (s ∈ ["0"; "f"; "F"; "FALSE"; "false"; "False"]%string) then Some false
  else None.

(** What an argument is: not a flag, the end of the flags, a flag that is
    not well formed, or a flag with the value that follows its [=]. *)
Inductive word : Type :=
| Positional
| Terminator
| Malformed
| Flagged (name : string) (value : option string).

(** The flag of an argument without its dashes. *)
Definition named (name : string) : word :=
  match name with
  | EmptyString => Malformed
  | String d _ =>
      if Ascii.eqb d "-" || Ascii.eqb d "=" then Malformed
      else Flagged (cut "=" name).1 (cut "=" name).2
  end.

Definition classify (s : string) : word :=
  match s with
  | String m (String c rest) =>
      if negb (Ascii.eqb m "-") then Positional
      else if Ascii.eqb c "-" then
        if bool_decide (rest = EmptyString) then Terminator else named rest
      else named (String c rest)
  | _ => Positional
  end.

(** The registration of a name. *)
Definition find_flag (name : string) (fs : list flag_def) : option flag_def :=
  snd <$> list_find (fun fd => flag_name fd = name) fs.

(** The status of a usage error under [flag.ExitOnError]. *)
Definition usage_error : Z := 2.

Section Parse.
Context (help_status : Z).

(** [flag.Parse()]: the flags are read from the left; [vals] holds the
    variables bound so far, the latest first. *)
Fixpoint parse_from (fs : list flag_def) (args : list string)
    (vals : list (string * flag_value)) : parsed :=
  match args with
  | [] => Parsed vals
  | s :: rest =>
      match classify s with
      | Positional | Terminator => Parsed vals
      | Malformed => FlagExit usage_error
      | Flagged name value =>
          match find_flag name fs with
          | None =>
              if bool_decide (name = "help"%string \/ name = "h"%string)
              then FlagExit help_status else FlagExit usage_error
          | Some fd =>
              match flag_default fd, value with
              | FBool _, Some v =>
                  match parse_bool v with
                  | Some b => parse_from fs rest ((flag_var fd, FBool b) :: vals)
                  | None => FlagExit usage_error
                  end
              | FBool _, None => parse_from fs rest ((flag_var fd, FBool true) :: vals)
              | FString _, Some v => parse_from fs rest ((flag_var fd, FString v) :: vals)
              | FString _, None =>
                  match rest with
                  | v :: rest' => parse_from fs rest' ((flag_var fd, FString v) :: vals)
                  | [] => FlagExit usage_error
                  end
              end
          end
      end
  end.

Definition flag_parse (fs : list flag_def) (args : list string) : parsed :=
  parse_from fs args [].

(** Lines 83-93: the four registrations of [main], then [flag.Parse()]
    on the arguments of the process. *)
Definition parse_args (argv : list string) : parsed := flag_parse flags argv.

End Parse.

(** ** Command lines *)

(** One setting of a flag on the command line: its name after one or two
    dashes, and its value after [=], in the next argument, or not given
    (a boolean flag that is switched on). *)
Inductive setting : Type :=
| Inline (long : bool) (name value : string)
| Spaced (long : bool) (name value : string)
| Bare (long : bool) (name : string).

Definition dashes (long : bool) : string := if long then "--" else "-".

(** The arguments of a setting. *)
Definition setting_args (x : setting) : list string :=
  match x with
  | Inline long name value => [dashes long +:+ name +:+ "=" +:+ value]
  | Spaced long name value => [dashes long +:+ name; value]
  | Bare long name => [dashes long +:+ name]
  end.

(** A name a flag can be registered with and written with: it is not
    empty, does not start with a dash and holds no [=]. *)
Definition name_ok (name : string) : bool :=
  match name with
  | EmptyString => false
  | String c _ => negb (Ascii.eqb c "-") && bool_decide ((cut "=" name).2 = None)
  end.

(** The variable a setting binds and its value, for the registrations
    [fs]: nothing when the setting is not one [flag.Parse] accepts. *)
Definition setting_binding (fs : list flag_def) (x : setting) : option (string * flag_value) :=
  match x with
  | Inline _ name value =>
      fd ← find_flag name fs;
      if negb (name_ok name) then None
      else match flag_default fd with
           | FBool _ => (fun b => (flag_var fd, FBool b)) <$> parse_bool value
           | FString _ => Some (flag_var fd, FString value)
           end
  | Spaced _ name value =>
      fd ← find_flag name fs;
      if negb (name_ok name) then None
      else match flag_default fd with
           | FBool _ => None
           | FString _ => Some (flag_var fd, FString value)
           end
  | Bare _ name =>
      fd ← find_flag name fs;
      if negb (name_ok name) then None
      else match flag_default fd with
           | FBool _ => Some (flag_var fd, FBool true)
           | FString _ => None
           end
  end.

(** The arguments of a sequence of settings, in their order. *)
Definition cmdline (xs : list setting) : list string := xs ≫= setting_args.

(** Whether parsing stops at the front of [args]. *)
Definition stops (args : list string) : bool :=
  match args with
  | [] => true
  | s :: _ => match classify s with Positional | Terminator => true | _ => false end
  end.

(** ** Lemmas *)

Section Words.
Implicit Types (name value s : string) (long : bool).

Lemma cut_app_sep c (a b : string) :
  (cut c a).2 = None -> cut c (a +:+ String c b) = (a, Some b).
Proof.
  induction a as [|d a IH]; simpl.
  - by rewrite Ascii.eqb_refl.
  - destruct (Ascii.eqb d c); [done|]. simpl. intros H. by rewrite IH.
Qed.

Lemma cut_no_sep c (a : string) : (cut c a).2 = None -> cut c a = (a, None).
Proof.
  induction a as [|d a IH]; simpl; [done|].
  destruct (Ascii.eqb d c); [done|]. simpl. intros H. by rewrite IH.
Qed.

Lemma name_ok_head name :
  name_ok name = true ->
  exists c name', name = String c name' /\ Ascii.eqb c "-" = false /\ Ascii.eqb c "=" = false /\
    (cut "=" name).2 = None.
Proof.
  destruct name as [|c name]; [done|]. unfold name_ok.
  intros [Hc Hcut%bool_decide_eq_true]%andb_prop. apply negb_true_iff in Hc.
  exists c, name. split_and!; [done..| |done]. simpl in Hcut. by destruct (Ascii.eqb c "=").
Qed.

(** An argument that starts a well-formed name after its dashes. *)
Lemma classify_dashes long c w :
  Ascii.eqb c "-" = false -> classify (dashes long +:+ String c w) = named (String c w).
Proof. intros Hc. destruct long; simpl; by rewrite ?Hc. Qed.

Lemma classify_inline long name value :
  name_ok name = true ->
  classify (dashes long +:+ name +:+ "=" +:+ value) = Flagged name (Some value).
Proof.
  intros (c & name' & -> & Hc & Hq & Hcut)%name_ok_head.
  change (String c name' +:+ "=" +:+ value) with (String c (name' +:+ "=" +:+ value)).
  rewrite classify_dashes by done. unfold named. rewrite Hc, Hq. cbn [orb].
  change (String c (name' +:+ "=" +:+ value)) with (String c name' +:+ String "=" value).
  by rewrite cut_app_sep.
Qed.

Lemma classify_bare long name :
  name_ok name = true -> classify (dashes long +:+ name) = Flagged name None.
Proof.
  intros (c & name' & -> & Hc & Hq & Hcut)%name_ok_head.
  rewrite classify_dashes by done. unfold named. rewrite Hc, Hq. cbn [orb].
  by rewrite cut_no_sep.
Qed.

Lemma string_app_empty_r (s : string) : s +:+ "" = s.
Proof.
  induction s as [|c s IH]; [done|]. change (String c (s +:+ "") = String c s). by rewrite IH.
Qed.

Lemma cut_Some c s (a b : string) :
  cut c s = (a, Some b) -> s = a +:+ String c b /\ (cut c a).2 = None.
Proof.
  revert a. induction s as [|d s IH]; simpl; intros a; [done|].
  destruct (Ascii.eqb_spec d c) as [->|Hne].
  - by intros [= <- <-].
  - destruct (cut c s) as [a' o] eqn:E. simpl. intros [= <- ->].
    destruct (IH a' eq_refl) as [-> Ha]. split; [done|]. simpl.
    destruct (Ascii.eqb_spec d c); [done|]. done.
Qed.

Lemma cut_None c s (a : string) : cut c s = (a, None) -> s = a /\ (cut c a).2 = None.
Proof.
  revert a. induction s as [|d s IH]; simpl; intros a; [by intros [= <-]|].
  destruct (Ascii.eqb_spec d c) as [->|Hne]; [done|].
  destruct (cut c s) as [a' o] eqn:E. simpl. intros [= <- ->].
  destruct (IH a' eq_refl) as [-> Ha]. split; [done|]. simpl.
  by destruct (Ascii.eqb_spec d c).
Qed.

Lemma named_Flagged w name (vo : option string) :
  named w = Flagged name vo ->
  name_ok name = true /\ w = name +:+ (if vo is Some v then String "=" v else EmptyString).
Proof.
  destruct w as [|d w]; [done|]. unfold named.
  destruct (Ascii.eqb d "-") eqn:Hd; [done|]. destruct (Ascii.eqb d "=") eqn:Hq; [done|].
  cbn [orb]. destruct (cut "=" (String d w)) as [a [b|]] eqn:E; intros [= <- <-].
  - apply cut_Some in E as [E Ha]. split; [|done].
    destruct a as [|c a].
    { change (String d w = String "=" b) in E. by simplify_eq. }
    change (String d w = String c (a +:+ String "=" b)) in E.
    simpl in E. simplify_eq. unfold name_ok. rewrite Hd. by rewrite Ha.
  - apply cut_None in E as [<- Ha]. split; [|by rewrite string_app_empty_r].
    unfold name_ok. by rewrite Hd, Ha.
Qed.

(** A flag is one or two dashes, a name and perhaps a value. *)
Lemma classify_Flagged s name (vo : option string) :
  classify s = Flagged name vo ->
  name_ok name = true /\
  exists long, s = dashes long +:+ name +:+ (if vo is Some v then String "=" v else EmptyString).
Proof.
  destruct s as [|m [|c rest]]; try done. unfold classify.
  destruct (Ascii.eqb_spec m "-") as [->|Hm]; [|done]. cbn [negb].
  destruct (Ascii.eqb_spec c "-") as [->|Hc].
  - case_bool_decide; [done|]. intros [Hn ->]%named_Flagged. split; [done|]. by exists true.
  - intros [Hn E]%named_Flagged. split; [done|]. exists false. simpl. by rewrite E.
Qed.

End Words.

Section Parse.
Context (help_status : Z).
Implicit Types (fs : list flag_def) (x : setting) (xs : list setting)
  (vals : list (string * flag_value)) (rest tail : list string).

(** One setting is read as its binding. *)
Lemma parse_from_setting fs x b rest vals :
  setting_binding fs x = Some b ->
  parse_from help_status fs (setting_args x ++ rest) vals
    = parse_from help_status fs rest (b :: vals).
Proof.
  destruct x as [long name value|long name value|long name]; simpl;
    destruct (find_flag name fs) as [fd|] eqn:Hfd; simpl; try done;
    destruct (name_ok name) eqn:Hn; simpl; try done;
    rewrite ?classify_inline, ?classify_bare, ?Hfd by done;
    destruct (flag_default fd); try done.
  - by intros [= <-].
  - destruct (parse_bool value); simpl; [|done]. by intros [= <-].
  - by intros [= <-].
  - by intros [= <-].
Qed.

Lemma parse_from_stops fs tail vals :
  stops tail = true -> parse_from help_status fs tail vals = Parsed vals.
Proof. destruct tail as [|s tail]; [done|]. simpl. by destruct (classify s). Qed.

(** Parsing the arguments of settings gives their bindings. *)
Lemma parse_from_cmdline fs xs bs tail vals :
  mapM (setting_binding fs) xs = Some bs -> stops tail = true ->
  parse_from help_status fs (cmdline xs ++ tail) vals = Parsed (reverse bs ++ vals).
Proof.
  rewrite mapM_Some. intros H Ht. revert vals.
  induction H as [|x b xs bs Hx _ IH]; intros vals.
  - by apply parse_from_stops.
  - unfold cmdline. rewrite bind_cons, <- app_assoc, (parse_from_setting _ _ b) by done.
    fold (cmdline xs). by rewrite IH, reverse_cons, <- app_assoc.
Qed.


Lemma parse_from_settings_le n fs args vals vals' :
  (length args <= n)%nat ->
  parse_from help_status fs args vals = Parsed vals' ->
  exists xs bs tail, args = cmdline xs ++ tail /\ mapM (setting_binding fs) xs = Some bs /\
    stops tail = true /\ vals' = reverse bs ++ vals.
Proof.
  revert args vals. induction n as [|n IH]; intros [|s rest] vals Hn; simpl in Hn; try lia;
    try (intros [= <-]; by exists [], [], []).
  cbn [parse_from]. destruct (classify s) as [| | |name vo] eqn:Hs;
    try (intros [= <-]; exists [], [], (s :: rest); simpl; by rewrite Hs).
  apply classify_Flagged in Hs as (Hname & long & ->).
  destruct (find_flag name fs) as [fd|] eqn:Hfd; [|by case_bool_decide].
  assert (Hcons : forall x b rest',
    setting_binding fs x = Some b -> (length rest' <= n)%nat ->
    parse_from help_status fs rest' (b :: vals) = Parsed vals' ->
    exists xs bs tail, setting_args x ++ rest' = cmdline xs ++ tail /\
      mapM (setting_binding fs) xs = Some bs /\ stops tail = true /\ vals' = reverse bs ++ vals).
  { intros x b rest' Hx Hl (xs & bs & tail & -> & Hxs & Ht & ->)%IH; [|done].
    exists (x :: xs), (b :: bs), tail. split_and!; [|by simplify_option_eq|done|].
    - unfold cmdline. by rewrite bind_cons, app_assoc.
    - by rewrite reverse_cons, <- app_assoc. }
  destruct (flag_default fd) as [str|b0] eqn:Hd, vo as [v|].
  - apply (Hcons (Inline long name v)); [|lia]. simpl. rewrite Hfd. simpl. by rewrite Hname, Hd.
  - destruct rest as [|v rest']; [done|]. rewrite string_app_empty_r.
    apply (Hcons (Spaced long name v) _ rest'); [|simpl in Hn; lia]. simpl.
    rewrite Hfd. simpl. by rewrite Hname, Hd.
  - destruct (parse_bool v) as [b|] eqn:Hb; [|done].
    apply (Hcons (Inline long name v)); [|lia]. simpl. rewrite Hfd. simpl. by rewrite Hname, Hd, Hb.
  - rewrite string_app_empty_r. apply (Hcons (Bare long name)); [|lia]. simpl.
    rewrite Hfd. simpl. by rewrite Hname, Hd.
Qed.

Lemma parse_from_exit_le n fs args vals code :
  (length args <= n)%nat ->
  parse_from help_status fs args vals = FlagExit code ->
  code = usage_error \/ code = help_status.
Proof.
  revert args vals. induction n as [|n IH]; intros [|s rest] vals Hn; simpl in Hn; try lia;
    try done.
  cbn [parse_from]. repeat case_match; try (intros [= <-]; by auto); subst;
    apply IH; simpl in *; lia.
Qed.

(** ** Theorems *)

(** C16: Round trip of the command line: [flag.Parse] accepts exactly the
    arguments that are settings of registered flags followed by an
    argument that ends the flags (or by nothing), and binds what the
    settings say, the latest first; a variable set twice holds its
    latest value. *)
Theorem flag_parse_settings fs args vals vals' :
  parse_from help_status fs args vals = Parsed vals' <->
  exists xs bs tail, args = cmdline xs ++ tail /\ mapM (setting_binding fs) xs = Some bs /\
    stops tail = true /\ vals' = reverse bs ++ vals.
Proof.
  split; [by apply (parse_from_settings_le (length args))|].
  intros (xs & bs & tail & -> & Hxs & Ht & ->). by apply parse_from_cmdline.
Qed.

(** An error of the command line ends the process with the status of
    a usage error or, for a flag [-h] or [-help] that is not registered,
    with the status of the usage message; nothing else does. *)
Theorem flag_parse_exit fs args vals code :
  parse_from help_status fs args vals = FlagExit code ->
  code = usage_error \/ code = help_status.
Proof. apply (parse_from_exit_le (length args)). lia. Qed.

(** The configuration flag in all its forms: after one or two dashes,
    as [c] or [config], with the path after [=] or in the next argument,
    it binds [confFlag] to the path, whatever the path is. *)
Theorem config_flag_forms long name path tail :
  name ∈ ["c"; "config"]%string -> stops tail = true ->
  parse_args help_status ((dashes long +:+ name) :: path :: tail)
    = Parsed [("confFlag"%string, FString path)] /\
  parse_args help_status ((dashes long +:+ name +:+ "=" +:+ path) :: tail)
    = Parsed [("confFlag"%string, FString path)].
Proof.
  intros Hname Ht. unfold parse_args, flag_parse. split.
  - apply (parse_from_cmdline flags [Spaced long name path] [_] tail []); [|done].
    by repeat (apply elem_of_cons in Hname as [->|Hname]; [done|]); apply elem_of_nil in Hname.
  - apply (parse_from_cmdline flags [Inline long name path] [_] tail []); [|done].
    by repeat (apply elem_of_cons in Hname as [->|Hname]; [done|]); apply elem_of_nil in Hname.
Qed.

(** C35: A boolean flag takes no value from the next argument: after
    [-f] or [-foreground] a word such as [false] is not a flag, so it
    ends the flags; the foreground flag is on and every flag after the
    word is ignored. *)
Theorem foreground_word_ignored long name w rest :
  name ∈ ["f"; "foreground"]%string -> classify w = Positional ->
  parse_args help_status ((dashes long +:+ name) :: w :: rest)
    = Parsed [("foregroundFlag"%string, FBool true)].
Proof.
  intros Hname Hw. unfold parse_args, flag_parse.
  apply (parse_from_cmdline flags [Bare long name] [_] (w :: rest) []); [|simpl; by rewrite Hw].
  by repeat (apply elem_of_cons in Hname as [->|Hname]; [done|]); apply elem_of_nil in Hname.
Qed.

End Parse.

(** ** Witnesses and examples *)

Lemma flag_parse_settings_witness :
  parse_from 0 flags ["-f=0"; "--config"; "a.conf"; "leftover"]%string []
    = Parsed [("confFlag", FString "a.conf"); ("foregroundFlag", FBool false)]%string.
Proof.
  apply (flag_parse_settings 0 flags).
  exists [Inline false "f" "0"; Spaced true "config" "a.conf"]%string,
    [("foregroundFlag", FBool false); ("confFlag", FString "a.conf")]%string,
    ["leftover"%string].
  by split_and!.
Defined.

Lemma flag_parse_exit_witness : 2 = usage_error \/ 2 = 0.
Proof. by apply (flag_parse_exit 0 flags ["-config"]%string []). Defined.

Lemma config_flag_forms_witness :
  parse_args 0 ["--config"; "/etc/zabbix/mock.conf"]%string
    = Parsed [("confFlag"%string, FString "/etc/zabbix/mock.conf")] /\
  parse_args 0 ["--config=/etc/zabbix/mock.conf"]%string
    = Parsed [("confFlag"%string, FString "/etc/zabbix/mock.conf")].
Proof.
  apply (config_flag_forms 0 true "config" "/etc/zabbix/mock.conf" []); [|done].
  set_solver.
Defined.

Lemma foreground_word_ignored_witness :
  parse_args 0 ["-f"; "false"; "-c"; "other.conf"]%string
    = Parsed [("foregroundFlag"%string, FBool true)].
Proof.
  apply (foreground_word_ignored 0 false "f" "false" ["-c"; "other.conf"]%string); [|done].
  set_solver.
Defined.

(** The command lines of the program: no argument leaves the defaults;
    the latest setting of a variable counts; [--] and a single dash end
    the flags. *)
Example flag_parse_program :
  parse_args 0 [] = Parsed [] /\
  (exists vals, parse_args 0 ["-f=false"; "-c"; "a.conf"; "--config=b.conf"]%string
                  = Parsed vals /\
     confFlag_of vals = "b.conf"%string /\ foregroundFlag_of vals = false) /\
  parse_args 0 ["--"; "-c"; "a.conf"]%string = Parsed [] /\
  parse_args 0 ["-"; "-c"; "a.conf"]%string = Parsed [].
Proof. split_and!; [done| |done..]. eexists. by split_and!. Qed.

(** The errors of the command line: a flag that is not registered, the
    request for help, a string flag without its value, a boolean that is
    none, three dashes, a name that starts with [=]. *)
Example flag_parse_errors :
  parse_args 0 <$>
    [ ["-x"]; ["-h"]; ["-help"]; ["-c"]; ["-f=maybe"]; ["---c"]; ["-=x"] ]%string
  = [FlagExit 2; FlagExit 0; FlagExit 0; FlagExit 2; FlagExit 2; FlagExit 2; FlagExit 2].
Proof. done. Qed.
