(* ===== verification/Logger.v ===== *)
(** * Logger: the leveled log (package log)

    [main] opens the logger with [log.Open(logType, logLevel,
    options.LogFile)] (line 127) and the program writes through
    [log.Infof], [log.Critf], [log.Warningf] and [log.Debugf].  Package
    log is not part of the sources.  The specification calls it a
    process-wide leveled sink: a line is written when its level is not
    above the level the logger was opened with, and a line of level
    [log.Info] is always written.  The levels are the constants of the
    package ([Options.LogPkg]); their order is an assumption
    ([LogOrdered]), and where [log.Info] lies decides what the setting
    [DebugLevel=0] means.

    [logger] is the state of the package, [logger_run] what a sequence
    of calls leaves in it; [log_written] filters the lines a trace hands
    to the logger ([Fmt.log_of]) by the level.  The state after a run of
    [main], and after a run of the whole process with its goroutines
    ([Pool.reach]), is the filter applied to the lines of the run
    ([process_log_filtered]): the program opens the logger once, before
    anything is handed to it ([opened_once]).  Time stamps, the rotation
    of the file and the conditions under which [Open] fails are not
    modelled: whether it fails is an answer of the environment. *)

From Stdlib Require Import ZArith Lia SpecFloat.
From S2P Require Import Prelude Options Json Effects Handler Bootstrap Server Pool Fmt.

#[local] Open Scope Z_scope.

(** The levels are ordered as the specification lists them, and
    [log.Info] is none of the levels between [log.Crit] and
    [log.Trace]. *)
Class LogOrdered (L : LogPkg) : Prop := {
  log_levels_ordered :
    log_Crit < log_Err /\ log_Err < log_Warning /\ log_Warning < log_Debug /\
    log_Debug < log_Trace;
  log_info_outside : log_Info < log_Crit \/ log_Trace < log_Info;
}.

#[export] Instance sample_log_ordered : LogOrdered sample_log.
Proof. split; simpl; lia. Qed.

(** The logger of another package version: the levels count from
    [log.Info]. *)
Definition counting_log : LogPkg :=
  {| log_Console := 3; log_File := 2;
     log_Info := 0; log_Crit := 1; log_Err := 2; log_Warning := 3;
     log_Debug := 4; log_Trace := 5 |}.

#[export] Instance counting_log_ordered : LogOrdered counting_log.
Proof. split; simpl; lia. Qed.

(** The sinks of the specification. *)
Inductive sink : Type :=
| ToConsole
| ToFile (path : string).

Section Logger.
Context (format_float : spec_float -> string) {L : LogPkg}.

(** The level of the lines a log function writes. *)
Definition level_of (f : logfn) : Z :=
  match f with
  | Infof => log_Info
  | Critf => log_Crit
  | Warningf => log_Warning
  | Debugf => log_Debug
  end.

(** Whether a logger opened with [logLevel] writes the lines of [f]. *)
Definition enabled (logLevel : Z) (f : logfn) : bool :=
  (level_of f =? log_Info) || (level_of f <=? logLevel).

(** The value of [DebugLevel] from which the lines of [f] are meant to
    be written: 0=Info, 1=Crit, 3=Warning, 4=Debug. *)
Definition threshold (f : logfn) : Z :=
  match f with
  | Infof => 0
  | Critf => 1
  | Warningf => 3
  | Debugf => 4
  end.

(** The lines a logger of level [logLevel] writes, of the lines it is
    handed. *)
Definition log_written (logLevel : Z) (lines : list (logfn * string)) : list (logfn * string) :=
  filter (fun x => enabled logLevel x.1 = true) lines.

(** The state of the package: whether the logger is open, the sink and
    the level it was opened with, and the lines written so far. *)
Record logger : Type := mkLogger {
  lg_open : bool;
  lg_type : Z;
  lg_level : Z;
  lg_file : string;
  lg_lines : list (logfn * string);
}.

Definition logger_closed : logger := mkLogger false 0 0 EmptyString [].

(** One call on the package: a successful [Open] sets the sink and the
    level, a log function adds its line when the logger is open and the
    level allows it. *)
Definition logger_step (lg : logger) (l : label) : logger :=
  match l with
  | LLogOpen logType logLevel file None => mkLogger true logType logLevel file (lg_lines lg)
  | LLogf f format args =>
      match sprintf format_float format args with
      | Some line =>
          if lg_open lg && enabled (lg_level lg) f
          then mkLogger true (lg_type lg) (lg_level lg) (lg_file lg) (lg_lines lg ++ [(f, line)])
          else lg
      | None => lg
      end
  | _ => lg
  end.

(** The logger after the calls of a trace. *)
Definition logger_run (t : list label) : logger := foldl logger_step logger_closed t.

(** Where the lines go: the console, the file, or nowhere known. *)
Definition logger_sink (lg : logger) : option sink :=
  if negb (lg_open lg) then None
  else if decide (lg_type lg = log_Console) then Some ToConsole
  else if decide (lg_type lg = log_File) then Some (ToFile (lg_file lg))
  else None.

(** Whether a call changes the state of the package: a log line, or an
    [Open] that succeeds. *)
Definition touches_log (l : label) : bool :=
  match l with
  | LLogf _ _ _ | LLogOpen _ _ _ None => true
  | _ => false
  end.

(** The calls of a run on the logger: none so far, or one [Open] that
    succeeds, with the type, the level and the file of a configuration,
    nothing handed to the logger before it and no other [Open] after
    it. *)
Definition opened_once (t : list label) : Prop :=
  Forall (fun l => touches_log l = false) t \/
  exists u o r,
    t = u ++ LLogOpen (logType_of o) (logLevel_of o) (LogFile o) None :: r /\
    Forall (fun l => touches_log l = false) u /\
    Forall (fun l => label_kind l <> KLogOpen) r.

End Logger.

(** The critical lines of [main] (lines 146, 154 and 164) for an error
    [e]. *)
Definition reasons (e : string) : list string :=
  ["Cannot read active checks file: " +:+ e +:+ nl;
   "Listen failed: " +:+ e +:+ nl;
   "Accept failed: " +:+ e +:+ nl].


(** ** Lemmas *)

Section Levels.
Context (format_float : spec_float -> string) {L : LogPkg} {LO : LogOrdered L}.
Implicit Types (o : MockServerOptions) (f : logfn) (lines : list (logfn * string)).

(** For the levels 1 to 5 the logger writes the functions whose
    threshold the level reaches. *)
Lemma enabled_threshold o f :
  1 <= DebugLevel o <= 5 ->
  enabled (logLevel_of o) f = true <-> threshold f <= DebugLevel o.
Proof.
  intros Hd. unfold enabled. rewrite orb_true_iff, Z.eqb_eq, Z.leb_le. unfold logLevel_of.
  destruct LO as [(H1 & H2 & H3 & H4) H5].
  assert (DebugLevel o = 1 \/ DebugLevel o = 2 \/ DebugLevel o = 3 \/ DebugLevel o = 4 \/
          DebugLevel o = 5) as [->|[->|[->|[->| ->]]]] by lia;
    destruct f; simpl; lia.
Qed.

Lemma enabled_zero o f :
  DebugLevel o = 0 ->
  enabled (logLevel_of o) f = if decide (log_Trace < log_Info) then true else bool_decide (f = Infof).
Proof.
  intros Hd. unfold enabled, logLevel_of. rewrite Hd.
  destruct LO as [(H1 & H2 & H3 & H4) H5].
  case_decide; destruct f; simpl; rewrite ?Z.eqb_refl; try done;
    apply orb_true_iff || apply orb_false_iff; rewrite ?Z.eqb_eq, ?Z.leb_le, ?Z.eqb_neq, ?Z.leb_gt; lia.
Qed.

End Levels.

Section Theorems.
Context (format_float : spec_float -> string) {L : LogPkg} {LO : LogOrdered L} {J : JsonPkg}.
Implicit Types (o : MockServerOptions) (f : logfn) (lines : list (logfn * string))
  (t : list label) (lg : logger).

(** For the settings 1 to 5 of [DebugLevel] the logger writes the lines
    whose threshold the setting reaches, whatever the constants are. *)
Lemma written_by_level o lines :
  1 <= DebugLevel o <= 5 ->
  log_written (logLevel_of o) lines = filter (fun x => threshold x.1 <= DebugLevel o) lines.
Proof. intros Hd. apply list_filter_iff. intros [f line]. by apply enabled_threshold. Qed.

(** With [DebugLevel=0] the logger is opened with [log.Info].  What it
    then writes depends on where the package puts that constant: every
    line when [log.Info] is above [log.Trace], the lines of [log.Infof]
    only when it is below [log.Crit]. *)
Theorem debug_level_zero o lines :
  DebugLevel o = 0 ->
  log_written (logLevel_of o) lines =
    if decide (log_Trace < log_Info) then lines else filter (fun x => x.1 = Infof) lines.
Proof.
  intros Hd. unfold log_written. case_decide as Hi.
  - apply filter_all, Forall_forall. intros [f line] _.
    by rewrite enabled_zero, decide_True.
  - apply list_filter_iff. intros [f line]. rewrite enabled_zero, decide_False by done.
    apply bool_decide_eq_true.
Qed.

(** What a connection leaves in the log, by the setting of
    [DebugLevel]: all its lines from 4 on, its warnings at 3, nothing at
    1 and 2, where neither a failed read nor a refused request shows. *)
Theorem handler_log_by_level c ac tFlag t o :
  traces (handleConnection c ac tFlag) t tt -> 1 <= DebugLevel o <= 5 ->
  log_written (logLevel_of o) (log_of format_float t) =
    if decide (4 <= DebugLevel o) then log_of format_float t
    else if decide (3 <= DebugLevel o)
         then filter (fun x => x.1 = Warningf) (log_of format_float t)
         else [].
Proof.
  intros H Hd. rewrite written_by_level by done.
  apply handleConnection_paths in H.
  assert (DebugLevel o = 1 \/ DebugLevel o = 2 \/ DebugLevel o = 3 \/ DebugLevel o = 4 \/
          DebugLevel o = 5) as [->|[->|[->|[->| ->]]]] by lia; destruct H; done.
Qed.
End Theorems.

Section Runs.
Context (format_float : spec_float -> string) {L : LogPkg}.
Implicit Types (o : MockServerOptions) (f : logfn) (lines : list (logfn * string))
  (t : list label) (lg : logger) (l : label).

Lemma enabled_Infof lv : enabled lv Infof = true.
Proof. unfold enabled. simpl. by rewrite Z.eqb_refl. Qed.

Lemma written_app lv lines1 lines2 :
  log_written lv (lines1 ++ lines2) = log_written lv lines1 ++ log_written lv lines2.
Proof. apply filter_app. Qed.

Lemma log_of_app t1 t2 : log_of format_float (t1 ++ t2) = log_of format_float t1 ++ log_of format_float t2.
Proof. apply omap_app. Qed.

Lemma logger_untouched lg t :
  Forall (fun l => touches_log l = false) t ->
  foldl (logger_step format_float) lg t = lg /\ log_of format_float t = [].
Proof.
  induction 1 as [|l t Hl _ [IH1 IH2]]; [done|]. simpl.
  destruct l as [| | | | | |? ? ? []| | | | | | |]; simplify_eq/=; by rewrite ?IH1.
Qed.

(** An open logger adds the lines its level allows. *)
Lemma logger_opened a b file ls t :
  Forall (fun l => label_kind l <> KLogOpen) t ->
  foldl (logger_step format_float) (mkLogger true a b file ls) t
    = mkLogger true a b file (ls ++ log_written b (log_of format_float t)).
Proof.
  intros H. revert ls. induction H as [|l t Hl _ IH]; intros ls; simpl.
  { by rewrite app_nil_r. }
  destruct l; try done; simpl; try apply IH.
  unfold log_of. simpl. fold (log_of format_float).
  destruct (sprintf format_float format args) as [line|]; simpl; [|apply IH].
  unfold log_written. rewrite filter_cons. simpl.
  destruct (enabled b f); simpl; rewrite IH; [|done]. by rewrite <- app_assoc.
Qed.

(** The logger after a trace that opens it once, after calls that do not
    touch it. *)
Lemma logger_run_opened t1 a b file t2 :
  Forall (fun l => touches_log l = false) t1 ->
  Forall (fun l => label_kind l <> KLogOpen) t2 ->
  logger_run format_float (t1 ++ LLogOpen a b file None :: t2)
    = mkLogger true a b file (log_written b (log_of format_float (t1 ++ LLogOpen a b file None :: t2))).
Proof.
  intros [H1 H1']%(logger_untouched logger_closed) H2. unfold logger_run.
  rewrite foldl_app, H1, log_of_app, H1'. simpl. by rewrite logger_opened.
Qed.

(** The logger after calls that open it at most once. *)
Lemma logger_opened_once t :
  opened_once t ->
  (logger_run format_float t = logger_closed /\ log_of format_float t = []) \/
  (exists o, LLogOpen (logType_of o) (logLevel_of o) (LogFile o) None ∈ t /\
     logger_run format_float t =
       mkLogger true (logType_of o) (logLevel_of o) (LogFile o)
         (log_written (logLevel_of o) (log_of format_float t))).
Proof.
  intros [Hq|(u & o & r & -> & Hu & Hno)]; [left; by apply logger_untouched|right].
  exists o. split; [|by apply logger_run_opened]. apply elem_of_app. right. by left.
Qed.

End Runs.

Section MainLog.
Context (format_float : spec_float -> string) {L : LogPkg}.
Implicit Types (o : MockServerOptions) (t : list label).

Lemma loaded_untouched vals o1 o2 :
  Forall (fun l => touches_log l = false) (loaded vals o1 o2).
Proof. by repeat constructor. Qed.

Lemma prints_no_open fg o : Forall (fun l => label_kind l <> KLogOpen) (prints fg o).
Proof. apply Forall_forall. by intros l ->%prints_println. Qed.

Lemma dispatched_no_open ac o conns :
  Forall (fun l => label_kind l <> KLogOpen) (dispatched ac o conns).
Proof. apply Forall_forall. by intros l (c & _ & [-> | ->])%elem_of_dispatched. Qed.

Lemma greeted_app vals o rest : greeted vals o rest = greeted vals o [] ++ rest.
Proof. unfold greeted. by rewrite !app_comm_cons, <- app_assoc. Qed.

Lemma greeted_no_open vals o rest :
  Forall (fun l => label_kind l <> KLogOpen) rest ->
  Forall (fun l => label_kind l <> KLogOpen)
    (LLogf Infof greeting [] :: prints (foregroundFlag_of vals) o
       ++ LLogf Infof "using configuration file: %s" [AString (confFlag_of vals)] :: rest).
Proof.
  intros H. apply Forall_cons. split; [done|]. apply Forall_app. split; [apply prints_no_open|].
  by apply Forall_cons.
Qed.

(** The logger after a start-up. *)
Lemma started_logger t r :
  started t r ->
  (Forall (fun l => touches_log l = false) t) \/
  (exists vals o1 o2 rest, t = loaded vals o1 o2 ++ greeted vals o2 rest /\
     Forall (fun l => label_kind l <> KLogOpen) rest).
Proof.
  destruct 1;
    first [ left; unfold loaded; by repeat constructor
          | right; eexists _, _, _, _; split; [done|]; by repeat constructor ].
Qed.

Lemma started_serving_logger t srv :
  started t (inr srv) ->
  exists vals o1 o2 rest, t = loaded vals o1 o2 ++ greeted vals o2 rest /\
     Forall (fun l => label_kind l <> KLogOpen) rest.
Proof. inversion 1; subst. eexists _, _, _, _. split; [done|]. by repeat constructor. Qed.

(** A run of [main] does not touch the logger, or opens it once, after
    the configuration is loaded. *)
Lemma main_opens_once fuel t r :
  traces (main fuel) t r ->
  Forall (fun l => touches_log l = false) t \/
  exists vals o1 o2 rest, t = loaded vals o1 o2 ++ greeted vals o2 rest /\
    Forall (fun l => label_kind l <> KLogOpen) rest.
Proof.
  intros H%main_paths.
  destruct H as [t out Hs|t srv t' Hs Hl|t srv t' out Hs Hl].
  - by apply started_logger in Hs.
  - apply started_serving_logger in Hs as (vals & o1 & o2 & rest & -> & Hr).
    right. exists vals, o1, o2, (rest ++ t'). split.
    + unfold greeted. by rewrite <- !app_assoc, <- !app_comm_cons, <- app_assoc.
    + apply Forall_app. split; [done|]. destruct Hl; [apply dispatched_no_open|].
      apply Forall_app. split; [apply dispatched_no_open|by repeat constructor].
  - apply started_serving_logger in Hs as (vals & o1 & o2 & rest & -> & Hr).
    right. exists vals, o1, o2, (rest ++ t' ++ [LListenerClose]). split.
    + unfold greeted. by rewrite <- !app_assoc, <- !app_comm_cons, <- app_assoc.
    + apply Forall_app. split; [done|]. apply Forall_app. split; [|by repeat constructor].
      inversion Hl; subst. apply Forall_app.
      split; [apply dispatched_no_open|by repeat constructor].
Qed.

Lemma main_opened_once fuel t r : traces (main fuel) t r -> opened_once t.
Proof.
  intros [Hq|(vals & o1 & o2 & rest & -> & Hr)]%main_opens_once; [by left|right].
  eexists _, o2, _. split_and!; [done|apply loaded_untouched|by apply greeted_no_open].
Qed.

(** The logger after a run of [main]: it was never touched, or it was
    opened once, with the sink and the level of the loaded configuration,
    and holds the lines its level allows, in their order. *)
Lemma main_logger fuel t r :
  traces (main fuel) t r ->
  (logger_run format_float t = logger_closed /\ log_of format_float t = []) \/
  (exists o, LLogOpen (logType_of o) (logLevel_of o) (LogFile o) None ∈ t /\
     logger_run format_float t =
       mkLogger true (logType_of o) (logLevel_of o) (LogFile o)
         (log_written (logLevel_of o) (log_of format_float t))).
Proof. intros H. eapply logger_opened_once, main_opened_once, H. Qed.

(** The logger refines the filter: after any run of [main] the lines
    it holds are the lines the run handed to it that its level allows, in
    their order; and when it is open, it was opened by the one [Open] of
    the run, with the sink, the level and the file of the loaded
    configuration. *)
Theorem logger_implements_written fuel t r :
  traces (main fuel) t r ->
  lg_lines (logger_run format_float t)
    = log_written (lg_level (logger_run format_float t)) (log_of format_float t) /\
  (lg_open (logger_run format_float t) = true ->
     exists o, LLogOpen (logType_of o) (logLevel_of o) (LogFile o) None ∈ t /\
       lg_type (logger_run format_float t) = logType_of o /\
       lg_level (logger_run format_float t) = logLevel_of o /\
       lg_file (logger_run format_float t) = LogFile o).
Proof.
  intros [[-> ->]|(o & Hin & ->)]%main_logger; simpl; [done|]. split; [done|]. intros _.
  by exists o.
Qed.

End MainLog.

Section Returned.
Context (format_float : spec_float -> string) {L : LogPkg} {LO : LogOrdered L}.
Implicit Types (o : MockServerOptions) (t : list label).

(** A run of [main] that returned: the logger was opened, and the last
    line handed to it is a critical line, one of [reasons]. *)
Lemma main_returned_shape fuel t :
  traces (main fuel) t (Some Return) ->
  exists vals o1 o2 rest line,
    t = loaded vals o1 o2 ++ greeted vals o2 rest /\
    Forall (fun l => label_kind l <> KLogOpen) rest /\
    last (log_of format_float rest) = Some (Critf, line) /\
    exists e, line ∈ reasons e.
Proof.
  intros H%main_paths. inversion H as [t0 out Hs|t0 srv t' Hs Hl|t0 srv t' out Hs Hl]; subst.
  - inversion Hs; subst; eexists _, _, _, _, _;
      (split; [done|split; [by repeat constructor|split; [done|]]]);
      exists e; unfold reasons; elem_of_intro.
  - apply started_serving_logger in Hs as (vals & o1 & o2 & rest & -> & Hr).
    inversion Hl as [|? conns e]; subst.
    exists vals, o1, o2, (rest ++ (dispatched (srv_activeChecks srv) (srv_options srv) conns
      ++ accept_failed e) ++ [LListenerClose]). eexists. split_and!.
    + unfold greeted. by rewrite <- !app_assoc, <- !app_comm_cons, <- !app_assoc.
    + repeat (apply Forall_app; split); try done; [apply dispatched_no_open|by repeat constructor..].
    + rewrite !log_of_app. simpl. by rewrite !last_app.
    + exists e. unfold reasons. elem_of_intro.
Qed.

(** C27: When [main] returns, the last line handed to the logger is the
    critical line that says why: that the active-checks file could not be
    read, that Listen failed or that Accept failed, with the error.  It
    is written exactly when the level allows [log.Critf]: for every
    setting 1 to 5 of [DebugLevel], and not for 0 when [log.Info] is
    below [log.Crit]. *)
Theorem return_reason_logged fuel t :
  traces (main fuel) t (Some Return) ->
  exists o line,
    lg_level (logger_run format_float t) = logLevel_of o /\
    last (log_of format_float t) = Some (Critf, line) /\
    ((Critf, line) ∈ lg_lines (logger_run format_float t)
       <-> enabled (logLevel_of o) Critf = true) /\
    (1 <= DebugLevel o <= 5 -> (Critf, line) ∈ lg_lines (logger_run format_float t)) /\
    (DebugLevel o = 0 -> log_Info < log_Crit ->
       (Critf, line) ∉ lg_lines (logger_run format_float t)) /\
    exists e, line ∈ reasons e.
Proof.
  intros H.
  destruct (main_returned_shape _ _ H) as (vals & o1 & o2 & rest & line & -> & Hr & Hl & He).
  exists o2, line. unfold greeted.
  rewrite logger_run_opened; [|apply loaded_untouched|by apply greeted_no_open]. cbn [lg_level lg_lines].
  fold (greeted vals o2 rest).
  assert (Hlast : last (log_of format_float (loaded vals o1 o2 ++ greeted vals o2 rest))
                  = Some (Critf, line)).
  { by rewrite (greeted_app _ _ rest), !log_of_app, !last_app, Hl. }
  assert (Hin : (Critf, line) ∈ log_of format_float (loaded vals o1 o2 ++ greeted vals o2 rest)).
  { apply last_Some in Hlast as [ls ->]. apply elem_of_app. right. by left. }
  assert (Hiff : (Critf, line) ∈ log_written (logLevel_of o2)
                   (log_of format_float (loaded vals o1 o2 ++ greeted vals o2 rest))
                 <-> enabled (logLevel_of o2) Critf = true).
  { unfold log_written. rewrite list_elem_of_filter. simpl. tauto. }
  split_and!; [done..| | |done].
  - intros Hd. apply Hiff, enabled_threshold; [done|simpl; lia].
  - intros Hd Hi. rewrite Hiff, enabled_zero by done.
    rewrite decide_False by (destruct LO as [(?&?&?&?) ?]; lia). done.
Qed.
End Returned.

(** ** The logger of the process *)

Section Process.
Context (format_float : spec_float -> string) {L : LogPkg} {J : JsonPkg}.
Implicit Types (o : MockServerOptions) (t u r : list label) (g : list gevent) (s : system).

(** The calls before the accept loop start no goroutine. *)
Lemma spawned_none t : Forall (fun l => label_kind l <> KGo) t -> spawned t = [].
Proof. induction 1 as [|l t Hl _ IH]; [done|]. by destruct l. Qed.

Lemma started_spawned t (r : outcome + serving) : started t r -> spawned t = [].
Proof.
  intros Hs. apply spawned_none, Forall_forall. intros l Hl%(started_kinds _ _ _ Hs) E.
  rewrite E in Hl. unfold startup_kinds in Hl. elem_of_inv.
Qed.

(** What main has done so far: it has not touched the logger and has
    started no goroutine, or it has opened the logger, once, with the
    configuration it loaded. *)
Lemma main_prefix_log fuel t q :
  psteps (main fuel) t q ->
  (Forall (fun l => touches_log l = false) t /\ spawned t = []) \/
  exists vals o1 o2 r,
    t = loaded vals o1 o2 ++ LLogOpen (logType_of o2) (logLevel_of o2) (LogFile o2) None :: r /\
    Forall (fun l => label_kind l <> KLogOpen) r.
Proof.
  intros (t' & res & Ht)%psteps_prefix.
  assert (spawned (t ++ t') = [] /\ Forall (fun l => touches_log l = false) (t ++ t') \/
    exists vals o1 o2 rest, t ++ t' = loaded vals o1 o2 ++ greeted vals o2 rest /\
      Forall (fun l => label_kind l <> KLogOpen) rest) as [[Hsp Hq]|(vals & o1 & o2 & rest & E & Hr)].
  { pose proof Ht as Hm%main_paths. destruct (main_opens_once _ _ _ Ht) as [Hq|?]; [|by right].
    destruct Hm as [t0 out Hs|t0 srv t1 Hs Hl|t0 srv t1 out Hs Hl].
    - left. split; [by eapply started_spawned|done].
    - right. by apply started_serving_logger in Hs as (vals & o1 & o2 & rest & -> & Hr);
        apply Forall_app in Hq as [Hq _]; apply Forall_app in Hq as [_ Hq]; inversion Hq.
    - right. by apply started_serving_logger in Hs as (vals & o1 & o2 & rest & -> & Hr);
        apply Forall_app in Hq as [Hq _]; apply Forall_app in Hq as [_ Hq]; inversion Hq. }
  - left. rewrite spawned_app in Hsp. apply app_eq_nil in Hsp as [-> _].
    by apply Forall_app in Hq as [Hq _].
  - unfold greeted in E. pose proof (greeted_no_open vals o2 rest Hr) as Hno.
    apply app_eq_inv in E as [(k & -> & Hk)|(k & Hk & _)].
    + destruct k as [|x k]; [left|right].
      * rewrite app_nil_r. split; [apply loaded_untouched|done].
      * injection Hk as <- Hk. exists vals, o1, o2, k. split; [done|].
        rewrite Hk in Hno. by apply Forall_app in Hno as [Hno _].
    + left. pose proof (loaded_untouched vals o1 o2) as Hu. rewrite Hk in Hu.
      apply Forall_app in Hu as [Hu _]. split; [done|].
      assert (spawned (loaded vals o1 o2) = []) as Hs by done.
      rewrite Hk, spawned_app in Hs. by apply app_eq_nil in Hs as [-> _].
Qed.

(** A call of a goroutine is a call of a handler that main started. *)
Lemma reach_goroutine_call fuel g s i l :
  reach (init fuel) g s -> (Some i, l) ∈ g ->
  is_Some (spawned (thread_trace None g) !! i) /\ label_kind l <> KLogOpen /\
  (touches_log l = true -> label_kind l = KLogf).
Proof.
  intros Hr Hin. destruct (reach_started _ _ _ _ _ Hr Hin) as [p Hp].
  destruct (reach_goroutine _ _ _ _ _ Hr eq_refl Hp) as (c & ac & d & Hsp & _).
  destruct (reach_handled _ _ _ _ _ _ _ Hr Hsp) as [t' Ht].
  apply elem_of_thread_trace in Hin. split; [by eexists|].
  assert (l ∈ thread_trace (Some i) g ++ t') as Hl by (apply elem_of_app; by left).
  destruct Ht; unfold got, warning in Hl; elem_of_inv; done.
Qed.

(** The calls of main are among the calls of the process. *)
Lemma thread_trace_subseteq i g : thread_trace i g ⊆ g.*2.
Proof.
  intros l Hl%elem_of_thread_trace. apply list_elem_of_fmap. by exists (i, l).
Qed.

(** A call of main after calls that did not touch the logger. *)
Lemma opened_once_first fuel g s l s' :
  reach (init fuel) g s -> step s (None, l) s' ->
  Forall (fun l => touches_log l = false) g.*2 -> opened_once (g.*2 ++ [l]).
Proof.
  intros Hr Hs Hq. assert (reach (init fuel) (g ++ [(None, l)]) s') as Hr' by by econstructor.
  apply reach_main, main_prefix_log in Hr'. rewrite thread_trace_snoc in Hr'.
  destruct Hr' as [[Hu _]|(vals & o1 & o2 & r & E & Hno)].
  - left. apply Forall_app. split; [done|]. by apply Forall_app in Hu as [_ Hu].
  - apply snoc_eq_middle in E as [(-> & _ & ->)|(r' & -> & E)].
    + right. by exists g.*2, o2, [].
    + assert (LLogOpen (logType_of o2) (logLevel_of o2) (LogFile o2) None ∈ g.*2) as Hin.
      { apply thread_trace_subseteq with None. rewrite E. set_solver. }
      by apply (proj1 (Forall_forall _ _) Hq) in Hin.
Qed.

(** A call of main after the logger was opened. *)
Lemma opened_once_main fuel g s l s' o :
  reach (init fuel) g s -> step s (None, l) s' ->
  LLogOpen (logType_of o) (logLevel_of o) (LogFile o) None ∈ thread_trace None g ->
  label_kind l <> KLogOpen.
Proof.
  intros Hr Hs Hin. assert (reach (init fuel) (g ++ [(None, l)]) s') as Hr' by by econstructor.
  apply reach_main, main_prefix_log in Hr'. rewrite thread_trace_snoc in Hr'.
  destruct Hr' as [[Hu _]|(vals & o1 & o2 & r & E & Hno)].
  - apply Forall_app in Hu as [Hu _]. by apply (proj1 (Forall_forall _ _) Hu) in Hin.
  - apply snoc_eq_middle in E as [(-> & E & ->)|(r' & -> & E)].
    + rewrite E in Hin. unfold loaded in Hin. elem_of_inv.
    + apply Forall_app in Hno as [_ Hno]. by inversion Hno.
Qed.


(** No goroutine is started before the logger is open. *)
Lemma spawned_after_open fuel g s i :
  reach (init fuel) g s -> is_Some (spawned (thread_trace None g) !! i) ->
  ~ Forall (fun l => touches_log l = false) g.*2.
Proof.
  intros Hr [x Hx] Hq. destruct (main_prefix_log _ _ _ (reach_main _ _ _ Hr))
    as [[_ Hsp]|(vals & o1 & o2 & r & E & _)].
  - by rewrite Hsp in Hx.
  - assert (LLogOpen (logType_of o2) (logLevel_of o2) (LogFile o2) None ∈ g.*2) as Hin.
    { apply thread_trace_subseteq with None. rewrite E. set_solver. }
    by apply (proj1 (Forall_forall _ _) Hq) in Hin.
Qed.

(** The logger is opened by main. *)
Lemma reach_open_by_main fuel g s a b f res :
  reach (init fuel) g s -> LLogOpen a b f res ∈ g.*2 ->
  LLogOpen a b f res ∈ thread_trace None g.
Proof.
  intros Hr ([[i|] l] & E & Hin)%list_elem_of_fmap; simpl in E; subst l;
    [|by apply elem_of_thread_trace].
  by destruct (reach_goroutine_call _ _ _ _ _ Hr Hin) as (_ & Hk & _).
Qed.

(** In every run of the process the logger is opened at most once,
    before any line is handed to it. *)
Lemma reach_opened_once fuel g s : reach (init fuel) g s -> opened_once g.*2.
Proof.
  induction 1 as [|g s [th l] s' Hr IH Hs]; [by left|].
  assert (reach (init fuel) (g ++ [(th, l)]) s') as Hr' by by econstructor.
  rewrite fmap_app. change ([(th, l)].*2) with [l].
  destruct IH as [Hq|(u & o & r & E & Hu & Hno)].
  - destruct th as [i|]; [|by eapply opened_once_first].
    destruct (reach_goroutine_call _ _ _ i l Hr') as (Hsp & _); [apply elem_of_app; right; by left|].
    rewrite thread_trace_snoc_ne in Hsp by done. by destruct (spawned_after_open _ _ _ _ Hr Hsp).
  - right. exists u, o, (r ++ [l]). split_and!; [by rewrite E, <- app_assoc|done|].
    apply Forall_app. split; [done|]. apply Forall_singleton. destruct th as [i|].
    + destruct (reach_goroutine_call _ _ _ i l Hr') as (_ & Hk & _); [|done].
      apply elem_of_app. right. by left.
    + apply (opened_once_main fuel g s l s' o Hr Hs). eapply reach_open_by_main; [done|].
      rewrite E. apply elem_of_app. right. by left.
Qed.

(** C17: The logger of the process refines the level filter.  In every
    run of the server, whatever the scheduler does, the lines the logger
    holds are the lines that main and the goroutines handed to it, in
    the order of the run, that its level allows; and when a goroutine
    has made a call the logger is open: main opened it, once, with the
    type, the level and the file of the configuration, before it started
    the first handler. *)
Theorem process_log_filtered fuel g s :
  reach (init fuel) g s ->
  lg_lines (logger_run format_float g.*2)
    = log_written (lg_level (logger_run format_float g.*2)) (log_of format_float g.*2) /\
  (forall i l, (Some i, l) ∈ g ->
     exists o, LLogOpen (logType_of o) (logLevel_of o) (LogFile o) None ∈ thread_trace None g /\
       logger_run format_float g.*2 =
         mkLogger true (logType_of o) (logLevel_of o) (LogFile o)
           (log_written (logLevel_of o) (log_of format_float g.*2))).
Proof.
  intros Hr. pose proof (reach_opened_once _ _ _ Hr) as Ho. split.
  - by destruct (logger_opened_once format_float _ Ho) as [[-> ->]|(o & _ & ->)].
  - intros i l Hin. destruct (reach_goroutine_call _ _ _ _ _ Hr Hin) as (Hsp & _).
    destruct Ho as [Hq|(u & o & r & E & Hu & Hno)];
      [by destruct (spawned_after_open _ _ _ _ Hr Hsp)|].
    exists o. split; [|rewrite E; by apply logger_run_opened].
    eapply reach_open_by_main; [done|]. rewrite E. apply elem_of_app. right. by left.
Qed.

End Process.

(** ** Witnesses and examples *)

Definition level_options (d : Z) : MockServerOptions :=
  mkOptions "console" EmptyString d 10051 5 "active_checks.json".

Definition sample_lines : list (logfn * string) :=
  [(Infof, "started"); (Debugf, "got '{}'"); (Warningf, "Unsupported request");
   (Critf, "Accept failed")]%string.

(** The sample host with [DebugLevel] set to [d]. *)
Definition level_host (d : Z) : host :=
  {| host_args := Parsed [];
     host_conf path cur := Ok (level_options d);
     host_log := None;
     host_file path := Ok (bytes_of_string "AC1");
     host_listen := None |}.

Lemma debug_level_zero_witness :
  log_written (L:=sample_log) (logLevel_of (L:=sample_log) (level_options 0)) sample_lines = sample_lines.
Proof. exact (debug_level_zero (L:=sample_log) (level_options 0) sample_lines eq_refl). Defined.

Lemma handler_log_by_level_witness :
  log_written (L:=sample_log) (logLevel_of (L:=sample_log) (level_options 3))
      (log_of no_float (scenario (Ok ping_request) None))
    = filter (fun x => x.1 = Warningf) (log_of no_float (scenario (Ok ping_request) None)).
Proof.
  apply (handler_log_by_level no_float (L:=sample_log) (J:=sample_json) sample_conn canned 5 _
           (level_options 3) (scenario_traces _ _)). simpl. lia.
Defined.

Lemma logger_implements_written_witness :
  lg_lines (logger_run no_float (L:=sample_log) (sample_main 5 sample_queue).1)
    = log_written (L:=sample_log)
        (lg_level (logger_run no_float (L:=sample_log) (sample_main 5 sample_queue).1))
        (log_of no_float (sample_main 5 sample_queue).1).
Proof.
  apply (logger_implements_written no_float (L:=sample_log) 5 _ _
           (sample_main_traces 5 sample_queue)).
Defined.

Lemma process_log_filtered_witness :
  lg_lines (logger_run no_float (L:=sample_log) (sample_run 25).1.*2)
    = log_written (L:=sample_log)
        (lg_level (logger_run no_float (L:=sample_log) (sample_run 25).1.*2))
        (log_of no_float (sample_run 25).1.*2).
Proof.
  apply (process_log_filtered no_float (L:=sample_log) (J:=sample_json) 5 _ _
           (sample_run_reach 25)).
Defined.

Lemma return_reason_logged_witness :
  (Critf, "Accept failed: too many open files" +:+ nl)
    ∈ lg_lines (logger_run no_float (L:=sample_log) (sample_main 5 sample_queue).1).
Proof.
  destruct (return_reason_logged no_float (L:=sample_log) 5 (sample_main 5 sample_queue).1
              (sample_main_traces 5 sample_queue)) as (o & line & Hlv & Hlast & _ & Hin & _ & _).
  vm_compute in Hlast. injection Hlast as <-. apply Hin.
  vm_compute in Hlv. destruct o as [? ? d ? ? ?]. unfold logLevel_of in Hlv. simpl in *.
  destruct d as [|[[|[]|]|[|[]|]|]|]; simpl in Hlv; try discriminate; lia.
Defined.

(** The four kinds of line under each setting of [DebugLevel], for a
    package with [log.Info] above the other levels and for one with it
    below. *)
Example written_sample :
  (fun d => length (log_written (L:=sample_log) (logLevel_of (L:=sample_log) (level_options d)) sample_lines))
    <$> [0; 1; 2; 3; 4; 5; 6] = [4; 2; 2; 3; 4; 4; 1]%nat /\
  (fun d => length (log_written (L:=counting_log) (logLevel_of (L:=counting_log) (level_options d)) sample_lines))
    <$> [0; 1; 2; 3; 4; 5; 6] = [1; 2; 2; 3; 4; 4; 1]%nat.
Proof. by vm_compute. Qed.

(** The log of the server, two connections and a failed Accept, at the
    levels 4 and 0 of a package with [log.Info] below [log.Crit]: at 0
    the line that says why the server stopped is not written. *)
Example logger_run_sample :
  logger_sink (L:=counting_log) (logger_run no_float (L:=counting_log)
                 (main_run (L:=counting_log) 5 (level_host 4) sample_queue).1)
    = Some ToConsole /\
  lg_lines (logger_run no_float (L:=counting_log)
                (main_run (L:=counting_log) 5 (level_host 4) sample_queue).1)
    = [(Infof, greeting);
       (Infof, "using configuration file: mock_server.conf"%string);
       (Critf, "Accept failed: too many open files" +:+ nl)] /\
  lg_lines (logger_run no_float (L:=counting_log)
                (main_run (L:=counting_log) 5 (level_host 0) sample_queue).1)
    = [(Infof, greeting);
       (Infof, "using configuration file: mock_server.conf"%string)].
Proof. by vm_compute. Qed.
