(* ===== verification/JsonText.v ===== *)
(** * JsonText: the grammar of JSON

    [handleConnection] hands the payload of the request to
    [json.Unmarshal] (line 58), which first checks that the text is JSON.
    Package encoding/json is not part of the sources; this file models
    the grammar it reads: blanks, the three literals, numbers, strings
    with their escapes, arrays and objects, read by a recursive-descent
    parser into a syntax tree ([json]).  [Decode] turns the tree into
    the values of an [interface{}].

    The parser runs on fuel, one unit for every value and for every
    element of an array or member of an object; [parse] gives it more
    than twice the number of bytes of the text, which is always enough
    ([parse_value_fuel]).  [print] writes a tree as a text without
    blanks, and reading what was printed gives the tree back
    ([parse_print]).

    A string of the tree is the sequence of bytes of the Go string:
    [\uXXXX] escapes are written in UTF-8, surrogate pairs are combined
    and a surrogate that stands alone becomes U+FFFD.  Bytes of the text
    that are not ASCII are copied as they are. *)

From Stdlib Require Import ZArith Lia.
From Stdlib.Strings Require Import Byte.
From S2P Require Import Prelude.

#[local] Open Scope Z_scope.

(** ** Syntax trees *)

(** A number as it is written: sign, digits of the integer part, digits
    of the fraction (none when there is no fraction), and the exponent
    with its sign. *)
Record number : Type := mkNumber {
  num_neg : bool;
  num_int : bytes;
  num_frac : bytes;
  num_exp : option (bool * bytes);
}.

#[export] Instance number_eq_dec : EqDecision number.
Proof. solve_decision. Defined.

(** A JSON text.  The members of an object are kept in the order of the
    text, with their duplicates. *)
#[warnings="-register-all"]
Inductive json : Type :=
| JNull
| JBool (b : bool)
| JNumber (n : number)
| JString (s : string)
| JArray (l : list json)
| JObject (l : list (string * json)).

(** What reading a value off a text gives: the value and what follows
    it, or the reason the text is not JSON, or nothing for want of
    fuel. *)
Inductive scanned (A : Type) : Type :=
| Done (a : A) (rest : bytes)
| Bad (e : error)
| More.

Arguments Done {A} a rest.
Arguments Bad {A} e.
Arguments More {A}.

(** ** Bytes *)

Definition is_space (b : byte) : bool :=
  Byte.eqb b x20 || Byte.eqb b x09 || Byte.eqb b x0a || Byte.eqb b x0d.

Fixpoint skip_space (s : bytes) : bytes :=
  match s with
  | b :: s' => if is_space b then skip_space s' else s
  | [] => []
  end.

Definition is_digit (b : byte) : bool :=
  (48 <=? Z_of_byte b) && (Z_of_byte b <=? 57).

Definition hex_digit (b : byte) : option Z :=
  let z := Z_of_byte b in
  if (48 <=? z) && (z <=? 57) then Some (z - 48)
  else if (97 <=? z) && (z <=? 102) then Some (z - 87)
  else if (65 <=? z) && (z <=? 70) then Some (z - 55)
  else None.

Definition hex4 (a b c d : byte) : option Z :=
  x ← hex_digit a; y ← hex_digit b; z ← hex_digit c; w ← hex_digit d;
  Some (((x * 16 + y) * 16 + z) * 16 + w).

(** The hexadecimal digit of a value below 16, in lower case. *)
Definition hex_byte (z : Z) : byte :=
  if z <? 10 then byte_of_Z (48 + z) else byte_of_Z (87 + z).

(** [p] taken off the front of [s]. *)
Fixpoint strip_prefix (p s : bytes) : option bytes :=
  match p, s with
  | [], _ => Some s
  | a :: p', b :: s' => if Byte.eqb a b then strip_prefix p' s' else None
  | _ :: _, [] => None
  end.

(** ** Strings *)

(** A code point in UTF-8 ([utf8.EncodeRune]). *)
Definition utf8_encode (c : Z) : bytes :=
  if c <? 128 then [byte_of_Z c]
  else if c <? 2048 then [byte_of_Z (192 + c / 64); byte_of_Z (128 + c mod 64)]
  else if c <? 65536 then
    [byte_of_Z (224 + c / 4096); byte_of_Z (128 + c / 64 mod 64); byte_of_Z (128 + c mod 64)]
  else
    [byte_of_Z (240 + c / 262144); byte_of_Z (128 + c / 4096 mod 64);
     byte_of_Z (128 + c / 64 mod 64); byte_of_Z (128 + c mod 64)].

(** U+FFFD, which stands for what is not a character. *)
Definition replacement : Z := 65533.

Definition high_surrogate (u : Z) : bool := (55296 <=? u) && (u <? 56320).
Definition low_surrogate (u : Z) : bool := (56320 <=? u) && (u <? 57344).

(** The code point of a surrogate pair ([utf16.DecodeRune]). *)
Definition surrogate_pair (u v : Z) : Z := 65536 + (u - 55296) * 1024 + (v - 56320).

(** The character a backslash and [b] stand for. *)
Definition unescape (b : byte) : option byte :=
  if Byte.eqb b x22 then Some x22
  else if Byte.eqb b "\" then Some "\"%byte
  else if Byte.eqb b "/" then Some "/"%byte
  else if Byte.eqb b "b" then Some x08
  else if Byte.eqb b "f" then Some x0c
  else if Byte.eqb b "n" then Some x0a
  else if Byte.eqb b "r" then Some x0d
  else if Byte.eqb b "t" then Some x09
  else None.

Definition eof : error := "unexpected end of JSON input".

(** [p] before the string that [r] read. *)
Definition prepend (p : bytes) (r : result (bytes * bytes)) : result (bytes * bytes) :=
  (fun sr => (p ++ sr.1, sr.2)) <$> r.

(** The string that ends at the first quote of [s] that is not escaped,
    with its escapes replaced, and what follows the quote. *)
Fixpoint unquote (s : bytes) : result (bytes * bytes) :=
  match s with
  | [] => Fail eof
  | b :: s1 =>
      if Byte.eqb b x22 then Ok ([], s1)
      else if Byte.eqb b "\" then
        match s1 with
        | [] => Fail eof
        | e :: s2 =>
            if Byte.eqb e "u" then
              match s2 with
              | h1 :: h2 :: h3 :: h4 :: s3 =>
                  match hex4 h1 h2 h3 h4 with
                  | None => Fail "invalid character in \u hexadecimal character escape"
                  | Some u =>
                      if high_surrogate u then
                        match s3 with
                        | b1 :: b2 :: l1 :: l2 :: l3 :: l4 :: s4 =>
                            match (if Byte.eqb b1 "\" && Byte.eqb b2 "u"
                                   then hex4 l1 l2 l3 l4 else None) with
                            | Some v =>
                                if low_surrogate v
                                then prepend (utf8_encode (surrogate_pair u v)) (unquote s4)
                                else prepend (utf8_encode replacement) (unquote s3)
                            | None => prepend (utf8_encode replacement) (unquote s3)
                            end
                        | _ => prepend (utf8_encode replacement) (unquote s3)
                        end
                      else
                        prepend (utf8_encode (if low_surrogate u then replacement else u))
                          (unquote s3)
                  end
              | _ => Fail eof
              end
            else
              match unescape e with
              | Some c => prepend [c] (unquote s2)
              | None => Fail "invalid character in string escape code"
              end
        end
      else if Z_of_byte b <? 32 then Fail "invalid character in string literal"
      else prepend [b] (unquote s1)
  end.

(** A byte as it is written inside a string: the quote and the backslash
    after a backslash, a control character as [\u00XX], any other byte
    as it is. *)
Definition escape (b : byte) : bytes :=
  if Byte.eqb b x22 || Byte.eqb b "\" then ["\"%byte; b]
  else if Z_of_byte b <? 32 then
    ["\"%byte; "u"%byte; "0"%byte; "0"%byte;
     hex_byte (Z_of_byte b / 16); hex_byte (Z_of_byte b mod 16)]
  else [b].

(** A string between quotes. *)
Definition quote (s : bytes) : bytes := x22 :: (s ≫= escape) ++ [x22].

(** ** Numbers *)

(** The digits at the front of [s], and the rest. *)
Fixpoint digits (s : bytes) : bytes * bytes :=
  match s with
  | b :: s' => if is_digit b then let r := digits s' in (b :: r.1, r.2) else ([], s)
  | [] => ([], [])
  end.

(** The integer part: one zero, or digits that do not start with zero. *)
Definition scan_int (s : bytes) : option (bytes * bytes) :=
  match s with
  | b :: s' =>
      if Byte.eqb b "0" then Some ([b], s')
      else if is_digit b then Some (b :: (digits s').1, (digits s').2)
      else None
  | [] => None
  end.

(** The fraction: nothing, or a point and at least one digit. *)
Definition scan_frac (s : bytes) : option (bytes * bytes) :=
  match s with
  | b :: s' =>
      if Byte.eqb b "." then
        match digits s' with
        | ([], _) => None
        | r => Some r
        end
      else Some ([], s)
  | [] => Some ([], [])
  end.

(** A sign at the front of [s]: a minus, and a plus when [plus] says
    so. *)
Definition take_sign (plus : bool) (s : bytes) : bool * bytes :=
  match s with
  | b :: s' =>
      if Byte.eqb b "-" then (true, s')
      else if plus && Byte.eqb b "+" then (false, s')
      else (false, s)
  | [] => (false, [])
  end.

(** The exponent: nothing, or [e] or [E], an optional sign and at least
    one digit. *)
Definition scan_exp (s : bytes) : option (option (bool * bytes) * bytes) :=
  match s with
  | b :: s' =>
      if Byte.eqb b "e" || Byte.eqb b "E" then
        match digits (take_sign true s').2 with
        | ([], _) => None
        | (ds, rest) => Some (Some ((take_sign true s').1, ds), rest)
        end
      else Some (None, s)
  | [] => Some (None, [])
  end.

(** A number at the front of [s]. *)
Definition scan_number (s : bytes) : option (number * bytes) :=
  i ← scan_int (take_sign false s).2;
  f ← scan_frac i.2;
  e ← scan_exp f.2;
  Some (mkNumber (take_sign false s).1 i.1 f.1 e.1, e.2).

(** A number as a text. *)
Definition print_sign (neg : bool) : bytes := if neg then ["-"%byte] else [].

Definition print_frac (f : bytes) : bytes := if f is [] then [] else "."%byte :: f.

Definition print_exp (e : option (bool * bytes)) : bytes :=
  match e with
  | Some (neg, ds) => "e"%byte :: print_sign neg ++ ds
  | None => []
  end.

Definition print_number (n : number) : bytes :=
  print_sign (num_neg n) ++ num_int n ++ print_frac (num_frac n) ++ print_exp (num_exp n).

(** The numbers the grammar has. *)
Definition all_digits (ds : bytes) : bool := forallb is_digit ds.

Definition int_wf (i : bytes) : bool :=
  match i with
  | [] => false
  | b :: ds => all_digits (b :: ds) && (negb (Byte.eqb b "0") || bool_decide (ds = []))
  end.

Definition exp_wf (e : option (bool * bytes)) : bool :=
  match e with
  | Some (_, ds) => all_digits ds && negb (bool_decide (ds = []))
  | None => true
  end.

Definition number_wf (n : number) : bool :=
  int_wf (num_int n) && all_digits (num_frac n) && exp_wf (num_exp n).

(** [s] does not start with a byte that [p] holds of. *)
Definition no_head (p : byte -> bool) (s : bytes) : bool :=
  match s with
  | [] => true
  | b :: _ => negb (p b)
  end.

(** What may follow a number: no byte that would make it longer. *)
Definition ends_number (rest : bytes) : bool :=
  no_head (fun b => is_digit b || Byte.eqb b "." || Byte.eqb b "e" || Byte.eqb b "E") rest.

(** ** Values *)

(** A value at the front of [s], after blanks.  [parse_items] reads the
    elements of an array after its first bracket or a comma,
    [parse_pairs] the members of an object. *)
Fixpoint parse_value (fuel : nat) (s : bytes) : scanned json :=
  match fuel with
  | O => More
  | S n =>
      match skip_space s with
      | [] => Bad eof
      | b :: s1 =>
          if Byte.eqb b "{" then
            match skip_space s1 with
            | c :: s2 => if Byte.eqb c "}" then Done (JObject []) s2 else parse_pairs n s1 []
            | [] => Bad eof
            end
          else if Byte.eqb b "[" then
            match skip_space s1 with
            | c :: s2 => if Byte.eqb c "]" then Done (JArray []) s2 else parse_items n s1 []
            | [] => Bad eof
            end
          else if Byte.eqb b x22 then
            match unquote s1 with
            | Ok (str, s2) => Done (JString (string_of_bytes str)) s2
            | Fail e => Bad e
            end
          else if Byte.eqb b "t" then
            match strip_prefix (bytes_of_string "rue") s1 with
            | Some s2 => Done (JBool true) s2
            | None => Bad "invalid character in literal true (expecting 'true')"
            end
          else if Byte.eqb b "f" then
            match strip_prefix (bytes_of_string "alse") s1 with
            | Some s2 => Done (JBool false) s2
            | None => Bad "invalid character in literal false (expecting 'false')"
            end
          else if Byte.eqb b "n" then
            match strip_prefix (bytes_of_string "ull") s1 with
            | Some s2 => Done JNull s2
            | None => Bad "invalid character in literal null (expecting 'null')"
            end
          else
            match scan_number (b :: s1) with
            | Some (num, s2) => Done (JNumber num) s2
            | None => Bad "invalid character looking for beginning of value"
            end
      end
  end
with parse_items (fuel : nat) (s : bytes) (acc : list json) : scanned json :=
  match fuel with
  | O => More
  | S n =>
      match parse_value n s with
      | Done v s1 =>
          match skip_space s1 with
          | c :: s2 =>
              if Byte.eqb c "," then parse_items n s2 (acc ++ [v])
              else if Byte.eqb c "]" then Done (JArray (acc ++ [v])) s2
              else Bad "invalid character after array element"
          | [] => Bad eof
          end
      | Bad e => Bad e
      | More => More
      end
  end
with parse_pairs (fuel : nat) (s : bytes) (acc : list (string * json)) : scanned json :=
  match fuel with
  | O => More
  | S n =>
      match skip_space s with
      | b :: s1 =>
          if Byte.eqb b x22 then
            match unquote s1 with
            | Ok (key, s2) =>
                match skip_space s2 with
                | c :: s3 =>
                    if Byte.eqb c ":" then
                      match parse_value n s3 with
                      | Done v s4 =>
                          match skip_space s4 with
                          | d :: s5 =>
                              let acc' := acc ++ [(string_of_bytes key, v)] in
                              if Byte.eqb d "," then parse_pairs n s5 acc'
                              else if Byte.eqb d "}" then Done (JObject acc') s5
                              else Bad "invalid character after object key:value pair"
                          | [] => Bad eof
                          end
                      | Bad e => Bad e
                      | More => More
                      end
                    else Bad "invalid character after object key"
                | [] => Bad eof
                end
            | Fail e => Bad e
            end
          else Bad "invalid character looking for beginning of object key string"
      | [] => Bad eof
      end
  end.

(** The text is one value between blanks ([json.Valid] and the tree of
    the value). *)
Definition parse (s : bytes) : result json :=
  match parse_value (S (2 * length s)) s with
  | Done v rest =>
      if skip_space rest is [] then Ok v
      else Fail "invalid character after top-level value"
  | Bad e => Fail e
  | More => Fail "exceeded max depth"
  end.

(** [l] with [sep] between its elements. *)
Fixpoint sep_by (sep : byte) (l : list bytes) : bytes :=
  match l with
  | [] => []
  | [x] => x
  | x :: l' => x ++ sep :: sep_by sep l'
  end.

(** A tree as a text without blanks. *)
Fixpoint print (j : json) : bytes :=
  match j with
  | JNull => bytes_of_string "null"
  | JBool true => bytes_of_string "true"
  | JBool false => bytes_of_string "false"
  | JNumber n => print_number n
  | JString s => quote (bytes_of_string s)
  | JArray l => "["%byte :: sep_by "," (print <$> l) ++ ["]"%byte]
  | JObject l =>
      "{"%byte ::
      sep_by "," ((fun kv => quote (bytes_of_string kv.1) ++ ":"%byte :: print kv.2) <$> l)
      ++ ["}"%byte]
  end.

(** The trees whose numbers the grammar has. *)
Fixpoint json_wf (j : json) : bool :=
  match j with
  | JNumber n => number_wf n
  | JArray l => forallb json_wf l
  | JObject l => forallb (fun kv => json_wf kv.2) l
  | _ => true
  end.

(** The number of values of a tree. *)
Fixpoint json_size (j : json) : nat :=
  match j with
  | JArray l => S (list_sum (json_size <$> l))
  | JObject l => S (list_sum ((fun kv => json_size kv.2) <$> l))
  | _ => 1
  end.

(** A member of an object as a text. *)
Definition print_member (kv : string * json) : bytes :=
  quote (bytes_of_string kv.1) ++ ":"%byte :: print kv.2.

(** Induction on trees, with the hypothesis for every element of an
    array and every member of an object. *)
Section Induction.
Variable P : json -> Prop.
Hypothesis Hnull : P JNull.
Hypothesis Hbool : forall b, P (JBool b).
Hypothesis Hnumber : forall n, P (JNumber n).
Hypothesis Hstring : forall s, P (JString s).
Hypothesis Harray : forall l, Forall P l -> P (JArray l).
Hypothesis Hobject : forall l, Forall (fun kv => P kv.2) l -> P (JObject l).

Fixpoint json_nested_ind (j : json) : P j :=
  match j with
  | JNull => Hnull
  | JBool b => Hbool b
  | JNumber n => Hnumber n
  | JString s => Hstring s
  | JArray l =>
      Harray l ((fix go l := match l return Forall P l with
                             | [] => Forall_nil_2 P
                             | x :: l' => Forall_cons_2 P x l' (json_nested_ind x) (go l')
                             end) l)
  | JObject l =>
      Hobject l ((fix go l := match l return Forall (fun kv => P kv.2) l with
                              | [] => Forall_nil_2 _
                              | kv :: l' => Forall_cons_2 _ kv l' (json_nested_ind kv.2) (go l')
                              end) l)
  end.

End Induction.

(** The first byte of a value that was printed. *)
Definition starts_value (b : byte) : bool :=
  is_digit b || bool_decide (b ∈ bytes_of_string "-ntf[{") || Byte.eqb b x22.

(** ** Lemmas *)

Section Bytes.
Implicit Types (s p rest str : bytes) (b : byte).

Lemma skip_space_length s : (length (skip_space s) <= length s)%nat.
Proof. induction s as [|b s IH]; simpl; [done|]. destruct (is_space b); simpl; lia. Qed.

Lemma skip_space_cons b s : is_space b = false -> skip_space (b :: s) = b :: s.
Proof. simpl. by intros ->. Qed.

Lemma strip_prefix_app p s : strip_prefix p (p ++ s) = Some s.
Proof. induction p as [|a p IH]; simpl; [done|]. by rewrite (Byte.byte_dec_lb eq_refl). Qed.

Lemma strip_prefix_Some p s rest : strip_prefix p s = Some rest -> s = p ++ rest.
Proof.
  revert s. induction p as [|a p IH]; intros [|b s]; simpl; try by intros [= ->].
  destruct (Byte.eqb a b) eqn:E; [|done]. apply Byte.byte_dec_bl in E as ->.
  by intros ->%IH.
Qed.

Lemma prepend_Ok p r str rest :
  prepend p r = Ok (str, rest) <-> exists str', r = Ok (str', rest) /\ str = p ++ str'.
Proof.
  unfold prepend. destruct r as [[str' rest']|e]; simpl.
  - split; [intros [= <- <-]; eauto|]. by intros (? & [= <- <-] & ->).
  - split; [done|]. by intros (? & ? & _).
Qed.

(** A string takes at least its closing quote off the text. *)
Lemma unquote_length_le n s str rest :
  (length s <= n)%nat -> unquote s = Ok (str, rest) -> (length rest < length s)%nat.
Proof.
  revert s str. induction n as [|n IH]; intros [|b s1] str; simpl; try done; try lia.
  intros Hn H.
  repeat case_match; simplify_eq; try (apply prepend_Ok in H as (? & H & ->); apply IH in H);
    simpl in *; lia.
Qed.

Lemma unquote_length s str rest : unquote s = Ok (str, rest) -> (length rest < length s)%nat.
Proof. by apply (unquote_length_le (length s)). Qed.

(** An escaped byte is read as the byte. *)
Lemma unquote_escape b s : unquote (escape b ++ s) = prepend [b] (unquote s).
Proof. destruct b; reflexivity. Qed.

(** Reading a string that was quoted. *)
Lemma unquote_quote str rest : unquote ((str ≫= escape) ++ x22 :: rest) = Ok (str, rest).
Proof.
  induction str as [|b str IH]; [done|].
  rewrite bind_cons, <- app_assoc, unquote_escape, IH. done.
Qed.

End Bytes.

Section Numbers.
Implicit Types (s rest tail ds : bytes) (b c : byte) (n : number).

Lemma digits_app ds rest :
  all_digits ds = true -> no_head is_digit rest = true -> digits (ds ++ rest) = (ds, rest).
Proof.
  intros Hds Hr. induction ds as [|b ds IH]; simpl in *.
  - destruct rest as [|b t]; [done|]. simpl in *. by destruct (is_digit b).
  - apply andb_prop in Hds as [-> Hds]. by rewrite IH.
Qed.

Lemma digits_split s : (digits s).1 ++ (digits s).2 = s.
Proof. induction s as [|b s IH]; simpl; [done|]. destruct (is_digit b); simpl; congruence. Qed.

Lemma digits_length s : (length (digits s).2 <= length s)%nat.
Proof. rewrite <- (digits_split s) at 2. rewrite length_app. lia. Qed.

Lemma digit_plain b :
  is_digit b = true ->
  Byte.eqb b "-" = false /\ Byte.eqb b "+" = false /\ Byte.eqb b "." = false /\
  Byte.eqb b "e" = false /\ Byte.eqb b "E" = false.
Proof. by destruct b. Qed.

Lemma take_sign_print plus neg b tail :
  is_digit b = true -> take_sign plus (print_sign neg ++ b :: tail) = (neg, b :: tail).
Proof.
  intros (Hm & Hp & _)%digit_plain. destruct neg; simpl; [done|].
  by rewrite Hm, Hp, andb_false_r.
Qed.

Lemma take_sign_length plus s : (length (take_sign plus s).2 <= length s)%nat.
Proof. destruct s as [|b s]; simpl; [done|]. repeat case_match; simpl; lia. Qed.

Lemma scan_int_app i tail :
  int_wf i = true -> no_head is_digit tail = true -> scan_int (i ++ tail) = Some (i, tail).
Proof.
  destruct i as [|b ds]; [done|]. simpl. intros [[Hb Hds]%andb_prop Hz]%andb_prop Ht.
  rewrite Hb. destruct (Byte.eqb b "0") eqn:E; simpl in Hz.
  - by apply bool_decide_eq_true in Hz as ->.
  - by rewrite digits_app.
Qed.

Lemma scan_frac_app f tail :
  all_digits f = true -> no_head is_digit tail = true ->
  no_head (fun b => Byte.eqb b ".") tail = true ->
  scan_frac (print_frac f ++ tail) = Some (f, tail).
Proof.
  intros Hf Ht Hp. destruct f as [|b f]; simpl.
  - destruct tail as [|c t]; [done|]. simpl in *. by destruct (Byte.eqb c ".").
  - assert (H : digits ((b :: f) ++ tail) = (b :: f, tail)) by (by apply digits_app).
    simpl in *. by rewrite H.
Qed.

Lemma scan_exp_app e tail :
  exp_wf e = true -> no_head is_digit tail = true ->
  no_head (fun b => Byte.eqb b "e" || Byte.eqb b "E") tail = true ->
  scan_exp (print_exp e ++ tail) = Some (e, tail).
Proof.
  intros He Ht Hp. destruct e as [[neg ds]|]; simpl.
  - apply andb_prop in He as [Hds Hne]. destruct ds as [|d ds]; [done|].
    pose proof Hds as [Hd _]%andb_prop.
    rewrite <- app_assoc, <- app_comm_cons, take_sign_print by done. cbn [fst snd].
    change (d :: ds ++ tail) with ((d :: ds) ++ tail). by rewrite digits_app.
  - destruct tail as [|c t]; [done|]. simpl in *. by destruct (_ || _).
Qed.

Lemma ends_number_inv rest :
  ends_number rest = true ->
  no_head is_digit rest = true /\ no_head (fun b => Byte.eqb b ".") rest = true /\
  no_head (fun b => Byte.eqb b "e" || Byte.eqb b "E") rest = true.
Proof.
  destruct rest as [|c t]; [done|]. unfold ends_number. simpl.
  by destruct (is_digit c), (Byte.eqb c "."), (Byte.eqb c "e"), (Byte.eqb c "E").
Qed.

(** Reading a number that was printed. *)
Lemma scan_number_print n rest :
  number_wf n = true -> ends_number rest = true ->
  scan_number (print_number n ++ rest) = Some (n, rest).
Proof.
  destruct n as [neg i f e]. unfold number_wf, print_number, scan_number. simpl.
  intros [[Hi Hf]%andb_prop He]%andb_prop (Hr1 & Hr2 & Hr3)%ends_number_inv.
  destruct i as [|b ds] eqn:Ei; [done|]. pose proof Hi as [[Hb _]%andb_prop _]%andb_prop.
  rewrite <- !app_assoc, <- app_comm_cons, take_sign_print by done. cbn [fst snd].
  rewrite app_comm_cons, <- Ei in *. clear Ei.
  rewrite scan_int_app by (by destruct f as [|? ?], e as [[[] ?]|]). simpl.
  rewrite scan_frac_app by (by destruct e as [[[] ?]|]). simpl.
  by rewrite scan_exp_app.
Qed.

Lemma scan_int_length s i rest : scan_int s = Some (i, rest) -> (length rest < length s)%nat.
Proof.
  destruct s as [|b s]; simpl; [done|]. pose proof (digits_length s).
  repeat case_match; intros; simplify_eq; simpl; lia.
Qed.

Lemma scan_frac_length s f rest : scan_frac s = Some (f, rest) -> (length rest <= length s)%nat.
Proof.
  destruct s as [|b s]; simpl; [by intros [= _ <-]|]. pose proof (digits_length s).
  repeat case_match; intros; simplify_eq; simpl in *; lia.
Qed.

Lemma scan_exp_length s e rest : scan_exp s = Some (e, rest) -> (length rest <= length s)%nat.
Proof.
  destruct s as [|b s]; simpl; [by intros [= _ <-]|].
  pose proof (digits_length (take_sign true s).2). pose proof (take_sign_length true s).
  repeat case_match; intros; simplify_eq; simpl in *; lia.
Qed.

Lemma scan_number_length s n rest :
  scan_number s = Some (n, rest) -> (length rest < length s)%nat.
Proof.
  unfold scan_number. intros H. pose proof (take_sign_length false s).
  destruct (scan_int _) as [[i s1]|] eqn:Hi; [|done]. apply scan_int_length in Hi.
  simpl in H. destruct (scan_frac s1) as [[f s2]|] eqn:Hf; [|done]. apply scan_frac_length in Hf.
  simpl in H. destruct (scan_exp s2) as [[e s3]|] eqn:He; [|done]. apply scan_exp_length in He.
  simpl in H. simplify_eq. lia.
Qed.

Lemma digits_all s : all_digits (digits s).1 = true.
Proof.
  induction s as [|b s IH]; simpl; [done|]. destruct (is_digit b) eqn:E; simpl; [|done].
  by rewrite E.
Qed.

Lemma scan_int_wf s i rest : scan_int s = Some (i, rest) -> int_wf i = true.
Proof.
  destruct s as [|b s]; simpl; [done|]. pose proof (digits_all s).
  destruct (Byte.eqb b "0") eqn:E0.
  - intros [= <- _]. apply Byte.byte_dec_bl in E0 as ->. done.
  - destruct (is_digit b) eqn:Eb; [|done]. intros [= <- _]. simpl.
    unfold all_digits in *. by rewrite Eb, H, E0.
Qed.

Lemma scan_frac_wf s f rest : scan_frac s = Some (f, rest) -> all_digits f = true.
Proof.
  destruct s as [|b s]; simpl; [by intros [= <- _]|]. pose proof (digits_all s).
  repeat case_match; intros; by simplify_eq.
Qed.

Lemma scan_exp_wf s e rest : scan_exp s = Some (e, rest) -> exp_wf e = true.
Proof.
  destruct s as [|b s]; simpl; [by intros [= <- _]|].
  pose proof (digits_all (take_sign true s).2).
  repeat case_match; intros; simplify_eq; simpl in *; try done.
  by rewrite andb_true_r.
Qed.

(** A number that was read is a number of the grammar. *)
Lemma scan_number_wf s num rest : scan_number s = Some (num, rest) -> number_wf num = true.
Proof.
  unfold scan_number. intros H.
  destruct (scan_int _) as [[i s1]|] eqn:Hi; [|done]. apply scan_int_wf in Hi.
  simpl in H. destruct (scan_frac s1) as [[f s2]|] eqn:Hf; [|done]. apply scan_frac_wf in Hf.
  simpl in H. destruct (scan_exp s2) as [[e s3]|] eqn:He; [|done]. apply scan_exp_wf in He.
  simpl in H. simplify_eq. unfold number_wf. simpl. by rewrite Hi, Hf, He.
Qed.

End Numbers.

Section Values.
Implicit Types (s rest : bytes) (b c : byte) (j v : json) (n : nat).

Lemma skip_space_eq s t : skip_space s = t -> (length t <= length s)%nat.
Proof. intros <-. apply skip_space_length. Qed.

Lemma strip_prefix_length p s rest : strip_prefix p s = Some rest -> (length rest <= length s)%nat.
Proof. intros ->%strip_prefix_Some. rewrite length_app. lia. Qed.

(** What the lexical functions took off the text, as facts on lengths. *)
Ltac lengths :=
  repeat match goal with
  | H : skip_space _ = _ |- _ => apply skip_space_eq in H
  | H : unquote _ = Ok _ |- _ => apply unquote_length in H
  | H : strip_prefix _ _ = Some _ |- _ => apply strip_prefix_length in H
  | H : scan_number _ = Some _ |- _ => apply scan_number_length in H
  end; simpl in *.

(** A value takes at least one byte off the text. *)
Lemma parse_shorter n :
  (forall s v rest, parse_value n s = Done v rest -> (length rest < length s)%nat) /\
  (forall s acc v rest, parse_items n s acc = Done v rest -> (length rest < length s)%nat) /\
  (forall s acc v rest, parse_pairs n s acc = Done v rest -> (length rest < length s)%nat).
Proof.
  induction n as [|n (IHv & IHi & IHp)]; [done|].
  repeat split; intros *; simpl; repeat case_match; intros; simplify_eq;
    repeat match goal with
    | H : parse_value _ _ = Done _ _ |- _ => apply IHv in H
    | H : parse_items _ _ _ = Done _ _ |- _ => apply IHi in H
    | H : parse_pairs _ _ _ = Done _ _ |- _ => apply IHp in H
    end; lengths; lia.
Qed.

(** The fuel [parse] gives is enough. *)
Lemma parse_fuel n :
  (forall s, (2 * length s < n)%nat -> parse_value n s <> More) /\
  (forall s acc, (2 * length s + 1 < n)%nat -> parse_items n s acc <> More) /\
  (forall s acc, (2 * length s + 1 < n)%nat -> parse_pairs n s acc <> More).
Proof.
  induction n as [|n (IHv & IHi & IHp)]; [repeat split; intros; lia|].
  pose proof (parse_shorter n) as (Sv & _ & _).
  repeat split; intros *; simpl; repeat case_match; try done; intros Hn;
    first [ apply IHv | apply IHi | apply IHp
          | intros _; match goal with H : parse_value n ?s = More |- _ => apply (IHv s); [|exact H] end ];
    repeat match goal with H : parse_value _ _ = Done _ _ |- _ => apply Sv in H end;
    lengths; lia.
Qed.

(** More fuel does not change a result. *)
Lemma parse_more_fuel n :
  (forall s, parse_value n s <> More -> parse_value (S n) s = parse_value n s) /\
  (forall s acc, parse_items n s acc <> More -> parse_items (S n) s acc = parse_items n s acc) /\
  (forall s acc, parse_pairs n s acc <> More -> parse_pairs (S n) s acc = parse_pairs n s acc).
Proof.
  induction n as [|n (IHv & IHi & IHp)]; [done|].
  repeat split; intros *; [cbn [parse_value]|cbn [parse_items]|cbn [parse_pairs]]; intros H;
    repeat first
      [ done
      | apply IHi; done | apply IHp; done
      | match goal with
        | |- context [parse_value n ?s] =>
            destruct (parse_value n s) eqn:E; try rewrite (IHv s), E by (by rewrite E)
        end
      | case_match ].
Qed.
(** What the parser returns is well formed. *)
Lemma parse_wf n :
  (forall s j rest, parse_value n s = Done j rest -> json_wf j = true) /\
  (forall s acc j rest, parse_items n s acc = Done j rest ->
     forallb json_wf acc = true -> json_wf j = true) /\
  (forall s acc j rest, parse_pairs n s acc = Done j rest ->
     forallb (fun kv => json_wf kv.2) acc = true -> json_wf j = true).
Proof.
  induction n as [|n (IHv & IHi & IHp)]; [done|].
  repeat split; intros * H; cbn [parse_value parse_items parse_pairs] in H;
    repeat case_match; simplify_eq;
    repeat match goal with
    | H : parse_value _ _ = Done _ _ |- _ => apply IHv in H
    | H : scan_number _ = Some _ |- _ => apply scan_number_wf in H
    end; try done; try intros Hacc;
    first [ eapply IHi; [eassumption|] | eapply IHp; [eassumption|] | idtac ];
    cbn [json_wf]; rewrite ?forallb_app; cbn [forallb snd];
    repeat match goal with H : _ = true |- _ => rewrite H end; done.
Qed.
End Values.

Section Print.
Implicit Types (s rest : bytes) (b c : byte) (j v : json) (n : nat).

Lemma json_size_pos j : (1 <= json_size j)%nat.
Proof. destruct j; simpl; lia. Qed.

Lemma sep_by_cons sep x (l : list bytes) :
  l <> [] -> sep_by sep (x :: l) = x ++ sep :: sep_by sep l.
Proof. by destruct l. Qed.

Lemma starts_value_plain b :
  starts_value b = true ->
  is_space b = false /\ Byte.eqb b "]" = false /\ Byte.eqb b "}" = false.
Proof. by destruct b. Qed.

Lemma print_number_head num :
  number_wf num = true ->
  exists b t, print_number num = b :: t /\ is_digit b || Byte.eqb b "-" = true.
Proof.
  destruct num as [[] [|b i] f e]; unfold number_wf, print_number; simpl; try done.
  - by eexists _, _.
  - intros [[[[Hb _]%andb_prop _]%andb_prop _]%andb_prop _]%andb_prop.
    eexists _, _. split; [done|]. by rewrite Hb.
Qed.

Lemma print_head j : json_wf j = true -> exists b t, print j = b :: t /\ starts_value b = true.
Proof.
  destruct j as [|[]|num| | |]; simpl; try by eexists _, _.
  intros (b & t & -> & H)%print_number_head. exists b, t. split; [done|].
  unfold starts_value. destruct (is_digit b); [done|]. simpl in *.
  by apply Byte.byte_dec_bl in H as ->.
Qed.

(** A number is read where a digit or a minus starts the value. *)
Lemma parse_value_number n b s num rest :
  is_digit b || Byte.eqb b "-" = true -> scan_number (b :: s) = Some (num, rest) ->
  parse_value (S n) (b :: s) = Done (JNumber num) rest.
Proof. destruct b; try done; intros _ H; cbn -[scan_number]; by rewrite H. Qed.

Lemma ends_number_sep b rest :
  b ∈ bytes_of_string ",]}" -> ends_number (b :: rest) = true.
Proof. intros H. repeat (apply elem_of_cons in H as [->|H]; [done|]). by apply elem_of_nil in H. Qed.


Lemma forallb_Forall {A} (f : A -> bool) (l : list A) :
  forallb f l = true <-> Forall (fun x => f x = true) l.
Proof.
  induction l as [|x l IH]; simpl; [done|].
  by rewrite andb_true_iff, Forall_cons, IH.
Qed.

Lemma sep_by_head (p : byte -> Prop) sep (l : list bytes) :
  l <> [] -> Forall (fun x => exists b t, x = b :: t /\ p b) l ->
  exists b t, sep_by sep l = b :: t /\ p b.
Proof.
  destruct l as [|x [|y l]]; [done|..]; intros _ [(b & t & -> & H) _]%Forall_cons.
  - by exists b, t.
  - by exists b, (t ++ sep :: sep_by sep (y :: l)).
Qed.

Lemma parse_value_string n (str : string) rest :
  parse_value (S n) (quote (bytes_of_string str) ++ rest) = Done (JString str) rest.
Proof.
  unfold quote. cbn. rewrite <- app_assoc. cbn. 
  by rewrite unquote_quote, string_of_bytes_of_string.
Qed.

(** Where a bracket is followed by a value, the elements are read. *)
Lemma parse_value_array n b t :
  starts_value b = true -> parse_value (S n) ("["%byte :: b :: t) = parse_items n (b :: t) [].
Proof. intros (Hs & Hb & _)%starts_value_plain. cbn. by rewrite Hs, Hb. Qed.

Lemma parse_value_object n b t :
  starts_value b = true -> parse_value (S n) ("{"%byte :: b :: t) = parse_pairs n (b :: t) [].
Proof. intros (Hs & _ & Hb)%starts_value_plain. cbn. by rewrite Hs, Hb. Qed.

(** What the round trip says of each of the three functions of the
    reader, for a given fuel. *)
Definition reads_values (n : nat) : Prop :=
  forall j rest, (2 * json_size j <= n)%nat -> json_wf j = true -> ends_number rest = true ->
    parse_value n (print j ++ rest) = Done j rest.

Definition reads_items (n : nat) : Prop :=
  forall l acc rest, l <> [] -> (2 * list_sum (json_size <$> l) + 1 <= n)%nat ->
    forallb json_wf l = true ->
    parse_items n (sep_by "," (print <$> l) ++ "]"%byte :: rest) acc
      = Done (JArray (acc ++ l)) rest.

Definition reads_pairs (n : nat) : Prop :=
  forall l acc rest, l <> [] -> (2 * list_sum ((fun kv => json_size kv.2) <$> l) + 1 <= n)%nat ->
    forallb (fun kv => json_wf kv.2) l = true ->
    parse_pairs n (sep_by "," (print_member <$> l) ++ "}"%byte :: rest) acc
      = Done (JObject (acc ++ l)) rest.

Lemma reads_values_step n :
  reads_values n -> reads_items n -> reads_pairs n -> reads_values (S n).
Proof.
  intros IHv IHi IHp.
  intros j rest Hn Hwf Hrest. destruct j as [|[]|num|str|l|l].
  - done.
  - done.
  - done.
  - destruct (print_number_head num Hwf) as (b & t & E & Hb).
    simpl. rewrite E. apply parse_value_number; [done|].
    change (scan_number ((b :: t) ++ rest) = Some (num, rest)).
    rewrite <- E. by apply scan_number_print.
  - apply parse_value_string.
  - destruct l as [|x l]; [done|].
    change (forallb json_wf (x :: l) = true) in Hwf.
    change (2 * S (list_sum (json_size <$> x :: l)) <= S n)%nat in Hn.
    destruct (sep_by_head (fun b => starts_value b = true) "," (print <$> x :: l))
      as (b & t & E & Hb); [done|..].
    { apply Forall_fmap. eapply Forall_impl; [by apply forallb_Forall|].
      intros y. apply print_head. }
    cbn [print]. rewrite <- app_comm_cons, <- app_assoc, E, <- app_comm_cons.
    rewrite parse_value_array by done. rewrite app_comm_cons, <- E.
    by apply IHi; [|lia|].
  - destruct l as [|x l]; [done|].
    change (forallb (fun kv => json_wf kv.2) (x :: l) = true) in Hwf.
    change (2 * S (list_sum ((fun kv => json_size kv.2) <$> x :: l)) <= S n)%nat in Hn.
    change (print (JObject (x :: l))) with ("{"%byte :: sep_by "," (print_member <$> x :: l) ++ ["}"%byte]).
    destruct (sep_by_head (fun b => starts_value b = true) "," (print_member <$> x :: l))
      as (b & t & E & Hb); [done|..].
    { apply Forall_fmap, Forall_forall. intros y Hy. by eexists _, _. }
    rewrite <- app_comm_cons, <- app_assoc, E, <- app_comm_cons.
    rewrite parse_value_object by done. rewrite app_comm_cons, <- E.
    by apply IHp; [|lia|].
Qed.

Lemma reads_items_step n : reads_values n -> reads_items n -> reads_items (S n).
Proof.
  intros IHv IHi.
  intros [|x l] acc rest Hl Hn Hwf; [done|]. simpl in Hn, Hwf.
  apply andb_prop in Hwf as [Hx Hwf]. pose proof (json_size_pos x).
  cbn [parse_items]. destruct l as [|y l].
  - cbn [fmap list_fmap sep_by]. rewrite IHv by (done || simpl in *; lia). by cbn.
  - rewrite fmap_cons, sep_by_cons, <- app_assoc, <- app_comm_cons by done.
    rewrite IHv by (done || simpl in *; lia). cbn -[sep_by fmap].
    rewrite IHi by (done || simpl in *; lia). by rewrite <- app_assoc.
Qed.

(** One member of an object, and what decides how it goes on. *)
Lemma parse_pairs_member n k v acc tail :
  reads_values n -> (2 * json_size v <= n)%nat -> json_wf v = true ->
  ends_number tail = true ->
  parse_pairs (S n) (print_member (k, v) ++ tail) acc =
    match skip_space tail with
    | d :: s5 =>
        if Byte.eqb d "," then parse_pairs n s5 (acc ++ [(k, v)])
        else if Byte.eqb d "}" then Done (JObject (acc ++ [(k, v)])) s5
        else Bad "invalid character after object key:value pair"
    | [] => Bad eof
    end.
Proof.
  intros IHv Hn Hwf Ht. unfold print_member, quote. cbn [fst snd].
  rewrite <- !app_assoc, <- !app_comm_cons, <- !app_assoc.
  cbn -[bytes_of_string string_of_bytes].
  rewrite unquote_quote. cbn -[bytes_of_string string_of_bytes].
  rewrite IHv by done. by rewrite string_of_bytes_of_string.
Qed.

Lemma reads_pairs_step n : reads_values n -> reads_pairs n -> reads_pairs (S n).
Proof.
  intros IHv IHp [|[k v] l] acc rest Hl Hn Hwf; [done|]. simpl in Hn, Hwf.
  apply andb_prop in Hwf as [Hx Hwf]. pose proof (json_size_pos v).
  destruct l as [|y l].
  - cbn [fmap list_fmap sep_by]. by rewrite parse_pairs_member by (done || simpl in *; lia).
  - rewrite fmap_cons, sep_by_cons, <- app_assoc, <- app_comm_cons by done.
    rewrite parse_pairs_member by (done || simpl in *; lia). cbn -[sep_by fmap].
    rewrite IHp by (done || simpl in *; lia). by rewrite <- app_assoc.
Qed.

(** Reading what was printed, for every fuel that covers the tree. *)
Lemma parse_print_fuel n : reads_values n /\ reads_items n /\ reads_pairs n.
Proof.
  induction n as [|n (IHv & IHi & IHp)].
  { repeat split; intros ?; intros; try lia. pose proof (json_size_pos j). lia. }
  split_and!; [by apply reads_values_step|by apply reads_items_step|by apply reads_pairs_step].
Qed.

Lemma sep_by_length sep (l : list bytes) :
  (list_sum (length <$> l) <= length (sep_by sep l) + 1)%nat.
Proof.
  induction l as [|x [|y l] IH]; simpl in *; rewrite ?length_app; simpl; lia.
Qed.

Lemma list_sum_le {A} (f g : A -> nat) (l : list A) :
  Forall (fun x => f x <= g x)%nat l -> (list_sum (f <$> l) <= list_sum (g <$> l))%nat.
Proof. induction 1 as [|x l' Hx _ IH]; [done|]. rewrite !fmap_cons. simpl. lia. Qed.

(** A tree has no more values than its text has bytes. *)
Lemma json_size_print j : json_wf j = true -> (json_size j <= length (print j))%nat.
Proof.
  induction j as [|[]|num|str|l IH|l IH] using json_nested_ind; intros Hwf; try (simpl; lia).
  - destruct (print_number_head num Hwf) as (b & t & E & _). simpl. rewrite E. simpl. lia.
  - change (forallb json_wf l = true) in Hwf. apply forallb_Forall in Hwf.
    cbn [json_size print length]. rewrite length_app.
    pose proof (sep_by_length "," (print <$> l)). rewrite <- list_fmap_compose in H.
    enough (list_sum (json_size <$> l) <= list_sum (length ∘ print <$> l))%nat by (simpl; lia).
    apply list_sum_le. eapply Forall_impl; [apply (List.Forall_and IH Hwf)|].
    intros x [Hx Hw]. by apply Hx.
  - change (forallb (fun kv => json_wf kv.2) l = true) in Hwf. apply forallb_Forall in Hwf.
    change (print (JObject l)) with ("{"%byte :: sep_by "," (print_member <$> l) ++ ["}"%byte]).
    cbn [json_size length]. rewrite length_app.
    pose proof (sep_by_length "," (print_member <$> l)). rewrite <- list_fmap_compose in H.
    enough (list_sum ((fun kv => json_size kv.2) <$> l)
            <= list_sum (length ∘ print_member <$> l))%nat by (simpl; lia).
    apply list_sum_le. eapply Forall_impl; [apply (List.Forall_and IH Hwf)|].
    intros x [Hx Hw]. unfold print_member. simpl. rewrite length_app. simpl.
    specialize (Hx Hw). lia.
Qed.

Lemma skip_space_blanks pre s :
  forallb is_space pre = true -> skip_space (pre ++ s) = skip_space s.
Proof.
  induction pre as [|b pre IH]; simpl; [done|]. intros [-> H]%andb_true_iff. by apply IH.
Qed.

Lemma parse_value_blanks n pre s :
  forallb is_space pre = true -> parse_value n (pre ++ s) = parse_value n s.
Proof. intros H. destruct n; [done|]. cbn [parse_value]. by rewrite skip_space_blanks. Qed.

Lemma ends_number_blanks post : forallb is_space post = true -> ends_number post = true.
Proof. destruct post as [|b post]; [done|]. simpl. intros [H _]%andb_true_iff. by destruct b. Qed.

(** Reading the text of a tree between blanks gives the tree back. *)
Lemma parse_print_blanks j pre post :
  json_wf j = true -> forallb is_space pre = true -> forallb is_space post = true ->
  parse (pre ++ print j ++ post) = Ok j.
Proof.
  intros Hwf Hpre Hpost. unfold parse. pose proof (json_size_print j Hwf).
  destruct (parse_print_fuel (S (2 * length (pre ++ print j ++ post)))) as (Hv & _).
  rewrite parse_value_blanks, Hv; [|rewrite !length_app; lia|done|by apply ends_number_blanks|done].
  rewrite <- (app_nil_r post), skip_space_blanks; done.
Qed.

(** Reading the text of a tree gives the tree back. *)
Lemma parse_print_Ok j : json_wf j = true -> parse (print j) = Ok j.
Proof.
  intros Hwf. rewrite <- (app_nil_r (print j)). by apply (parse_print_blanks j [] []).
Qed.

(** C9: Round trip: for every tree whose numbers the grammar has, reading
    the text that [print] writes gives the tree back, also with blanks
    before and after the text; so no two such trees have the same
    text. *)
Theorem parse_print j pre post :
  json_wf j = true -> forallb is_space pre = true -> forallb is_space post = true ->
  parse (pre ++ print j ++ post) = Ok j /\
  forall j', json_wf j' = true -> print j' = print j -> j' = j.
Proof.
  intros Hwf Hpre Hpost. split; [by apply parse_print_blanks|].
  intros j' Hwf' Heq. apply parse_print_Ok in Hwf'. rewrite Heq, parse_print_Ok in Hwf' by done.
  by simplify_eq.
Qed.

Lemma parse_value_more k n s :
  (2 * length s < n)%nat -> parse_value (k + n) s = parse_value n s.
Proof.
  intros Hn. induction k as [|k IH]; [done|].
  cbn [Nat.add]. rewrite <- IH. apply parse_more_fuel. rewrite IH. by apply parse_fuel.
Qed.

(** C20: The parser terminates with an answer on every text: with more
    than twice as much fuel as the text has bytes it never runs out of
    fuel, and its answer is the one [parse] computes, whatever the fuel
    above that bound. *)
Theorem parse_value_fuel n s :
  (2 * length s < n)%nat ->
  parse_value n s <> More /\ parse_value n s = parse_value (S (2 * length s)) s.
Proof.
  intros Hn. split; [by apply parse_fuel|].
  replace n with ((n - S (2 * length s)) + S (2 * length s))%nat by lia.
  apply parse_value_more. lia.
Qed.

(** What the parser accepts is a tree of the grammar, and the text of
    that tree is read as the same tree: [print] gives every accepted text
    a canonical form. *)
Theorem parse_canonical s j :
  parse s = Ok j -> json_wf j = true /\ parse (print j) = Ok j.
Proof.
  unfold parse. destruct (parse_value _ s) as [v rest| |] eqn:E; [|done..].
  destruct (skip_space rest); [|done]. intros [= ->].
  apply parse_wf in E. split; [done|]. by apply parse_print_Ok.
Qed.

End Print.

(** ** Witnesses and examples *)

(** The tree of [[1,{"k":"a\n"},-2.5e-3]]. *)
Definition sample_tree : json :=
  JArray [ JNumber (mkNumber false (bytes_of_string "1") [] None);
           JObject [("k"%string, JString ("a" +:+ nl))];
           JNumber (mkNumber true (bytes_of_string "2") (bytes_of_string "5")
                      (Some (true, bytes_of_string "3"))) ].

Lemma parse_print_witness :
  parse (bytes_of_string " " ++ print sample_tree ++ bytes_of_string nl) = Ok sample_tree.
Proof. by apply (parse_print sample_tree). Defined.

Lemma parse_value_fuel_witness :
  parse_value 100 (bytes_of_string "[[[[") <> More /\
  parse_value 100 (bytes_of_string "[[[[") = parse_value 9 (bytes_of_string "[[[[").
Proof. apply (parse_value_fuel 100 (bytes_of_string "[[[[")). simpl. lia. Defined.

Lemma parse_canonical_witness :
  json_wf (JObject [("a"%string, JBool true)]) = true /\
  parse (print (JObject [("a"%string, JBool true)])) = Ok (JObject [("a"%string, JBool true)]).
Proof.
  by apply (parse_canonical (bytes_of_string (" {" +:+ dq +:+ "\u0061" +:+ dq +:+ ": true } "))).
Defined.

(** The text of the sample tree, and texts that are not JSON: a comma
    before the bracket, a zero before a digit, a control character in a
    string, a bracket that is not closed (which takes all the fuel that
    twice its length allows, and no more). *)
Example print_sample :
  string_of_bytes (print sample_tree)
    = ("[1,{" +:+ dq +:+ "k" +:+ dq +:+ ":" +:+ dq +:+ "a\u000a" +:+ dq +:+ "},-2.5e-3]")%string.
Proof. by vm_compute. Qed.

Example parse_refused :
  Forall (fun s => is_ok (parse (bytes_of_string s)) = false)
    [ "[1,]"; "01"; dq +:+ "a" +:+ nl +:+ dq; "[[[["; "nul"; "1e"; "-"; "" ]%string.
Proof. repeat apply Forall_cons_2; try apply Forall_nil_2; by vm_compute. Qed.
