(* ===== verification/Decode.v ===== *)
(** * Decode: the JSON decoder (package encoding/json)

    [json.Unmarshal(js, &pairs)] with [var pairs map[string]interface{}]
    (lines 57-58).  The package is not part of the sources.  The text is
    read by [JsonText.parse]; this file turns the tree into what the
    decoder stores in an [interface{}] ([to_iface]: [nil], [bool],
    [float64], [string], slices and maps, a member given twice keeping
    its later value) and into the map of the program ([unmarshal_pairs]:
    an object fills the map, [null] leaves it nil, any other value is an
    error).  [go_json] is the decoder as an instance of [Json.JsonPkg],
    for which every theorem on the program holds.

    A number is converted to the nearest float64, ties to even
    ([float_of_decimal]); a number beyond the range of float64 is an
    error of the decoder. *)

From Stdlib Require Import ZArith Lia SpecFloat.
From Stdlib.Strings Require Import Byte.
From S2P Require Import Prelude Json JsonText.

#[local] Open Scope Z_scope.

(** ** Conversion to the values of an [interface{}] *)

(** The number a sequence of digits stands for, after [acc]. *)
Fixpoint digits_value (ds : bytes) (acc : Z) : Z :=
  match ds with
  | [] => acc
  | b :: ds' => digits_value ds' (acc * 10 + (Z_of_byte b - 48))
  end.

(** The float64 nearest to [m * 10 ^ e], ties to even, as
    [strconv.ParseFloat] gives it.  A value beyond the largest float64
    is the infinity; a quotient is rounded once, the bit below the
    quotient standing for what the division left. *)
Definition float_of_decimal (neg : bool) (m e : Z) : spec_float :=
  let sign z := if neg then - z else z in
  if m =? 0 then S754_zero neg
  else if 310 <=? Z.log2 m / 4 + e then S754_infinity neg
  else if (Z.log2 m + 1) / 3 + e <? -400 then S754_zero neg
  else if 0 <=? e then binary_normalize 53 1024 (sign (m * 10 ^ e)) 0 neg
  else
    let d := 10 ^ (- e) in
    let k := Z.max 0 (Z.log2 d - Z.log2 m + 56) in
    let q := (m * 2 ^ k) / d in
    let sticky := if (m * 2 ^ k) mod d =? 0 then 0 else 1 in
    binary_normalize 53 1024 (sign (2 * q + sticky)) (- (k + 1)) neg.

(** A number of the text as a float64; a number that is too large is
    an error of the decoder. *)
Definition number_float (n : number) : option spec_float :=
  let m := digits_value (num_int n ++ num_frac n) 0 in
  let x := match num_exp n with
           | Some (neg, ds) => if neg then - digits_value ds 0 else digits_value ds 0
           | None => 0
           end in
  match float_of_decimal (num_neg n) m (x - Z.of_nat (length (num_frac n))) with
  | S754_infinity _ => None
  | f => Some f
  end.


(** What [json.Unmarshal] stores in an [interface{}] for a value; a
    member given twice keeps the later value.  Nothing when a number is
    out of range. *)
Fixpoint to_iface (j : json) : option iface :=
  match j with
  | JNull => Some INil
  | JBool b => Some (IBool b)
  | JNumber n => INumber <$> number_float n
  | JString s => Some (IString s)
  | JArray l => IArray <$> mapM to_iface l
  | JObject l =>
      (fun kvs => IMap (list_to_map (reverse kvs))) <$>
      mapM (fun kv => pair kv.1 <$> to_iface kv.2) l
  end.

(** The name of a kind of value in the errors of the decoder. *)
Definition kind_name (j : json) : string :=
  match j with
  | JNull => "null"
  | JBool _ => "bool"
  | JNumber _ => "number"
  | JString _ => "string"
  | JArray _ => "array"
  | JObject _ => "object"
  end.

(** [json.Unmarshal(js, &pairs)] with [var pairs map[string]interface{}]
    (lines 57-58): the text must be one value; an object fills the map,
    [null] leaves it nil, any other value does not fit the type. *)
Definition unmarshal_pairs (js : bytes) : result (gmap string iface) :=
  match parse js with
  | Fail e => Fail ("invalid JSON: " +:+ e)
  | Ok JNull => Ok ∅
  | Ok (JObject l) =>
      match to_iface (JObject l) with
      | Some (IMap m) => Ok m
      | _ => Fail "json: cannot unmarshal number into Go value of type float64"
      end
  | Ok j =>
      Fail ("json: cannot unmarshal " +:+ kind_name j +:+
            " into Go value of type map[string]interface {}")
  end.

(** Package encoding/json as the decoder of the program. *)
Definition go_json : JsonPkg := {| unmarshal := unmarshal_pairs |}.

(** The value of a member of an object: that of its last occurrence. *)
Definition member (k : string) (l : list (string * json)) : option json :=
  assoc k (reverse l).

(** The names that are written between quotes as they are. *)
Definition plain (s : string) : bool :=
  forallb (fun b => negb (Byte.eqb b x22 || Byte.eqb b "\") && (32 <=? Z_of_byte b)%Z)
    (bytes_of_string s).

(** ** Lemmas *)

Section Decode.
Implicit Types (j : json) (l : list (string * json)) (m : gmap string iface) (k : string).

Lemma list_to_map_assoc {A} (kvs : list (string * A)) k :
  (list_to_map kvs : gmap string A) !! k = assoc k kvs.
Proof.
  induction kvs as [|[k' v] kvs IH]; simpl; [done|]. case_decide as Hk.
  - subst. by rewrite lookup_insert_eq.
  - by rewrite lookup_insert_ne.
Qed.

Lemma to_iface_string j s : to_iface j = Some (IString s) <-> j = JString s.
Proof.
  split; [|by intros ->]. destruct j; simpl; intros H; simplify_option_eq; done.
Qed.

Lemma assoc_converted l kvs k :
  Forall2 (fun kv kv' => pair kv.1 <$> to_iface kv.2 = Some kv') l kvs ->
  assoc k kvs = assoc k l ≫= to_iface.
Proof.
  induction 1 as [|[k1 v1] [k2 v2] l kvs Hx _ IH]; [done|].
  simpl in *. destruct (to_iface v1) as [v1'|] eqn:E; simplify_eq/=.
  case_decide; simpl; by rewrite ?E.
Qed.

(** The members of the map are the members of the object, converted. *)
Lemma to_iface_object l m k :
  to_iface (JObject l) = Some (IMap m) -> m !! k = member k l ≫= to_iface.
Proof.
  cbn [to_iface]. intros H. apply fmap_Some in H as (kvs & H & [= ->]).
  rewrite list_to_map_assoc. apply assoc_converted, Forall2_reverse. by apply mapM_Some.
Qed.

Lemma to_iface_object_is_map l : is_Some (to_iface (JObject l)) ->
  exists m, to_iface (JObject l) = Some (IMap m).
Proof. cbn [to_iface]. intros [v H]. apply fmap_Some in H as (kvs & -> & ->). by eexists. Qed.

(** What the decoder accepts. *)
Lemma unmarshal_pairs_Ok js m :
  unmarshal_pairs js = Ok m <->
  (parse js = Ok JNull /\ m = ∅) \/
  (exists l, parse js = Ok (JObject l) /\ to_iface (JObject l) = Some (IMap m)).
Proof.
  unfold unmarshal_pairs.
  destruct (parse js) as [[| | | | |l]|e]; try destruct (to_iface (JObject l)) as [[]|] eqn:E;
    (split; [intros ?; simplify_eq; eauto|intros [[? ?]|(? & ? & ?)]; by simplify_eq]).
Qed.


Lemma bytes_of_string_app (a b : string) :
  bytes_of_string (a +:+ b) = bytes_of_string a ++ bytes_of_string b.
Proof.
  unfold bytes_of_string, String.list_byte_of_string.
  induction a as [|c a IH]; simpl; [done|]. by rewrite IH.
Qed.

Lemma plain_escape (s : string) :
  plain s = true -> bytes_of_string s ≫= escape = bytes_of_string s.
Proof.
  unfold plain. induction (bytes_of_string s) as [|b bs IH]; [done|].
  cbn [forallb]. intros [[Hq Hc]%andb_prop Hbs]%andb_prop. rewrite bind_cons, IH by done.
  unfold escape. apply negb_true_iff in Hq. rewrite Hq.
  apply Z.leb_le in Hc. by rewrite (proj2 (Z.ltb_ge _ _) Hc).
Qed.

(** The text of a request is the text of its tree. *)
Lemma request_text_print (name : string) :
  plain name = true ->
  bytes_of_string (request_text name) = print (JObject [("request"%string, JString name)]).
Proof.
  intros H. unfold request_text. rewrite !bytes_of_string_app.
  cbn [print fmap list_fmap sep_by fst snd]. unfold quote.
  rewrite (plain_escape name H), (plain_escape "request" eq_refl).
  rewrite <- !app_assoc. cbn. by rewrite <- app_assoc.
Qed.

(** Reading a request: for every name that needs no escape, the
    decoder turns the text [{"request":"<name>"}] into the map that holds
    the name, as a string, under the key request. *)
Theorem unmarshal_request (name : string) :
  plain name = true ->
  unmarshal_pairs (bytes_of_string (request_text name)) = Ok {[ "request"%string := IString name ]}.
Proof.
  intros H. unfold unmarshal_pairs. by rewrite request_text_print, parse_print_Ok.
Qed.

(** C19: A text the decoder accepts is [null] or an object; the value the
    map holds under a key is the member of the object with that key that
    comes last in the text, converted. *)
Theorem unmarshal_pairs_member js m k :
  unmarshal_pairs js = Ok m ->
  (parse js = Ok JNull /\ m !! k = None) \/
  (exists l, parse js = Ok (JObject l) /\ m !! k = member k l ≫= to_iface).
Proof.
  intros [[? ->]|(l & ? & Hm)]%unmarshal_pairs_Ok; [by left|right].
  exists l. eauto using to_iface_object.
Qed.

(** A text that is not an object or [null] is an error of the decoder:
    an array, a string, a number and a boolean do not fit the map, and a
    text that is not JSON is refused. *)
Theorem unmarshal_pairs_rejects js :
  (forall l, parse js <> Ok (JObject l)) -> parse js <> Ok JNull ->
  exists e, unmarshal_pairs js = Fail e.
Proof.
  unfold unmarshal_pairs. intros Hobj Hnull.
  destruct (parse js) as [[| | | | |l]|e]; [done|by eexists..|by destruct (Hobj l)|by eexists].
Qed.

End Decode.

(** ** Witnesses and examples *)

Lemma unmarshal_request_witness :
  unmarshal_pairs (bytes_of_string (request_text "active checks"))
    = Ok {[ "request"%string := IString "active checks" ]}.
Proof. by apply (unmarshal_request "active checks"). Defined.

Lemma unmarshal_pairs_member_witness :
  (parse (bytes_of_string (request_text "ping")) = Ok JNull /\
   ({[ "request"%string := IString "ping" ]} : gmap string iface) !! "request"%string = None) \/
  (exists l, parse (bytes_of_string (request_text "ping")) = Ok (JObject l) /\
             ({[ "request"%string := IString "ping" ]} : gmap string iface) !! "request"%string
               = member "request" l ≫= to_iface).
Proof. by apply (unmarshal_pairs_member (bytes_of_string (request_text "ping"))). Defined.

Lemma unmarshal_pairs_rejects_witness :
  exists e, unmarshal_pairs (bytes_of_string "not-json") = Fail e.
Proof. by apply (unmarshal_pairs_rejects (bytes_of_string "not-json")). Defined.

(** The decoder agrees with the table of documents the examples of the
    other files use. *)
Example go_json_sample :
  Forall (fun js => unmarshal (JsonPkg:=go_json) js = unmarshal (JsonPkg:=sample_json) js)
    (bytes_of_string <$>
       [request_text "active checks"; request_text "ping"; "{}"; "null"]%string).
Proof. repeat apply Forall_cons_2; try apply Forall_nil_2; by vm_compute. Qed.

(** Texts that are the request for the active checks as well: blanks,
    escapes, further members, and a member given twice, whose later
    value counts. *)
Example unmarshal_variants :
  Forall (fun s => unmarshal_pairs (bytes_of_string s) ≫= (fun m => Ok (m !! "request"%string))
                   = Ok (Some (IString "active checks")))
    [ " { " +:+ dq +:+ "request" +:+ dq +:+ " : " +:+ dq +:+ "active checks" +:+ dq +:+ " } ";
      "{" +:+ dq +:+ "request" +:+ dq +:+ ":" +:+ dq +:+ "\u0061ctive\u0020checks" +:+ dq +:+ "}";
      "{" +:+ dq +:+ "host" +:+ dq +:+ ":[1,2.5e3,null]," +:+ dq +:+ "request" +:+ dq +:+ ":"
          +:+ dq +:+ "active checks" +:+ dq +:+ "}";
      "{" +:+ dq +:+ "request" +:+ dq +:+ ":1," +:+ dq +:+ "request" +:+ dq +:+ ":"
          +:+ dq +:+ "active checks" +:+ dq +:+ "}" ]%string.
Proof. repeat apply Forall_cons_2; try apply Forall_nil_2; by vm_compute. Qed.

(** Texts that are refused: an array, a bare string, an object that is
    not closed, an object with a number beyond the range of float64. *)
Example unmarshal_refused :
  Forall (fun s => is_ok (unmarshal_pairs (bytes_of_string s)) = false)
    [ "[1]"; dq +:+ "active checks" +:+ dq;
      "{" +:+ dq +:+ "request" +:+ dq +:+ ":" +:+ dq +:+ "active checks" +:+ dq;
      "{" +:+ dq +:+ "request" +:+ dq +:+ ":" +:+ dq +:+ "active checks" +:+ dq +:+ ","
          +:+ dq +:+ "n" +:+ dq +:+ ":1e999}" ]%string.
Proof. repeat apply Forall_cons_2; try apply Forall_nil_2; by vm_compute. Qed.

(** Numbers as float64: a tenth, the largest float64, the smallest
    positive one, a tie that goes to the even neighbour, and a number
    that is too large. *)
Example number_float_values :
  (fun s => scan_number (bytes_of_string s) ≫= fun r => number_float r.1) <$>
    ["0.1"; "1.7976931348623157e308"; "5e-324"; "9007199254740993"; "1e309"; "-0"]%string
  = [ Some (S754_finite false 7205759403792794 (-56));
      Some (S754_finite false 9007199254740991 971);
      Some (S754_finite false 1 (-1074));
      Some (S754_finite false 4503599627370496 1);
      None;
      Some (S754_zero true) ].
Proof. by vm_compute. Qed.

