(* ===== verification/World.v ===== *)
(** * World: the server and its goroutines on the wire

    The pool of [Pool] run against the network of [Wire]: main binds the
    listener and accepts the connections of the backlog, each goroutine
    reads, answers and closes the endpoint of its connection, in an
    order the scheduler chooses.  [wrun] is such a run with the network
    it leaves; [exec_net] computes it for a schedule.

    The theorems say that the goroutines do not disturb each other
    through the network: in every run each goroutine makes the calls,
    and leaves its endpoint in the state, of the handler run alone on
    the network the server started with; and that the server touches
    no connection it started no handler for. *)

From Stdlib Require Import ZArith Lia.
From S2P Require Import Prelude Options Json Effects Handler Bootstrap Server Pool.
From S2P Require Import Wire Service Conf.

#[local] Open Scope Z_scope.
#[local] Open Scope mock_scope.

(** ** Runs on an environment *)

Section Runs.
Context {L : LogPkg} {J : JsonPkg} {W : Type}.

(** The state of the environment after the run of a schedule. *)
Fixpoint exec_net (h : env W) (sched : list tid) (s : system) (w : W) : W :=
  match sched with
  | [] => w
  | th :: sched' =>
      match turn h th s w with
      | Some (_, s', w') => exec_net h sched' s' w'
      | None => exec_net h sched' s w
      end
  end.

(** The runs of the pool in which every call is answered by the
    environment [h]. *)
Inductive wrun (h : env W) (s0 : system) (w0 : W) : list gevent -> system -> W -> Prop :=
| wrun_nil : wrun h s0 w0 [] s0 w0
| wrun_snoc g s w th ev s' w' :
    wrun h s0 w0 g s w ->
    turn h th s w = Some (ev, s', w') ->
    wrun h s0 w0 (g ++ [ev]) s' w'.

End Runs.

(** The connections of a backlog. *)
Definition oks (q : list (result conn)) : list conn := omap result_value q.

(** The calls of a program are calls on the connection [c], or log
    lines. *)
Fixpoint on_conn {R} (c : conn) (p : prog R) : Prop :=
  match p with
  | Ret _ => True
  | Vis e k => (event_conn e = Some c \/ event_kind e = KLogf) /\ forall x, on_conn c (k x)
  end.

(** A machine with files: the configuration and the canned response are
    read from [files], the logger opens. *)
Definition disk_host (args : parsed) (files : gmap string bytes) : host :=
  {| host_args := args;
     host_conf path cur :=
       match files !! path with
       | Some text => conf_load (string_of_bytes text) cur
       | None => Fail ("open " +:+ path +:+ ": no such file or directory")
       end;
     host_log := None;
     host_file path :=
       match files !! path with
       | Some b => Ok b
       | None => Fail ("open " +:+ path +:+ ": no such file or directory")
       end;
     host_listen := None |}.

(** The answers of the packages that keep no state are those of the
    oracle. *)
Definition answered (o : oracle) (l : label) : Prop :=
  match l with
  | LConfLoad path cur r => r = o _ (ConfLoad path cur)
  | LReadFile path r => r = o _ (ReadFile path)
  | LFlagParse fs r => r = o _ (FlagParse fs)
  | LLogOpen t lv f r => r = o _ (LogOpen t lv f)
  | _ => True
  end.

(** What a run of the server on the network [w0] keeps true, whatever the
    schedule: the backlog holds the connections not accepted yet; each
    goroutine, run to its end from where it is, completes the calls and
    reaches the endpoint of its handler run alone on [w0]; a connection
    no handler was started on is as it was. *)
Record isolated {F : Framing} {J : JsonPkg} (busy : list string) (o : oracle)
    (w0 : net) (g : list gevent) (s : system) (w : net) : Prop := mkIsolated {
  iso_backlog :
    oks (net_backlog w0) = accepted (thread_trace None g) ++ oks (net_backlog w);
  iso_thread i p c ac d :
    sys_pool s !! i = Some p ->
    spawned (thread_trace None g) !! i = Some (c, ac, d) ->
    thread_trace (Some i) g ++ (run (wire_env busy o) p w).1.1 = (serve busy o c ac d w0).1 /\
    net_conns (run (wire_env busy o) p w).2 !! c = net_conns (serve busy o c ac d w0).2 !! c;
  iso_rest c :
    (forall i ac d, spawned (thread_trace None g) !! i <> Some (c, ac, d)) ->
    net_conns w !! c = net_conns w0 !! c;
}.

(** A machine for the examples: the sample configuration file, the
    canned response AC1, no argument on the command line; two clients
    have connected, one asks for the active checks and one pings, and the
    listener fails at the third Accept. *)
Definition sample_files : gmap string bytes :=
  {[ "mock_server.conf"%string := bytes_of_string sample_conf;
     "active_checks.json"%string := canned ]}.

Definition sample_oracle : oracle := host_oracle (disk_host (Parsed []) sample_files).

Definition sample_world : net :=
  mkNet None [Ok 7%nat; Ok 8%nat; Fail "too many open files"]
    {[ 7%nat := ep_fresh (zbx_frame active_request);
       8%nat := ep_fresh (zbx_frame ping_request) ]}.

(** The sample schedule of [Pool] on this machine: the calls, the pool
    and the network it leaves. *)
Definition world_run : list gevent * system :=
  exec (J:=sample_json) (wire_env (F:=zbxd) [] sample_oracle)
    sample_schedule (init (L:=sample_log) 5) sample_world.

Definition world_net : net :=
  exec_net (J:=sample_json) (wire_env (F:=zbxd) [] sample_oracle)
    sample_schedule (init (L:=sample_log) 5) sample_world.

(** ** Lemmas *)

Section RunFacts.
Context {L : LogPkg} {J : JsonPkg} {W : Type}.
Implicit Types (h : env W) (s : system) (w : W) (g : list gevent).

Lemma wrun_reach h s0 w0 g s w : wrun h s0 w0 g s w -> reach s0 g s.
Proof.
  induction 1 as [|g s w th ev s' w' _ IH Ht]; [constructor|].
  eapply reach_snoc; [done|by eapply turn_step].
Qed.

Lemma wrun_cons h s0 w0 th ev s1 w1 g s w :
  turn h th s0 w0 = Some (ev, s1, w1) -> wrun h s1 w1 g s w -> wrun h s0 w0 (ev :: g) s w.
Proof.
  intros Ht. induction 1 as [|g s w th' ev' s' w' _ IH Ht'].
  - apply (wrun_snoc h s0 w0 [] s0 w0 th); [constructor|done].
  - rewrite app_comm_cons. by eapply wrun_snoc.
Qed.

(** The scheduler computes such a run. *)
Lemma exec_wrun h sched s w :
  wrun h s w (exec h sched s w).1 (exec h sched s w).2 (exec_net h sched s w).
Proof.
  revert s w. induction sched as [|th sched IH]; intros s w; simpl; [constructor|].
  destruct (turn h th s w) as [[[ev s'] w']|] eqn:Ht; [|done].
  simpl. by eapply wrun_cons.
Qed.

End RunFacts.

(** *** Programs on one connection *)

Section OnConn.
Context {F : Framing} {J : JsonPkg}.
Context (busy : list string) (o : oracle).
Implicit Types (c : conn) (w : net).

Lemma handleConnection_on_conn c ac tFlag : on_conn c (handleConnection c ac tFlag).
Proof.
  unfold handleConnection, defer.
  repeat (simpl; first [ exact I | done | split; [by auto|] | intros [] | case_match ]).
Qed.

Lemma on_conn_pstep {R} c (p : prog R) l q :
  on_conn c p -> pstep p l q ->
  on_conn c q /\ (label_conn l = Some c \/ label_kind l = KLogf).
Proof.
  destruct p as [r|X e k]; simpl; [done|]. intros [He Hk] (x & -> & ->).
  split; [done|]. rewrite label_kind_label_of. destruct He as [He|He]; [left|by right].
  destruct e; done.
Qed.

Lemma on_conn_psteps {R} c (p : prog R) t q : on_conn c p -> psteps p t q -> on_conn c q.
Proof.
  revert p. induction t as [|l t IH]; simpl; intros p Hp; [by intros <-|].
  intros (p' & Hs & Hq). eapply IH; [|done]. by eapply on_conn_pstep.
Qed.

(** A log line is answered without a look at the network. *)
Lemma answer_log {X} (e : event X) w :
  event_kind e = KLogf -> (answer (wire_env busy o) e w) = (o _ e, w).
Proof. by destruct e. Qed.

Lemma run_vis {W R X} (h : env W) (e : event X) (k : X -> prog R) (w : W) :
  run h (Vis e k) w =
    (label_of e (answer h e w).1 :: (run h (k (answer h e w).1) (answer h e w).2).1.1,
     (run h (k (answer h e w).1) (answer h e w).2).1.2,
     (run h (k (answer h e w).1) (answer h e w).2).2).
Proof. done. Qed.

(** The run of a program on one connection depends on the endpoint of
    that connection only, and changes no other. *)
Lemma run_local {R} c (p : prog R) w1 w2 :
  on_conn c p -> net_conns w1 !! c = net_conns w2 !! c ->
  (run (wire_env busy o) p w1).1 = (run (wire_env busy o) p w2).1 /\
  net_conns (run (wire_env busy o) p w1).2 !! c =
    net_conns (run (wire_env busy o) p w2).2 !! c.
Proof.
  revert w1 w2. induction p as [r|X e k IH]; intros w1 w2 Hp Hc; [done|].
  destruct Hp as [He Hk]. rewrite !run_vis. cbn [fst snd].
  assert ((answer (wire_env busy o) e w1).1 = (answer (wire_env busy o) e w2).1 /\
          net_conns (answer (wire_env busy o) e w1).2 !! c =
            net_conns (answer (wire_env busy o) e w2).2 !! c) as [Ha Hc'].
  { destruct He as [He|He]; [by apply answer_local|]. by rewrite !(answer_log e). }
  rewrite Ha. destruct (IH (answer (wire_env busy o) e w2).1 _ _ (Hk _) Hc') as [-> ->].
  done.
Qed.

End OnConn.

(** *** The calls of main *)

Section MainShape.
Context {L : LogPkg} {J : JsonPkg}.

Lemma spawned_prefix t1 t2 : t1 `prefix_of` t2 -> spawned t1 `prefix_of` spawned t2.
Proof. intros [k ->]. rewrite spawned_app. by eexists. Qed.

(** In the beginning of the calls of the loop, the handlers started are
    on the first of the connections accepted. *)
Lemma dispatched_prefix ac o conns tail t :
  t `prefix_of` dispatched ac o conns ++ tail -> spawned tail = [] ->
  (spawned t).*1.*1 `prefix_of` accepted t.
Proof.
  intros Ht Htail. revert t Ht. induction conns as [|c conns IH]; intros t Ht.
  - apply spawned_prefix in Ht. simpl in Ht. rewrite Htail in Ht.
    apply prefix_nil_inv in Ht as ->. apply prefix_nil.
  - rewrite dispatched_cons in Ht. destruct t as [|l t]; [apply prefix_nil|].
    simpl in Ht. apply prefix_cons_inv_1 in Ht as Hl. apply prefix_cons_inv_2 in Ht. subst l.
    destruct t as [|l t]; [apply prefix_nil|].
    apply prefix_cons_inv_1 in Ht as Hl. apply prefix_cons_inv_2 in Ht. subst l.
    simpl. apply prefix_cons. by apply IH.
Qed.

(** The same of every beginning of the calls of main. *)
Lemma main_spawned_accepted fuel t q :
  psteps (main fuel) t q -> (spawned t).*1.*1 `prefix_of` accepted t.
Proof.
  intros (t' & r & Ht)%psteps_prefix. apply main_paths in Ht.
  assert (forall t0 srv X, started t0 srv -> t ++ t' = t0 ++ X ->
            (exists ac o conns tail, X = dispatched ac o conns ++ tail /\ spawned tail = []) ->
            (spawned t).*1.*1 `prefix_of` accepted t) as Hgen.
  { intros t0 srv X Hs Heq (ac & o & conns & tail & -> & Htail).
    destruct (started_quiet _ _ Hs) as (Hgo & Hacc & _).
    assert (spawned t0 = []) as Hsp.
    { clear -Hgo. induction t0 as [|l t0 IH]; [done|]. rewrite bind_cons in Hgo.
      apply app_eq_nil in Hgo as [Hl Hgo]. simpl. destruct l; try done; by apply IH. }
    apply app_eq_inv in Heq as [(k & -> & Hk)|(k & -> & ->)].
    - rewrite spawned_app, accepted_app, Hsp, Hacc. simpl.
      apply (dispatched_prefix ac o conns tail); [|done]. rewrite Hk. by eexists.
    - rewrite spawned_app in Hsp. apply app_eq_nil in Hsp as [-> _]. apply prefix_nil. }
  inversion Ht as [t0 out Hs|t0 srv t1 Hs Hl|t0 srv t1 out Hs Hl]; subst.
  - apply (Hgen _ _ [] Hs); [by rewrite app_nil_r|]. by exists [], options, [], [].
  - inversion Hl; subst. eapply Hgen; [done..|]. eexists _, _, _, []. by rewrite app_nil_r.
  - inversion Hl; subst. eapply Hgen; [done..|].
    eexists _, _, _, (accept_failed _ ++ [LListenerClose]). by rewrite <- app_assoc.
Qed.

End MainShape.

(** *** Isolation *)

Section Isolation.
Context {F : Framing} {J : JsonPkg} {L : LogPkg}.
Context (busy : list string) (o : oracle).
Implicit Types (c : conn) (w : net) (g : list gevent) (s : system).

(** A call takes a connection off the backlog exactly when it is an
    Accept that succeeds. *)
Lemma answer_backlog {X} (e : event X) w :
  oks (net_backlog w) =
    accepted [label_of e (answer (wire_env busy o) e w).1] ++
    oks (net_backlog (answer (wire_env busy o) e w).2).
Proof.
  destruct e; try done; simpl.
  - unfold conn_read. by destruct (net_conns w !! c).
  - unfold conn_write. by destruct (net_conns w !! c).
  - unfold listen. by case_decide.
  - unfold accept.
    destruct (net_bound w), (net_backlog w) as [|[c|e] q] eqn:E; simpl; by rewrite ?E.
Qed.

(** A call on a connection, or a log line, leaves the other connections
    alone. *)
Lemma answer_elsewhere {X} (e : event X) w c c' :
  event_conn e = Some c \/ event_kind e = KLogf -> c' <> c ->
  net_conns (answer (wire_env busy o) e w).2 !! c' = net_conns w !! c'.
Proof.
  intros He Hne. apply answer_other. destruct He as [He|He]; [congruence|by destruct e].
Qed.

(** The handlers of a run are on different connections when the
    backlog holds no connection twice. *)
Lemma spawned_NoDup fuel w0 t q w :
  NoDup (oks (net_backlog w0)) ->
  psteps (main fuel) t q ->
  oks (net_backlog w0) = accepted t ++ oks (net_backlog w) ->
  NoDup (spawned t).*1.*1.
Proof.
  intros Hnd Hm Hb. apply main_spawned_accepted in Hm as [k Hk].
  rewrite Hb, Hk in Hnd. by apply NoDup_app in Hnd as [[Hnd _]%NoDup_app _].
Qed.

Lemma spawned_owner_list (l : list (conn * bytes * Z)) i j c ac d ac' d' :
  NoDup l.*1.*1 -> l !! i = Some (c, ac, d) -> l !! j = Some (c, ac', d') -> i = j.
Proof.
  intros Hnd Hi Hj. eapply NoDup_lookup; [done| |].
  - by rewrite !list_lookup_fmap, Hi.
  - by rewrite !list_lookup_fmap, Hj.
Qed.

Lemma go_statement_lookup (l : label) n p :
  go_statement l !! n = Some p ->
  n = 0%nat /\ exists c ac d, l = LGo c ac d /\ p = handleConnection c ac d.
Proof.
  destruct l; simpl; rewrite ?lookup_nil; try done.
  intros [-> <-]%list_lookup_singleton_Some. split; [done|]. by eexists _, _, _.
Qed.

(** A goroutine of a run is on the connection of its [go] statement. *)
Lemma reach_on_conn fuel g s i p c ac d :
  reach (init fuel) g s -> sys_pool s !! i = Some p ->
  spawned (thread_trace None g) !! i = Some (c, ac, d) -> on_conn c p.
Proof.
  intros Hr Hp Hs.
  destruct (reach_goroutine _ _ _ _ _ Hr eq_refl Hp) as (c' & ac' & d' & Hs' & Hps).
  simplify_eq. eapply on_conn_psteps; [apply handleConnection_on_conn|done].
Qed.

Section Preservation.
Context (fuel : nat) (w0 : net) (Hnd : NoDup (oks (net_backlog w0))).

(** A call of main keeps the invariant. *)
Lemma isolated_main g s w {X} (e : event X) k :
  reach (init fuel) g s -> isolated busy o w0 g s w -> sys_main s = Vis e k ->
  isolated busy o w0 (g ++ [(None, label_of e (answer (wire_env busy o) e w).1)])
    (mkSystem (k (answer (wire_env busy o) e w).1)
       (sys_pool s ++ go_statement (label_of e (answer (wire_env busy o) e w).1)))
    (answer (wire_env busy o) e w).2.
Proof.
  intros Hr Hi Hm. set (a := answer _ e w). set (l := label_of e a.1).
  pose proof (reach_main _ _ _ Hr) as HT. simpl in HT. rewrite Hm in HT.
  assert (psteps (main fuel) (thread_trace None g ++ [l]) (k a.1)) as HT'
    by (eapply psteps_snoc; [done|apply pstep_vis]).
  assert (net_conns a.2 = net_conns w) as Hc.
  { apply answer_conns. rewrite <- (label_conn_label_of e a.1).
    apply (main_no_conn fuel _ _ l HT'). set_solver. }
  assert (oks (net_backlog w0) =
          accepted (thread_trace None g ++ [l]) ++ oks (net_backlog a.2)) as Hb.
  { unfold l, a. rewrite accepted_app, <- app_assoc, <- (answer_backlog e w). apply Hi. }
  pose proof (spawned_NoDup _ _ _ _ _ Hnd HT' Hb) as Hsp.
  pose proof (reach_pool_length _ _ _ Hr) as Hlen. simpl in Hlen.
  split.
  - by rewrite thread_trace_snoc.
  - intros i p c ac d. cbn [sys_pool].
    rewrite thread_trace_snoc, thread_trace_snoc_ne by done.
    intros [Hp|[Hle Hp]]%lookup_app_Some Hs.
    + rewrite spawned_app, lookup_app_l in Hs by (apply lookup_lt_Some in Hp; lia).
      destruct (iso_thread _ _ _ _ _ _ Hi i p c ac d Hp Hs) as [H1 H2].
      destruct (run_local busy o c p a.2 w) as [E1 E2];
        [by eapply reach_on_conn|by rewrite Hc|]. by rewrite E1, E2.
    + apply go_statement_lookup in Hp as (Hn & c' & ac' & d' & Hl & ->).
      assert (i = length (spawned (thread_trace None g))) as Hi' by lia.
      rewrite Hl, spawned_app in Hs, Hsp. simpl in Hs.
      rewrite Hi', lookup_app_r, Nat.sub_diag in Hs by done. simpl in Hs. simplify_eq.
      rewrite (reach_idle _ _ _ _ Hr Hle).
      destruct (run_local busy o c (handleConnection c ac d) a.2 w0) as [E1 E2];
        [apply handleConnection_on_conn| |unfold serve; by rewrite E1, E2].
      rewrite Hc. apply Hi. intros j ac' d' Hj.
      assert (j = length (spawned (thread_trace None g))); [|apply lookup_lt_Some in Hj; lia].
      eapply (spawned_owner_list _ j _ c); [done|by apply lookup_app_l_Some|].
      by rewrite lookup_app_r, Nat.sub_diag.
  - intros c Hc'. rewrite Hc. apply Hi. intros i ac d Hs. apply (Hc' i ac d).
    rewrite thread_trace_snoc, spawned_app. by apply lookup_app_l_Some.
Qed.

(** A call of a goroutine keeps the invariant. *)
Lemma isolated_goroutine g s w j {X} (e : event X) k :
  reach (init fuel) g s -> isolated busy o w0 g s w -> sys_pool s !! j = Some (Vis e k) ->
  isolated busy o w0 (g ++ [(Some j, label_of e (answer (wire_env busy o) e w).1)])
    (mkSystem (sys_main s) (<[j := k (answer (wire_env busy o) e w).1]> (sys_pool s)))
    (answer (wire_env busy o) e w).2.
Proof.
  intros Hr Hi Hj.
  destruct (reach_goroutine _ _ _ _ _ Hr eq_refl Hj) as (cj & acj & dj & Hsj & Hps).
  destruct (reach_on_conn _ _ _ _ _ _ _ _ Hr Hj Hsj) as [He Hk].
  pose proof (spawned_NoDup _ _ _ _ _ Hnd (reach_main _ _ _ Hr) (iso_backlog _ _ _ _ _ _ Hi))
    as Hsp.
  split.
  - rewrite thread_trace_snoc_ne by done. rewrite (iso_backlog _ _ _ _ _ _ Hi). f_equal.
    rewrite (answer_backlog e w) at 1.
    by destruct He as [He|He]; destruct e.
  - intros i p c ac d. cbn [sys_pool]. rewrite thread_trace_snoc_ne by done.
    intros Hp Hs. destruct (decide (i = j)) as [->|Hne].
    + rewrite list_lookup_insert_eq in Hp by (by eapply lookup_lt_Some). simplify_eq.
      destruct (iso_thread _ _ _ _ _ _ Hi j _ _ _ _ Hj Hsj) as [H1 H2].
      rewrite run_vis in H1, H2. by rewrite thread_trace_snoc, <- app_assoc.
    + rewrite list_lookup_insert_ne in Hp by done.
      rewrite thread_trace_snoc_ne by congruence.
      destruct (iso_thread _ _ _ _ _ _ Hi i p c ac d Hp Hs) as [H1 H2].
      destruct (run_local busy o c p (answer (wire_env busy o) e w).2 w) as [E1 E2];
        [by eapply reach_on_conn| |by rewrite E1, E2].
      apply (answer_elsewhere e w cj); [done|]. intros ->. apply Hne.
      by eapply spawned_owner_list.
  - intros c Hc. rewrite thread_trace_snoc_ne in Hc by done.
    rewrite <- (iso_rest _ _ _ _ _ _ Hi c Hc).
    apply (answer_elsewhere e w cj); [done|]. intros ->. by apply (Hc j acj dj).
Qed.

(** Every run of the server keeps the invariant. *)
Lemma wrun_isolated g s w :
  wrun (wire_env busy o) (init fuel) w0 g s w -> isolated busy o w0 g s w.
Proof.
  induction 1 as [|g s w th ev s' w' Hr IH Ht].
  - split; [done| |done]. intros i p c ac d Hp. simpl in Hp. by rewrite lookup_nil in Hp.
  - apply wrun_reach in Hr. destruct th as [j|], s as [m pool]; simpl in Ht.
    + case_decide; [done|]. destruct (pool !! j) as [[r|X e k]|] eqn:Hj; simplify_eq/=.
      by apply (isolated_goroutine g (mkSystem m pool)).
    + destruct m as [r|X e k]; simplify_eq/=.
      by apply (isolated_main g (mkSystem (Vis e k) pool)).
Qed.

End Preservation.

(** *** What the environment answered *)

Lemma turn_label th s w ev s' w' :
  turn (wire_env busy o) th s w = Some (ev, s', w') ->
  exists X (e : event X),
    ev.2 = label_of e (answer (wire_env busy o) e w).1 /\
    w' = (answer (wire_env busy o) e w).2.
Proof.
  destruct th as [j|], s as [m pool]; simpl.
  - case_decide; [done|]. destruct (pool !! j) as [[r|X e k]|]; intros; simplify_eq/=. eauto.
  - destruct m as [r|X e k]; intros; simplify_eq/=. eauto.
Qed.

Lemma wrun_answered s0 w0 g s w :
  wrun (wire_env busy o) s0 w0 g s w -> Forall (fun ev => answered o ev.2) g.
Proof.
  induction 1 as [|g s w th ev s' w' _ IH Ht]; [done|].
  apply Forall_app. split; [done|]. apply Forall_singleton.
  apply turn_label in Ht as (X & e & -> & _). by destruct e.
Qed.

(** Every run of any program moves the network along its history and
    keeps it well formed: this much is the environment's doing. *)
Lemma wrun_le s0 w0 g s w : wrun (wire_env busy o) s0 w0 g s w -> net_le w0 w.
Proof.
  induction 1 as [|g s w th ev s' w' _ IH Ht]; [done|].
  apply turn_label in Ht as (X & e & _ & ->). etrans; [done|apply answer_le].
Qed.

Lemma wrun_wf s0 w0 g s w :
  wrun (wire_env busy o) s0 w0 g s w -> net_wf w0 -> net_wf w.
Proof.
  induction 1 as [|g s w th ev s' w' _ IH Ht]; [done|]. intros Hwf%IH.
  apply turn_label in Ht as (X & e & _ & ->). by apply answer_wf.
Qed.

(** A handler is started with the canned response and the timeout of
    the start-up, after the configuration and the file were read. *)
Lemma spawned_serving fuel t q i c ac d :
  psteps (main fuel) t q -> spawned t !! i = Some (c, ac, d) ->
  exists vals o1 o2,
    LFlagParse flags (Parsed vals) ∈ t /\
    LConfLoad (confFlag_of vals) options (Ok o1) ∈ t /\
    LConfLoad (confFlag_of vals) o1 (Ok o2) ∈ t /\
    LReadFile (ActiveChecksFile o2) (Ok ac) ∈ t /\ d = Timeout o2.
Proof.
  intros (t' & r & Ht)%psteps_prefix Hi. apply main_paths in Ht.
  assert (LGo c ac d ∈ t) as Hgo.
  { apply list_elem_of_lookup_2 in Hi. apply list_elem_of_omap in Hi as (l & Hl & Hs).
    by destruct l; simplify_eq/=. }
  assert (forall t0 (r0 : outcome + serving), started t0 r0 -> LGo c ac d ∉ t0) as Hno.
  { intros t0 r0 Hs Hin. apply (started_kinds _ _ _ Hs) in Hin.
    unfold startup_kinds in Hin. simpl in Hin. elem_of_inv. }
  assert (forall t0 srv X, started t0 (inr srv) -> t ++ t' = t0 ++ X ->
            (LGo c ac d ∈ X -> ac = srv_activeChecks srv /\ d = Timeout (srv_options srv)) ->
            exists vals o1 o2,
              LFlagParse flags (Parsed vals) ∈ t /\
              LConfLoad (confFlag_of vals) options (Ok o1) ∈ t /\
              LConfLoad (confFlag_of vals) o1 (Ok o2) ∈ t /\
              LReadFile (ActiveChecksFile o2) (Ok ac) ∈ t /\ d = Timeout o2) as Hgen.
  { intros t0 srv X Hs Heq HX.
    apply app_eq_inv in Heq as [(k & -> & Hk)|(k & -> & ->)].
    - apply elem_of_app in Hgo as [Hgo|Hgo]; [by apply Hno in Hs|].
      destruct HX as [-> ->]; [rewrite Hk; set_solver|].
      apply started_serving_inv in Hs as (vals & o1 & ->).
      exists vals, o1, (srv_options srv). unfold loaded, greeted.
      split_and!; [set_solver..|done].
    - exfalso. apply (Hno _ _ Hs). set_solver. }
  inversion Ht as [t0 out Hs|t0 srv t1 Hs Hl|t0 srv t1 out Hs Hl]; subst.
  - exfalso. apply (Hno _ _ Hs). set_solver.
  - inversion Hl; subst. eapply Hgen; [done..|].
    by intros (c' & _ & [?|[= -> -> ->]])%elem_of_dispatched.
  - inversion Hl; subst. eapply Hgen; [done..|].
    rewrite !elem_of_app, elem_of_dispatched. unfold accept_failed.
    intros [[(c' & _ & [?|[= -> -> ->]])|?]|?]; [done|done|set_solver..].
Qed.

(** A goroutine that has finished made the calls of its handler run
    alone, and left its endpoint as [respond] says. *)
Lemma wrun_finished fuel w0 g s w i c ac d :
  NoDup (oks (net_backlog w0)) ->
  wrun (wire_env busy o) (init fuel) w0 g s w ->
  spawned (thread_trace None g) !! i = Some (c, ac, d) ->
  exists p, sys_pool s !! i = Some p /\
    thread_trace (Some i) g ++ (run (wire_env busy o) p w).1.1 = (serve busy o c ac d w0).1 /\
    (p = Ret tt -> net_conns w !! c = respond ac d <$> net_conns w0 !! c).
Proof.
  intros Hnd Hr Hs. pose proof (wrun_isolated fuel w0 Hnd _ _ _ Hr) as Hi.
  apply wrun_reach in Hr.
  destruct (lookup_lt_is_Some_2 (sys_pool s) i) as [p Hp].
  { rewrite (reach_pool_length _ _ _ Hr). simpl. by eapply lookup_lt_Some. }
  destruct (iso_thread _ _ _ _ _ _ Hi i p c ac d Hp Hs) as [H1 H2].
  exists p. split_and!; [done..|]. intros ->.
  change (net_conns w !! c = net_conns (serve busy o c ac d w0).2 !! c) in H2.
  rewrite H2, serve_alter. cbn [with_conns net_conns]. apply lookup_alter_eq.
Qed.

End Isolation.

(** ** Theorems *)

Section WorldTheorems.
Context {F : Framing} {J : JsonPkg} {L : LogPkg}.
Context (busy : list string).

(** C6: The goroutines do not disturb each other through the network.
    In every run of the server on a network whose backlog holds no
    connection twice, whatever the schedule, the calls a goroutine has
    made, with their results, are the beginning of the calls of its
    handler run alone on the network the server started with; when the
    goroutine has finished they are all of them, and the endpoint of its
    connection is what [respond] makes of the endpoint at the start. *)
Theorem goroutine_runs_alone (o : oracle) fuel w0 g s w i c ac d :
  NoDup (oks (net_backlog w0)) ->
  wrun (wire_env busy o) (init fuel) w0 g s w ->
  spawned (thread_trace None g) !! i = Some (c, ac, d) ->
  thread_trace (Some i) g `prefix_of` (serve busy o c ac d w0).1 /\
  (sys_pool s !! i = Some (Ret tt) ->
     thread_trace (Some i) g = (serve busy o c ac d w0).1 /\
     net_conns w !! c = respond ac d <$> net_conns w0 !! c).
Proof.
  intros Hnd Hr Hs.
  destruct (wrun_finished busy o _ _ _ _ _ _ _ _ _ Hnd Hr Hs) as (p & Hp & H1 & H2).
  split; [rewrite <- H1; by eexists|]. intros Hp'. rewrite Hp' in Hp. simplify_eq.
  simpl in H1. rewrite app_nil_r in H1. auto.
Qed.

(** C5: End to end.  On a machine with files, in every run of the server
    and whatever else is going on, a client that sent the request for
    the active checks as one frame and whose handler has finished has
    been sent exactly one frame, which holds the contents of the file the
    configuration names as ActiveChecksFile; the connection is closed.
    The timeout the handler was started with is the one of a valid
    configuration. *)
Theorem client_answered args files fuel w0 g s w i c ac d js rest :
  NoDup (oks (net_backlog w0)) ->
  wrun (wire_env busy (host_oracle (disk_host args files))) (init fuel) w0 g s w ->
  spawned (thread_trace None g) !! i = Some (c, ac, d) ->
  sys_pool s !! i = Some (Ret tt) ->
  net_conns w0 !! c = Some (ep_fresh (frame js ++ rest)) ->
  fits js -> is_active_checks js = true -> fits ac ->
  net_conns w !! c = Some (mkEndpoint rest (frame ac) false false) /\
  exists opts, options_valid opts /\ d = Timeout opts /\
    files !! ActiveChecksFile opts = Some ac.
Proof.
  intros Hnd Hr Hs Hp Hc Hjs Hreq Hac.
  destruct (spawned_serving fuel _ _ _ _ _ _ (reach_main _ _ _ (wrun_reach _ _ _ _ _ _ Hr)) Hs)
    as (vals & o1 & o2 & _ & _ & Hconf & Hfile & ->).
  pose proof (wrun_answered busy _ _ _ _ _ _ Hr) as Ha. rewrite Forall_forall in Ha.
  apply elem_of_thread_trace, Ha in Hconf. apply elem_of_thread_trace, Ha in Hfile.
  simpl in Hconf, Hfile.
  destruct (files !! confFlag_of vals) as [text|]; [|done].
  destruct (files !! ActiveChecksFile o2) as [b|] eqn:Hb; [|done].
  symmetry in Hconf. apply conf_load_Ok_valid in Hconf. simplify_eq.
  split; [|by exists o2].
  destruct (wrun_finished busy _ _ _ _ _ _ _ _ _ _ Hnd Hr Hs) as (p & Hp' & _ & H2).
  rewrite Hp' in Hp. simplify_eq. rewrite H2, Hc by done. simpl. f_equal.
  apply (respond_answers _ _ js rest []); [by apply seconds_valid_pos|done..].
Qed.

(** What the server, and not only the environment, does to the
    network.  In every run on a network whose backlog holds no connection
    twice, whatever the schedule: a connection no handler was started for
    is left exactly as it was, also when it is still in the backlog; a
    connection a handler was started for lies between the endpoint at the
    start and what [respond] makes of it, so the server consumes at most
    one request from it, sends at most the one response and nothing else.
    A program that closed a connection it had not accepted, or wrote
    twice, would not satisfy this. *)
Theorem server_bounds_network (o : oracle) fuel w0 g s w c ep0 :
  NoDup (oks (net_backlog w0)) ->
  wrun (wire_env busy o) (init fuel) w0 g s w ->
  net_conns w0 !! c = Some ep0 ->
  exists ep, net_conns w !! c = Some ep /\ ep_le ep0 ep /\
    ((forall i ac d, spawned (thread_trace None g) !! i <> Some (c, ac, d)) -> ep = ep0) /\
    (forall i ac d, spawned (thread_trace None g) !! i = Some (c, ac, d) ->
       ep_le ep (respond ac d ep0)).
Proof.
  intros Hnd Hr Hc. pose proof (wrun_isolated busy o fuel w0 Hnd _ _ _ Hr) as Hi.
  destruct (wrun_le busy o _ _ _ _ _ Hr) as [Hle _]. specialize (Hle c).
  rewrite Hc in Hle. inversion Hle as [? ep Hep E1 E2|]; subst. symmetry in E2.
  exists ep. split_and!; [done..| |].
  - intros Hno. apply (iso_rest _ _ _ _ _ _ Hi) in Hno. congruence.
  - intros i ac d Hs. apply wrun_reach in Hr.
    destruct (lookup_lt_is_Some_2 (sys_pool s) i) as [p Hp].
    { rewrite (reach_pool_length _ _ _ Hr). simpl. by eapply lookup_lt_Some. }
    destruct (iso_thread _ _ _ _ _ _ Hi i p c ac d Hp Hs) as [_ H2].
    destruct (run_le busy o p w) as [Hrun _]. specialize (Hrun c).
    rewrite E2, H2 in Hrun.
    change (option_Forall2 ep_le (Some ep) (net_conns (serve busy o c ac d w0).2 !! c)) in Hrun.
    rewrite (serve_respond _ _ _ _ _ _ _ Hc) in Hrun. cbn [with_conns net_conns] in Hrun.
    rewrite lookup_insert_eq in Hrun. by inversion Hrun.
Qed.

End WorldTheorems.

(** ** Witnesses and examples *)

Lemma world_run_wrun :
  wrun (J:=sample_json) (wire_env (F:=zbxd) [] sample_oracle)
    (init (L:=sample_log) 5) sample_world world_run.1 world_run.2 world_net.
Proof. apply exec_wrun. Qed.

(** The sample run: the client that asked for the active checks was sent
    the framed response, the one that pinged nothing; both connections
    are closed, the listener is closed and the backlog is empty. *)
Example world_net_final :
  world_net =
    mkNet None []
      {[ 7%nat := mkEndpoint [] (zbx_frame canned) false false;
         8%nat := mkEndpoint [] [] false false ]}.
Proof. by vm_compute. Qed.

Section Sample.
#[local] Existing Instances sample_log sample_json.

Lemma goroutine_runs_alone_witness :
  thread_trace (Some 0%nat) world_run.1 `prefix_of`
    (serve (F:=zbxd) (J:=sample_json) [] sample_oracle 7%nat canned 5 sample_world).1 /\
  (sys_pool world_run.2 !! 0%nat = Some (Ret tt) ->
     thread_trace (Some 0%nat) world_run.1 =
       (serve (F:=zbxd) (J:=sample_json) [] sample_oracle 7%nat canned 5 sample_world).1 /\
     net_conns world_net !! 7%nat = respond canned 5 <$> net_conns sample_world !! 7%nat).
Proof.
  apply (goroutine_runs_alone (L:=sample_log) [] sample_oracle 5 _ _ _ _ _ _ _ _);
    [by apply (bool_decide_unpack _)|apply world_run_wrun|by vm_compute].
Defined.

Lemma client_answered_witness :
  net_conns world_net !! 7%nat = Some (mkEndpoint [] (zbx_frame canned) false false) /\
  exists opts, options_valid opts /\ 5 = Timeout opts /\
    sample_files !! ActiveChecksFile opts = Some canned.
Proof.
  apply (client_answered (F:=zbxd) (J:=sample_json) (L:=sample_log) [] (Parsed []) sample_files
           5 sample_world world_run.1 world_run.2 world_net 0%nat 7%nat canned 5
           active_request []);
    [by apply (bool_decide_unpack _)|apply world_run_wrun|by vm_compute..].
Defined.

(** In the sample run both connections were served, so each endpoint
    lies between its start and [respond] of it; here the goroutines have
    finished and it is [respond] of it. *)
Lemma server_bounds_network_witness :
  exists ep, net_conns world_net !! 8%nat = Some ep /\
    ep_le (ep_fresh (zbx_frame ping_request)) ep /\
    ((forall i ac d, spawned (thread_trace None world_run.1) !! i <> Some (8%nat, ac, d)) ->
       ep = ep_fresh (zbx_frame ping_request)) /\
    (forall i ac d, spawned (thread_trace None world_run.1) !! i = Some (8%nat, ac, d) ->
       ep_le ep (respond ac d (ep_fresh (zbx_frame ping_request)))).
Proof.
  apply (server_bounds_network (F:=zbxd) (J:=sample_json) (L:=sample_log) [] sample_oracle 5
           sample_world world_run.1 world_run.2 world_net);
    [by apply (bool_decide_unpack _)|apply world_run_wrun|by vm_compute].
Defined.

End Sample.
