(* ===== verification/Stack.v ===== *)
(** * Stack: the program on its packages

    The model of the source is parametrised by its packages: the
    transport ([Wire.Framing]), the decoder ([Json.JsonPkg]), the answers
    of the environment ([Effects.oracle]).  This file puts the models of
    the packages in their places: the Zabbix header ([Wire.zbxd]),
    encoding/json ([Decode.go_json]), the command line ([Flags]), the
    configuration file ([Conf]), and states what the server then does in
    terms of the bytes a client sends and the arguments the process was
    started with.

    [recognised] reads the condition of lines 57-64 on the text of the
    request; [exchange] is the handler on one connection of the wire;
    [machine] a host given by its command line and its files. *)

From Stdlib Require Import ZArith Lia.
From Stdlib.Strings Require Import Byte.
From S2P Require Import Prelude Options Json Effects Handler Bootstrap Server Pool.
From S2P Require Import Wire Service Conf Flags JsonText Decode World.

#[local] Open Scope Z_scope.

(** Whether a text is a request the server answers (lines 57-64, with
    encoding/json as the decoder): it is an object, the decoder can
    convert its members, and the last member named request is the string
    "active checks". *)
Definition recognised (js : bytes) : bool :=
  match parse js with
  | Ok (JObject l) =>
      match member "request" l, to_iface (JObject l) with
      | Some (JString s), Some _ => bool_decide (s = "active checks"%string)
      | _, _ => false
      end
  | _ => false
  end.

(** The handler on a connection on which the client sent [sent]. *)
Definition exchange (ac : bytes) (tFlag : Z) (sent : bytes) : endpoint :=
  respond (F:=zbxd) (J:=go_json) ac tFlag (ep_fresh sent).

(** A machine given by the arguments of the process and its files. *)
Definition machine (help_status : Z) (argv : list string) (files : gmap string bytes) : host :=
  disk_host (parse_args help_status argv) files.

(** ** Lemmas *)

Section Recognised.
Implicit Types (js text pre post rest ac : bytes) (l : list (string * json)).

Lemma is_active_checks_go js : is_active_checks (J:=go_json) js = recognised js.
Proof.
  unfold is_active_checks, recognised. cbn [unmarshal go_json]. unfold unmarshal_pairs.
  destruct (parse js) as [[| | | | |l]|e]; try done.
  destruct (to_iface (JObject l)) as [v|] eqn:E; [|by destruct (member _ l) as [[]|]].
  destruct (to_iface_object_is_map l) as [m Hm]; [by eexists|]. rewrite E in Hm. simplify_eq.
  unfold index. rewrite (to_iface_object _ _ "request" E).
  destruct (member "request" l) as [j|]; [|done]. simpl.
  destruct (to_iface j) as [v|] eqn:Ej.
  - destruct j; simpl in *; simplify_option_eq; done.
  - by destruct j.
Qed.

End Recognised.

Section Exchange.
Implicit Types (js text pre post rest ac : bytes) (l : list (string * json)) (tFlag : Z).

Lemma recognised_object l pre post :
  json_wf (JObject l) = true -> is_Some (to_iface (JObject l)) ->
  forallb is_space pre = true -> forallb is_space post = true ->
  recognised (pre ++ print (JObject l) ++ post)
    = if member "request" l is Some (JString s) then bool_decide (s = "active checks"%string)
      else false.
Proof.
  intros Hwf [v Hv] Hpre Hpost. unfold recognised.
  rewrite parse_print_blanks, Hv by done. by destruct (member _ l) as [[]|].
Qed.

Lemma exchange_respond ac tFlag text rest :
  0 < seconds tFlag -> fits (F:=zbxd) text -> fits (F:=zbxd) ac ->
  exchange ac tFlag (zbx_frame text ++ rest) =
    mkEndpoint rest (if recognised text then zbx_frame ac else []) false false.
Proof.
  intros Hd Htext Hac. unfold exchange, ep_fresh. rewrite <- is_active_checks_go.
  destruct (is_active_checks text) eqn:E.
  - by apply (respond_answers (F:=zbxd) ac tFlag text rest []).
  - by apply (respond_refuses (F:=zbxd) ac tFlag text rest []).
Qed.

(** ** Theorems *)

(** The requests the server answers, read off the text: with
    encoding/json as the decoder, the condition of the handler holds of a
    payload exactly when the payload is an object whose members the
    decoder can convert and whose last member named request is the string
    "active checks". *)
Theorem is_active_checks_recognised js :
  is_active_checks (J:=go_json) js = true <->
  exists l, parse js = Ok (JObject l) /\ is_Some (to_iface (JObject l)) /\
    member "request" l = Some (JString "active checks").
Proof.
  rewrite is_active_checks_go. unfold recognised. split.
  - destruct (parse js) as [[| | | | |l]|e]; try done.
    destruct (member _ l) as [[]|] eqn:Hm; try done.
    destruct (to_iface (JObject l)) eqn:E; [|done].
    intros ->%bool_decide_eq_true. exists l. eauto.
  - intros (l & -> & [v Hv] & ->). by rewrite Hv, bool_decide_eq_true_2.
Qed.

(** One exchange over the Zabbix header, with encoding/json as the
    decoder: when the client sent a whole frame and the deadline is in
    the future, the handler takes the frame off the inbox, closes the
    connection, and has sent the frame of the canned response when the
    payload is a recognised request, and nothing otherwise. *)
Theorem exchange_frame ac tFlag text rest :
  0 < seconds tFlag -> fits (F:=zbxd) text -> fits (F:=zbxd) ac ->
  exchange ac tFlag (zbx_frame text ++ rest) =
    mkEndpoint rest (if recognised text then zbx_frame ac else []) false false.
Proof. apply exchange_respond. Qed.

(** C18: The requests the handler answers, read off the text.  With
    encoding/json as the decoder the condition of lines 57-64 is
    [recognised].  The request of the specification is recognised, and
    it is not the only one: of the texts [{"request":"<name>"}], for a
    name of plain characters (no quote, backslash or control character),
    exactly the one that names the active checks is; and every object
    whose last member named request is that string is, whatever its
    other members and the blanks around it. *)
Theorem recognised_requests :
  (forall js, is_active_checks (J:=go_json) js = recognised js) /\
  (forall name : string, plain name = true ->
     recognised (bytes_of_string (request_text name))
       = bool_decide (name = "active checks"%string)) /\
  (forall l pre post,
     json_wf (JObject l) = true -> is_Some (to_iface (JObject l)) ->
     forallb is_space pre = true -> forallb is_space post = true ->
     member "request" l = Some (JString "active checks") ->
     recognised (pre ++ print (JObject l) ++ post) = true).
Proof.
  split_and!.
  - apply is_active_checks_go.
  - intros name Hp. rewrite (request_text_print name Hp).
    pose proof (recognised_object [("request"%string, JString name)] [] []) as H.
    rewrite app_nil_r in H. apply H; by eauto.
  - intros l pre post Hwf Hv Hpre Hpost Hm. by rewrite recognised_object, Hm.
Qed.

End Exchange.

Section EndToEnd.
Context {L : LogPkg} (busy : list string) (help_status : Z).
Implicit Types (argv : list string) (files : gmap string bytes) (text rest ac : bytes).

(** C4: From the command line to the response.  On a machine started with
    the arguments [argv], in every run of the server over the Zabbix
    header with encoding/json as the decoder, and whatever the schedule:
    when the handler of a client that sent a whole frame has finished,
    the arguments were accepted by [flag.Parse], the file they name as
    the configuration was loaded twice and is valid, the handler ran
    with its Timeout, and the client has been sent the contents of its
    ActiveChecksFile in one frame when the payload is a recognised
    request, and nothing otherwise; the connection is closed. *)
Theorem command_line_to_response argv files fuel w0 g s w i c ac d text rest :
  NoDup (oks (net_backlog w0)) ->
  wrun (J:=go_json) (wire_env (F:=zbxd) busy (host_oracle (machine help_status argv files)))
    (init fuel) w0 g s w ->
  spawned (thread_trace None g) !! i = Some (c, ac, d) ->
  sys_pool s !! i = Some (Ret tt) ->
  net_conns w0 !! c = Some (ep_fresh (zbx_frame text ++ rest)) ->
  fits (F:=zbxd) text -> fits (F:=zbxd) ac ->
  exists vals conf o1 opts,
    parse_args help_status argv = Parsed vals /\
    files !! confFlag_of vals = Some conf /\
    conf_load (string_of_bytes conf) options = Ok o1 /\
    conf_load (string_of_bytes conf) o1 = Ok opts /\
    options_valid opts /\ d = Timeout opts /\
    files !! ActiveChecksFile opts = Some ac /\
    net_conns w !! c =
      Some (mkEndpoint rest (if recognised text then zbx_frame ac else []) false false).
Proof.
  intros Hnd Hr Hs Hp Hc Htext Hac.
  destruct (spawned_serving fuel _ _ _ _ _ _ (reach_main _ _ _ (wrun_reach _ _ _ _ _ _ Hr)) Hs)
    as (vals & o1 & o2 & Hflag & Hconf1 & Hconf2 & Hfile & ->).
  pose proof (wrun_answered busy _ _ _ _ _ _ Hr) as Ha. rewrite Forall_forall in Ha.
  apply elem_of_thread_trace, Ha in Hflag, Hconf1, Hconf2, Hfile.
  simpl in Hflag, Hconf1, Hconf2, Hfile. symmetry in Hflag, Hconf1, Hconf2.
  destruct (files !! confFlag_of vals) as [conf|] eqn:Hf; [|done].
  destruct (files !! ActiveChecksFile o2) as [b|] eqn:Hb; [|done]. simplify_eq.
  exists vals, conf, o1, o2.
  assert (options_valid o2) as Hv by (by eapply conf_load_Ok_valid).
  split_and!; [done..|].
  destruct (wrun_finished busy _ _ _ _ _ _ _ _ _ _ Hnd Hr Hs) as (p & Hp' & _ & H2).
  rewrite Hp' in Hp. simplify_eq. rewrite H2, Hc by done. simpl. f_equal.
  apply exchange_respond; [by apply seconds_valid_pos|done..].
Qed.

End EndToEnd.

(** ** The log type is never checked *)

Section LogType.
Context {L : LogPkg}.
Implicit Types (argv : list string) (files : gmap string bytes) (text ac : bytes).

(** From the file to the logger: on a machine whose configuration file
    ends with a line that sets LogType to a text other than console and
    file, and is otherwise accepted, both loads succeed, the logger is
    opened with type 0, and the server listens and enters the loop.
    Neither the loader ([Conf.conf_load]) nor main
    ([Bootstrap.log_type_unchecked]) objects. *)
Theorem unchecked_log_type_serves help argv files vals text kvs v o ac :
  parse_args help argv = Parsed vals ->
  files !! confFlag_of vals = Some text ->
  parse_conf (string_of_bytes text) = Ok (kvs ++ [("LogType"%string, v)]) ->
  unmarshal_conf kvs options = Ok o ->
  files !! ActiveChecksFile o = Some ac ->
  v <> "console"%string -> v <> "file"%string ->
  let o' := mkOptions v (LogFile o) (DebugLevel o) (Port o) (Timeout o) (ActiveChecksFile o) in
  (startup_run (machine help argv files)).2 = inr (mkServing ac o') /\
  LLogOpen 0 (logLevel_of o) (LogFile o) None ∈ (startup_run (machine help argv files)).1.
Proof.
  intros Ha Hf Hp Hu Hac H1 H2 o'.
  assert (conf_load (string_of_bytes text) options = Ok o') as Hl.
  { unfold conf_load. rewrite Hp. by apply unmarshal_conf_any_LogType. }
  assert ((startup_run (machine help argv files)).2 = inr (mkServing ac o')) as Hr.
  { apply startup_run_result. exists vals, o'. unfold machine. cbn. rewrite Hf, Hac.
    split_and!; try done. by apply conf_load_idempotent in Hl. }
  split; [done|].
  pose proof (startup_run_traces (machine help argv files)) as Ht.
  rewrite Hr in Ht. apply startup_paths, started_serving_inv in Ht as (vals' & o1 & ->).
  unfold greeted. cbn [srv_options]. rewrite (logType_of_other o') by done.
  apply elem_of_app. right. by left.
Qed.

End LogType.

(** ** Witnesses and examples *)

(** A request with a member more, blanks, and the name written with an
    escape. *)
Definition verbose_request : bytes :=
  bytes_of_string
    (" { " +:+ dq +:+ "host" +:+ dq +:+ " : " +:+ dq +:+ "h1" +:+ dq +:+ ", "
     +:+ dq +:+ "request" +:+ dq +:+ " : " +:+ dq +:+ "active checks" +:+ dq +:+ " } ").

(** A machine started with [--config=/etc/zabbix/mock.conf]; two clients
    have connected, and the listener fails at the third Accept. *)
Definition stack_argv : list string := ["--config=/etc/zabbix/mock.conf"]%string.

Definition stack_files : gmap string bytes :=
  {[ "/etc/zabbix/mock.conf"%string := bytes_of_string sample_conf;
     "active_checks.json"%string := canned ]}.

Definition stack_oracle : oracle := host_oracle (machine 0 stack_argv stack_files).

Definition stack_world : net :=
  mkNet None [Ok 7%nat; Ok 8%nat; Fail "too many open files"]
    {[ 7%nat := ep_fresh (zbx_frame verbose_request);
       8%nat := ep_fresh (zbx_frame (bytes_of_string "[1,2]") ++ zbx_frame active_request) ]}.

Definition stack_run : list gevent * system :=
  exec (J:=go_json) (wire_env (F:=zbxd) [] stack_oracle)
    sample_schedule (init (L:=sample_log) 5) stack_world.

Definition stack_net : net :=
  exec_net (J:=go_json) (wire_env (F:=zbxd) [] stack_oracle)
    sample_schedule (init (L:=sample_log) 5) stack_world.

Lemma stack_run_wrun :
  wrun (J:=go_json) (wire_env (F:=zbxd) [] stack_oracle)
    (init (L:=sample_log) 5) stack_world stack_run.1 stack_run.2 stack_net.
Proof. apply exec_wrun. Qed.

Lemma is_active_checks_recognised_witness :
  exists l, parse verbose_request = Ok (JObject l) /\ is_Some (to_iface (JObject l)) /\
    member "request" l = Some (JString "active checks").
Proof. by apply (is_active_checks_recognised verbose_request). Defined.

Lemma exchange_frame_witness :
  exchange canned 5 (zbx_frame verbose_request ++ zbx_frame ping_request) =
    mkEndpoint (zbx_frame ping_request) (zbx_frame canned) false false.
Proof.
  apply (exchange_frame canned 5 verbose_request (zbx_frame ping_request)); by vm_compute.
Defined.

Lemma recognised_requests_witness :
  is_active_checks (J:=go_json) active_request = recognised active_request /\
  recognised (bytes_of_string (request_text "ping")) = false /\
  recognised (bytes_of_string nl ++
              print (JObject [("request", JString "ping"); ("request", JString "active checks")]%string)
              ++ bytes_of_string nl) = true.
Proof.
  split_and!.
  - apply (proj1 recognised_requests).
  - by apply (proj1 (proj2 recognised_requests) "ping"%string).
  - apply (proj2 (proj2 recognised_requests)); by eauto.
Defined.

Lemma command_line_to_response_witness :
  exists vals conf o1 opts,
    parse_args 0 stack_argv = Parsed vals /\
    stack_files !! confFlag_of vals = Some conf /\
    conf_load (string_of_bytes conf) options = Ok o1 /\
    conf_load (string_of_bytes conf) o1 = Ok opts /\
    options_valid opts /\ 5 = Timeout opts /\
    stack_files !! ActiveChecksFile opts = Some canned /\
    net_conns stack_net !! 8%nat =
      Some (mkEndpoint (zbx_frame active_request)
              (if recognised (bytes_of_string "[1,2]") then zbx_frame canned else [])
              false false).
Proof.
  apply (command_line_to_response (L:=sample_log) [] 0 stack_argv stack_files 5 stack_world
           stack_run.1 stack_run.2 stack_net 1%nat 8%nat canned 5
           (bytes_of_string "[1,2]") (zbx_frame active_request));
    [by apply (bool_decide_unpack _)|apply stack_run_wrun|by vm_compute..].
Defined.

(** A configuration file that asks for the log type syslog. *)
Definition syslog_files : gmap string bytes :=
  {[ "/etc/zabbix/mock.conf"%string := bytes_of_string (sample_conf +:+ "LogType=syslog");
     "active_checks.json"%string := canned ]}.

Lemma unchecked_log_type_serves_witness :
  (startup_run (L:=sample_log) (machine 0 stack_argv syslog_files)).2 =
    inr (mkServing canned
           (mkOptions "syslog" "/tmp/mock_server.log" 4 10051 5 "active_checks.json")) /\
  LLogOpen 0 4 "/tmp/mock_server.log" None
    ∈ (startup_run (L:=sample_log) (machine 0 stack_argv syslog_files)).1.
Proof.
  by apply (unchecked_log_type_serves (L:=sample_log) 0 stack_argv syslog_files
              [("confFlag", FString "/etc/zabbix/mock.conf")]
              (bytes_of_string (sample_conf +:+ "LogType=syslog"))
              [("LogType", "file"); ("LogFile", "/tmp/mock_server.log"); ("DebugLevel", "4");
               ("ActiveChecksFile", "active_checks.json")]%string
              "syslog"
              (mkOptions "file" "/tmp/mock_server.log" 4 10051 5 "active_checks.json") canned).
Defined.

(** The run of the sample machine: the first client, whose request has
    a member more and blanks, is sent the framed response; the second
    sent an array and then the request: the array is refused and the
    request, in a second frame, is never read. *)
Example stack_net_final :
  stack_net =
    mkNet None []
      {[ 7%nat := mkEndpoint [] (zbx_frame canned) false false;
         8%nat := mkEndpoint (zbx_frame active_request) [] false false ]}.
Proof. by vm_compute. Qed.

(** Texts the server answers and texts it does not: the name of the
    request is compared with its escapes resolved and is case sensitive,
    the last of two members named request decides, [null] is decoded and
    then refused, a number beyond float64 makes the whole request an
    error. *)
Example recognised_texts :
  recognised <$> (bytes_of_string <$>
    [ request_text "active checks";
      request_text "active\u0020checks";
      request_text "Active checks";
      "{" +:+ dq +:+ "request" +:+ dq +:+ ":" +:+ dq +:+ "active checks" +:+ dq +:+ ","
          +:+ dq +:+ "request" +:+ dq +:+ ":1}";
      "{" +:+ dq +:+ "request" +:+ dq +:+ ":" +:+ dq +:+ "active checks" +:+ dq +:+ ","
          +:+ dq +:+ "n" +:+ dq +:+ ":1e400}";
      "null"; "[1,2]"; "not-json" ]%string)
  = [true; true; false; false; false; false; false; false].
Proof. by vm_compute. Qed.
